(* ===== verification/_CoqProject ===== *)
-Q . S2P
Prelude.v
RustBytes.v
IpAddr.v
Base64.v
Udpgw.v
NodeSession.v
NodeHandlers.v
Cache.v
Quota.v
Scripts.v
Mux.v
MuxState.v
TunnelLoop.v
Session.v
EndToEnd.v
Http.v
Ranges.v
Calendar.v
Routing.v
Socks.v
UdpRelay.v
ProxyHttp.v
ProxyHeads.v
RelayWire.v
RelayJson.v
RelayUrl.v
Relay.v
Coalesce.v
TunnelRelay.v
Pool.v
H2.v
Config.v
Startup.v
HostSystem.v
RustText.v
ScanIps.v
ScanSni.v
Update.v
UserJs.v
CertInstall.v
Mitm.v
Main.v
NodeWait.v
NodeMain.v
MitmConn.v
Server.v
UiForm.v
Ui.v
UiPanel.v
TrustStore.v
Diagnostics.v
H1Open.v
ConformanceRelay.v
ConformanceProxy.v
ConformanceTunnel.v
ConformanceHost.v
