(* ===== verification/Prelude.v ===== *)
(** * GVPN: a verification development of the relay and its tunnel node

    GVPN tunnels client traffic through Google Apps Script.  A client process
    accepts HTTP and SOCKS5 connections; in relay mode it turns requests into
    Apps Script calls ([src/domain_fronter.rs]), in full mode it multiplexes
    TCP and UDP sessions into batches ([src/tunnel_client.rs]) that Apps Script
    forwards to a tunnel node ([tunnel-node/src/main.rs]), which owns the real
    sockets.  This development models the parts that carry the program's own
    logic, as executable definitions, and proves what makes them correct.

    ** Files and the code they model

    - [Prelude]: results, machine integers, list and sorting lemmas, tactics
      ([bool_to_prop], [case_if], [zlia]) and hint databases.
    - [RustBytes]: the parts of Rust's strings and slices the program uses.
    - [Base64]: the [base64] crate as a class with its documented laws, and an
      RFC 4648 instance that satisfies them.
    - [Udpgw] (tunnel-node/src/udpgw.rs): frame codec, socket table, server
      loop.
    - [NodeSession] (tunnel-node/src/main.rs): the shared state of a session,
      its reader task, the drains and the sequence-ordered upload; the module
      [Pump] is the interleaving of reader and drains, one atomic operation or
      critical section per step.
    - [NodeHandlers] (tunnel-node/src/main.rs): the requests, the batch handler
      with its two phases, the decoy and the idle reaper, over a heap of shared
      sessions.
    - [Cache] (src/cache.rs): the response cache.
    - [Quota] (src/quota_tracker.rs): the accounts' buckets.
    - [Scripts] (src/domain_fronter.rs): choice and blacklisting of
      deployments; it sees the quota tracker through the class [QuotaView].
    - [Mux] (src/tunnel_client.rs): coalescing, batch packing, dispatch; the
      modules [Net], [NetFacts] and [NetTheorems] hold the mux task and its
      batch tasks as a step relation, with its invariants.
    - [MuxState] (src/tunnel_client.rs): coalescing presets, long-poll
      detection, negative cache.
    - [TunnelLoop] (src/tunnel_client.rs, [tunnel_loop]): the per-session loop.
      One [Event] per completed await; [step] is one turn of the loop.
    - [Session] (src/tunnel_client.rs, [tunnel_connection]): one connection
      from its first bytes to its close.
    - [EndToEnd]: the composition of the client's loop and the node's
      sequenced upload.
    - [Http], [Ranges] (src/domain_fronter.rs): responses, and range-parallel
      downloads over an arbitrary [relay] function.
    - [Calendar] (src/domain_fronter.rs): Pacific-time day boundaries.
    - [IpAddr]: Rust's textual IP addresses.
    - [Routing] (src/proxy_server.rs): host matching and the choice of a path
      for a connection; the negative cache is [MuxState]'s.
    - [Socks], [UdpRelay] (src/proxy_server.rs): the SOCKS5 handshake from both
      sides, its datagrams, and UDP associations as an interleaving of the
      dispatch loop and the per-target tasks.
    - [ProxyHttp], [ProxyHeads] (src/proxy_server.rs): reading requests, the
      MITM, plain and direct handlers, and what their rewritten heads parse to.
    - [RelayWire], [RelayJson], [RelayUrl] (src/domain_fronter.rs): the edge's
      HTTP responses, the JSON envelopes, and the relay's pure helpers.  The
      monad [run] has Rust's errors, panics and exhausted fuel apart.
    - [Relay] (src/domain_fronter.rs, [relay] and what it calls): exit node,
      cache, fan-out, retry, one attempt over either transport, quota and
      blacklist bookkeeping.
    - [Coalesce] (src/domain_fronter.rs, [relay]): identical requests in flight
      as a step relation over the critical sections.
    - [TunnelRelay] (src/domain_fronter.rs): the tunnel's requests and the
      reading of their responses, composed with the node's encoder.
    - [Pool], [H2] (src/domain_fronter.rs): the connection pool with its
      users, warm-up and refill as an interleaving, and the HTTP/2 cell with
      its generations, back-off and poisoning.
    - [Config] (src/config.rs): the settings, the derived readers and writers
      on document values, validation and the migration of the old shape.
    - [Startup] (src/domain_fronter.rs, src/proxy_server.rs): [new] of the
      fronter and of the server from the settings, statistics, keep-alive.
    - [HostSystem], [RustText]: files, processes and the environment as the
      program sees them, in the monad [M]; characters and lines of text.
    - [ScanIps], [ScanSni] (src/scan_ips.rs, src/scan_sni.rs): address
      arithmetic, candidates, probes judged from network events, scans.
    - [Update] (src/update_check.rs): versions, asset choice, HTTPS requests
      with CONNECT and redirects, check and download.
    - [UserJs], [CertInstall] (src/cert_installer.rs): the blocks written into
      Firefox profiles; installing, removing and checking the CA on the three
      systems.
    - [Mitm] (src/mitm.rs): the CA, leaf certificates and their cache.
    - [Main] (src/main.rs, src/data_dir.rs, src/lan_utils.rs, src/rlimit.rs,
      src/test_cmd.rs): the command line and [main] as the composition.
    - [NodeWait], [NodeMain] (tunnel-node/src/main.rs): the waits of a batch
      with their watchers, over tokio's [Notify] as a class with its documented
      laws; settings and routes of the node.
    - [MitmConn] (src/proxy_server.rs): intercepted connections, [Mitm]'s cache
      composed with [ProxyHttp]'s loop.
    - [Server] (src/proxy_server.rs [run], src/tunnel_client.rs [start]): the
      running server, its tasks, clients and shutdown as a step relation.
    - [UiForm], [Ui] (src/bin/ui.rs): the form with its round trip through the
      files; the state shared by window, background thread and tasks, every
      thread a program over the state's mutex.
    - [UiPanel] (src/bin/ui.rs): what the window shows of that state, as cells
      with their colours; numbers with a fraction are IEEE doubles rounded to
      the nearest decimal.
    - [TrustStore] (src/data_dir.rs, src/update_check.rs): the paths of the CA
      and the root store of the update check.
    - [Diagnostics] (src/logging.rs, src/tunnel_client.rs,
      src/domain_fronter.rs, src/rlimit.rs): time stamps, the debug overlay,
      the pre-read summary, failure lines and the limit report.
    - [H1Open] (src/domain_fronter.rs, [open]): one connection for the pool.
    - [ConformanceRelay], [ConformanceProxy], [ConformanceTunnel],
      [ConformanceHost]: the repository's own unit tests, evaluated on the
      definitions of the other files.

    ** What the theorems show

    - Streams.  Bytes arrive once and in order: uploads are numbered by the
      client loop without gaps ([loop_uploads_complete]), reassembled by the
      node in any arrival order ([upload_reassembly]); the node's buffer hands
      out what the socket delivered in every interleaving
      ([pump_stream_integrity], [pump_bounded], [pump_no_lost_wakeup]) and the
      client loop writes the replies in order ([loop_downloads_in_order]).
      udpgw frames survive any cutting of the byte stream
      ([udpgw_stream_reassembly], [udpgw_frame_roundtrip]).
    - Batches.  The multiplexer loses nothing and stays within its caps
      ([mux_dispatch_delivers], [mux_batch_limits]), runs thirty batches per
      deployment and cannot deadlock ([mux_concurrency_bounded],
      [mux_can_answer_all]); the node answers each op in its place
      ([batch_response_aligned], [batch_drain_within_budget]); together, each
      session receives its own response ([mux_replies_match_ops]).
    - Connections.  One close per session and no byte lost or repeated around
      the connect ([session_bytes_and_close]); bounded pipelines
      ([loop_pipeline_bounded]); requests without the key change nothing, and
      a wrong key is answered by a decoy, malformed batches by a JSON error
      ([unauthenticated_inert]).
    - Resources.  The cache refines an unbounded one and stays within its size
      ([cache_hit_sound], [cache_bounded]); accounts keep their reserve,
      or the whole limit where the buffer exceeds it ([quota_reserve_kept]);
      dispatch avoids unhealthy deployments ([next_script_id_choice],
      [next_script_ids_fanout]).
    - Downloads.  A range download is the file, and success never hides a
      truncation ([range_download_complete], [range_success_not_truncated]).
    - Front end.  A connection never takes a path its configuration excludes
      ([dispatch_confined]); the SOCKS5 sides understand each other
      ([socks_connect_handshake], [socks5_udp_packet_roundtrip]); UDP
      associations stay bounded and answer only their client
      ([udp_associate_bounded], [udp_associate_confined]); requests are read
      the same however they are cut and the keep-alive loop ends
      ([chunked_body_decoded], [read_http_head_segmentation],
      [keepalive_terminates]); rewritten heads say what they should
      ([passthrough_request_faithful], [cors_headers_replaced]).
    - Relay.  Responses of the edge are read the same however they are cut
      ([relay_response_read]), rebuilt from their envelopes when the fields
      are well-formed ([relay_json_rebuilt]) and delivered to the tunnel, over
      redirects ([batch_responses_delivered]); of a request's headers those that
      frame it or reveal the client are left out, [Accept-Encoding] keeps what
      can be decoded and the others pass ([payload_headers]); every dispatch is
      charged to its account ([dispatches_charged]); a request whose first
      attempt failed over HTTP/2 once handed over is not repeated
      ([h2_failure_not_replayed]); shared requests are answered alike
      ([coalesced_share_answer]).
    - Processes.  Settings that load build a server ([start_outcomes]) that
      hands out configured deployments and allowed edge names only, whatever
      happens to it ([validated_config_starts]), and are
      migrated without loss but for the quota ([migration_keeps_all_but_quota]);
      what the form saves is what it shows next time
      ([form_saved_and_reloaded]); removing the CA deletes its files only when
      no name in the trust directories is ours any more ([removal_safe]) and gives user.js back
      ([user_js_restored]); the two certificate operations exclude each other
      in every interleaving ([cert_ops_exclusive]); the shutdown signal stops
      every task with a handle, and the server can come to rest
      ([shutdown_stops_server]); a batch that waits alone on a session is woken
      within seven steps of its own, whatever the reader does
      ([sole_waiter_woken]); a certificate is for the host
      whose requests it serves ([mitm_host_consistent]); an update check routed
      through the proxy trusts its CA ([proxied_check_trusts_ca]).
    - Display.  The usage panel always has the accounts of the poll its
      counters come from ([usage_panel_has_quota]) and never a count that
      wrapped ([healthy_accounts_exact]), the table of sites shows the busiest
      ([site_table_busiest]); coloured and plain time stamps read alike
      ([coloured_stamp_reads_plain]), summaries come once per hundred events
      ([preread_log_every_hundred]), SNI names go round without a gap
      ([names_round_robin]).
    - Composition.  What a client writes into a tunnelled connection is what
      the node writes to the destination, across loop, batches and reordering
      ([upload_end_to_end]).
    - Defects.  Several theorems state what the code does where it does not do
      what it means to: [reply_timeout_stalls], [batch_budget_misaligns],
      [upload_first_arrival_drops_lower], [udpgw_corrupt_stream_unbounded],
      [data_single_write_error_orphans_reader], [range_resume_to_end],
      [udp_stale_cleanup], [pipelined_request_dropped],
      [h1_failure_replayed], [dead_leader_blocks_key],
      [download_freezes_window], [duplicate_cert_op_freezes],
      [start_races_removal], [second_waiter_sleeps_on_data],
      [accept_death_leaks], [save_widens_rotation], [mux_outlives_stop],
      [buffer_above_limit], [hop_by_hop_forwarded], [header_value_splits].

    ** Inputs, bounds and fuel

    What the operating system, the network, the clock, random numbers and the
    other tasks contribute is an argument: outcomes of connects, reads and
    writes, fresh session ids, times, completion orders, the bytes that arrive
    while a drain runs.  The theorems quantify over all of them.  Integers are
    [Z] with Rust's wrap-around or saturation written out; [usize] is 64 bits.
    Hypotheses such as "fewer than 2^64 events" exclude the wrap of counters
    that a process cannot reach; slice lengths are at most [isize::MAX], as
    Rust guarantees.  Fuel appears where a loop is not structural and is
    always shown or evidently enough: [parse_loop] and [plan_steps] consume a
    byte per turn and get the number of bytes left, [evict_soonest] removes an
    entry per turn and gets the size, the polling and drain loops run over the
    list of observations their deadline allows, the readers of [ProxyHttp] and
    [RelayWire] get the bytes and reads that are left ([keepalive_terminates],
    [read_http_response_total]).  A byte stream is the list of what its reads
    find; writes to clients succeed.  [HashMap] iteration order is
    the canonical order of the map, which decides only between equal keys.

    ** Not modelled

    Sockets, TLS handshakes and the verifiers that accept every certificate;
    JSON, TOML, gzip and zstd texts (the classes [WireFormats],
    [RelayFormats], [BatchEncoder] and [ConfigFormats]), X.509 ([Pki]); the
    debug and trace lines of the log; the drawing of the window, its layout
    and its fixed captions, which are egui's; panics inside called code, apart
    from those a theorem names; the Apps Script and worker side and the OpenWrt
    packaging, which are not Rust. *)

From stdpp Require Export base tactics decidable numbers list gmap sets sorting.
From Stdlib Require Export ZArith Lia.

#[global] Open Scope Z_scope.

(** ** Results

    Rust's [Result<T, E>]; the constructors keep Rust's names. *)

Inductive result (T E : Type) : Type :=
  | Ok (t : T)
  | Err (e : E).
Arguments Ok {T E} _.
Arguments Err {T E} _.

(** Bind for [Option] and [Result]: the source's [?] operator. *)
Declare Scope gvpn_scope.
Delimit Scope gvpn_scope with gvpn.
#[global] Open Scope gvpn_scope.

Notation "'let?' x := e 'in' k" :=
  (match e with Some x => k | None => None end)
  (at level 10, x pattern, e at level 100, k at level 200) : gvpn_scope.

Notation "'let!' x := e 'in' k" :=
  (match e with Ok x => k | Err err => Err err end)
  (at level 10, x pattern, e at level 100, k at level 200) : gvpn_scope.

(** ** Machine integers

    A [w]-bit unsigned integer is a [Z] in [[0, 2^w)].  The release profile
    of both crates has no overflow checks, so plain [+], [-] and [*] wrap;
    [saturating_*] clamp.  [usize] is taken as 64 bits wide. *)

Definition u8_mod : Z := 2 ^ 8.
Definition u16_mod : Z := 2 ^ 16.
Definition u32_mod : Z := 2 ^ 32.
Definition u64_mod : Z := 2 ^ 64.
Definition u32_max : Z := u32_mod - 1.
Definition u64_max : Z := u64_mod - 1.

Definition is_u16 (z : Z) : Prop := 0 ≤ z < u16_mod.
Definition is_u64 (z : Z) : Prop := 0 ≤ z < u64_mod.

Definition wadd64 (a b : Z) : Z := (a + b) mod u64_mod.
Definition wsub64 (a b : Z) : Z := (a - b) mod u64_mod.
Definition wmul64 (a b : Z) : Z := (a * b) mod u64_mod.
Definition sat_add64 (a b : Z) : Z := Z.min (a + b) u64_max.
Definition sat_add32 (a b : Z) : Z := Z.min (a + b) u32_max.
Definition sat_sub (a b : Z) : Z := Z.max 0 (a - b).

(** Rust's [div_ceil] on unsigned integers. *)
Definition div_ceil (a b : Z) : Z := (a + b - 1) / b.

(** Rust's [Vec::len] and slice lengths. *)
Definition len {A} (l : list A) : Z := Z.of_nat (length l).

(** [a[..n]] and [a[n..]] for an in-range [n]. *)
Definition ztake {A} (n : Z) (l : list A) : list A := take (Z.to_nat n) l.
Definition zdrop {A} (n : Z) (l : list A) : list A := drop (Z.to_nat n) l.
#[global] Arguments ztake {A} n l : simpl never.
#[global] Arguments zdrop {A} n l : simpl never.

(** ** Tactics and hint databases

    [gvpn] holds the resolution hints of the components, [len] the length
    equations used by [autorewrite]. *)

Create HintDb gvpn.
Create Rewrite HintDb len.

(** Turn boolean comparisons in the context and goal into propositions. *)
Ltac bool_to_prop :=
  repeat match goal with
  | H : _ ∧ _ |- _ => destruct H
  | H : context [andb _ _ = true] |- _ => rewrite andb_true_iff in H
  | H : context [andb _ _ = false] |- _ => rewrite andb_false_iff in H
  | H : context [orb _ _ = true] |- _ => rewrite orb_true_iff in H
  | H : context [orb _ _ = false] |- _ => rewrite orb_false_iff in H
  | H : negb _ = true |- _ => apply negb_true_iff in H
  | H : negb _ = false |- _ => apply negb_false_iff in H
  | H : (_ <? _) = true |- _ => apply Z.ltb_lt in H
  | H : (_ <? _) = false |- _ => apply Z.ltb_ge in H
  | H : (_ <=? _) = true |- _ => apply Z.leb_le in H
  | H : (_ <=? _) = false |- _ => apply Z.leb_gt in H
  | H : (_ =? _) = true |- _ => apply Z.eqb_eq in H
  | H : (_ =? _) = false |- _ => apply Z.eqb_neq in H
  | H : bool_decide _ = true |- _ => apply bool_decide_eq_true in H
  | H : bool_decide _ = false |- _ => apply bool_decide_eq_false in H
  end.

(** Case on the first boolean test of an [if] in the goal. *)
Ltac case_if :=
  match goal with
  | |- context [if ?b then _ else _] =>
      let E := fresh "E" in destruct b eqn:E; bool_to_prop
  end.

(** Decide the first [if] of the goal by arithmetic. *)
Ltac if_false :=
  match goal with
  | |- context [if ?b then _ else _] =>
      replace b with false
        by (symmetry; first [apply Z.ltb_ge | apply Z.leb_gt | apply Z.eqb_neq]; lia)
  end.
Ltac if_true :=
  match goal with
  | |- context [if ?b then _ else _] =>
      replace b with true
        by (symmetry; first [apply Z.ltb_lt | apply Z.leb_le | apply Z.eqb_eq]; lia)
  end.

(** Unfold the fixed-width constants so that [lia] sees numbers. *)
Ltac unfold_widths :=
  unfold is_u16, is_u64, u32_max, u64_max, u8_mod, u16_mod, u32_mod, u64_mod in *.

(** [lia] with quotients and remainders turned into equations. *)
Ltac divlia := Z.to_euclidean_division_equations; lia.

Ltac zlia := unfold_widths; unfold len in *; lia.

(** ** Lists *)

Section lists.
Context {A : Type}.
Implicit Types l : list A.

Lemma len_nil : len (@nil A) = 0.
Proof. reflexivity. Qed.

Lemma len_cons x l : len (x :: l) = 1 + len l.
Proof. unfold len. cbn [length]. lia. Qed.

Lemma len_app l l' : len (l ++ l') = len l + len l'.
Proof. unfold len. rewrite length_app. lia. Qed.

Lemma len_nonneg l : 0 ≤ len l.
Proof. unfold len. lia. Qed.

Lemma len_zero_nil l : len l = 0 → l = [].
Proof. destruct l; [done|]. rewrite len_cons. pose proof (len_nonneg l). lia. Qed.

Lemma len_pos l : l ≠ [] → 0 < len l.
Proof. destruct l as [|x l]; [done|]. rewrite len_cons. pose proof (len_nonneg l). lia. Qed.

Lemma len_map {B} (f : A → B) l : len (map f l) = len l.
Proof. unfold len. by rewrite length_map. Qed.

Lemma ztake_zdrop n l : ztake n l ++ zdrop n l = l.
Proof. apply take_drop. Qed.

Lemma len_ztake n l : 0 ≤ n ≤ len l → len (ztake n l) = n.
Proof. intros H. unfold len, ztake in *. rewrite length_take. lia. Qed.

Lemma len_zdrop n l : 0 ≤ n ≤ len l → len (zdrop n l) = len l - n.
Proof. intros H. unfold len, zdrop in *. rewrite length_drop. lia. Qed.

Lemma ztake_app_len l l' : ztake (len l) (l ++ l') = l.
Proof. unfold ztake, len. rewrite Nat2Z.id. by rewrite take_app_length. Qed.

Lemma zdrop_app_len l l' : zdrop (len l) (l ++ l') = l'.
Proof. unfold zdrop, len. rewrite Nat2Z.id. by rewrite drop_app_length. Qed.

Lemma ztake_app_eq n l l' : n = len l → ztake n (l ++ l') = l.
Proof. intros ->. apply ztake_app_len. Qed.

Lemma zdrop_app_eq n l l' : n = len l → zdrop n (l ++ l') = l'.
Proof. intros ->. apply zdrop_app_len. Qed.
End lists.

#[export] Hint Rewrite @len_nil @len_cons @len_app @len_map : len.

(** ** Stable sort by an integer key ([slice::sort_by_key]) *)

Section sort_by_key.
Context {A : Type} (key : A → Z).

Fixpoint insert_by_key (x : A) (l : list A) : list A :=
  match l with
  | [] => [x]
  | y :: l' => if key x <=? key y then x :: l else y :: insert_by_key x l'
  end.

Fixpoint sort_by_key (l : list A) : list A :=
  match l with
  | [] => []
  | x :: l' => insert_by_key x (sort_by_key l')
  end.

Lemma insert_by_key_perm x l : insert_by_key x l ≡ₚ x :: l.
Proof.
  induction l as [|y l IH]; simpl; [done|].
  case_if; [done|]. rewrite IH. constructor.
Qed.

Lemma sort_by_key_perm l : sort_by_key l ≡ₚ l.
Proof.
  induction l as [|x l IH]; simpl; [done|].
  by rewrite insert_by_key_perm, IH.
Qed.

Definition key_le (x y : A) : Prop := key x ≤ key y.

Lemma insert_by_key_sorted x l :
  Sorted key_le l → Sorted key_le (insert_by_key x l).
Proof.
  induction 1 as [|y l Hl IH Hhd]; simpl; [repeat constructor|].
  case_if; [repeat constructor; done|].
  constructor; [done|].
  inversion Hhd; subst; simpl; [constructor; red; lia|].
  case_if; constructor; red; try lia. done.
Qed.

Lemma sort_by_key_sorted l : Sorted key_le (sort_by_key l).
Proof.
  induction l as [|x l IH]; simpl; [constructor|].
  by apply insert_by_key_sorted.
Qed.
End sort_by_key.

(** A list already sorted by strictly increasing keys is the unique sorted
    permutation: two lists sorted by an injective key and permutations of
    each other are equal. *)
Lemma sorted_by_key_unique {A} (key : A → Z) (l l' : list A) :
  NoDup (key <$> l) → l ≡ₚ l' →
  Sorted (key_le key) l → Sorted (key_le key) l' → l = l'.
Proof.
  intros Hnd Hp Hs Hs'.
  assert (Htr : Transitive (key_le key)) by (intros ???; unfold key_le; lia).
  apply (Sorted_unique_strong (key_le key)); try done.
  intros x y Hx Hy Hxy Hyx. unfold key_le in *.
  assert (Hk : key x = key y) by lia.
  rewrite <-Hp in Hy.
  apply elem_of_Permutation in Hx as [k Hk'].
  rewrite Hk' in Hnd, Hy. rewrite fmap_cons in Hnd.
  apply NoDup_cons in Hnd as [Hni _].
  apply elem_of_cons in Hy as [->|Hy]; [done|].
  destruct Hni. rewrite Hk. by apply list_elem_of_fmap_2.
Qed.

Lemma Sorted_seq i n : Sorted le (seq i n).
Proof.
  revert i. induction n as [|n IH]; intros i; simpl; constructor; [done|].
  destruct n; simpl; constructor. lia.
Qed.

(** Sorting indexed results whose indices are [0 .. n-1] puts index [i] at
    position [i]. *)
Lemma sort_by_key_seq {B} (l : list (nat * B)) n :
  map fst l ≡ₚ seq 0 n → map fst (sort_by_key (λ x, Z.of_nat x.1) l) = seq 0 n.
Proof.
  intros Hp. apply (Sorted_unique le); [|apply Sorted_seq|].
  - eapply (Sorted_fmap fst); [|apply sort_by_key_sorted].
    intros x y. unfold key_le. lia.
  - by rewrite sort_by_key_perm.
Qed.
