(* ===== verification/RustBytes.v ===== *)
(** * Rust byte slices and strings

    [Vec<u8>], [&[u8]], [String] and [&str] are all [list byte], a Rust
    string being its UTF-8 bytes.  This file models the parts of Rust's
    standard library the program uses on them: integer/byte conversions,
    ASCII case mapping, searching and splitting, [trim], decimal parsing and
    printing, UTF-8 validation and [String::from_utf8_lossy]. *)

From Stdlib Require Import Strings.String Strings.Byte.
From S2P Require Import Prelude.

Abbreviation byte := Byte.byte.
Abbreviation bytes := (list byte).

Export String.StringSyntax.
#[global] Open Scope string_scope.
#[global] Open Scope list_scope.
#[global] Open Scope Z_scope.

(** A string literal of the source. *)
Definition bs (s : String.string) : bytes := String.list_byte_of_string s.

(** ** Bytes as integers *)

(** [b as u64]. *)
Definition byte_val (b : byte) : Z := Z.of_N (Byte.to_N b).

(** [z as u8]: keeps the low eight bits. *)
Definition byte_of (z : Z) : byte :=
  match Byte.of_N (Z.to_N (z mod u8_mod)) with
  | Some b => b
  | None => x00
  end.

Lemma byte_val_range b : 0 ≤ byte_val b < 256.
Proof. destruct b; vm_compute; split; congruence. Qed.

Lemma byte_val_of z : byte_val (byte_of z) = z mod 256.
Proof.
  unfold byte_val, byte_of. change u8_mod with 256.
  assert (Hr : 0 ≤ z mod 256 < 256) by (apply Z.mod_pos_bound; lia).
  destruct (Byte.of_N (Z.to_N (z mod 256))) as [b|] eqn:E.
  - apply Byte.to_of_N in E. rewrite E. lia.
  - apply Byte.of_N_None_iff in E. lia.
Qed.

Lemma byte_of_val b : byte_of (byte_val b) = b.
Proof. destruct b; reflexivity. Qed.

#[global] Instance byte_val_inj : Inj (=) (=) byte_val.
Proof. intros x y H. rewrite <-(byte_of_val x), <-(byte_of_val y). by rewrite H. Qed.

#[global] Instance byte_eq_dec : EqDecision byte.
Proof.
  intros x y. destruct (decide (byte_val x = byte_val y)) as [H|H].
  - left. by apply (inj byte_val).
  - right. congruence.
Defined.

#[global] Program Instance byte_countable : Countable byte :=
  inj_countable byte_val (λ z, Some (byte_of z)) _.
Next Obligation. intros b. simpl. by rewrite byte_of_val. Qed.

(** [u16::to_be_bytes] and [u16::from_be_bytes]. *)
Definition u16_to_be (n : Z) : bytes := [byte_of (n / 256); byte_of n].
Definition u16_from_be (hi lo : byte) : Z := byte_val hi * 256 + byte_val lo.

Lemma u16_be_roundtrip n :
  is_u16 n → u16_from_be (byte_of (n / 256)) (byte_of n) = n.
Proof.
  intros H. unfold u16_from_be. rewrite !byte_val_of.
  change (is_u16 n) with (0 ≤ n < 65536) in H.
  rewrite (Z.mod_small (n / 256)) by (split; [apply Z.div_pos|apply Z.div_lt_upper_bound]; lia).
  pose proof (Z.div_mod n 256). lia.
Qed.

Lemma u16_from_be_range hi lo : 0 ≤ u16_from_be hi lo < 65536.
Proof.
  unfold u16_from_be.
  pose proof (byte_val_range hi). pose proof (byte_val_range lo). lia.
Qed.

(** ** ASCII *)

Definition is_ascii_upper (b : byte) : bool := (65 <=? byte_val b) && (byte_val b <=? 90).
Definition is_ascii_lower (b : byte) : bool := (97 <=? byte_val b) && (byte_val b <=? 122).
Definition is_ascii_digit (b : byte) : bool := (48 <=? byte_val b) && (byte_val b <=? 57).

Definition lower_byte (b : byte) : byte :=
  if is_ascii_upper b then byte_of (byte_val b + 32) else b.
Definition upper_byte (b : byte) : byte :=
  if is_ascii_lower b then byte_of (byte_val b - 32) else b.

Definition to_ascii_lowercase (s : bytes) : bytes := map lower_byte s.
Definition to_ascii_uppercase (s : bytes) : bytes := map upper_byte s.
Definition eq_ignore_ascii_case (s t : bytes) : bool :=
  bool_decide (to_ascii_lowercase s = to_ascii_lowercase t).

Lemma lower_byte_idemp b : lower_byte (lower_byte b) = lower_byte b.
Proof. destruct b; reflexivity. Qed.

Lemma to_ascii_lowercase_idemp s :
  to_ascii_lowercase (to_ascii_lowercase s) = to_ascii_lowercase s.
Proof.
  unfold to_ascii_lowercase. rewrite map_map.
  apply map_ext. apply lower_byte_idemp.
Qed.

Lemma to_ascii_lowercase_app s t :
  to_ascii_lowercase (s ++ t) = to_ascii_lowercase s ++ to_ascii_lowercase t.
Proof. apply map_app. Qed.

(** ** Searching *)

(** [s.starts_with(p)]. *)
Fixpoint starts_with (p s : bytes) : bool :=
  match p, s with
  | [], _ => true
  | x :: p', y :: s' => bool_decide (x = y) && starts_with p' s'
  | _ :: _, [] => false
  end.

(** [s.find(p)] and [s.windows(p.len()).position(|w| w == p)]: the index of
    the first occurrence of the non-empty pattern [p]. *)
Fixpoint find_sub (p s : bytes) : option nat :=
  if starts_with p s then Some 0%nat
  else match s with
       | [] => None
       | _ :: s' => match find_sub p s' with Some i => Some (S i) | None => None end
       end.

Definition contains (s p : bytes) : bool :=
  match find_sub p s with Some _ => true | None => false end.

Definition ends_with (p s : bytes) : bool := starts_with (rev p) (rev s).

Definition strip_prefix (p s : bytes) : option bytes :=
  if starts_with p s then Some (drop (length p) s) else None.

Definition strip_suffix (p s : bytes) : option bytes :=
  if ends_with p s then Some (take (length s - length p) s) else None.

(** [s.find(c)] for a character given by a predicate. *)
Fixpoint find_byte (f : byte → bool) (s : bytes) : option nat :=
  match s with
  | [] => None
  | x :: s' => if f x then Some 0%nat
               else match find_byte f s' with Some i => Some (S i) | None => None end
  end.

Definition is_byte (c : byte) (x : byte) : bool := bool_decide (x = c).

(** [s.split_once(c)] for an ASCII character. *)
Definition split_once (c : byte) (s : bytes) : option (bytes * bytes) :=
  match find_byte (is_byte c) s with
  | Some i => Some (take i s, drop (S i) s)
  | None => None
  end.

(** [s.split(c)] for an ASCII character; never empty. *)
Fixpoint split_on (c : byte) (s : bytes) : list bytes :=
  match s with
  | [] => [[]]
  | x :: s' =>
      if is_byte c x then [] :: split_on c s'
      else match split_on c s' with
           | [] => [[x]]
           | l :: ls => (x :: l) :: ls
           end
  end.

(** [s.split(c).next().unwrap()]: the part before the first [c]. *)
Definition split_first (c : byte) (s : bytes) : bytes :=
  match find_byte (is_byte c) s with Some i => take i s | None => s end.

(** [sep.join(parts)]. *)
Fixpoint join (sep : bytes) (parts : list bytes) : bytes :=
  match parts with
  | [] => []
  | [p] => p
  | p :: ps => p ++ sep ++ join sep ps
  end.

(** [s.trim_end_matches(c)]. *)
Definition trim_end_matches (c : byte) (s : bytes) : bytes :=
  let fix go (r : bytes) : bytes :=
    match r with
    | x :: r' => if is_byte c x then go r' else r
    | [] => []
    end in
  rev (go (rev s)).

(** [s.lines().next()]. *)
Definition first_line (s : bytes) : option bytes :=
  match s with
  | [] => None
  | _ =>
      let l := split_first x0a s in
      Some (match strip_suffix [x0d] l with
            | Some l' => if bool_decide (find_byte (is_byte x0a) s = None) then l else l'
            | None => l
            end)
  end.

(** ** [str::trim]

    Rust trims Unicode [White_Space].  [ws_len s] is the length of the
    whitespace character at the front of [s], 0 when there is none. *)
Definition ws_len (s : bytes) : nat :=
  match s with
  | x09 :: _ | x0a :: _ | x0b :: _ | x0c :: _ | x0d :: _ | x20 :: _ => 1
  | xc2 :: x85 :: _ | xc2 :: xa0 :: _ => 2
  | xe1 :: x9a :: x80 :: _ => 3
  | xe2 :: x80 :: b :: _ =>
      if ((128 <=? byte_val b) && (byte_val b <=? 138))%Z then 3
      else match b with xa8 | xa9 | xaf => 3 | _ => 0 end
  | xe2 :: x81 :: x9f :: _ => 3
  | xe3 :: x80 :: x80 :: _ => 3
  | _ => 0
  end%nat.

(** The same at the end of a string, given its reversal. *)
Definition ws_len_rev (r : bytes) : nat :=
  match r with
  | x09 :: _ | x0a :: _ | x0b :: _ | x0c :: _ | x0d :: _ | x20 :: _ => 1
  | b1 :: b2 :: r' =>
      if bool_decide (ws_len [b2; b1] = 2%nat) then 2
      else match r' with
           | b3 :: _ => if bool_decide (ws_len [b3; b2; b1] = 3%nat) then 3 else 0
           | [] => 0
           end
  | _ => 0
  end%nat.

Fixpoint trim_loop (ws : bytes → nat) (fuel : nat) (s : bytes) : bytes :=
  match fuel with
  | O => s
  | S f => match ws s with O => s | n => trim_loop ws f (drop n s) end
  end.

Definition trim_start (s : bytes) : bytes := trim_loop ws_len (length s) s.
Definition trim_end (s : bytes) : bytes := rev (trim_loop ws_len_rev (length s) (rev s)).
Definition trim (s : bytes) : bytes := trim_end (trim_start s).

(** ** Decimal integers *)

Definition digit (d : Z) : byte := byte_of (48 + d).

Fixpoint fmt_digits (fuel : nat) (n : Z) (acc : bytes) : bytes :=
  match fuel with
  | O => acc
  | S f =>
      let acc' := digit (n mod 10) :: acc in
      if n <? 10 then acc' else fmt_digits f (n / 10) acc'
  end.

(** [format!("{}", n)] for an unsigned integer of at most 64 bits; twenty
    digits are enough for [2^64 - 1]. *)
Definition fmt_uint (n : Z) : bytes := fmt_digits 20 n [].

Fixpoint parse_digits (max : Z) (s : bytes) (acc : Z) : option Z :=
  match s with
  | [] => Some acc
  | c :: s' =>
      if is_ascii_digit c then
        let acc' := acc * 10 + (byte_val c - 48) in
        if max <? acc' then None else parse_digits max s' acc'
      else None
  end.

(** [s.parse::<uN>()] with [max = uN::MAX]: an optional [+], at least one
    digit, nothing else, no overflow. *)
Definition parse_uint (max : Z) (s : bytes) : option Z :=
  match s with
  | [] => None
  | x2b :: [] => None
  | x2b :: s' => parse_digits max s' 0
  | _ => parse_digits max s 0
  end.

Definition parse_u64 : bytes → option Z := parse_uint u64_max.
Definition parse_u16 : bytes → option Z := parse_uint (u16_mod - 1).

(** ** UTF-8

    [utf8_step s] looks at the front of a non-empty [s]: [inl n] when a
    well-formed sequence of [n] bytes starts there, [inr n] when the first
    [n] bytes are a maximal ill-formed prefix (Rust's [Utf8Chunks]). *)

Definition in_range (lo hi : Z) (b : byte) : bool := (lo <=? byte_val b) && (byte_val b <=? hi).
Definition is_cont : byte → bool := in_range 128 191.

Definition utf8_second_ok (b0 b1 : byte) : bool :=
  let v := byte_val b0 in
  if v =? 224 then in_range 160 191 b1
  else if v =? 237 then in_range 128 159 b1
  else if v =? 240 then in_range 144 191 b1
  else if v =? 244 then in_range 128 143 b1
  else is_cont b1.

Definition utf8_width (b0 : byte) : Z :=
  let v := byte_val b0 in
  if v <? 128 then 1
  else if (194 <=? v) && (v <=? 223) then 2
  else if (224 <=? v) && (v <=? 239) then 3
  else if (240 <=? v) && (v <=? 244) then 4
  else 0.

Definition utf8_step (s : bytes) : nat + nat :=
  match s with
  | [] => inr 1%nat
  | b0 :: s1 =>
      let w := utf8_width b0 in
      if w =? 1 then inl 1%nat
      else if w =? 0 then inr 1%nat
      else match s1 with
           | [] => inr 1%nat
           | b1 :: s2 =>
               if negb (utf8_second_ok b0 b1) then inr 1%nat
               else if w =? 2 then inl 2%nat
               else match s2 with
                    | [] => inr 2%nat
                    | b2 :: s3 =>
                        if negb (is_cont b2) then inr 2%nat
                        else if w =? 3 then inl 3%nat
                        else match s3 with
                             | [] => inr 3%nat
                             | b3 :: _ => if is_cont b3 then inl 4%nat else inr 3%nat
                             end
                    end
           end
  end.

Fixpoint utf8_valid_loop (fuel : nat) (s : bytes) : bool :=
  match s, fuel with
  | [], _ => true
  | _, O => false
  | _, S f => match utf8_step s with
              | inl n => utf8_valid_loop f (drop n s)
              | inr _ => false
              end
  end.

(** [std::str::from_utf8(s).is_ok()]. *)
Definition utf8_valid (s : bytes) : bool := utf8_valid_loop (length s) s.

Definition from_utf8 (s : bytes) : option bytes := if utf8_valid s then Some s else None.

(** U+FFFD. *)
Definition replacement_char : bytes := [xef; xbf; xbd].

Fixpoint from_utf8_lossy_loop (fuel : nat) (s : bytes) : bytes :=
  match s, fuel with
  | [], _ => []
  | _, O => []
  | _, S f => match utf8_step s with
              | inl n => take n s ++ from_utf8_lossy_loop f (drop n s)
              | inr n => replacement_char ++ from_utf8_lossy_loop f (drop n s)
              end
  end.

(** [String::from_utf8_lossy(s).into_owned()]. *)
Definition from_utf8_lossy (s : bytes) : bytes := from_utf8_lossy_loop (length s) s.

(** ** Facts about searching *)

Lemma starts_with_app p s : starts_with p (p ++ s) = true.
Proof. induction p as [|x p IH]; simpl; [done|]. by rewrite bool_decide_true. Qed.

Lemma starts_with_iff p s : starts_with p s = true ↔ ∃ t, s = p ++ t.
Proof.
  split.
  - revert s. induction p as [|x p IH]; intros s; simpl; [eauto|].
    destruct s as [|y s]; [done|]. intros H. bool_to_prop. subst.
    match goal with H : starts_with _ _ = true |- _ => apply IH in H as [t ->] end.
    by exists t.
  - intros [t ->]. apply starts_with_app.
Qed.

Lemma strip_prefix_app p s : strip_prefix p (p ++ s) = Some s.
Proof.
  unfold strip_prefix. rewrite starts_with_app. by rewrite drop_app_length.
Qed.

Lemma find_sub_Some p s i :
  find_sub p s = Some i → s = take i s ++ p ++ drop (i + length p) s.
Proof.
  revert i. induction s as [|x s IH]; intros i; simpl.
  - destruct (starts_with p []) eqn:E; [|done]. intros [= <-].
    apply starts_with_iff in E as [t E]. destruct p; [|done]. by simpl in *; subst.
  - destruct (starts_with p (x :: s)) eqn:E.
    + intros [= <-]. apply starts_with_iff in E as [t ->]. simpl.
      by rewrite drop_app_length.
    + destruct (find_sub p s) as [j|] eqn:Ej; [|done]. intros [= <-].
      simpl. f_equal. by apply IH.
Qed.

Lemma find_sub_le p s i : find_sub p s = Some i → (i + length p ≤ length s)%nat.
Proof.
  revert i. induction s as [|x s IH]; intros i; simpl.
  - destruct p; simpl; [intros [= <-]; lia|done].
  - destruct (starts_with p (x :: s)) eqn:E.
    + intros [= <-]. apply starts_with_iff in E as [t E].
      apply (f_equal length) in E. rewrite length_app in E. simpl in *. lia.
    + destruct (find_sub p s) as [j|]; [|done]. intros [= <-].
      specialize (IH j eq_refl). lia.
Qed.

Lemma starts_with_first_occ p a b :
  find_sub p (a ++ p) = Some (length a) → starts_with p (a ++ p ++ b) = true → a = [].
Proof.
  intros Hf Hs. destruct a as [|x a]; [done|]. exfalso.
  simpl in Hf. destruct (starts_with p (x :: a ++ p)) eqn:E; [done|].
  apply starts_with_iff in Hs as [t Ht].
  assert (Hl : (length p ≤ length ((x :: a) ++ p))%nat) by (rewrite length_app; lia).
  change (starts_with p ((x :: a) ++ p) = false) in E.
  enough (starts_with p ((x :: a) ++ p) = true) by congruence.
  apply starts_with_iff. exists (drop (length p) ((x :: a) ++ p)).
  rewrite <-(take_drop (length p) ((x :: a) ++ p)) at 1. f_equal.
  rewrite app_assoc in Ht. apply (f_equal (take (length p))) in Ht.
  rewrite take_app_length, take_app_le in Ht by lia. done.
Qed.

(** The first occurrence does not depend on what follows it. *)
Lemma find_sub_app p a b :
  find_sub p (a ++ p) = Some (length a) → find_sub p (a ++ p ++ b) = Some (length a).
Proof.
  induction a as [|x a IH]; intros Hf.
  - simpl. destruct p as [|y p]; [by destruct b|]. simpl.
    by rewrite bool_decide_true, starts_with_app.
  - destruct (starts_with p ((x :: a) ++ p ++ b)) eqn:E;
      [by apply starts_with_first_occ in E|].
    simpl in *. rewrite E.
    destruct (starts_with p (x :: a ++ p)) eqn:E'; [done|].
    destruct (find_sub p (a ++ p)) as [j|]; [|done].
    injection Hf as ->. by rewrite IH.
Qed.

Lemma find_byte_Some f s i :
  find_byte f s = Some i →
  ∃ x, s !! i = Some x ∧ f x = true ∧ s = take i s ++ x :: drop (S i) s.
Proof.
  revert i. induction s as [|x s IH]; intros i; simpl; [done|].
  destruct (f x) eqn:E.
  - intros [= <-]. exists x. by rewrite drop_0.
  - destruct (find_byte f s) as [j|]; [|done]. intros [= <-].
    destruct (IH j eq_refl) as (y & ? & ? & Hs). exists y. simpl. by rewrite <-Hs.
Qed.

Lemma find_byte_None_app f s t :
  forallb (λ x, negb (f x)) s = true →
  find_byte f (s ++ t) = (λ i, length s + i)%nat <$> find_byte f t.
Proof.
  induction s as [|x s IH]; simpl; intros H; [by destruct (find_byte f t)|].
  bool_to_prop. rewrite IH by done.
  match goal with H : f x = false |- _ => rewrite H end. by destruct (find_byte f t).
Qed.

Lemma split_once_app c s t :
  forallb (λ x, negb (is_byte c x)) s = true →
  split_once c (s ++ c :: t) = Some (s, t).
Proof.
  intros H. unfold split_once. rewrite find_byte_None_app by done. simpl.
  unfold is_byte at 1. rewrite bool_decide_true by done. simpl.
  rewrite Nat.add_0_r, take_app_length.
  rewrite drop_app_ge by lia.
  by replace (S (length s) - length s)%nat with 1%nat by lia.
Qed.

(** ** Decimal printing and parsing are inverse *)

Lemma digit_val d : 0 ≤ d < 10 → byte_val (digit d) = 48 + d.
Proof. intros H. unfold digit. rewrite byte_val_of. apply Z.mod_small. lia. Qed.

Lemma digit_is_digit d : 0 ≤ d < 10 → is_ascii_digit (digit d) = true.
Proof.
  intros H. unfold is_ascii_digit. rewrite digit_val by done.
  apply andb_true_iff; split; apply Z.leb_le; lia.
Qed.

Lemma parse_digits_digit max d s acc :
  0 ≤ d < 10 → acc * 10 + d ≤ max →
  parse_digits max (digit d :: s) acc = parse_digits max s (acc * 10 + d).
Proof.
  intros Hd Hm. cbn [parse_digits]. rewrite digit_is_digit, digit_val by done.
  replace (acc * 10 + (48 + d - 48)) with (acc * 10 + d) by lia.
  destruct (Z.ltb_spec max (acc * 10 + d)); [lia|done].
Qed.

Lemma parse_fmt_digits max fuel n acc :
  0 ≤ n < 10 ^ Z.of_nat fuel → n ≤ max →
  parse_digits max (fmt_digits fuel n acc) 0 = parse_digits max acc n.
Proof.
  revert n acc. induction fuel as [|f IH]; intros n acc Hn Hm.
  - change (10 ^ Z.of_nat 0) with 1 in Hn. simpl. by replace n with 0 by lia.
  - cbn [fmt_digits]. assert (0 ≤ n mod 10 < 10) by (apply Z.mod_pos_bound; lia).
    destruct (Z.ltb_spec n 10).
    + rewrite Z.mod_small by lia. by rewrite parse_digits_digit by lia.
    + rewrite Nat2Z.inj_succ, Z.pow_succ_r in Hn by lia.
      pose proof (Z.div_mod n 10). pose proof (Z.div_pos n 10).
      rewrite IH by (first [split; [lia|apply Z.div_lt_upper_bound; lia] | lia]).
      rewrite parse_digits_digit by lia. f_equal. lia.
Qed.

Lemma fmt_digits_all_digits fuel n acc :
  0 ≤ n → forallb is_ascii_digit acc = true →
  forallb is_ascii_digit (fmt_digits fuel n acc) = true.
Proof.
  revert n acc. induction fuel as [|f IH]; intros n acc Hn Ha; [done|].
  cbn [fmt_digits]. assert (0 ≤ n mod 10 < 10) by (apply Z.mod_pos_bound; lia).
  assert (Hd : forallb is_ascii_digit (digit (n mod 10) :: acc) = true)
    by (simpl; by rewrite digit_is_digit).
  case_if; [done|]. apply IH; [|done]. apply Z.div_pos; lia.
Qed.

Lemma fmt_uint_all_digits n : 0 ≤ n → forallb is_ascii_digit (fmt_uint n) = true.
Proof. intros. by apply fmt_digits_all_digits. Qed.

Lemma fmt_digits_nonempty fuel n acc : fmt_digits (S fuel) n acc ≠ [].
Proof.
  revert n acc. induction fuel as [|f IH]; intros n acc.
  - cbn [fmt_digits]. by case_if.
  - cbn [fmt_digits] in *. case_if; [done|]. apply IH.
Qed.

Lemma fmt_uint_cons n : 0 ≤ n → ∃ c s, fmt_uint n = c :: s ∧ is_ascii_digit c = true.
Proof.
  intros Hn. pose proof (fmt_uint_all_digits n Hn) as Hd.
  destruct (fmt_uint n) as [|c s] eqn:E.
  - by apply fmt_digits_nonempty in E.
  - exists c, s. simpl in Hd. by bool_to_prop.
Qed.

Theorem parse_fmt_uint n : 0 ≤ n ≤ u64_max → parse_u64 (fmt_uint n) = Some n.
Proof.
  intros Hn. destruct (fmt_uint_cons n) as (c & s & E & Hc); [lia|].
  assert (Hp : parse_u64 (fmt_uint n) = parse_digits u64_max (fmt_uint n) 0).
  { rewrite E. unfold parse_u64, parse_uint. by destruct c. }
  rewrite Hp. unfold fmt_uint. rewrite parse_fmt_digits; [done| |lia].
  split; [lia|]. eapply Z.le_lt_trans; [apply Hn|]. vm_compute. reflexivity.
Qed.

Lemma parse_digits_bound max s acc n :
  0 ≤ acc ≤ max → parse_digits max s acc = Some n → 0 ≤ n ≤ max.
Proof.
  revert acc. induction s as [|c s IH]; intros acc Ha; cbn [parse_digits].
  - by intros [= <-].
  - destruct (is_ascii_digit c) eqn:E; [|done]. unfold is_ascii_digit in E. bool_to_prop.
    destruct (Z.ltb_spec max (acc * 10 + (byte_val c - 48))); [done|].
    apply IH. lia.
Qed.

Lemma parse_u64_range s n : parse_u64 s = Some n → is_u64 n.
Proof.
  intros H. enough (0 ≤ n ≤ u64_max) by zlia.
  unfold parse_u64, parse_uint in H.
  assert (0 ≤ u64_max) by (vm_compute; congruence).
  destruct s as [|c s]; [done|].
  assert (Hc : parse_digits u64_max s 0 = Some n ∨ parse_digits u64_max (c :: s) 0 = Some n)
    by (destruct c; try (right; exact H); destruct s; [done|left; exact H]).
  destruct Hc as [Hc|Hc]; apply parse_digits_bound in Hc; lia.
Qed.

(** ** Facts about UTF-8 *)

Lemma utf8_step_bounds s :
  s ≠ [] → let n := match utf8_step s with inl n | inr n => n end in
  (1 ≤ n ≤ length s ∧ n ≤ 4)%nat.
Proof.
  intros Hs n. subst n. destruct (utf8_step s) eqn:E; unfold utf8_step in E;
    repeat case_match; simplify_eq/=; lia.
Qed.

(** Lossy decoding is the identity on well-formed UTF-8. *)
Lemma from_utf8_lossy_valid s : utf8_valid s = true → from_utf8_lossy s = s.
Proof.
  unfold utf8_valid, from_utf8_lossy. generalize (length s) as fuel.
  intros fuel. revert s. induction fuel as [|f IH]; intros [|b s]; try done.
  cbn [utf8_valid_loop from_utf8_lossy_loop].
  destruct (utf8_step (b :: s)) as [n|n]; [|done].
  intros H. rewrite IH by done. apply take_drop.
Qed.

Lemma ascii_utf8 s : Forall (λ c, byte_val c < 128) s → utf8_valid s = true.
Proof.
  unfold utf8_valid. induction 1 as [|c s Hc Hs IH]; [done|]. simpl.
  assert (Hw : utf8_width c = 1) by (unfold utf8_width; by if_true). by rewrite Hw.
Qed.

(** Each ill-formed prefix costs three bytes in place of at least one. *)
Lemma from_utf8_lossy_len s : len (from_utf8_lossy s) ≤ 3 * len s.
Proof.
  unfold from_utf8_lossy. generalize (length s) as fuel.
  intros fuel. revert s. induction fuel as [|f IH]; intros [|b s]; try (unfold len; simpl; lia).
  cbn [from_utf8_lossy_loop]. pose proof (utf8_step_bounds (b :: s)) as Hb.
  destruct (utf8_step (b :: s)) as [n|n]; specialize (Hb ltac:(done)); simpl in Hb;
    rewrite len_app; specialize (IH (drop n (b :: s))); unfold len in *;
    rewrite ?length_take, length_drop in *; simpl length in *; lia.
Qed.
