(* ===== verification/IpAddr.v ===== *)
(** * IP address literals

    The standard library's text form of IP addresses, which the proxy uses for
    SOCKS5 addresses and to tell literals from host names.  An [Ipv4Addr] is
    its four octets, an [Ipv6Addr] its sixteen. *)

From Stdlib Require Import Strings.Byte.
From S2P Require Import Prelude RustBytes.

Inductive IpAddr :=
  | IpV4 (octets : bytes)
  | IpV6 (octets : bytes).
#[global] Instance IpAddr_eq_dec : EqDecision IpAddr.
Proof. solve_decision. Defined.

(** ** Parsing

    Each reader takes the rest of the input and returns what remains; a reader
    that fails consumes nothing. *)

Definition to_digit (radix : Z) (b : byte) : option Z :=
  let d := if is_ascii_digit b then byte_val b - 48
           else if is_ascii_lower b then byte_val b - 87
           else if is_ascii_upper b then byte_val b - 55
           else radix in
  if d <? radix then Some d else None.

Fixpoint read_digits (radix : Z) (max : nat) (s : bytes) (acc : Z) (count : nat)
    : option (Z * nat * bytes) :=
  match s with
  | [] => Some (acc, count, [])
  | c :: s' =>
      match to_digit radix c with
      | None => Some (acc, count, s)
      | Some d =>
          if (max <=? count)%nat then None
          else read_digits radix max s' (acc * radix + d) (S count)
      end
  end.

Definition read_number (radix : Z) (max : nat) (zero_prefix : bool) (limit : Z) (s : bytes)
    : option (Z * bytes) :=
  match read_digits radix max s 0 0 with
  | Some (n, count, rest) =>
      if (count =? 0)%nat then None
      else if negb zero_prefix && starts_with (bs "0") s && (1 <? count)%nat then None
      else if n <? limit then Some (n, rest) else None
  | None => None
  end.

(** [read_separator]: from the second element on, the separator comes first. *)
Definition read_separator {A} (sep : byte) (index : nat) (inner : bytes → option (A * bytes))
    (s : bytes) : option (A * bytes) :=
  match index with
  | O => inner s
  | S _ => let? rest := strip_prefix [sep] s in inner rest
  end.

Fixpoint read_octets (n i : nat) (s : bytes) : option (bytes * bytes) :=
  match n with
  | O => Some ([], s)
  | S n' =>
      let? (v, rest) := read_separator x2e i (read_number 10 3 false 256) s in
      let? (os, rest) := read_octets n' (S i) rest in
      Some (byte_of v :: os, rest)
  end.

Definition read_ipv4_addr (s : bytes) : option (bytes * bytes) := read_octets 4 0 s.

Fixpoint read_groups (n i : nat) (s : bytes) : bytes * bool * bytes :=
  match n with
  | O => ([], false, s)
  | S n' =>
      match (if (0 <? n')%nat then read_separator x3a i read_ipv4_addr s else None) with
      | Some (octets, rest) => (octets, true, rest)
      | None =>
          match read_separator x3a i (read_number 16 4 true 65536) s with
          | Some (g, rest) =>
              let '(gs, v4, rest) := read_groups n' (S i) rest in
              (u16_to_be g ++ gs, v4, rest)
          | None => ([], false, s)
          end
      end
  end.

Definition read_ipv6_addr (s : bytes) : option (bytes * bytes) :=
  let '(head, v4, rest) := read_groups 8 0 s in
  if (length head =? 16)%nat then Some (head, rest)
  else if v4 then None
  else
    let? rest := strip_prefix (bs "::") rest in
    let limit := (7 - Nat.div2 (length head))%nat in
    let '(tail, _, rest) := read_groups limit 0 rest in
    Some (head ++ repeat x00 (16 - length head - length tail) ++ tail, rest).

Definition at_end {A} (r : option (A * bytes)) : option A :=
  match r with Some (a, []) => Some a | _ => None end.

(** [s.parse::<Ipv4Addr>()], [s.parse::<Ipv6Addr>()], [s.parse::<IpAddr>()]. *)
Definition parse_ipv4 (s : bytes) : option bytes :=
  if 15 <? len s then None else at_end (read_ipv4_addr s).
Definition parse_ipv6 (s : bytes) : option bytes := at_end (read_ipv6_addr s).
Definition parse_ip (s : bytes) : option IpAddr :=
  at_end (match read_ipv4_addr s with
          | Some (o, rest) => Some (IpV4 o, rest)
          | None => match read_ipv6_addr s with
                    | Some (o, rest) => Some (IpV6 o, rest)
                    | None => None
                    end
          end).

(** ** Printing *)

Definition fmt_ipv4 (octets : bytes) : bytes :=
  join (bs ".") (map (λ b, fmt_uint (byte_val b)) octets).

Definition hex_digit (d : Z) : byte := if d <? 10 then byte_of (48 + d) else byte_of (87 + d).

(** [{:x}] of a [u16]. *)
Definition fmt_hex16 (n : Z) : bytes :=
  let ds := [n / 4096; n / 256 mod 16; n / 16 mod 16; n mod 16] in
  let fix skip (ds : list Z) := match ds with
    | d :: ((_ :: _) as ds') => if d =? 0 then skip ds' else ds
    | _ => ds
    end in
  map hex_digit (skip ds).

Fixpoint segments (octets : bytes) : list Z :=
  match octets with
  | hi :: lo :: rest => u16_from_be hi lo :: segments rest
  | _ => []
  end.

(** The longest run of zero segments, the first of equal ones, as (start, length). *)
Fixpoint zero_run (i : nat) (segs : list Z) (cur best : nat * nat) : nat * nat :=
  match segs with
  | [] => best
  | s :: rest =>
      if s =? 0 then
        let cur := (if (cur.2 =? 0)%nat then i else cur.1, S cur.2) in
        zero_run (S i) rest cur (if (best.2 <? cur.2)%nat then cur else best)
      else zero_run (S i) rest (0%nat, 0%nat) best
  end.

Definition fmt_segments (segs : list Z) : bytes := join (bs ":") (map fmt_hex16 segs).

Definition fmt_ipv6 (octets : bytes) : bytes :=
  if starts_with (repeat x00 10 ++ [xff; xff]) octets then
    bs "::ffff:" ++ fmt_ipv4 (drop 12 octets)
  else
    let segs := segments octets in
    let z := zero_run 0 segs (0%nat, 0%nat) (0%nat, 0%nat) in
    if (1 <? z.2)%nat then
      fmt_segments (take z.1 segs) ++ bs "::" ++ fmt_segments (drop (z.1 + z.2) segs)
    else fmt_segments segs.

(** ** Printed IPv4 addresses parse back *)

(** A number is read up to the first byte that is not a digit. *)
Definition stops (radix : Z) (s : bytes) : Prop :=
  match s with [] => True | c :: _ => to_digit radix c = None end.

Lemma read_digits_app radix max s acc count n k rest :
  read_digits radix max s acc count = Some (n, k, []) → stops radix rest →
  read_digits radix max (s ++ rest) acc count = Some (n, k, rest).
Proof.
  revert acc count. induction s as [|c s IH]; intros acc count; simpl.
  - intros [= -> ->] Hs. destruct rest as [|c rest]; simpl in *; [done|by rewrite Hs].
  - destruct (to_digit radix c); [|done]. case_if; [done|]. apply IH.
Qed.

Lemma read_number_app radix max zp limit s n rest :
  s ≠ [] → read_number radix max zp limit s = Some (n, []) → stops radix rest →
  read_number radix max zp limit (s ++ rest) = Some (n, rest).
Proof.
  intros Hne. unfold read_number.
  destruct (read_digits radix max s 0 0) as [[[v k] r]|] eqn:E; [|done].
  assert (starts_with (bs "0") (s ++ rest) = starts_with (bs "0") s) as ->.
  { destruct s; [done|]. simpl. by rewrite !andb_true_r. }
  intros H Hs. assert (r = []) as ->. { repeat case_match; simplify_eq; done. }
  rewrite (read_digits_app _ _ _ _ _ _ _ rest E Hs). repeat case_match; simplify_eq; done.
Qed.

(** What is printed of one octet, read back: 256 cases. *)
Lemma read_octet_text b : read_number 10 3 false 256 (fmt_uint (byte_val b)) = Some (byte_val b, []).
Proof. by destruct b; vm_compute. Qed.

Lemma octet_text_len b : 1 ≤ len (fmt_uint (byte_val b)) ≤ 3.
Proof. by destruct b; vm_compute. Qed.

Lemma read_octet b rest : stops 10 rest →
  read_number 10 3 false 256 (fmt_uint (byte_val b) ++ rest) = Some (byte_val b, rest).
Proof.
  intros Hs. apply read_number_app; [|apply read_octet_text|done].
  pose proof (octet_text_len b). intros E. rewrite E in *. unfold len in *. simpl in *. lia.
Qed.

Lemma parse_fmt_ipv4 a b c d : parse_ipv4 (fmt_ipv4 [a; b; c; d]) = Some [a; b; c; d].
Proof.
  unfold parse_ipv4, fmt_ipv4. cbn [map join].
  pose proof (octet_text_len a). pose proof (octet_text_len b).
  pose proof (octet_text_len c). pose proof (octet_text_len d).
  rewrite !len_app. change (len (bs ".")) with 1. if_false.
  unfold read_ipv4_addr. cbn [read_octets read_separator].
  rewrite read_octet by done. change (bs "." ++ ?l) with ([x2e] ++ l). rewrite strip_prefix_app.
  rewrite read_octet by done. rewrite strip_prefix_app.
  rewrite read_octet by done. rewrite strip_prefix_app.
  rewrite <-(app_nil_r (fmt_uint (byte_val d))), read_octet by done. simpl.
  by rewrite !byte_of_val.
Qed.

Example parse_ipv6_examples :
  parse_ipv6 (bs "::1") = Some (repeat x00 15 ++ [x01]) ∧
  parse_ipv6 (bs "fe80::1:2") = Some ([xfe; x80] ++ repeat x00 10 ++ [x00; x01; x00; x02]) ∧
  parse_ipv6 (bs "::ffff:1.2.3.4") = Some (repeat x00 10 ++ [xff; xff; x01; x02; x03; x04]) ∧
  parse_ipv6 (bs "1:2:3:4:5:6:7:8:9") = None ∧ parse_ipv6 (bs "1::2::3") = None ∧
  parse_ip (bs "127.0.0.1") = Some (IpV4 [x7f; x00; x00; x01]) ∧
  parse_ip (bs "127.0.0.01") = None ∧ parse_ip (bs "example.com") = None ∧
  fmt_ipv6 (repeat x00 15 ++ [x01]) = bs "::1" ∧
  fmt_ipv6 ([x20; x01; x0d; xb8] ++ repeat x00 8 ++ [x00; x00; x00; x2a]) = bs "2001:db8::2a".
Proof. by vm_compute. Qed.

(** ** Parsed addresses have the right number of octets *)

Lemma read_octets_length n i s os rest : read_octets n i s = Some (os, rest) → length os = n.
Proof.
  revert i s os rest. induction n as [|n IH]; intros i s os rest; simpl; [by intros [= <- _]|].
  destruct (read_separator _ _ _ s) as [[v r]|]; [|done].
  destruct (read_octets n (S i) r) as [[os' r']|] eqn:E; [|done].
  intros [= <- _]. simpl. f_equal. by eapply IH.
Qed.

Lemma parse_ipv4_length s o : parse_ipv4 s = Some o → length o = 4%nat.
Proof.
  unfold parse_ipv4, read_ipv4_addr. case_if; [done|].
  destruct (read_octets 4 0 s) as [[os [|]]|] eqn:Eo; simpl; [|done|done].
  intros [= <-]. by eapply read_octets_length.
Qed.

Lemma read_separator_octets i s o rest :
  read_separator x3a i read_ipv4_addr s = Some (o, rest) → length o = 4%nat.
Proof.
  unfold read_separator, read_ipv4_addr. intros H.
  destruct i as [|i]; [by eapply read_octets_length|].
  destruct (strip_prefix [x3a] s); [by eapply read_octets_length|done].
Qed.

Lemma read_groups_length n i s gs v4 rest :
  read_groups n i s = (gs, v4, rest) → ∃ k, (k ≤ n)%nat ∧ length gs = (2 * k)%nat.
Proof.
  revert i s gs v4 rest. induction n as [|n IH]; intros i s gs v4 rest; cbn [read_groups].
  { intros [=]; subst. by exists 0%nat. }
  destruct (if (0 <? n)%nat then _ else None) as [[o r]|] eqn:E4.
  - intros [=]; subst. exists 2%nat. destruct (0 <? n)%nat eqn:En; [|done].
    apply Nat.ltb_lt in En. apply read_separator_octets in E4. lia.
  - destruct (read_separator x3a i (read_number 16 4 true 65536) s) as [[g r]|]; cycle 1.
    { intros [=]; subst; exists 0%nat; simpl; lia. }
    destruct (read_groups n (S i) r) as [[gs' v4'] r'] eqn:E. intros [=]; subst.
    destruct (IH _ _ _ _ _ E) as (k & Hk & Hl). exists (S k). simpl. lia.
Qed.

Lemma parse_ipv6_length s o : parse_ipv6 s = Some o → length o = 16%nat.
Proof.
  unfold parse_ipv6, read_ipv6_addr. destruct (read_groups 8 0 s) as [[h v4] rest] eqn:Eh.
  destruct (length h =? 16)%nat eqn:El.
  { apply Nat.eqb_eq in El. destruct rest; simpl; [|done]. by intros [= <-]. }
  apply Nat.eqb_neq in El. destruct v4; [done|]. destruct (strip_prefix (bs "::") rest) as [r|]; [|done].
  destruct (read_groups_length _ _ _ _ _ _ Eh) as (k & Hk & Hl).
  rewrite Hl, Nat.div2_double.
  destruct (read_groups (7 - k) 0 r) as [[t v4'] r'] eqn:Et.
  destruct (read_groups_length _ _ _ _ _ _ Et) as (k' & Hk' & Hl').
  destruct r'; simpl; [|done]. intros [= <-].
  rewrite !length_app, repeat_length, Hl, Hl'. lia.
Qed.
