(* ===== verification/Base64.v ===== *)
(** * Base64

    The crates use the [base64] crate's [STANDARD] engine, which is not part
    of the repository: [Base64] is its interface, [Base64Laws] the documented
    behaviour the program relies on.  [std_base64] is a concrete instance
    (RFC 4648, canonical padding required) that satisfies the laws. *)

From Stdlib Require Import Strings.Byte.
From S2P Require Import Prelude RustBytes.

(** [B64.encode] and [B64.decode]; a decode error is its message. *)
Class Base64 := {
  b64_encode : bytes → bytes;
  b64_decode : bytes → result bytes bytes
}.

Class Base64Laws `{!Base64} : Prop := {
  b64_decode_encode b : b64_decode (b64_encode b) = Ok b;
  b64_encode_len b : len (b64_encode b) = div_ceil (len b) 3 * 4
}.

Lemma b64_encode_nil `{Base64Laws} : b64_encode [] = [].
Proof. apply len_zero_nil. rewrite b64_encode_len. reflexivity. Qed.

Lemma b64_encode_nonempty `{Base64Laws} b : b ≠ [] → b64_encode b ≠ [].
Proof.
  intros Hb Hn. pose proof (b64_encode_len b) as Hl. rewrite Hn in Hl.
  destruct b as [|x b]; [done|]. rewrite len_cons, len_nil in Hl.
  unfold div_ceil in Hl. pose proof (len_nonneg b).
  assert (1 ≤ (1 + len b + 3 - 1) / 3) by (apply Z.div_le_lower_bound; lia). lia.
Qed.

(** ** The standard alphabet *)

Definition b64_char (v : Z) : byte :=
  if v <? 26 then byte_of (65 + v)
  else if v <? 52 then byte_of (71 + v)
  else if v <? 62 then byte_of (v - 4)
  else if v =? 62 then x2b else x2f.

Definition b64_val (c : byte) : option Z :=
  let v := byte_val c in
  if is_ascii_upper c then Some (v - 65)
  else if is_ascii_lower c then Some (v - 71)
  else if is_ascii_digit c then Some (v + 4)
  else if is_byte x2b c then Some 62
  else if is_byte x2f c then Some 63
  else None.

Lemma b64_val_char v : 0 ≤ v < 64 → b64_val (b64_char v) = Some v.
Proof.
  intros Hv.
  assert (Hall : forallb (λ n, bool_decide (b64_val (b64_char (Z.of_nat n)) = Some (Z.of_nat n)))
    (seq 0 64) = true) by (vm_compute; reflexivity).
  rewrite forallb_forall in Hall. specialize (Hall (Z.to_nat v)).
  rewrite Z2Nat.id in Hall by lia. eapply bool_decide_unpack.
  rewrite Hall; [done|]. apply in_seq. lia.
Qed.

Fixpoint std_encode (b : bytes) : bytes :=
  match b with
  | [] => []
  | [x] =>
      let n := byte_val x * 65536 in
      [b64_char (n / 262144); b64_char (n / 4096 mod 64); x3d; x3d]
  | [x; y] =>
      let n := byte_val x * 65536 + byte_val y * 256 in
      [b64_char (n / 262144); b64_char (n / 4096 mod 64); b64_char (n / 64 mod 64); x3d]
  | x :: y :: z :: r =>
      let n := byte_val x * 65536 + byte_val y * 256 + byte_val z in
      b64_char (n / 262144) :: b64_char (n / 4096 mod 64)
      :: b64_char (n / 64 mod 64) :: b64_char (n mod 64) :: std_encode r
  end.

Definition b64_error : bytes := bs "Invalid input".

(** Decode one group of four symbols; [None] when a symbol is invalid, the
    padding is misplaced or the unused bits are not zero. *)
Definition std_group (last : bool) (a b c d : byte) : option bytes :=
  let? va := b64_val a in
  let? vb := b64_val b in
  if is_byte x3d d && last then
    if is_byte x3d c then
      if vb mod 16 =? 0 then Some [byte_of (va * 4 + vb / 16)] else None
    else let? vc := b64_val c in
      if vc mod 4 =? 0 then Some [byte_of (va * 4 + vb / 16); byte_of (vb mod 16 * 16 + vc / 4)]
      else None
  else let? vc := b64_val c in let? vd := b64_val d in
    Some [byte_of (va * 4 + vb / 16); byte_of (vb mod 16 * 16 + vc / 4);
          byte_of (vc mod 4 * 64 + vd)].

Fixpoint std_decode (s : bytes) : option bytes :=
  match s with
  | [] => Some []
  | a :: b :: c :: d :: r =>
      let? g := std_group (match r with [] => true | _ => false end) a b c d in
      let? t := std_decode r in
      Some (g ++ t)
  | _ => None
  end.

Lemma b64_char_not_pad v : 0 ≤ v < 64 → is_byte x3d (b64_char v) = false.
Proof.
  intros Hv. apply bool_decide_eq_false. intros E.
  pose proof (b64_val_char v Hv) as H. rewrite E in H. discriminate H.
Qed.

Lemma byte_of_eq b z : z = byte_val b → byte_of z = b.
Proof. intros ->. apply byte_of_val. Qed.

(** The arithmetic of a group: with [n = x*65536 + y*256 + z], the four
    6-bit fields are in range and give the bytes back. *)
Lemma group_fields x y z :
  0 ≤ x < 256 → 0 ≤ y < 256 → 0 ≤ z < 256 →
  let n := x * 65536 + y * 256 + z in
  0 ≤ n / 262144 < 64 ∧ 0 ≤ n / 4096 mod 64 < 64 ∧ 0 ≤ n / 64 mod 64 < 64 ∧ 0 ≤ n mod 64 < 64
  ∧ n / 262144 * 4 + n / 4096 mod 64 / 16 = x
  ∧ n / 4096 mod 64 mod 16 * 16 + n / 64 mod 64 / 4 = y
  ∧ n / 64 mod 64 mod 4 * 64 + n mod 64 = z.
Proof.
  intros Hx Hy Hz n.
  assert (En : n / 262144 = x / 4) by (subst n; divlia).
  assert (E2 : n / 4096 mod 64 = x mod 4 * 16 + y / 16)
    by (subst n; replace ((x * 65536 + y * 256 + z) / 4096) with (x * 16 + y / 16)
          by (divlia);
        divlia).
  assert (E3 : n / 64 mod 64 = y mod 16 * 4 + z / 64)
    by (subst n; replace ((x * 65536 + y * 256 + z) / 64) with (x * 1024 + y * 4 + z / 64)
          by (divlia);
        divlia).
  assert (E4 : n mod 64 = z mod 64) by (subst n; divlia).
  rewrite En, E2, E3, E4. clear n En E2 E3 E4.
  repeat split; divlia.
Qed.

Lemma std_group3 last x y z :
  let n := byte_val x * 65536 + byte_val y * 256 + byte_val z in
  std_group last (b64_char (n / 262144)) (b64_char (n / 4096 mod 64))
    (b64_char (n / 64 mod 64)) (b64_char (n mod 64)) = Some [x; y; z].
Proof.
  intros n.
  destruct (group_fields (byte_val x) (byte_val y) (byte_val z)) as (H1&H2&H3&H4&E1&E2&E3);
    try apply byte_val_range. fold n in H1, H2, H3, H4, E1, E2, E3.
  unfold std_group. rewrite b64_char_not_pad, !b64_val_char by done. cbn [andb].
  by rewrite E1, E2, E3, !byte_of_val.
Qed.

Lemma std_group2 x y :
  let n := byte_val x * 65536 + byte_val y * 256 in
  std_group true (b64_char (n / 262144)) (b64_char (n / 4096 mod 64))
    (b64_char (n / 64 mod 64)) x3d = Some [x; y].
Proof.
  intros n.
  destruct (group_fields (byte_val x) (byte_val y) 0) as (H1&H2&H3&H4&E1&E2&E3);
    try apply byte_val_range; [lia|].
  rewrite Z.add_0_r in *. fold n in H1, H2, H3, H4, E1, E2, E3.
  unfold std_group. rewrite (b64_char_not_pad (n / 64 mod 64)), !b64_val_char by done.
  change (is_byte x3d x3d && true) with true. cbv iota.
  assert (0 ≤ (n / 64) mod 64 mod 4) by (apply Z.mod_pos_bound; lia).
  if_true. by rewrite E1, E2, !byte_of_val.
Qed.

Lemma std_group1 x :
  let n := byte_val x * 65536 in
  std_group true (b64_char (n / 262144)) (b64_char (n / 4096 mod 64)) x3d x3d = Some [x].
Proof.
  intros n.
  destruct (group_fields (byte_val x) 0 0) as (H1&H2&H3&H4&E1&E2&E3);
    try apply byte_val_range; try lia.
  rewrite Z.mul_0_l, !Z.add_0_r in *. fold n in H1, H2, H3, H4, E1, E2, E3.
  unfold std_group. rewrite !b64_val_char by done.
  change (is_byte x3d x3d && true) with true. change (is_byte x3d x3d) with true. cbv iota.
  assert (0 ≤ (n / 4096) mod 64 mod 16) by (apply Z.mod_pos_bound; lia).
  assert (0 ≤ (n / 64) mod 64 / 4) by (apply Z.div_pos; lia).
  if_true. by rewrite E1, byte_of_val.
Qed.

(** Induction three bytes at a time. *)
Lemma list_ind3 {A} (P : list A → Prop) :
  P [] → (∀ x, P [x]) → (∀ x y, P [x; y]) → (∀ x y z l, P l → P (x :: y :: z :: l)) →
  ∀ l, P l.
Proof.
  intros H0 H1 H2 H3.
  fix IH 1. intros [|x [|y [|z l]]]; [done|apply H1|apply H2|apply H3, IH].
Qed.

Lemma std_decode_encode b : std_decode (std_encode b) = Some b.
Proof.
  induction b as [|x|x y|x y z r IH] using list_ind3.
  - done.
  - cbn [std_encode std_decode]. by rewrite std_group1.
  - cbn [std_encode std_decode]. by rewrite std_group2.
  - cbn [std_encode std_decode]. by rewrite std_group3, IH.
Qed.

Lemma std_encode_len b : len (std_encode b) = div_ceil (len b) 3 * 4.
Proof.
  induction b as [|x|x y|x y z r IH] using list_ind3; try reflexivity.
  cbn [std_encode]. autorewrite with len. rewrite IH. unfold div_ceil. divlia.
Qed.

#[global] Instance std_base64 : Base64 := {
  b64_encode := std_encode;
  b64_decode s := match std_decode s with Some b => Ok b | None => Err b64_error end
}.

#[global] Instance std_base64_laws : Base64Laws.
Proof.
  split; simpl; intros b.
  - by rewrite std_decode_encode.
  - apply std_encode_len.
Qed.

Example std_encode_rfc4648 :
  std_encode (bs "foobar") = bs "Zm9vYmFy" ∧ std_encode (bs "fo") = bs "Zm8=".
Proof. split; reflexivity. Qed.
