(* ===== verification/Udpgw.v ===== *)
(** * The udpgw wire protocol of the tunnel node

    Models [tunnel-node/src/udpgw.rs]: the frame codec ([try_parse_frame],
    [serialise_frame]), the per-connection socket table and the server loop
    that turns a byte stream into frames.  Name resolution, [bind], [connect]
    and [send] are the operating system's: each handled frame receives a
    [NetOutcome] that says how those calls ended. *)

From Stdlib Require Import Strings.Byte.
From S2P Require Import Prelude RustBytes.

(** ** Constants *)

Definition UDPGW_MAGIC_HOST : bytes := bs "192.0.2.1".
Definition UDPGW_MAGIC_PORT : Z := 7300.
Definition LEGACY_UDPGW_MAGIC_HOST : bytes := bs "198.18.0.1".

Definition FLAG_KEEPALIVE : byte := x01.
Definition FLAG_DATA : byte := x02.
Definition FLAG_ERR : byte := x20.

Definition ATYP_IPV4 : byte := x01.
Definition ATYP_DOMAIN : byte := x03.
Definition ATYP_IPV6 : byte := x04.

Definition UDP_MTU : Z := 10240.
Definition BUF_MAX : Z := 65536 * 4.

(** [flags & mask != 0]. *)
Definition has_flag (flags mask : byte) : bool :=
  negb (Z.land (byte_val flags) (byte_val mask) =? 0).

(** ** Frames *)

(** An [Ipv4Addr] is its four octets, an [Ipv6Addr] its sixteen. *)
Inductive DstAddr :=
  | V4 (a b c d : byte) (port : Z)
  | V6 (octets : bytes) (port : Z)
  | Domain (name : bytes) (port : Z).

Record Frame := mkFrame {
  flags : byte;
  conn_id : Z;
  addr : option DstAddr;
  payload : bytes
}.

#[global] Instance DstAddr_eq_dec : EqDecision DstAddr.
Proof. solve_decision. Defined.
#[global] Instance Frame_eq_dec : EqDecision Frame.
Proof. solve_decision. Defined.

(** [DstAddr::write_to]: the bytes it appends. *)
Definition write_to (a : DstAddr) : bytes :=
  match a with
  | V4 a b c d port => ATYP_IPV4 :: [a; b; c; d] ++ u16_to_be port
  | V6 octets port => ATYP_IPV6 :: octets ++ u16_to_be port
  | Domain name port => ATYP_DOMAIN :: byte_of (len name) :: name ++ u16_to_be port
  end.

Definition serialised_len (a : DstAddr) : Z :=
  match a with
  | V4 _ _ _ _ _ => 1 + 4 + 2
  | V6 _ _ => 1 + 16 + 2
  | Domain n _ => 1 + 1 + len n + 2
  end.

(** The messages of the [InvalidData] errors. *)
Inductive FrameError :=
  | FrameTooShort
  | MissingAtyp
  | ShortIPv4Addr
  | ShortIPv6Addr
  | ShortDomainAddr
  | UnknownAtyp (atyp : byte).

(** The address block of a DATA frame: the address and where the payload
    starts in [rest]. *)
Definition parse_addr (rest : bytes) : result (DstAddr * Z) FrameError :=
  match rest with
  | [] => Err MissingAtyp
  | atyp :: r =>
      if bool_decide (atyp = ATYP_IPV4) then
        match r with
        | a :: b :: c :: d :: p1 :: p0 :: _ => Ok (V4 a b c d (u16_from_be p1 p0), 7)
        | _ => Err ShortIPv4Addr
        end
      else if bool_decide (atyp = ATYP_IPV6) then
        if len rest <? 1 + 16 + 2 then Err ShortIPv6Addr
        else match zdrop 16 r with
             | p1 :: p0 :: _ => Ok (V6 (ztake 16 r) (u16_from_be p1 p0), 19)
             | _ => Err ShortIPv6Addr
             end
      else if bool_decide (atyp = ATYP_DOMAIN) then
        match r with
        | [] => Err ShortDomainAddr
        | l :: r' =>
            let dlen := byte_val l in
            if len rest <? 2 + dlen + 2 then Err ShortDomainAddr
            else match zdrop dlen r' with
                 | p1 :: p0 :: _ =>
                     Ok (Domain (from_utf8_lossy (ztake dlen r')) (u16_from_be p1 p0),
                         2 + dlen + 2)
                 | _ => Err ShortDomainAddr
                 end
        end
      else Err (UnknownAtyp atyp)
  end.

(** The body of one complete frame. *)
Definition parse_body (body : bytes) : result Frame FrameError :=
  match body with
  | fl :: c1 :: c0 :: rest =>
      if has_flag fl FLAG_DATA then
        let! (a, payload_start) := parse_addr rest in
        Ok (mkFrame fl (u16_from_be c1 c0) (Some a) (zdrop payload_start rest))
      else Ok (mkFrame fl (u16_from_be c1 c0) None rest)
  | _ => Err FrameTooShort
  end.

(** [Ok (Some (frame, consumed))], [Ok None] when more bytes are needed. *)
Definition try_parse_frame (buf : bytes) : result (option (Frame * Z)) FrameError :=
  match buf with
  | h1 :: h0 :: tail =>
      let body_len := u16_from_be h1 h0 in
      let total := 2 + body_len in
      if len buf <? total then Ok None
      else let! f := parse_body (ztake body_len tail) in Ok (Some (f, total))
  | _ => Ok None
  end.

Definition serialise_frame (f : Frame) : bytes :=
  let addr_len := match addr f with Some a => serialised_len a | None => 0 end in
  let body_len := 1 + 2 + addr_len + len (payload f) in
  u16_to_be (body_len mod u16_mod)
  ++ [flags f] ++ u16_to_be (conn_id f)
  ++ match addr f with Some a => write_to a | None => [] end
  ++ payload f.

Definition serialise_err (cid : Z) : bytes := serialise_frame (mkFrame FLAG_ERR cid None []).

Definition is_udpgw_dest (host : bytes) (port : Z) : bool :=
  (port =? UDPGW_MAGIC_PORT)
  && (bool_decide (host = UDPGW_MAGIC_HOST) || bool_decide (host = LEGACY_UDPGW_MAGIC_HOST)).

(** ** The server *)

(** A [SocketAddr]. *)
Inductive SocketAddr :=
  | SockV4 (ip : bytes) (port : Z)
  | SockV6 (ip : bytes) (port : Z).

#[global] Instance SocketAddr_eq_dec : EqDecision SocketAddr.
Proof. solve_decision. Defined.
#[global] Program Instance SocketAddr_countable : Countable SocketAddr :=
  inj_countable'
    (λ a, match a with SockV4 i p => inl (i, p) | SockV6 i p => inr (i, p) end)
    (λ s, match s with inl (i, p) => SockV4 i p | inr (i, p) => SockV6 i p end) _.
Next Obligation. by intros []. Qed.

(** What the operating system answers while one frame is handled:
    [lookup_host] (the resolved addresses, [None] for an error), the socket
    that [bind] yields if any, whether [connect] and [send] succeed. *)
Record NetOutcome := mkNet {
  net_lookup : option (list SocketAddr);
  net_bind : option nat;
  net_connect : bool;
  net_send : bool
}.

Definition to_socket_addr (net : NetOutcome) (a : DstAddr) : option SocketAddr :=
  match a with
  | V4 a b c d port => Some (SockV4 [a; b; c; d] port)
  | V6 o port => Some (SockV6 o port)
  | Domain _ _ => match net_lookup net with
                  | Some (s :: _) => Some s
                  | _ => None
                  end
  end.

(** The state of one udpgw session: its sockets by [(conn_id, dst)], the
    reader task started with each socket, the datagrams handed to the
    sockets and the response frames queued on [tx]. *)
Record UdpgwState := mkUdpgw {
  sockets : gmap (Z * SocketAddr) nat;
  readers : list (nat * (Z * DstAddr));
  datagrams : list (nat * bytes);
  tx : list bytes
}.

Definition udpgw_init : UdpgwState := mkUdpgw ∅ [] [] [].

Definition queue (r : bytes) (st : UdpgwState) : UdpgwState :=
  mkUdpgw (sockets st) (readers st) (datagrams st) (tx st ++ [r]).

Definition get_or_create_socket (net : NetOutcome) (cid : Z) (dst : SocketAddr) (a : DstAddr)
    (st : UdpgwState) : UdpgwState * option nat :=
  match sockets st !! (cid, dst) with
  | Some s => (st, Some s)
  | None =>
      match net_bind net with
      | None => (st, None)
      | Some s =>
          if net_connect net then
            (mkUdpgw (<[(cid, dst) := s]> (sockets st)) (readers st ++ [(s, (cid, a))])
                     (datagrams st) (tx st), Some s)
          else (st, None)
      end
  end.

(** What a reader task queues when its socket receives [datagram]; [recv]
    truncates to the [UDP_MTU]-byte buffer. *)
Definition reader_on_recv (cid : Z) (a : DstAddr) (datagram : bytes) : bytes :=
  serialise_frame (mkFrame FLAG_DATA cid (Some a) (take (Z.to_nat UDP_MTU) datagram)).

Definition dst_port (a : DstAddr) : Z :=
  match a with V4 _ _ _ _ p | V6 _ p | Domain _ p => p end.

Definition handle_frame (net : NetOutcome) (f : Frame) (st : UdpgwState) : UdpgwState :=
  if has_flag (flags f) FLAG_KEEPALIVE then
    queue (serialise_frame (mkFrame FLAG_KEEPALIVE (conn_id f) None [])) st
  else if negb (has_flag (flags f) FLAG_DATA) then st
  else match addr f with
  | None => queue (serialise_err (conn_id f)) st
  | Some dst =>
      if (dst_port dst =? 443) || (dst_port dst =? 53) then
        queue (serialise_err (conn_id f)) st
      else match to_socket_addr net dst with
      | None => queue (serialise_err (conn_id f)) st
      | Some dst_addr =>
          match get_or_create_socket net (conn_id f) dst_addr dst st with
          | (st', None) => queue (serialise_err (conn_id f)) st'
          | (st', Some sock) =>
              if net_send net then
                mkUdpgw (sockets st') (readers st') (datagrams st' ++ [(sock, payload f)]) (tx st')
              else queue (serialise_err (conn_id f)) st'
          end
      end
  end.

(** The inner loop of [udpgw_server_task] on the accumulated buffer: the
    buffer it leaves and the frames it parsed, in order. *)
Fixpoint parse_loop (fuel : nat) (buf : bytes) : bytes * list Frame :=
  match fuel with
  | O => (buf, [])
  | S fuel' =>
      match try_parse_frame buf with
      | Ok (Some (frame, consumed)) =>
          let (rest, frames) := parse_loop fuel' (zdrop consumed buf) in
          (rest, frame :: frames)
      | Ok None => (if BUF_MAX <=? len buf then [] else buf, [])
      | Err _ =>
          match buf with
          | h1 :: h0 :: _ =>
              let skip := 2 + u16_from_be h1 h0 in
              (zdrop (Z.min skip (len buf)) buf, [])
          | _ => ([], [])
          end
      end
  end.

(** One turn of the outer loop: a read of [chunk] is appended and the buffer
    parsed.  Every parsed frame takes at least two bytes, so the length of
    the buffer is enough fuel. *)
Definition feed (buf chunk : bytes) : bytes * list Frame :=
  let buf' := buf ++ chunk in parse_loop (S (length buf')) buf'.

Fixpoint handle_frames (nets : nat → NetOutcome) (n : nat) (fs : list Frame)
    (st : UdpgwState) : UdpgwState :=
  match fs with
  | [] => st
  | f :: fs' => handle_frames nets (S n) fs' (handle_frame (nets n) f st)
  end.

(** [udpgw_server_task] over the chunks its reads return: the bytes left in
    the buffer, the frames handled so far and the session state. *)
Fixpoint udpgw_server_task (nets : nat → NetOutcome) (chunks : list bytes)
    (buf : bytes) (handled : list Frame) (st : UdpgwState) : bytes * list Frame * UdpgwState :=
  match chunks with
  | [] => (buf, handled, st)
  | chunk :: chunks' =>
      let (buf', fs) := feed buf chunk in
      udpgw_server_task nets chunks' buf' (handled ++ fs)
        (handle_frames nets (length handled) fs st)
  end.

(** ** Well-formed frames *)

Definition wf_addr (a : DstAddr) : Prop :=
  match a with
  | V4 _ _ _ _ p => is_u16 p
  | V6 o p => len o = 16 ∧ is_u16 p
  | Domain n p => utf8_valid n = true ∧ len n ≤ 255 ∧ is_u16 p
  end.

Definition addr_len (o : option DstAddr) : Z :=
  match o with Some a => serialised_len a | None => 0 end.

Definition wf_frame (f : Frame) : Prop :=
  is_u16 (conn_id f)
  ∧ match addr f with
    | None => has_flag (flags f) FLAG_DATA = false
    | Some a => has_flag (flags f) FLAG_DATA = true ∧ wf_addr a
    end
  ∧ 3 + addr_len (addr f) + len (payload f) < u16_mod.

(** ** The codec *)

Lemma write_to_len a : wf_addr a → len (write_to a) = serialised_len a.
Proof.
  destruct a; simpl; unfold u16_to_be; intros H; autorewrite with len; [|destruct H|]; lia.
Qed.

Lemma parse_write_to a rest :
  wf_addr a → parse_addr (write_to a ++ rest) = Ok (a, serialised_len a).
Proof.
  destruct a as [a b c d p|o p|n p]; intros Hwf.
  - simpl in *. by rewrite u16_be_roundtrip.
  - destruct Hwf as [Ho Hp]. simpl. rewrite <-(app_assoc o). simpl.
    rewrite !len_cons, !len_app, !len_cons, Ho.
    pose proof (len_nonneg rest). if_false.
    rewrite zdrop_app_eq, ztake_app_eq by lia. by rewrite u16_be_roundtrip.
  - destruct Hwf as (Hv & Hl & Hp). simpl. rewrite <-(app_assoc n). simpl.
    pose proof (len_nonneg n). pose proof (len_nonneg rest).
    rewrite byte_val_of, Z.mod_small by lia.
    autorewrite with len.
    if_false.
    rewrite zdrop_app_len, ztake_app_len, u16_be_roundtrip, from_utf8_lossy_valid by done.
    done.
Qed.

Lemma u16_to_be_len n : len (u16_to_be n) = 2.
Proof. reflexivity. Qed.

(** The bytes after the two-byte length header. *)
Definition frame_body (f : Frame) : bytes :=
  flags f :: u16_to_be (conn_id f)
  ++ match addr f with Some a => write_to a | None => [] end ++ payload f.

Lemma serialise_frame_eq f :
  wf_frame f → serialise_frame f = u16_to_be (len (frame_body f)) ++ frame_body f.
Proof.
  intros (Hc & Ha & Hl). unfold serialise_frame, frame_body. fold (addr_len (addr f)).
  assert (E : len (flags f :: u16_to_be (conn_id f) ++
    match addr f with Some a => write_to a | None => [] end ++ payload f)
    = 1 + 2 + addr_len (addr f) + len (payload f)).
  { rewrite len_cons, !len_app, u16_to_be_len.
    destruct (addr f) as [a|]; simpl; [|rewrite len_nil; lia].
    destruct Ha. rewrite write_to_len by done. lia. }
  rewrite E, Z.mod_small; [done|].
  pose proof (len_nonneg (payload f)).
  assert (0 ≤ addr_len (addr f)); [|lia].
  destruct (addr f) as [[]|]; simpl; try lia. pose proof (len_nonneg name). lia.
Qed.

Lemma frame_body_len f : wf_frame f → 3 ≤ len (frame_body f) < 65536.
Proof.
  intros (Hc & Ha & Hl). unfold frame_body. rewrite len_cons, !len_app, u16_to_be_len.
  pose proof (len_nonneg (payload f)). unfold u16_mod in Hl.
  destruct (addr f) as [a|]; simpl in *.
  - destruct Ha as [_ Ha]. rewrite write_to_len by done. pose proof (len_nonneg (write_to a)).
    rewrite write_to_len in * by done. lia.
  - rewrite len_nil. lia.
Qed.

Lemma parse_frame_body f : wf_frame f → parse_body (frame_body f) = Ok f.
Proof.
  intros (Hc & Ha & Hl). unfold frame_body. simpl. rewrite u16_be_roundtrip by done.
  destruct f as [fl cid [a|] p]; simpl in *.
  - destruct Ha as [-> Ha]. rewrite parse_write_to by done.
    rewrite <-write_to_len, zdrop_app_len by done. done.
  - by rewrite Ha.
Qed.

Lemma serialise_frame_len f : wf_frame f → 5 ≤ len (serialise_frame f) < 65538.
Proof.
  intros H. rewrite serialise_frame_eq, len_app, u16_to_be_len by done.
  pose proof (frame_body_len f H). lia.
Qed.

Lemma try_parse_complete f rest :
  wf_frame f →
  try_parse_frame (serialise_frame f ++ rest) = Ok (Some (f, len (serialise_frame f))).
Proof.
  intros H. pose proof (frame_body_len f H) as Hb.
  rewrite serialise_frame_eq by done. unfold u16_to_be. cbn [app try_parse_frame].
  rewrite u16_be_roundtrip by (unfold is_u16, u16_mod; lia).
  autorewrite with len.
  pose proof (len_nonneg rest).
  if_false.
  rewrite ztake_app_len, parse_frame_body by done. do 3 f_equal. lia.
Qed.

(** A strict prefix of a frame never parses and never fails. *)
Lemma try_parse_incomplete f buf rest :
  wf_frame f → buf ++ rest = serialise_frame f → rest ≠ [] → try_parse_frame buf = Ok None.
Proof.
  intros H E Hr. pose proof (frame_body_len f H) as Hb.
  destruct buf as [|h1 [|h0 buf]]; try done.
  assert (El : len (h1 :: h0 :: buf) < len (serialise_frame f)).
  { rewrite <-E, len_app. destruct rest; [done|]. rewrite (len_cons b).
    pose proof (len_nonneg rest). lia. }
  rewrite serialise_frame_eq in E, El by done. unfold u16_to_be in E, El.
  simpl in E. injection E as -> -> E. unfold try_parse_frame.
  rewrite u16_be_roundtrip by (unfold is_u16, u16_mod; lia).
  destruct (Z.ltb_spec (len (byte_of (len (frame_body f) / 256)
    :: byte_of (len (frame_body f)) :: buf)) (2 + len (frame_body f))); [done|].
  autorewrite with len in *. lia.
Qed.

(** Bytes consumed by a parsed frame: at least the header and the fixed
    part, at most what was buffered. *)
Lemma try_parse_consumed buf f n :
  try_parse_frame buf = Ok (Some (f, n)) → 5 ≤ n ≤ len buf ∧ n < 65538.
Proof.
  unfold try_parse_frame. destruct buf as [|h1 [|h0 tail]]; try done.
  pose proof (u16_from_be_range h1 h0) as Hr.
  destruct (Z.ltb_spec (len (h1 :: h0 :: tail)) (2 + u16_from_be h1 h0)); [done|].
  autorewrite with len in *.
  destruct (parse_body (ztake (u16_from_be h1 h0) tail)) as [g|] eqn:E; [|done].
  intros [= <- <-]. split; [|lia]. split; [|lia].
  destruct (Z.le_gt_cases 3 (u16_from_be h1 h0)); [lia|]. exfalso.
  assert (Hl : len (ztake (u16_from_be h1 h0) tail) < 3)
    by (rewrite len_ztake by lia; lia).
  destruct (ztake (u16_from_be h1 h0) tail) as [|b0 [|b1 [|b2 r]]]; try done.
  autorewrite with len in Hl. pose proof (len_nonneg r). lia.
Qed.

Lemma try_parse_need_more buf : try_parse_frame buf = Ok None → len buf < 65537.
Proof.
  unfold try_parse_frame. destruct buf as [|h1 [|h0 tail]]; try (unfold len; simpl; lia).
  pose proof (u16_from_be_range h1 h0) as Hr.
  destruct (Z.ltb_spec (len (h1 :: h0 :: tail)) (2 + u16_from_be h1 h0)); [lia|].
  by destruct (parse_body _).
Qed.

(** ** Properties of the codec *)

(** Encoding then decoding a well-formed frame gives the frame back and
    consumes exactly its bytes, whatever follows it in the buffer. *)
Theorem udpgw_frame_roundtrip (f : Frame) (rest : bytes) :
  wf_frame f →
  try_parse_frame (serialise_frame f ++ rest) = Ok (Some (f, len (serialise_frame f))).
Proof. apply try_parse_complete. Qed.

Definition sample_frame : Frame :=
  mkFrame FLAG_DATA 7 (Some (Domain (bs "example.org") 5222)) (bs "hello").

Lemma udpgw_frame_roundtrip_witness :
  wf_frame sample_frame
  ∧ try_parse_frame (serialise_frame sample_frame ++ bs "tail")
    = Ok (Some (sample_frame, len (serialise_frame sample_frame))).
Proof.
  assert (H : wf_frame sample_frame) by (vm_compute; intuition congruence).
  split; [exact H|]. exact (udpgw_frame_roundtrip sample_frame (bs "tail") H).
Defined.

(** A reply a reader task queues for a datagram decodes, on the client
    side, to a DATA frame with the connection id and address the client used
    and the datagram cut to the 10 240-byte receive buffer. *)
Theorem udpgw_reader_reply_decodes (cid : Z) (a : DstAddr) (datagram rest : bytes) :
  is_u16 cid → wf_addr a →
  ∃ n, try_parse_frame (reader_on_recv cid a datagram ++ rest)
       = Ok (Some (mkFrame FLAG_DATA cid (Some a) (take (Z.to_nat UDP_MTU) datagram), n)).
Proof.
  intros Hc Ha. eexists. apply try_parse_complete.
  split_and!; simpl; [done|split; [reflexivity|done]|].
  assert (len (take (Z.to_nat UDP_MTU) datagram) ≤ UDP_MTU)
    by (unfold len, UDP_MTU; rewrite length_take; lia).
  unfold UDP_MTU, u16_mod in *. destruct a; simpl in *; [lia|lia|].
  destruct Ha as (_ & ? & _). lia.
Qed.

Lemma udpgw_reader_reply_decodes_witness :
  ∃ n, try_parse_frame (reader_on_recv 9 (V4 x08 x08 x08 x08 3478) (bs "stun") ++ [])
       = Ok (Some (mkFrame FLAG_DATA 9 (Some (V4 x08 x08 x08 x08 3478))
                     (take (Z.to_nat UDP_MTU) (bs "stun")), n)).
Proof. apply udpgw_reader_reply_decodes; split; vm_compute; congruence. Defined.

(** ** Stream reassembly *)

Definition encode_all (fs : list Frame) : bytes := concat (serialise_frame <$> fs).

Lemma encode_all_cons f fs : encode_all (f :: fs) = serialise_frame f ++ encode_all fs.
Proof. reflexivity. Qed.

Lemma parse_loop_prefix fs : ∀ fuel buf rest,
  Forall wf_frame fs → buf ++ rest = encode_all fs → (length buf < fuel)%nat →
  ∃ done todo, fs = done ++ todo
    ∧ (parse_loop fuel buf).2 = done
    ∧ (parse_loop fuel buf).1 ++ rest = encode_all todo
    ∧ (rest = [] → todo = []).
Proof.
  induction fs as [|f fs IH]; intros fuel buf rest Hwf E Hf.
  - unfold encode_all in E. simpl in E. apply app_eq_nil in E as [-> ->].
    exists [], []. destruct fuel; done.
  - destruct fuel as [|fuel]; [lia|].
    apply Forall_cons in Hwf as [Hf' Hwf]. pose proof (serialise_frame_len f Hf') as Hlen.
    rewrite encode_all_cons in E.
    destruct (decide (length (serialise_frame f) ≤ length buf)%nat) as [Hle|Hgt].
    + assert (Hb : buf = serialise_frame f ++ drop (length (serialise_frame f)) buf).
      { rewrite <-(take_drop (length (serialise_frame f)) buf) at 1. f_equal.
        apply (f_equal (take (length (serialise_frame f)))) in E.
        by rewrite (take_app_le buf), take_app_length in E by lia. }
      remember (drop (length (serialise_frame f)) buf) as buf2. subst buf.
      rewrite <-app_assoc in E. apply app_inv_head in E.
      assert ((length buf2 < fuel)%nat)
        by (rewrite length_app in Hf; unfold len in Hlen; lia).
      destruct (IH fuel buf2 rest Hwf E) as (d & t & Hfs & Hp2 & Hp1 & Hr); [done|].
      exists (f :: d), t. cbn [parse_loop].
      rewrite try_parse_complete, zdrop_app_len by done.
      destruct (parse_loop fuel buf2) as [b frs]. simpl in *. by subst.
    + assert (Hs : ∃ k, k ≠ [] ∧ buf ++ k = serialise_frame f).
      { exists (drop (length buf) (serialise_frame f)). split.
        - intros Hn. apply (f_equal length) in Hn. rewrite length_drop in Hn. change (length []) with 0%nat in Hn. lia.
        - rewrite <-(take_drop (length buf) (serialise_frame f)) at 2. f_equal.
          apply (f_equal (take (length buf))) in E.
          by rewrite take_app_length, (take_app_le (serialise_frame f)) in E by lia. }
      destruct Hs as (k & Hk & Ek). exists [], (f :: fs). cbn [parse_loop].
      rewrite (try_parse_incomplete f buf k) by done.
      assert (len buf < 65538) by (unfold len in *; lia). unfold BUF_MAX. if_false.
      split_and!; [done|done|done|].
      intros ->. rewrite app_nil_r in E. subst buf. rewrite length_app in Hgt. lia.
Qed.

Lemma udpgw_server_reassembles nets chunks : ∀ fs buf handled st,
  Forall wf_frame fs → buf ++ concat chunks = encode_all fs →
  (chunks = [] → fs = []) →
  let '(rem, handled', _) := udpgw_server_task nets chunks buf handled st in
  rem = [] ∧ handled' = handled ++ fs.
Proof.
  induction chunks as [|c cs IH]; intros fs buf handled st Hwf E Hnil.
  - simpl in *. rewrite Hnil in * by done. rewrite app_nil_r in E. by rewrite app_nil_r.
  - simpl in E. rewrite app_assoc in E. simpl. unfold feed.
    destruct (parse_loop_prefix fs (S (length (buf ++ c))) (buf ++ c) (concat cs))
      as (d & t & Hfs & Hp2 & Hp1 & Hr); [done|done|lia|].
    destruct (parse_loop (S (length (buf ++ c))) (buf ++ c)) as [b frs]. simpl in *.
    subst frs fs. apply Forall_app in Hwf as [_ Hwf].
    specialize (IH t b (handled ++ d) (handle_frames nets (length handled) d st) Hwf Hp1).
    destruct (udpgw_server_task _ _ _ _ _) as [[l h] s].
    rewrite <-app_assoc in IH. apply IH. intros ->. by apply Hr.
Qed.

(** C7: however the reads cut the byte stream, the server handles exactly
    the frames the client encoded, each once and in order, and ends with an
    empty buffer. *)
Theorem udpgw_stream_reassembly (nets : nat → NetOutcome) (fs : list Frame) (chunks : list bytes) :
  Forall wf_frame fs → concat chunks = encode_all fs → chunks ≠ [] →
  let '(rem, handled, _) := udpgw_server_task nets chunks [] [] udpgw_init in
  rem = [] ∧ handled = fs.
Proof.
  intros Hwf E Hne.
  exact (udpgw_server_reassembles nets chunks fs [] [] udpgw_init Hwf E (λ Hn, False_ind _ (Hne Hn))).
Qed.

Definition net_ok : nat → NetOutcome := λ n, mkNet (Some []) (Some n) true true.

Lemma udpgw_stream_reassembly_witness :
  let chunks := [take 3 (encode_all [sample_frame; sample_frame]);
                 drop 3 (encode_all [sample_frame; sample_frame])] in
  let '(rem, handled, _) := udpgw_server_task net_ok chunks [] [] udpgw_init in
  rem = [] ∧ handled = [sample_frame; sample_frame].
Proof.
  apply udpgw_stream_reassembly; [|reflexivity|done].
  repeat constructor; vm_compute; intuition congruence.
Defined.

(** ** The accumulation buffer *)

(** Whenever the server waits for more bytes it holds less than one
    maximal frame, so the [BUF_MAX] overflow branch, which sits on that
    path only, never clears the buffer. *)
Theorem udpgw_overflow_guard_never_fires (buf : bytes) :
  try_parse_frame buf = Ok None → (BUF_MAX <=? len buf) = false.
Proof.
  intros H. apply try_parse_need_more in H. apply Z.leb_gt. unfold BUF_MAX. lia.
Qed.

Lemma udpgw_overflow_guard_witness :
  try_parse_frame [x00; x09; x02] = Ok None ∧ (BUF_MAX <=? len [x00; x09; x02]) = false.
Proof. split; [reflexivity|]. apply udpgw_overflow_guard_never_fires. reflexivity. Defined.

(** A read of zero bytes values is a run of empty frames, each malformed. *)
Lemma feed_zeros n m :
  (1 ≤ n + m)%nat →
  feed (replicate n x00) (replicate (S m) x00) = (replicate (n + m - 1) x00, []).
Proof.
  intros Hnm. unfold feed. rewrite <-replicate_add.
  replace (n + S m)%nat with (S (S (n + m - 1)))%nat by lia.
  cbn [replicate length parse_loop try_parse_frame].
  change (u16_from_be x00 x00) with 0. autorewrite with len.
  pose proof (len_nonneg (replicate (n + m - 1) x00)). if_false.
  change (parse_body (ztake 0 (replicate (n + m - 1) x00))) with (@Err Frame _ FrameTooShort).
  cbn iota. rewrite Z.min_l by lia. reflexivity.
Qed.

Lemma udpgw_zeros_accumulate nets m k : ∀ n handled st,
  (1 ≤ m)%nat →
  (udpgw_server_task nets (replicate k (replicate (S m) x00)) (replicate n x00) handled st).1.1
  = replicate (n + k * (m - 1)) x00.
Proof.
  induction k as [|k IH]; intros n handled st Hm; cbn [replicate udpgw_server_task].
  - simpl. by rewrite Nat.add_0_r.
  - change (x00 :: replicate m x00) with (replicate (S m) x00).
    rewrite feed_zeros by lia. rewrite IH by done. f_equal. lia.
Qed.

(** A malformed frame is skipped without looking at the rest of the
    buffer and without the [BUF_MAX] check, so a client that sends zeros
    makes the accumulation buffer grow past any bound. *)
Theorem udpgw_corrupt_stream_unbounded (nets : nat → NetOutcome) (bound : nat) :
  ∃ chunks : list bytes,
    Forall (λ c, len c = 65536) chunks
    ∧ Z.of_nat bound < len (udpgw_server_task nets chunks [] [] udpgw_init).1.1.
Proof.
  exists (replicate (S bound) (replicate (S (Z.to_nat 65535)) x00)). split.
  - apply Forall_replicate. unfold len. rewrite length_replicate. lia.
  - change [] with (replicate 0 x00) at 1. rewrite udpgw_zeros_accumulate by lia.
    unfold len. rewrite length_replicate. nia.
Qed.

(** ** Frame handling *)

(** A DATA frame for UDP port 443 (QUIC) or 53 (DNS) is refused: it
    binds no socket, sends no datagram and is answered with an ERR frame of
    its connection. *)
Theorem udpgw_quic_dns_refused (net : NetOutcome) (f : Frame) (a : DstAddr) (st : UdpgwState) :
  has_flag (flags f) FLAG_KEEPALIVE = false → has_flag (flags f) FLAG_DATA = true →
  addr f = Some a → dst_port a = 443 ∨ dst_port a = 53 →
  handle_frame net f st
  = mkUdpgw (sockets st) (readers st) (datagrams st) (tx st ++ [serialise_err (conn_id f)]).
Proof.
  intros Hk Hd Ha Hp. unfold handle_frame. rewrite Hk, Hd, Ha. simpl.
  by destruct Hp as [-> | ->].
Qed.

Lemma udpgw_quic_dns_refused_witness :
  handle_frame (net_ok 0) (mkFrame FLAG_DATA 3 (Some (V4 x08 x08 x08 x08 443)) (bs "q")) udpgw_init
  = mkUdpgw ∅ [] [] ([] ++ [serialise_err 3]).
Proof.
  apply (udpgw_quic_dns_refused (net_ok 0)
    (mkFrame FLAG_DATA 3 (Some (V4 x08 x08 x08 x08 443)) (bs "q")) (V4 x08 x08 x08 x08 443));
    first [reflexivity | left; reflexivity].
Defined.

Lemma get_or_create_socket_stable net cid dst a st k s :
  sockets st !! k = Some s → sockets (get_or_create_socket net cid dst a st).1 !! k = Some s.
Proof.
  intros H. unfold get_or_create_socket.
  destruct (sockets st !! (cid, dst)) eqn:E; [done|].
  destruct (net_bind net); [|done]. destruct (net_connect net); [|done]. simpl.
  rewrite lookup_insert_ne; [done|]. intros <-. congruence.
Qed.

Lemma handle_frame_stable net f st k s :
  sockets st !! k = Some s → sockets (handle_frame net f st) !! k = Some s.
Proof.
  intros H. unfold handle_frame.
  do 2 (case_if; [done|]). destruct (addr f) as [a|]; [|done]. case_if; [done|].
  destruct (to_socket_addr net a) as [d|]; [|done].
  pose proof (get_or_create_socket_stable net (conn_id f) d a st k s H) as Hs.
  destruct (get_or_create_socket net (conn_id f) d a st) as [st' [sock|]]; [|done].
  by destruct (net_send net).
Qed.

(** A connection keeps its UDP socket, hence its source port: once
    [(conn_id, destination)] has a socket, no sequence of frames replaces or
    drops it, and a later datagram to it that the system accepts leaves
    through that same socket. *)
Theorem udpgw_socket_stable (nets : nat → NetOutcome) (n : nat) (fs : list Frame)
    (st : UdpgwState) (cid : Z) (dst : SocketAddr) (s : nat) :
  sockets st !! (cid, dst) = Some s →
  let st' := handle_frames nets n fs st in
  sockets st' !! (cid, dst) = Some s
  ∧ ∀ net f a, has_flag (flags f) FLAG_KEEPALIVE = false → has_flag (flags f) FLAG_DATA = true →
      conn_id f = cid → addr f = Some a → dst_port a ≠ 443 → dst_port a ≠ 53 →
      to_socket_addr net a = Some dst → net_send net = true →
      datagrams (handle_frame net f st') = datagrams st' ++ [(s, payload f)].
Proof.
  intros H st'. assert (H' : sockets st' !! (cid, dst) = Some s).
  { subst st'. revert n st H. induction fs as [|f fs IH]; intros n st H; [done|].
    simpl. apply IH. by apply handle_frame_stable. }
  split; [done|]. intros net f a Hk Hd Hc Ha Hp1 Hp2 Ht Hsend.
  unfold handle_frame. rewrite Hk, Hd, Ha, Ht, Hc, Hsend. simpl.
  apply Z.eqb_neq in Hp1 as ->. apply Z.eqb_neq in Hp2 as ->. simpl.
  unfold get_or_create_socket. by rewrite H'.
Qed.

Definition voip_addr : DstAddr := V4 x0a x00 x00 x01 3478.
Definition voip_frame : Frame := mkFrame FLAG_DATA 5 (Some voip_addr) (bs "rtp").

Lemma udpgw_socket_stable_witness :
  let st := handle_frame (net_ok 4) voip_frame udpgw_init in
  sockets (handle_frames net_ok 5 [voip_frame; sample_frame] st)
    !! (5, SockV4 [x0a; x00; x00; x01] 3478) = Some 4%nat.
Proof.
  apply (udpgw_socket_stable net_ok 5 [voip_frame; sample_frame]). vm_compute. reflexivity.
Defined.
