(* ===== verification/NodeSession.v ===== *)
(** * The tunnel node's sessions (tunnel-node/src/main.rs)

    A TCP session's shared state [SessionInner] with the operations that
    touch it: the reader task, [drain_now], [wait_and_drain] and the
    sequence-ordered upload of the batch handler's [data] op; and the UDP
    analogue, a bounded queue of datagrams.  The reader task and the drains
    run concurrently: [Pump] is their interleaving as a step relation, at the
    granularity of one atomic or one critical section per step. *)

From Stdlib Require Import Strings.Byte.
From S2P Require Import Prelude RustBytes.

(** ** Constants *)

Definition UDP_QUEUE_LIMIT : Z := 256.
Definition UDP_RECV_BUF_BYTES : Z := 65536.
Definition READ_BUF_CAP : Z := 32 * 1024 * 1024.
Definition TCP_DRAIN_MAX_BYTES : Z := 16 * 1024 * 1024.
(** The reader task's buffer, [vec![0u8; 2 * 1024 * 1024]]. *)
Definition READER_CHUNK : Z := 2 * 1024 * 1024.

(** ** State

    [writer] is what the upstream writer was given: the argument of every
    [write_all], in order (the sequenced path ignores its result).
    [last_active] is an [Instant] in milliseconds.  [notify] and
    [drain_notify] are the permits the two [Notify]s store.
    [pending_writes] is the [BTreeMap]: an association list in increasing
    key order. *)
Record SessionInner := mk_inner {
  writer : list bytes;
  read_buf : bytes;
  eof : bool;
  last_active : Z;
  buf_len : Z;
  notify : bool;
  drain_notify : bool;
  next_write_seq : option Z;
  pending_writes : list (Z * bytes)
}.

Definition new_inner (now : Z) : SessionInner :=
  mk_inner [] [] false now 0 false false None [].

Definition set_writer w s := mk_inner w (read_buf s) (eof s) (last_active s) (buf_len s)
  (notify s) (drain_notify s) (next_write_seq s) (pending_writes s).
(** [read_buf] is replaced under its lock and [buf_len] stored before the
    guard is dropped, everywhere in the source. *)
Definition set_read_buf b s := mk_inner (writer s) b (eof s) (last_active s) (len b)
  (notify s) (drain_notify s) (next_write_seq s) (pending_writes s).
Definition set_eof s := mk_inner (writer s) (read_buf s) true (last_active s) (buf_len s)
  (notify s) (drain_notify s) (next_write_seq s) (pending_writes s).
Definition set_last_active t s := mk_inner (writer s) (read_buf s) (eof s) t (buf_len s)
  (notify s) (drain_notify s) (next_write_seq s) (pending_writes s).
Definition set_notify p s := mk_inner (writer s) (read_buf s) (eof s) (last_active s) (buf_len s)
  p (drain_notify s) (next_write_seq s) (pending_writes s).
Definition set_drain_notify p s := mk_inner (writer s) (read_buf s) (eof s) (last_active s)
  (buf_len s) (notify s) p (next_write_seq s) (pending_writes s).
Definition set_write_seq n p s := mk_inner (writer s) (read_buf s) (eof s) (last_active s)
  (buf_len s) (notify s) (drain_notify s) n p.

(** ** Draining *)

(** The critical section of [drain_now]: what is taken, and whether a tail
    was left behind. *)
Definition take_buf (cap : Z) (s : SessionInner) : bytes * bool * SessionInner :=
  if len (read_buf s) <=? cap then (read_buf s, false, set_read_buf [] s)
  else (ztake cap (read_buf s), true, set_read_buf (zdrop cap (read_buf s)) s).

Definition drain_cap (max_bytes : Z) : Z := Z.min max_bytes TCP_DRAIN_MAX_BYTES.

(** [drain_now], run without interference. *)
Definition drain_now (s : SessionInner) (max_bytes : Z) : bytes * bool * SessionInner :=
  let raw_eof := eof s in
  let cap := drain_cap max_bytes in
  let '(drained, was_partial, s) := take_buf cap s in
  let s := set_drain_notify true s in
  (drained, (if was_partial then false else raw_eof), s).

(** One turn of the polling loop of [wait_and_drain]: the buffer length and
    eof flag it observes and the clock at its two readings. *)
Record Poll := mk_poll { poll_len : Z; poll_eof : bool; poll_now : Z }.

(** The polling loop: how many turns it makes before it leaves (all the
    given ones when none satisfies an exit condition). *)
Fixpoint wait_loop (polls : list Poll) (deadline prev_len last_growth : Z)
    (ever_had_data : bool) : nat :=
  match polls with
  | [] => 0
  | p :: polls' =>
      let grew := prev_len <? poll_len p in
      let last_growth := if grew then poll_now p else last_growth in
      let prev_len := if grew then poll_len p else prev_len in
      let ever_had_data := ever_had_data || grew in
      if poll_eof p then 1
      else if deadline <=? poll_now p then 1
      else if ever_had_data && (100 <? poll_now p - last_growth) then 1
      else S (wait_loop polls' deadline prev_len last_growth ever_had_data)
  end.

(** The drain after the loop: everything that is buffered. *)
Definition wait_and_drain (s : SessionInner) : bytes * bool * SessionInner :=
  let data := read_buf s in
  let s := set_read_buf [] s in
  (data, eof s, set_drain_notify true s).

(** [is_any_drainable]. *)
Definition drainable (s : SessionInner) : bool := eof s || negb (bool_decide (read_buf s = [])).
Definition is_any_drainable (inners : list SessionInner) : bool := existsb drainable inners.

(** ** Sequence-ordered uploads *)

(** [BTreeMap::insert]: replaces the value of an equal key. *)
Fixpoint bt_insert {V} (k : Z) (v : V) (m : list (Z * V)) : list (Z * V) :=
  match m with
  | [] => [(k, v)]
  | (k', v') :: m' =>
      if k <? k' then (k, v) :: m
      else if k =? k' then (k, v) :: m'
      else (k', v') :: bt_insert k v m'
  end.

(** The [while let Some(entry) = pw.first_entry()] loop. *)
Fixpoint flush_pending (w : list bytes) (expected : Z) (pw : list (Z * bytes))
    : list bytes * Z * list (Z * bytes) :=
  match pw with
  | [] => (w, expected, [])
  | (k, buffered) :: pw' =>
      if negb (k =? expected) then (w, expected, pw)
      else flush_pending (w ++ [buffered]) (wadd64 expected 1) pw'
  end.

(** The [match op.wseq] of the [data] op, for a non-empty payload. *)
Definition write_data (wseq : option Z) (payload : bytes) (s : SessionInner) : SessionInner :=
  match wseq with
  | None => set_writer (writer s ++ [payload]) s
  | Some wseq =>
      let expected := default wseq (next_write_seq s) in
      if wseq <? expected then set_write_seq (Some expected) (pending_writes s) s
      else if wseq =? expected then
        let '(w, expected, pw) :=
          flush_pending (writer s ++ [payload]) (wadd64 expected 1) (pending_writes s) in
        set_write_seq (Some expected) pw (set_writer w s)
      else set_write_seq (Some expected) (bt_insert wseq payload (pending_writes s)) s
  end.

(** ** UDP sessions *)

Record UdpSessionInner := mk_udp {
  sent : list bytes;
  packets : list bytes;
  udp_last_active : Z;
  udp_notify : bool;
  udp_eof : bool;
  pkt_count : Z;
  queue_drops : Z
}.

Definition new_udp_inner (now : Z) : UdpSessionInner := mk_udp [] [] now false false 0 0.

(** What [socket.recv] gives the reader: a datagram, cut to the receive
    buffer, or an error. *)
Inductive Recv := RecvOk (d : bytes) | RecvErr.

(** The [Ok(n)] arm: queue the datagram [&buf[..n]], dropping the oldest one
    when the queue is full. *)
Definition udp_enqueue (now : Z) (d : bytes) (s : UdpSessionInner) : UdpSessionInner :=
  let '(q, drops) :=
    if UDP_QUEUE_LIMIT <=? len (packets s)
    then (tail (packets s), wadd64 (queue_drops s) 1)
    else (packets s, queue_drops s) in
  let q := q ++ [d] in
  mk_udp (sent s) q now true (udp_eof s) (len q) drops.

(** One turn of [udp_reader_task], and whether the task goes on. *)
Definition udp_reader_step (now : Z) (r : Recv) (s : UdpSessionInner)
    : UdpSessionInner * bool :=
  match r with
  | RecvErr =>
      (mk_udp (sent s) (packets s) (udp_last_active s) true true (pkt_count s) (queue_drops s),
       false)
  | RecvOk d =>
      let d := ztake UDP_RECV_BUF_BYTES d in
      if len d =? 0 then (s, true) else (udp_enqueue now d s, true)
  end.

Definition drain_udp_now (s : UdpSessionInner) : list bytes * bool * UdpSessionInner :=
  (packets s, udp_eof s,
   mk_udp (sent s) [] (udp_last_active s) (udp_notify s) (udp_eof s) 0 (queue_drops s)).

Definition udp_drainable (s : UdpSessionInner) : bool :=
  udp_eof s || negb (bool_decide (packets s = [])).
Definition is_any_udp_drainable (inners : list UdpSessionInner) : bool :=
  existsb udp_drainable inners.

Definition udp_send (d : bytes) (s : UdpSessionInner) : UdpSessionInner :=
  mk_udp (sent s ++ [d]) (packets s) (udp_last_active s) (udp_notify s) (udp_eof s)
    (pkt_count s) (queue_drops s).
Definition udp_set_last_active (t : Z) (s : UdpSessionInner) : UdpSessionInner :=
  mk_udp (sent s) (packets s) t (udp_notify s) (udp_eof s) (pkt_count s) (queue_drops s).

(** ** The reader task and the drains, interleaved

    [reader_task] by program point.  [RParked] is the await on
    [drain_notify]; [RGot] holds bytes read from the socket and not yet
    appended; [RNotify] and [REof] are between the state change and the
    [notify_one] that follows it. *)
Module Pump.

Inductive ReaderPc :=
  | RCheck
  | RParked
  | RReading
  | RGot (chunk : bytes)
  | RNotify
  | REof
  | RDone.

(** A drain by program point: before the eof load, between the load and the
    critical section, between the critical section and [drain_notify], and
    returned.  [wait_and_drain] takes the buffer and loads eof under one
    lock. *)
Inductive DrainPc :=
  | DStart (max_bytes : Z)
  | DLoaded (raw_eof : bool) (max_bytes : Z)
  | WStart
  | DTaken (drained : bytes) (eof : bool)
  | DDone (drained : bytes) (eof : bool).

(** [received] is everything the socket returned so far and [delivered]
    everything the drains took, in the order of their critical sections. *)
Record State := mk_state {
  inner : SessionInner;
  reader : ReaderPc;
  drains : list DrainPc;
  received : bytes;
  delivered : bytes
}.

Definition init (now : Z) : State := mk_state (new_inner now) RCheck [] [] [].

Definition in_flight (pc : ReaderPc) : bytes :=
  match pc with RGot chunk => chunk | _ => [] end.

Inductive step : State → State → Prop :=
  (** reader task *)
  | step_gate s ds r d :
      len (read_buf s) < READ_BUF_CAP →
      step (mk_state s RCheck ds r d) (mk_state s RReading ds r d)
  | step_park s ds r d :
      READ_BUF_CAP ≤ len (read_buf s) →
      step (mk_state s RCheck ds r d) (mk_state s RParked ds r d)
  | step_unpark s ds r d :
      drain_notify s = true →
      step (mk_state s RParked ds r d) (mk_state (set_drain_notify false s) RCheck ds r d)
  | step_read s ds r d chunk :
      0 < len chunk ≤ READER_CHUNK →
      step (mk_state s RReading ds r d) (mk_state s (RGot chunk) ds (r ++ chunk) d)
  | step_push s ds r d chunk :
      step (mk_state s (RGot chunk) ds r d)
           (mk_state (set_read_buf (read_buf s ++ chunk) s) RNotify ds r d)
  | step_notify s ds r d :
      step (mk_state s RNotify ds r d) (mk_state (set_notify true s) RCheck ds r d)
  | step_eof s ds r d :
      step (mk_state s RReading ds r d) (mk_state (set_eof s) REof ds r d)
  | step_eof_notify s ds r d :
      step (mk_state s REof ds r d) (mk_state (set_notify true s) RDone ds r d)
  (** drains *)
  | step_start s pc ds r d max_bytes :
      step (mk_state s pc ds r d) (mk_state s pc (ds ++ [DStart max_bytes]) r d)
  | step_wait s pc ds r d :
      step (mk_state s pc ds r d) (mk_state s pc (ds ++ [WStart]) r d)
  | step_load s pc ds r d i max_bytes :
      ds !! i = Some (DStart max_bytes) →
      step (mk_state s pc ds r d)
           (mk_state s pc (<[i := DLoaded (eof s) max_bytes]> ds) r d)
  | step_take s pc ds r d i raw_eof max_bytes out was_partial s' :
      ds !! i = Some (DLoaded raw_eof max_bytes) →
      take_buf (drain_cap max_bytes) s = (out, was_partial, s') →
      step (mk_state s pc ds r d)
           (mk_state s' pc (<[i := DTaken out (if was_partial then false else raw_eof)]> ds)
              r (d ++ out))
  | step_wait_take s pc ds r d i :
      ds !! i = Some WStart →
      step (mk_state s pc ds r d)
           (mk_state (set_read_buf [] s) pc (<[i := DTaken (read_buf s) (eof s)]> ds)
              r (d ++ read_buf s))
  | step_drain_notify s pc ds r d i out e :
      ds !! i = Some (DTaken out e) →
      step (mk_state s pc ds r d)
           (mk_state (set_drain_notify true s) pc (<[i := DDone out e]> ds) r d).

Definition reachable (now : Z) : State → Prop := rtc step (init now).

(** What a drain knows: a loaded or reported eof is final. *)
Definition drain_ok (st : State) (dp : DrainPc) : Prop :=
  match dp with
  | DLoaded true _ => eof (inner st) = true
  | DTaken _ true | DDone _ true =>
      eof (inner st) = true ∧ delivered st = received st
  | _ => True
  end.

Definition is_taken (dp : DrainPc) : Prop :=
  match dp with DTaken _ _ => True | _ => False end.

Record Inv (st : State) : Prop := {
  inv_stream : received st = delivered st ++ read_buf (inner st) ++ in_flight (reader st);
  inv_buf_len : buf_len (inner st) = len (read_buf (inner st));
  inv_gate : (reader st = RReading ∨ ∃ chunk, reader st = RGot chunk) →
             len (read_buf (inner st)) < READ_BUF_CAP;
  inv_chunk : len (in_flight (reader st)) ≤ READER_CHUNK;
  inv_bound : len (read_buf (inner st)) < READ_BUF_CAP + READER_CHUNK;
  inv_eof : eof (inner st) = true → reader st = REof ∨ reader st = RDone;
  inv_drains : Forall (drain_ok st) (drains st);
  inv_parked : reader st = RParked → drain_notify (inner st) = false →
               READ_BUF_CAP ≤ len (read_buf (inner st)) ∨ Exists is_taken (drains st)
}.

Lemma inv_init now : Inv (init now).
Proof. split; simpl; try done. Qed.
Lemma drain_ok_mono st st' :
  (eof (inner st) = true → eof (inner st') = true) →
  (eof (inner st) = true → delivered st = received st → delivered st' = received st') →
  ∀ dp, drain_ok st dp → drain_ok st' dp.
Proof. intros He Hd [| [] | | ? [] | ? []]; simpl; intuition auto. Qed.

Lemma drain_ok_same st st' ds :
  eof (inner st') = eof (inner st) → delivered st' = delivered st → received st' = received st →
  Forall (drain_ok st) ds → Forall (drain_ok st') ds.
Proof.
  intros He Hd Hr HF. eapply Forall_impl; [exact HF|]. apply drain_ok_mono; congruence.
Qed.

(** A reader that has not seen the end of the stream keeps eof clear. *)
Lemma inv_not_eof st :
  Inv st → reader st ≠ REof → reader st ≠ RDone → eof (inner st) = false.
Proof.
  intros HI H1 H2. destruct (eof (inner st)) eqn:E; [|done].
  destruct (inv_eof _ HI E); done.
Qed.

Lemma drain_ok_no_eof st st' dp :
  eof (inner st) = false → drain_ok st dp → drain_ok st' dp.
Proof. destruct dp as [| [] | | ? [] | ? []]; simpl; intuition congruence. Qed.

Lemma Exists_insert_taken ds i dp dp' :
  ds !! i = Some dp → ¬ is_taken dp → Exists is_taken ds → Exists is_taken (<[i := dp']> ds).
Proof.
  intros Hi Hn. rewrite !Exists_exists. intros (x & Hx & Ht).
  apply list_elem_of_lookup in Hx as [j Hj].
  destruct (decide (i = j)) as [->|Hij].
  { rewrite Hi in Hj. by simplify_eq. }
  exists x. split; [|done]. apply list_elem_of_lookup. exists j.
  by rewrite list_lookup_insert_ne.
Qed.

Lemma Exists_insert_new ds i (dp : DrainPc) out e :
  ds !! i = Some dp → Exists is_taken (<[i := DTaken out e]> ds).
Proof.
  intros Hi. apply Exists_exists. exists (DTaken out e). split; [|exact I].
  apply list_elem_of_lookup. exists i. apply list_lookup_insert_eq.
  by eapply lookup_lt_Some.
Qed.

(** A drain's critical section, common to [drain_now] and
    [wait_and_drain]: it removes a prefix [out] and leaves [rest]. *)
Lemma inv_take s pc ds r d i dp s' out e :
  Inv (mk_state s pc ds r d) →
  ds !! i = Some dp →
  read_buf s = out ++ read_buf s' →
  buf_len s' = len (read_buf s') → eof s' = eof s →
  (e = true → eof s = true ∧ read_buf s' = []) →
  Inv (mk_state s' pc (<[i := DTaken out e]> ds) r (d ++ out)).
Proof.
  intros HI Hi Hb Hl He Hr.
  assert (Hlen : len (read_buf s') ≤ len (read_buf s)).
  { rewrite Hb, len_app. pose proof (len_nonneg out). lia. }
  pose proof (inv_stream _ HI) as Hs. simpl in Hs.
  split; simpl.
  - rewrite Hs, Hb. by rewrite <-!app_assoc.
  - done.
  - intros Hpc. pose proof (inv_gate _ HI Hpc). simpl in *. lia.
  - apply (inv_chunk _ HI).
  - pose proof (inv_bound _ HI). simpl in *. lia.
  - rewrite He. apply (inv_eof _ HI).
  - apply Forall_insert.
    + eapply Forall_impl; [apply (inv_drains _ HI)|]. apply drain_ok_mono; simpl; [congruence|].
      intros _ Hdr. rewrite Hs, Hb in Hdr. rewrite <-(app_nil_r d) in Hdr at 1.
      apply (app_inv_head d) in Hdr. symmetry in Hdr. apply app_eq_nil in Hdr as [Hdr Hf].
      apply app_eq_nil in Hdr as [-> Hr']. rewrite Hs, Hb, Hr', Hf. by rewrite !app_nil_r.
    + destruct e; simpl; [|done]. destruct (Hr eq_refl) as [Heof Hnil].
      split; [congruence|]. rewrite Hs, Hb, Hnil, app_nil_r.
      destruct (inv_eof _ HI Heof) as [Hpc|Hpc]; simpl in Hpc; rewrite Hpc; simpl;
        by rewrite app_nil_r.
  - intros _ _. right. by eapply Exists_insert_new.
Qed.

Lemma take_buf_spec cap s out was_partial s' :
  take_buf cap s = (out, was_partial, s') →
  read_buf s = out ++ read_buf s' ∧ buf_len s' = len (read_buf s') ∧ eof s' = eof s ∧
  (was_partial = false → read_buf s' = []) ∧ len out ≤ Z.max 0 cap.
Proof.
  unfold take_buf. case_if; intros [= <- <- <-]; simpl.
  - rewrite app_nil_r. repeat split; try done. lia.
  - repeat split; try done; [by rewrite ztake_zdrop|].
    unfold len, ztake. rewrite length_take. lia.
Qed.

(** Discharge the clauses of the invariant a step leaves alone. *)
Ltac inv_copy HI :=
  split; simpl;
  try first
    [ done
    | exact (inv_stream _ HI) | exact (inv_buf_len _ HI) | exact (inv_gate _ HI)
    | exact (inv_chunk _ HI) | exact (inv_bound _ HI) | exact (inv_eof _ HI)
    | exact (inv_parked _ HI)
    | by (intros [?|[? ?]])
    | (let HE := fresh in intros HE; by destruct (inv_eof _ HI HE))
    | (eapply drain_ok_same; [| | |exact (inv_drains _ HI)]; reflexivity) ].

(** Every step preserves the invariant. *)
Lemma inv_step st st' : Inv st → step st st' → Inv st'.
Proof.
  intros HI Hs. destruct Hs as
    [s ds r d Hg|s ds r d Hg|s ds r d Hp|s ds r d ch Hc|s ds r d ch|s ds r d|s ds r d|s ds r d
    |s pc ds r d mb|s pc ds r d|s pc ds r d i mb Hi|s pc ds r d i re mb out wp s' Hi Ht
    |s pc ds r d i Hi|s pc ds r d i out e Hi].
  - (* gate *) inv_copy HI.
  - (* park *) inv_copy HI. intros _ _. by left.
  - (* unpark *) inv_copy HI.
  - (* read *)
    pose proof (inv_not_eof _ HI ltac:(done) ltac:(done)) as Hne. simpl in Hne.
    inv_copy HI.
    + pose proof (inv_stream _ HI) as Hst. simpl in Hst. rewrite Hst. by rewrite !app_nil_r, <-app_assoc.
    + intros _. apply (inv_gate _ HI). by left.
    + lia.
    + eapply Forall_impl; [apply (inv_drains _ HI)|]. intros dp.
      by apply (drain_ok_no_eof (mk_state s RReading ds r d)).
  - (* push *)
    pose proof (inv_not_eof _ HI ltac:(done) ltac:(done)) as Hne. simpl in Hne.
    pose proof (inv_gate _ HI (or_intror (ex_intro _ _ eq_refl))).
    pose proof (inv_chunk _ HI). simpl in *.
    inv_copy HI.
    + pose proof (inv_stream _ HI) as Hst. simpl in Hst. rewrite Hst. by rewrite app_nil_r.
    + rewrite len_app. lia.
  - (* notify *) inv_copy HI.
  - (* eof *) inv_copy HI; [by left|].
    eapply Forall_impl; [apply (inv_drains _ HI)|]. by apply drain_ok_mono.
  - (* eof notify *) inv_copy HI. by right.
  - (* start *) inv_copy HI.
    + apply Forall_app. split; [apply (inv_drains _ HI)|]. by repeat constructor.
    + intros Hp Hn. rewrite Exists_app. destruct (inv_parked _ HI Hp Hn); auto.
  - (* wait *) inv_copy HI.
    + apply Forall_app. split; [apply (inv_drains _ HI)|]. by repeat constructor.
    + intros Hp Hn. rewrite Exists_app. destruct (inv_parked _ HI Hp Hn); auto.
  - (* load *) inv_copy HI.
    + apply Forall_insert; [apply (inv_drains _ HI)|]. simpl. by destruct (eof s) eqn:E.
    + intros Hp Hn. destruct (inv_parked _ HI Hp Hn); [by left|right].
      eapply Exists_insert_taken; [exact Hi|intros []|done].
  - (* take *) apply take_buf_spec in Ht as (Hb & Hl & He & Hnp & _).
    eapply inv_take; eauto. destruct wp; [done|]. intros ->.
    split; [|by apply Hnp].
    by apply (Forall_lookup_1 _ _ _ _ (inv_drains _ HI) Hi).
  - (* wait take *) eapply inv_take; eauto; simpl; by rewrite app_nil_r.
  - (* drain notify *) inv_copy HI.
    apply Forall_insert; [apply (inv_drains _ HI)|].
    pose proof (Forall_lookup_1 _ _ _ _ (inv_drains _ HI) Hi) as Hok. by destruct e.
Qed.

Lemma inv_reachable now st : reachable now st → Inv st.
Proof.
  unfold reachable. generalize (inv_init now). generalize (init now).
  intros s0 H0 Hr. induction Hr as [|s1 s2 s3 Hst Hr IH]; [done|].
  apply IH. by eapply inv_step.
Qed.

(** *** Properties of the interleaving *)

(** C5: in every interleaving of the reader task with any number of
    concurrent drains, no byte is lost, duplicated or reordered: what the
    socket returned is what the drains took, then what is buffered, then
    what the reader holds.  A drain that reports eof did so with nothing
    left behind, and the reader has stopped. *)
Theorem pump_stream_integrity now st :
  reachable now st →
  received st = delivered st ++ read_buf (inner st) ++ in_flight (reader st) ∧
  ∀ out, DDone out true ∈ drains st →
    delivered st = received st ∧ read_buf (inner st) = [] ∧
    (reader st = REof ∨ reader st = RDone).
Proof.
  intros HI%inv_reachable. split; [apply (inv_stream _ HI)|].
  intros out Hin. pose proof (proj1 (Forall_forall _ _) (inv_drains _ HI) _ Hin) as [He Hd].
  split_and!; [done| |by apply (inv_eof _ HI)].
  pose proof (inv_stream _ HI) as Hs. rewrite Hd in Hs.
  rewrite <-(app_nil_r (received st)) in Hs at 1.
  apply (app_inv_head (received st)) in Hs. symmetry in Hs. by apply app_eq_nil in Hs as [? _].
Qed.

(** A session's buffer never exceeds the cap by more than one socket
    read, whatever the upstream sends and however slowly it is drained, and
    the lock-free [buf_len] the settle loop reads is the buffer's length. *)
Theorem pump_bounded now st :
  reachable now st →
  len (read_buf (inner st)) < READ_BUF_CAP + READER_CHUNK ∧
  buf_len (inner st) = len (read_buf (inner st)).
Proof. intros HI%inv_reachable. split; [apply (inv_bound _ HI)|apply (inv_buf_len _ HI)]. Qed.

Lemma reader_resumes s ds r d :
  drain_notify s = true → len (read_buf s) < READ_BUF_CAP →
  rtc step (mk_state s RParked ds r d) (mk_state (set_drain_notify false s) RReading ds r d).
Proof.
  intros Hn Hl. eapply rtc_l; [by apply step_unpark|].
  apply rtc_once. by apply step_gate.
Qed.

(** C23: the backpressure wait has no lost wake-up.  Whenever the reader is
    parked and a drain has made room, the drain's pending [notify_one] or the
    permit it stored takes the reader back to reading, with no further drain
    needed. *)
Theorem pump_no_lost_wakeup now st :
  reachable now st → reader st = RParked → len (read_buf (inner st)) < READ_BUF_CAP →
  ∃ st', rtc step st st' ∧ reader st' = RReading ∧
    read_buf (inner st') = read_buf (inner st) ∧ length (drains st') = length (drains st).
Proof.
  intros HI%inv_reachable Hp Hl. destruct st as [s pc ds r d]; simpl in *; subst pc.
  destruct (drain_notify s) eqn:En.
  { eexists. split_and!; [by apply reader_resumes|done..]. }
  destruct (inv_parked _ HI eq_refl En) as [?|Ht]; simpl in *; [lia|].
  apply Exists_exists in Ht as (dp & Hin & Ht). destruct dp as [| | |out e|]; try done.
  apply list_elem_of_lookup in Hin as [i Hi].
  eexists. split_and!.
  - eapply rtc_l; [by eapply step_drain_notify|]. by apply reader_resumes.
  - done.
  - done.
  - simpl. apply length_insert.
Qed.

(** *** Concrete runs *)

Lemma witness_eof_run :
  ∃ st, reachable 0 st ∧ drains st = [DDone (bs "hi") true] ∧ received st = bs "hi".
Proof.
  eexists. split.
  - unfold reachable, init.
    eapply rtc_l; [apply step_gate; reflexivity|].
    eapply rtc_l; [apply (step_read _ _ _ _ (bs "hi")); by vm_compute|].
    eapply rtc_l; [apply step_push|]. eapply rtc_l; [apply step_notify|].
    eapply rtc_l; [apply step_gate; reflexivity|].
    eapply rtc_l; [apply step_eof|]. eapply rtc_l; [apply step_eof_notify|].
    eapply rtc_l; [apply (step_start _ _ _ _ _ 100)|].
    eapply rtc_l; [apply (step_load _ _ _ _ _ 0%nat 100); reflexivity|].
    eapply rtc_l; [eapply (step_take _ _ _ _ _ 0%nat); reflexivity|].
    apply rtc_once. apply (step_drain_notify _ _ _ _ _ 0%nat (bs "hi") true). reflexivity.
  - split; reflexivity.
Qed.

Lemma pump_stream_integrity_witness :
  ∃ st, reachable 0 st ∧ DDone (bs "hi") true ∈ drains st ∧ delivered st = bs "hi".
Proof.
  destruct witness_eof_run as (st & Hr & Hd & Hrec).
  exists st. split; [done|]. assert (Hin : DDone (bs "hi") true ∈ drains st).
  { rewrite Hd. by constructor. }
  split; [done|].
  destruct (pump_stream_integrity 0 st Hr) as [_ H]. destruct (H _ Hin) as [-> _]. done.
Defined.

Lemma pump_bounded_witness :
  ∃ st, reachable 0 st ∧ len (read_buf (inner st)) < READ_BUF_CAP + READER_CHUNK.
Proof.
  destruct witness_eof_run as (st & Hr & _). exists st. split; [done|].
  apply (pump_bounded 0 st Hr).
Defined.

(** A buffer filled by full-sized reads: the reader parks at the cap. *)
Definition full_chunk : bytes := replicate (Z.to_nat READER_CHUNK) x00.

Lemma full_chunk_len : len full_chunk = READER_CHUNK.
Proof. unfold full_chunk, len. rewrite length_replicate. by rewrite Z2Nat.id. Qed.

Lemma fill_run n :
  (n ≤ 16)%nat →
  ∃ s r, reachable 0 (mk_state s RCheck [] r []) ∧
    len (read_buf s) = Z.of_nat n * READER_CHUNK ∧ drain_notify s = false.
Proof.
  induction n as [|n IH]; intros Hn.
  { exists (new_inner 0), []. split; [constructor|done]. }
  destruct IH as (s & r & Hr & Hl & Hd); [lia|].
  exists (set_notify true (set_read_buf (read_buf s ++ full_chunk) s)), (r ++ full_chunk).
  split_and!; [|simpl; rewrite len_app, Hl, full_chunk_len; lia|done].
  unfold reachable. etrans; [exact Hr|].
  eapply rtc_l; [apply step_gate; rewrite Hl; unfold READ_BUF_CAP, READER_CHUNK; lia|].
  eapply rtc_l; [apply (step_read _ _ _ _ full_chunk); by rewrite full_chunk_len|].
  eapply rtc_l; [apply step_push|]. apply rtc_once, step_notify.
Qed.

Lemma pump_no_lost_wakeup_witness :
  ∃ st st', reachable 0 st ∧ reader st = RParked ∧ rtc step st st' ∧ reader st' = RReading.
Proof.
  destruct (fill_run 16 ltac:(lia)) as (s & r & Hr & Hl & Hd).
  set (st := mk_state (set_read_buf [] s) RParked [DTaken (read_buf s) (eof s)] r (read_buf s)).
  assert (Hst : reachable 0 st).
  { unfold reachable, st. etrans; [exact Hr|].
    eapply rtc_l; [apply step_park; rewrite Hl; unfold READ_BUF_CAP, READER_CHUNK; lia|].
    eapply rtc_l; [apply step_wait|].
    apply rtc_once. apply (step_wait_take s RParked [WStart] r [] 0%nat). reflexivity. }
  destruct (pump_no_lost_wakeup 0 st Hst eq_refl ltac:(by vm_compute)) as (st' & H1 & H2 & _).
  by exists st, st'.
Defined.

End Pump.

(** ** Sequence-ordered uploads: lemmas and properties *)

Section uploads.
(** The client's chunks: [f k] is the payload it sent with [wseq = k]. *)
Context (f : Z → bytes).

Definition chunks (ks : list Z) : list (Z * bytes) := map (λ k, (k, f k)) ks.

Definition upload (s : SessionInner) (arrivals : list Z) : SessionInner :=
  foldl (λ s k, write_data (Some k) (f k) s) s arrivals.

Lemma bt_insert_chunks k ks :
  StronglySorted Z.lt ks →
  ∃ ks', bt_insert k (f k) (chunks ks) = chunks ks' ∧ StronglySorted Z.lt ks' ∧
    ∀ x, x ∈ ks' ↔ x = k ∨ x ∈ ks.
Proof.
  induction 1 as [|k' ks Hs (ks' & IH1 & IH2 & IH3) Hf]; simpl.
  { exists [k]. split_and!; [done|repeat constructor|set_solver]. }
  case_if; [|case_if].
  - exists (k :: k' :: ks). split_and!; [done| |set_solver].
    constructor; [by constructor|]. constructor; [done|].
    eapply Forall_impl; [exact Hf|]. simpl. lia.
  - subst k'. exists (k :: ks). split_and!; [done|by constructor|set_solver].
  - exists (k' :: ks'). split_and!; [by rewrite IH1| |set_solver].
    constructor; [done|]. apply Forall_forall. intros x [->|Hx]%IH3; [lia|].
    rewrite Forall_forall in Hf. by apply Hf.
Qed.

(** The flush loop writes the maximal run that starts at [expected]. *)
Lemma flush_pending_run ks w e :
  0 ≤ e → StronglySorted Z.lt ks → Forall (λ k, e ≤ k < u64_max) ks →
  ∃ m ks', flush_pending w e (chunks ks) = (w ++ map f (seqZ e m), e + m, chunks ks') ∧
    0 ≤ m ∧ ks = seqZ e m ++ ks' ∧ StronglySorted Z.lt ks' ∧ Forall (λ k, e + m < k < u64_max) ks'.
Proof.
  revert w e. induction ks as [|k ks IH]; intros w e He Hs Hb; simpl.
  { exists 0, []. rewrite Z.add_0_r, app_nil_r. split_and!; try done; constructor. }
  inversion Hs as [|? ? Hs' Hlt]; subst. inversion Hb as [|? ? Hk Hb']; subst.
  case_if; simpl.
  - exists 0, (k :: ks). rewrite Z.add_0_r, app_nil_r. split_and!; try done.
    constructor; [lia|]. rewrite Forall_forall in Hlt, Hb' |- *.
    intros x Hx. specialize (Hlt _ Hx). specialize (Hb' _ Hx). simpl in *. lia.
  - subst k. assert (Hw : wadd64 e 1 = e + 1).
    { unfold wadd64. apply Z.mod_small. zlia. }
    rewrite Hw. destruct (IH (w ++ [f e]) (e + 1)) as (m & ks' & H1 & H2 & H3 & H4 & H5);
      [lia|done| |].
    { rewrite Forall_forall in Hlt, Hb' |- *.
      intros x Hx. specialize (Hlt _ Hx). specialize (Hb' _ Hx). simpl in *. lia. }
    exists (1 + m), ks'. rewrite H1.
    rewrite (seqZ_cons e (1 + m)) by lia. replace (Z.pred (1 + m)) with m by lia.
    replace (Z.succ e) with (e + 1) by lia. simpl. rewrite <-app_assoc. simpl.
    replace (e + (1 + m)) with (e + 1 + m) by lia.
    split_and!; try done; [lia|by rewrite H3].
Qed.

(** The state after a sequence of arrivals [seen], when the first expected
    number was [base]: everything up to [e] is written in order, the rest of
    [seen] is pending. *)
Definition upload_inv (base : Z) (w0 : list bytes) (seen : list Z) (s : SessionInner) : Prop :=
  ∃ e ks, next_write_seq s = Some e ∧ base ≤ e ≤ u64_max ∧
    writer s = w0 ++ map f (seqZ base (e - base)) ∧
    pending_writes s = chunks ks ∧ StronglySorted Z.lt ks ∧ Forall (λ k, e < k < u64_max) ks ∧
    (∀ k, base ≤ k → k ∈ seen ↔ (k < e ∨ k ∈ ks)).

Lemma upload_inv_step base w0 seen s k :
  0 ≤ base → k < u64_max →
  upload_inv base w0 seen s → upload_inv base w0 (seen ++ [k]) (write_data (Some k) (f k) s).
Proof.
  intros Hbase Hk (e & ks & Hn & He & Hw & Hp & Hs & Hb & Hseen).
  unfold write_data. rewrite Hn, Hp, Hw. simpl.
  destruct (k <? e) eqn:E1; [|destruct (k =? e) eqn:E2]; bool_to_prop.
  - exists e, ks. simpl. split_and!; try done; try lia.
    intros x Hx. specialize (Hseen x Hx). set_solver by lia.
  - subst k. assert (Hwd : wadd64 e 1 = e + 1).
    { unfold wadd64. apply Z.mod_small. zlia. }
    rewrite Hwd.
    destruct (flush_pending_run ks ((w0 ++ map f (seqZ base (e - base))) ++ [f e]) (e + 1))
      as (m & ks' & H1 & H2 & H3 & H4 & H5); [lia|done| |].
    { eapply Forall_impl; [exact Hb|]. simpl. lia. }
    rewrite H1. exists (e + 1 + m), ks'. simpl. split_and!; try done.
    + lia.
    + destruct (decide (m = 0)) as [->|]; [lia|].
      assert (Hin : e + 1 + (m - 1) ∈ ks).
      { rewrite H3. apply elem_of_app. left. apply elem_of_seqZ. lia. }
      rewrite Forall_forall in Hb. apply Hb in Hin. lia.
    + rewrite <-!app_assoc. f_equal.
      replace (e + 1 + m - base) with ((e - base) + (1 + m)) by lia.
      rewrite seqZ_app by lia. rewrite map_app. f_equal.
      rewrite (seqZ_cons _ (1 + m)) by lia. simpl. repeat f_equal; lia.
    + intros x Hx. rewrite elem_of_app, list_elem_of_singleton, (Hseen x Hx), H3.
      rewrite elem_of_app, elem_of_seqZ. split; [intros [[?|[?|?]]|?]; auto; lia|].
      intros [?|?]; [|by auto]. destruct (decide (x < e)); [by auto|].
      destruct (decide (x = e)); [by auto|]. left. right. left. lia.
  - destruct (bt_insert_chunks k ks Hs) as (ks' & H1 & H2 & H3).
    rewrite H1. exists e, ks'. simpl. split_and!; try done; try lia.
    + apply Forall_forall. intros x [->|Hx]%H3; [lia|].
      rewrite Forall_forall in Hb. by apply Hb.
    + intros x Hx. rewrite elem_of_app, list_elem_of_singleton, (Hseen x Hx), H3. tauto.
Qed.

Lemma upload_inv_arrivals base w0 seen s arrivals :
  0 ≤ base → Forall (λ k, k < u64_max) arrivals →
  upload_inv base w0 seen s → upload_inv base w0 (seen ++ arrivals) (upload s arrivals).
Proof.
  intros Hb. revert seen s. induction arrivals as [|k ks IH]; intros seen s Hf Hi; simpl.
  { by rewrite app_nil_r. }
  inversion Hf; subst. replace (seen ++ k :: ks) with ((seen ++ [k]) ++ ks)
    by (by rewrite <-app_assoc).
  apply IH; [done|]. by apply upload_inv_step.
Qed.

Lemma upload_inv_first k s :
  0 ≤ k < u64_max → next_write_seq s = None → pending_writes s = [] →
  upload_inv k (writer s) [k] (write_data (Some k) (f k) s).
Proof.
  intros Hk Hn Hp. unfold write_data. rewrite Hn, Hp. simpl.
  rewrite Z.ltb_irrefl, Z.eqb_refl. simpl.
  assert (Hw : wadd64 k 1 = k + 1) by (unfold wadd64; apply Z.mod_small; zlia).
  rewrite Hw. exists (k + 1), []. simpl. split_and!; try done; try lia; try constructor.
  - replace (k + 1 - k) with 1 by lia. rewrite (seqZ_cons k 1) by lia. done.
  - set_solver by lia.
  - intros [?|?]; [|set_solver]. assert (k0 = k) as -> by lia. set_solver.
Qed.

Lemma upload_inv_run k arrivals s :
  0 ≤ k < u64_max → next_write_seq s = None → pending_writes s = [] →
  Forall (λ j, j < u64_max) arrivals →
  upload_inv k (writer s) (k :: arrivals) (upload s (k :: arrivals)).
Proof.
  intros Hk Hn Hp Ha.
  change (upload s (k :: arrivals)) with (upload (write_data (Some k) (f k) s) arrivals).
  apply (upload_inv_arrivals k _ [k]); [lia|done|]. by apply upload_inv_first.
Qed.
End uploads.

(** All chunks arrived, the lowest one first. *)
Lemma upload_all_arrived f base n arrivals s :
  next_write_seq s = None → pending_writes s = [] →
  0 ≤ base → 0 ≤ n → base + n ≤ u64_max →
  (∀ k, k ∈ base :: arrivals ↔ base ≤ k < base + n) →
  let s' := upload f s (base :: arrivals) in
  writer s' = writer s ++ map f (seqZ base n) ∧ pending_writes s' = [] ∧
  next_write_seq s' = Some (base + n).
Proof.
  intros Hn Hp Hb Hn0 Hmax Hall s'.
  assert (Hbase : base ≤ base < base + n) by (apply Hall; by constructor).
  destruct (upload_inv_run f base arrivals s) as (e & ks & H1 & H2 & H3 & H4 & H5 & H6 & H7);
    try done; [lia| |].
  { apply Forall_forall. intros k Hk. assert (base ≤ k < base + n) by (apply Hall; by right).
    lia. }
  fold s' in H1, H3, H4.
  assert (Hks : ∀ k, k ∈ ks → base ≤ k < base + n).
  { intros k Hk. rewrite Forall_forall in H6. pose proof (H6 _ Hk). simpl in *.
    apply Hall, H7; [lia|by right]. }
  assert (Hlo : base + n ≤ e).
  { destruct (decide (base + n ≤ e)); [done|]. exfalso.
    assert (He : e ∈ base :: arrivals) by (apply Hall; lia).
    apply H7 in He as [?|Hin]; [lia| |lia].
    rewrite Forall_forall in H6. pose proof (H6 _ Hin). simpl in *. lia. }
  assert (Hhi : e ≤ base + n).
  { destruct (decide (e = base)); [lia|].
    assert (Hin : e - 1 ∈ base :: arrivals) by (apply H7; lia). apply Hall in Hin. lia. }
  assert (e = base + n) as -> by lia.
  destruct ks as [|k ks].
  - rewrite H3, H4, H1. by replace (base + n - base) with n by lia.
  - exfalso. rewrite Forall_forall in H6. pose proof (Hks k ltac:(by constructor)).
    pose proof (H6 k ltac:(by constructor)). simpl in *. lia.
Qed.

(** C1: pipelined uploads are reassembled.  When the chunks of a session
    arrive in any order and any number of times, the lowest-numbered one
    first, the upstream is written exactly the chunks in sequence order, each
    once, and nothing stays pending. *)
Theorem upload_reassembly f base n arrivals s :
  next_write_seq s = None → pending_writes s = [] →
  0 ≤ base → 0 ≤ n → base + n ≤ u64_max →
  (∀ k, k ∈ base :: arrivals ↔ base ≤ k < base + n) →
  let s' := upload f s (base :: arrivals) in
  writer s' = writer s ++ map f (seqZ base n) ∧ pending_writes s' = [] ∧
  next_write_seq s' = Some (base + n).
Proof. apply upload_all_arrived. Qed.

Lemma upload_reassembly_witness :
  writer (upload (λ k, bs "chunk" ++ fmt_uint k) (new_inner 0) [0; 3; 1; 3; 2]) =
    [bs "chunk0"; bs "chunk1"; bs "chunk2"; bs "chunk3"].
Proof.
  destruct (upload_reassembly (λ k, bs "chunk" ++ fmt_uint k) 0 4 [3; 1; 3; 2] (new_inner 0))
    as [-> _]; [done|done|lia|lia|by vm_compute| |vm_compute; reflexivity].
  intros k. rewrite !elem_of_cons, elem_of_nil. lia.
Defined.

(** The first number seen fixes the start of the sequence.  If a later
    chunk [k] arrives before the lower ones, no chunk below [k] is ever
    written, whatever arrives afterwards: the upstream sees the stream with a
    hole at its start. *)
Theorem upload_first_arrival_drops_lower f k arrivals s :
  next_write_seq s = None → pending_writes s = [] →
  Forall (λ j, 0 ≤ j < u64_max) (k :: arrivals) →
  ∃ e, k < e ∧ writer (upload f s (k :: arrivals)) = writer s ++ map f (seqZ k (e - k)).
Proof.
  intros Hn Hp [Hk Ha]%Forall_cons.
  destruct (upload_inv_run f k arrivals s) as (e & ks & H1 & H2 & H3 & H4 & H5 & H6 & H7);
    try done.
  { eapply Forall_impl; [exact Ha|]. simpl. lia. }
  exists e. split; [|done].
  assert (Hin : k ∈ k :: arrivals) by (by constructor).
  apply H7 in Hin as [?|Hin]; [done| |lia].
  rewrite Forall_forall in H6. pose proof (H6 _ Hin). simpl in *. lia.
Qed.

Lemma upload_first_arrival_drops_lower_witness :
  ∃ e, 1 < e ∧
    writer (upload (λ k, bs "chunk" ++ fmt_uint k) (new_inner 0) [1; 0]) =
      map (λ k, bs "chunk" ++ fmt_uint k) (seqZ 1 (e - 1)) ∧
    writer (upload (λ k, bs "chunk" ++ fmt_uint k) (new_inner 0) [1; 0]) = [bs "chunk1"].
Proof.
  destruct (upload_first_arrival_drops_lower (λ k, bs "chunk" ++ fmt_uint k) 1 [0] (new_inner 0))
    as (e & He & Hw); [done..| |].
  { repeat constructor; by vm_compute. }
  exists e. split_and!; [done|exact Hw|by vm_compute].
Defined.

(** ** Drains, run alone *)

Lemma drain_now_spec s max_bytes out e s' :
  drain_now s max_bytes = (out, e, s') →
  read_buf s = out ++ read_buf s' ∧ buf_len s' = len (read_buf s') ∧
  len out ≤ Z.max 0 (drain_cap max_bytes) ∧ (e = true → eof s = true ∧ read_buf s' = []) ∧
  eof s' = eof s ∧ drain_notify s' = true.
Proof.
  unfold drain_now. destruct (take_buf _ s) as [[o p] s1] eqn:E. intros [= <- <- <-].
  apply Pump.take_buf_spec in E as (H1 & H2 & H3 & H4 & H5).
  simpl. split_and!; try done. destruct p; [done|]. intros He. split; [done|by apply H4].
Qed.

(** ** The polling loop of [wait_and_drain] *)

(** The clock readings of a run of the loop: each turn sleeps at least
    10 ms. *)
Fixpoint paced (t : Z) (polls : list Poll) : Prop :=
  match polls with
  | [] => True
  | p :: polls' => t ≤ poll_now p ∧ paced (poll_now p + 10) polls'
  end.

Lemma wait_loop_turns polls deadline t prev_len last_growth ever :
  paced t polls → t ≤ deadline + 10 →
  (10 * Z.of_nat (wait_loop polls deadline prev_len last_growth ever) ≤ deadline - t + 20).
Proof.
  revert t prev_len last_growth ever.
  induction polls as [|p polls IH]; intros t pl lg ev Hp Ht; simpl; [lia|].
  destruct Hp as [Hp1 Hp2].
  case_if; [lia|]. case_if; [lia|].
  destruct (_ && _); [lia|].
  specialize (IH _ (if pl <? poll_len p then poll_len p else pl)
    (if pl <? poll_len p then poll_now p else lg) (ev || (pl <? poll_len p)) Hp2 ltac:(lia)).
  lia.
Qed.

(** ** UDP queue *)

Inductive UdpEvent := EvRecv (now : Z) (r : Recv) | EvDrain.

(** A session fed by events: its state, whether the reader still runs, and
    what the drains returned so far. *)
Definition udp_event (st : UdpSessionInner * bool * list bytes) (ev : UdpEvent)
    : UdpSessionInner * bool * list bytes :=
  let '(s, running, out) := st in
  match ev with
  | EvDrain => let '(ps, _, s) := drain_udp_now s in (s, running, out ++ ps)
  | EvRecv now r =>
      if running then let '(s, running) := udp_reader_step now r s in (s, running, out)
      else (s, running, out)
  end.

Definition udp_run (now : Z) (evs : list UdpEvent) : UdpSessionInner * bool * list bytes :=
  foldl udp_event (new_udp_inner now, true, []) evs.

(** The datagrams a reader accepts: the non-empty ones before the first
    error, cut to the receive buffer. *)
Fixpoint accepted (evs : list UdpEvent) : list bytes :=
  match evs with
  | [] => []
  | EvDrain :: evs => accepted evs
  | EvRecv _ RecvErr :: _ => []
  | EvRecv _ (RecvOk d) :: evs =>
      if len (ztake UDP_RECV_BUF_BYTES d) =? 0 then accepted evs
      else ztake UDP_RECV_BUF_BYTES d :: accepted evs
  end.

Definition udp_inv (st : UdpSessionInner * bool * list bytes) (acc : list bytes) : Prop :=
  let '(s, running, out) := st in
  len (packets s) ≤ UDP_QUEUE_LIMIT ∧ pkt_count s = len (packets s) ∧
  packets s `suffix_of` acc ∧ (out ++ packets s) `sublist_of` acc ∧
  0 ≤ queue_drops s ∧ len out + len (packets s) + queue_drops s = len acc ∧
  udp_eof s = negb running.

Lemma udp_inv_enqueue s out acc now d :
  len acc < u64_max → udp_inv (s, true, out) acc →
  udp_inv (udp_enqueue now d s, true, out) (acc ++ [d]).
Proof.
  intros Hacc (H1 & H2 & H3 & H4 & H5 & H6 & H7). unfold udp_enqueue.
  pose proof (len_nonneg out). pose proof (len_nonneg (packets s)).
  case_if; simpl; autorewrite with len.
  - destruct (packets s) as [|p q] eqn:Ep; simpl; rewrite ?len_nil, ?len_cons in *.
    { exfalso. unfold UDP_QUEUE_LIMIT in *. lia. }
    assert (Hw : wadd64 (queue_drops s) 1 = queue_drops s + 1).
    { unfold wadd64. apply Z.mod_small. zlia. }
    rewrite Hw. split_and!; try done; try lia.
    + apply suffix_app. etrans; [by apply suffix_cons_r|done].
    + rewrite app_assoc. apply sublist_app; [|done].
      etrans; [|exact H4]. apply sublist_app; [done|]. by apply sublist_cons.
  - split_and!; try done; try lia.
    + by apply suffix_app.
    + rewrite app_assoc. by apply sublist_app.
Qed.

Lemma udp_inv_err s out acc now :
  udp_inv (s, true, out) acc → udp_inv (udp_event (s, true, out) (EvRecv now RecvErr)) acc.
Proof. intros (H1 & H2 & H3 & H4 & H5 & H6 & H7). by split_and!. Qed.

Lemma udp_inv_drain s running out acc :
  udp_inv (s, running, out) acc → udp_inv (udp_event (s, running, out) EvDrain) acc.
Proof.
  intros (H1 & H2 & H3 & H4 & H5 & H6 & H7). simpl.
  split_and!; rewrite ?app_nil_r; try done; [apply suffix_nil|].
  autorewrite with len. lia.
Qed.

Lemma udp_inv_run evs s running out acc :
  len acc + len evs ≤ u64_max → udp_inv (s, running, out) acc →
  udp_inv (foldl udp_event (s, running, out) evs) (acc ++ if running then accepted evs else []).
Proof.
  revert s running out acc. induction evs as [|ev evs IH]; intros s running out acc Hl Hi.
  { simpl. destruct running; by rewrite app_nil_r. }
  rewrite len_cons in Hl. pose proof (len_nonneg evs). cbn [foldl].
  destruct ev as [now [d|]|].
  - destruct running; [|by apply (IH s false out); [lia|]].
    cbn [accepted udp_event udp_reader_step]. cbv zeta.
    generalize (ztake UDP_RECV_BUF_BYTES d). clear d. intros d. case_if.
    + apply (IH s true out acc); [lia|done].
    + rewrite cons_middle, app_assoc. apply (IH _ true out).
      * autorewrite with len. lia.
      * apply udp_inv_enqueue; [lia|done].
  - destruct running; [|by apply (IH s false out); [lia|]].
    apply (IH _ false out acc); [lia|]. by apply udp_inv_err.
  - apply (IH _ running _ acc); [lia|]. by apply udp_inv_drain.
Qed.

(** A UDP session's queue is bounded and drops only the oldest
    datagrams.  After any sequence of receives and drains at most
    [UDP_QUEUE_LIMIT] datagrams are queued, they are the latest ones
    accepted, what was drained plus what is queued is an in-order selection
    of the accepted datagrams, [queue_drops] counts exactly the missing ones,
    and [pkt_count] is the queue's length. *)
Theorem udp_queue_bounded now evs s running out :
  len evs ≤ u64_max → udp_run now evs = (s, running, out) →
  len (packets s) ≤ UDP_QUEUE_LIMIT ∧ pkt_count s = len (packets s) ∧
  packets s `suffix_of` accepted evs ∧ (out ++ packets s) `sublist_of` accepted evs ∧
  len out + len (packets s) + queue_drops s = len (accepted evs).
Proof.
  intros Hl Hr.
  pose proof (udp_inv_run evs (new_udp_inner now) true [] [] Hl) as Hi.
  unfold udp_run in Hr. rewrite Hr in Hi. simpl in Hi.
  destruct Hi as (H1 & H2 & H3 & H4 & H5 & H6 & H7); [|by split_and!].
  split_and!; done.
Qed.

(** 300 datagrams without a drain: 44 oldest are dropped. *)
Definition flood : list UdpEvent := replicate 300 (EvRecv 7 (RecvOk (bs "p"))).

Lemma udp_queue_bounded_witness :
  ∃ s running out, udp_run 0 flood = (s, running, out) ∧
    len (packets s) = UDP_QUEUE_LIMIT ∧ queue_drops s = 44 ∧
    len out + len (packets s) + queue_drops s = len (accepted flood).
Proof.
  destruct (udp_run 0 flood) as [[s running] out] eqn:E. exists s, running, out.
  split; [done|].
  destruct (udp_queue_bounded 0 flood s running out) as (_ & _ & _ & _ & H);
    [by vm_compute|exact E|].
  split_and!; [| |exact H]; vm_compute in E; by injection E as <- <- <-.
Defined.
