(* ===== verification/NodeHandlers.v ===== *)
(** * The tunnel node's request handlers (tunnel-node/src/main.rs)

    The protocol types, the single-op handlers of [POST /tunnel], the batch
    handler of [POST /tunnel/batch] and the idle reaper.  Sessions are shared
    objects ([Arc<SessionInner>]): the maps hold cells, the cells live in a
    heap, so a batch that cloned an [Arc] keeps draining a session another
    handler removed from the map.

    What the network, the clock and the other tasks contribute is an input:
    outcomes of connects and writes, fresh UUIDs, completion order of the
    spawned connects, the bytes the reader tasks append while a drain runs.
    Gzip, JSON and zstd are external crates: the [WireFormats] class. *)

From Stdlib Require Import Strings.Byte.
From S2P Require Import Prelude RustBytes Base64 Udpgw NodeSession.

(** ** Protocol types *)

Definition CODE_UNSUPPORTED_OP : bytes := bs "UNSUPPORTED_OP".
Definition BATCH_RESPONSE_BUDGET : Z := 32 * 1024 * 1024.
Definition ACTIVE_DRAIN_DEADLINE : Z := 350.
Definition LONGPOLL_DEADLINE : Z := 4000.

Definition crlf : bytes := [x0d; x0a].
Definition DECOY_404_BODY : bytes :=
  bs "<html>" ++ crlf ++ bs "<head><title>404 Not Found</title></head>" ++ crlf ++
  bs "<body>" ++ crlf ++ bs "<center><h1>404 Not Found</h1></center>" ++ crlf ++
  bs "<hr><center>nginx</center>" ++ crlf ++ bs "</body>" ++ crlf ++ bs "</html>" ++ crlf.

Record TunnelRequest := mk_tunnel_request {
  tr_k : bytes;
  tr_op : bytes;
  tr_host : option bytes;
  tr_port : option Z;
  tr_sid : option bytes;
  tr_data : option bytes
}.

Record TunnelResponse := mk_resp {
  r_sid : option bytes;
  r_d : option bytes;
  r_pkts : option (list bytes);
  r_eof : option bool;
  r_e : option bytes;
  r_code : option bytes;
  r_seq : option Z
}.

Definition resp_error (msg : bytes) : TunnelResponse :=
  mk_resp None None None None (Some msg) None None.
Definition unsupported_op (op : bytes) : TunnelResponse :=
  mk_resp None None None None (Some (bs "unknown op: " ++ op)) (Some CODE_UNSUPPORTED_OP) None.

Record BatchOp := mk_op {
  op : bytes;
  op_sid : option bytes;
  op_host : option bytes;
  op_port : option Z;
  op_d : option bytes;
  op_seq : option Z;
  op_wseq : option Z
}.

Record BatchRequest := mk_batch {
  br_k : bytes;
  br_ops : list BatchOp;
  br_zops : option bytes;
  br_zc : option Z
}.

(** A response of the HTTP server. *)
Record HttpResponse := mk_http { status : Z; content_type : bytes; body : bytes }.

(** The external encoders and decoders; an error is its message. *)
Class WireFormats := {
  decompress_gzip : bytes → result bytes bytes;
  batch_of_json : bytes → result BatchRequest bytes;
  ops_of_json : bytes → result (list BatchOp) bytes;
  json_of_resp : TunnelResponse → bytes;
  json_of_resps : list TunnelResponse → bytes;
  json_of_batch : list TunnelResponse → bytes;
  json_of_zr : bytes → bytes;
  zstd_decode_all : bytes → result bytes bytes;
  zstd_encode_all : bytes → result bytes bytes
}.

(** ** State *)

#[export] Instance SessionInner_inhabited : Inhabited SessionInner := populate (new_inner 0).
#[export] Instance UdpSessionInner_inhabited : Inhabited UdpSessionInner :=
  populate (new_udp_inner 0).

Record ManagedSession := mk_managed { ms_inner : nat; ms_udpgw : bool }.

(** [readers], [udpgw_tasks] and [udp_readers] are the spawned tasks that
    were not aborted, by the cell they hold. *)
Record AppState := mk_app {
  tcp_heap : gmap nat SessionInner;
  udp_heap : gmap nat UdpSessionInner;
  next_cell : nat;
  sessions : gmap bytes ManagedSession;
  udp_sessions : gmap bytes nat;
  readers : gset nat;
  udpgw_tasks : gset nat;
  udp_readers : gset nat;
  auth_key : bytes;
  diagnostic_mode : bool
}.

Definition set_sessions m st := mk_app (tcp_heap st) (udp_heap st) (next_cell st) m
  (udp_sessions st) (readers st) (udpgw_tasks st) (udp_readers st) (auth_key st)
  (diagnostic_mode st).
Definition set_udp_sessions m st := mk_app (tcp_heap st) (udp_heap st) (next_cell st)
  (sessions st) m (readers st) (udpgw_tasks st) (udp_readers st) (auth_key st)
  (diagnostic_mode st).
Definition update_inner c (f : SessionInner → SessionInner) st :=
  mk_app (<[c := f (tcp_heap st !!! c)]> (tcp_heap st)) (udp_heap st) (next_cell st)
    (sessions st) (udp_sessions st) (readers st) (udpgw_tasks st) (udp_readers st)
    (auth_key st) (diagnostic_mode st).
Definition update_udp c (f : UdpSessionInner → UdpSessionInner) st :=
  mk_app (tcp_heap st) (<[c := f (udp_heap st !!! c)]> (udp_heap st)) (next_cell st)
    (sessions st) (udp_sessions st) (readers st) (udpgw_tasks st) (udp_readers st)
    (auth_key st) (diagnostic_mode st).

(** [reader_handle.abort()] and [abort_all]. *)
Definition abort_reader c st := mk_app (tcp_heap st) (udp_heap st) (next_cell st)
  (sessions st) (udp_sessions st) (readers st ∖ {[c]}) (udpgw_tasks st) (udp_readers st)
  (auth_key st) (diagnostic_mode st).
Definition abort_udpgw c st := mk_app (tcp_heap st) (udp_heap st) (next_cell st)
  (sessions st) (udp_sessions st) (readers st) (udpgw_tasks st ∖ {[c]}) (udp_readers st)
  (auth_key st) (diagnostic_mode st).
Definition abort_all (s : ManagedSession) (st : AppState) : AppState :=
  let st := abort_reader (ms_inner s) st in
  if ms_udpgw s then abort_udpgw (ms_inner s) st else st.
Definition abort_udp_reader c st := mk_app (tcp_heap st) (udp_heap st) (next_cell st)
  (sessions st) (udp_sessions st) (readers st) (udpgw_tasks st) (udp_readers st ∖ {[c]})
  (auth_key st) (diagnostic_mode st).

(** What the outside contributes to one op: the clock, the outcome of the
    connect and of the first write, and the UUID drawn. *)
Record OpEnv := mk_env {
  env_now : Z;
  env_connect : result unit bytes;
  env_write : result unit bytes;
  env_uuid : bytes
}.

(** [create_session] after a successful connect, [create_udpgw_session] and
    [create_udp_session]: a fresh cell and its running tasks. *)
Definition new_session (udpgw : bool) (now : Z) (st : AppState) : ManagedSession * AppState :=
  let c := next_cell st in
  (mk_managed c udpgw,
   mk_app (<[c := new_inner now]> (tcp_heap st)) (udp_heap st) (S c) (sessions st)
     (udp_sessions st) (readers st ∪ {[c]})
     (if udpgw then udpgw_tasks st ∪ {[c]} else udpgw_tasks st) (udp_readers st)
     (auth_key st) (diagnostic_mode st)).

Definition create_session (env : OpEnv) (st : AppState)
    : result ManagedSession bytes * AppState :=
  match env_connect env with
  | Err e => (Err e, st)
  | Ok _ => let '(s, st) := new_session false (env_now env) st in (Ok s, st)
  end.

Definition create_udpgw_session (env : OpEnv) (st : AppState) : ManagedSession * AppState :=
  new_session true (env_now env) st.

Definition create_udp_session (env : OpEnv) (st : AppState) : result nat bytes * AppState :=
  match env_connect env with
  | Err e => (Err e, st)
  | Ok _ =>
      let c := next_cell st in
      (Ok c,
       mk_app (tcp_heap st) (<[c := new_udp_inner (env_now env)]> (udp_heap st)) (S c)
         (sessions st) (udp_sessions st) (readers st) (udpgw_tasks st)
         (udp_readers st ∪ {[c]}) (auth_key st) (diagnostic_mode st))
  end.

(** ** Handlers *)

Section handlers.
Context `{!Base64} `{!WireFormats}.

Definition validate_host_port (host : option bytes) (port : option Z)
    : result (bytes * Z) TunnelResponse :=
  match host with
  | Some ((_ :: _) as h) =>
      match port with
      | Some p => if 0 <? p then Ok (h, p) else Err (resp_error (bs "missing or invalid port"))
      | None => Err (resp_error (bs "missing or invalid port"))
      end
  | _ => Err (resp_error (bs "missing host"))
  end.

(** The session for a destination: the in-process udpgw or a TCP connect. *)
Definition open_session (env : OpEnv) (host : bytes) (port : Z) (st : AppState)
    : result ManagedSession bytes * AppState :=
  if is_udpgw_dest host port then
    let '(s, st) := create_udpgw_session env st in (Ok s, st)
  else create_session env st.

Definition handle_connect (env : OpEnv) (host : option bytes) (port : option Z) (st : AppState)
    : TunnelResponse * AppState :=
  match validate_host_port host port with
  | Err r => (r, st)
  | Ok (host, port) =>
      let '(s, st) := open_session env host port st in
      match s with
      | Err e => (resp_error (bs "connect failed: " ++ e), st)
      | Ok session =>
          let sid := env_uuid env in
          (mk_resp (Some sid) None None (Some false) None None None,
           set_sessions (<[sid := session]> (sessions st)) st)
      end
  end.

(** The non-empty payload of an op, if it has one: [None] for no payload,
    an error for bad base64. *)
Definition decode_payload (d : option bytes) : result (option bytes) bytes :=
  match d with
  | Some ((_ :: _) as b64) =>
      match b64_decode b64 with
      | Err e => Err e
      | Ok [] => Ok None
      | Ok ((_ :: _) as b) => Ok (Some b)
      end
  | _ => Ok None
  end.

Definition handle_connect_data_phase1 (env : OpEnv) (host : option bytes) (port : option Z)
    (data : option bytes) (st : AppState) : result (bytes * nat) TunnelResponse * AppState :=
  match validate_host_port host port with
  | Err r => (Err r, st)
  | Ok (host, port) =>
      let '(s, st) := open_session env host port st in
      match s with
      | Err e => (Err (resp_error (bs "connect failed: " ++ e)), st)
      | Ok session =>
          let c := ms_inner session in
          match decode_payload data with
          | Err e => (Err (resp_error (bs "bad base64: " ++ e)), abort_reader c st)
          | Ok payload =>
              match payload, env_write env with
              | Some _, Err e =>
                  (Err (resp_error (bs "write failed: " ++ e)), abort_reader c st)
              | _, _ =>
                  let st := match payload with
                            | Some b => update_inner c (λ s, set_writer (writer s ++ [b]) s) st
                            | None => st
                            end in
                  let sid := env_uuid env in
                  (Ok (sid, c), set_sessions (<[sid := session]> (sessions st)) st)
              end
          end
      end
  end.

Definition handle_udp_open_phase1 (env : OpEnv) (host : option bytes) (port : option Z)
    (data : option bytes) (st : AppState) : result (bytes * nat) TunnelResponse * AppState :=
  match validate_host_port host port with
  | Err r => (Err r, st)
  | Ok (host, port) =>
      let '(s, st) := create_udp_session env st in
      match s with
      | Err e => (Err (resp_error (bs "udp connect failed: " ++ e)), st)
      | Ok c =>
          match decode_payload data with
          | Err e => (Err (resp_error (bs "bad base64: " ++ e)), abort_udp_reader c st)
          | Ok payload =>
              match payload, env_write env with
              | Some _, Err e =>
                  (Err (resp_error (bs "udp write failed: " ++ e)), abort_udp_reader c st)
              | _, _ =>
                  let st := match payload with
                            | Some b => update_udp c (udp_send b) st
                            | None => st
                            end in
                  let sid := env_uuid env in
                  (Ok (sid, c), set_udp_sessions (<[sid := c]> (udp_sessions st)) st)
              end
          end
      end
  end.

(** The response of a drain in the single-op handlers. *)
Definition single_response (sid data : bytes) (eof : bool) : TunnelResponse :=
  mk_resp (Some sid) (if bool_decide (data = []) then None else Some (b64_encode data))
    None (Some eof) None None None.

(** [wait_and_drain] and the removal at eof, common to the two single-op
    handlers.  [arrived] is what the reader task appended while the handler
    waited, with the eof flag at the end of the wait. *)
Definition drain_single (sid : bytes) (c : nat) (arrived : bytes * bool) (st : AppState)
    : TunnelResponse * AppState :=
  let st := update_inner c (λ s,
    let s := set_read_buf (read_buf s ++ arrived.1) s in
    if arrived.2 then set_eof s else s) st in
  let '(data, e, s') := wait_and_drain (tcp_heap st !!! c) in
  let st := update_inner c (λ _, s') st in
  let st :=
    if e then
      match sessions st !! sid with
      | Some s => abort_reader (ms_inner s) (set_sessions (delete sid (sessions st)) st)
      | None => st
      end
    else st in
  (single_response sid data e, st).

Definition handle_connect_data_single (env : OpEnv) (arrived : bytes * bool)
    (host : option bytes) (port : option Z) (data : option bytes) (st : AppState)
    : TunnelResponse * AppState :=
  let '(r, st) := handle_connect_data_phase1 env host port data st in
  match r with
  | Err r => (r, st)
  | Ok (sid, c) => drain_single sid c arrived st
  end.

Definition handle_data_single (env : OpEnv) (arrived : bytes * bool)
    (sid : option bytes) (data : option bytes) (st : AppState) : TunnelResponse * AppState :=
  match sid with
  | Some ((_ :: _) as sid) =>
      match sessions st !! sid with
      | None => (resp_error (bs "unknown session"), st)
      | Some s =>
          let c := ms_inner s in
          let st := update_inner c (set_last_active (env_now env)) st in
          match decode_payload data with
          | Ok (Some b) =>
              match env_write env with
              | Err e =>
                  (resp_error (bs "write failed: " ++ e),
                   set_sessions (delete sid (sessions st)) st)
              | Ok _ =>
                  drain_single sid c arrived
                    (update_inner c (λ s, set_writer (writer s ++ [b]) s) st)
              end
          | _ => drain_single sid c arrived st
          end
      end
  | _ => (resp_error (bs "missing sid"), st)
  end.

Definition handle_close (sid : option bytes) (st : AppState) : TunnelResponse * AppState :=
  match sid with
  | Some ((_ :: _) as sid) =>
      let st := match sessions st !! sid with
                | Some s => abort_all s (set_sessions (delete sid (sessions st)) st)
                | None => st
                end in
      let st := match udp_sessions st !! sid with
                | Some c => abort_udp_reader c (set_udp_sessions (delete sid (udp_sessions st)) st)
                | None => st
                end in
      (mk_resp (Some sid) None None (Some true) None None None, st)
  | _ => (resp_error (bs "missing sid"), st)
  end.

Definition decoy_or_unauthorized (diag : bool) : HttpResponse :=
  if diag then mk_http 200 (bs "application/json") (json_of_resp (resp_error (bs "unauthorized")))
  else mk_http 404 (bs "text/html") DECOY_404_BODY.

Definition handle_tunnel (env : OpEnv) (arrived : bytes * bool) (req : TunnelRequest)
    (st : AppState) : HttpResponse * AppState :=
  if negb (bool_decide (tr_k req = auth_key st)) then
    (decoy_or_unauthorized (diagnostic_mode st), st)
  else
    let '(resp, st) :=
      if bool_decide (tr_op req = bs "connect") then
        handle_connect env (tr_host req) (tr_port req) st
      else if bool_decide (tr_op req = bs "connect_data") then
        handle_connect_data_single env arrived (tr_host req) (tr_port req) (tr_data req) st
      else if bool_decide (tr_op req = bs "data") then
        handle_data_single env arrived (tr_sid req) (tr_data req) st
      else if bool_decide (tr_op req = bs "close") then handle_close (tr_sid req) st
      else (unsupported_op (tr_op req), st) in
    (mk_http 200 (bs "application/json") (json_of_resp resp), st).

(** ** Responses of the drain phase *)

Definition tcp_drain_response (sid data : bytes) (eof : bool) (seq : option Z) : TunnelResponse :=
  mk_resp (Some sid) (if bool_decide (data = []) then None else Some (b64_encode data))
    None (Some eof) None None seq.

Definition udp_drain_response (sid : bytes) (packets : list bytes) (eof : bool) (seq : option Z)
    : TunnelResponse :=
  mk_resp (Some sid) None (if bool_decide (packets = []) then None else Some (map b64_encode packets))
    (Some eof) None None seq.

Definition eof_response (sid : bytes) (seq : option Z) : TunnelResponse :=
  mk_resp (Some sid) None None (Some true) None None seq.

(** ** The batch handler, phase 1 *)

(** A turn of a session's drain loop: what the reader task appended before
    it, whether it then marked eof, and whether the turn ends past the
    one-second drain deadline. *)
Record DrainTick := mk_tick { t_data : bytes; t_eof : bool; t_late : bool }.

(** What the outside contributes to a batch, by op index: the op's own
    inputs, when its spawned connect completes, whether that task panicked,
    what reaches its session during the drains; and the clock at the drains. *)
Record BatchEnv := mk_batch_env {
  be_op : nat → OpEnv;
  be_join : nat → Z;
  be_panics : nat → bool;
  be_ticks : nat → list DrainTick;
  be_udp : nat → list (Z * Recv);
  be_now : Z
}.

Definition TcpDrain : Type := nat * bytes * nat * option Z.
Definition UdpDrain : Type := nat * bytes * nat * option Z.

(** The mutable locals of [handle_batch]. *)
Record Batch := mk_acc {
  app : AppState;
  results : list (nat * TunnelResponse);
  tcp_drains : list TcpDrain;
  udp_drains : list UdpDrain;
  had_writes_or_connects : bool;
  new_conn_jobs : list (nat * BatchOp)
}.

Definition push_result (i : nat) (r : TunnelResponse) (b : Batch) : Batch :=
  mk_acc (app b) (results b ++ [(i, r)]) (tcp_drains b) (udp_drains b)
    (had_writes_or_connects b) (new_conn_jobs b).
Definition push_tcp (d : TcpDrain) (b : Batch) : Batch :=
  mk_acc (app b) (results b) (tcp_drains b ++ [d]) (udp_drains b)
    (had_writes_or_connects b) (new_conn_jobs b).
Definition push_udp (d : UdpDrain) (b : Batch) : Batch :=
  mk_acc (app b) (results b) (tcp_drains b) (udp_drains b ++ [d])
    (had_writes_or_connects b) (new_conn_jobs b).
Definition spawn_job (i : nat) (o : BatchOp) (b : Batch) : Batch :=
  mk_acc (app b) (results b) (tcp_drains b) (udp_drains b)
    (had_writes_or_connects b) (new_conn_jobs b ++ [(i, o)]).
Definition set_app (st : AppState) (b : Batch) : Batch :=
  mk_acc st (results b) (tcp_drains b) (udp_drains b) (had_writes_or_connects b)
    (new_conn_jobs b).
Definition mark_active (b : Batch) : Batch :=
  mk_acc (app b) (results b) (tcp_drains b) (udp_drains b) true (new_conn_jobs b).

Definition batch_data (env : OpEnv) (i : nat) (o : BatchOp) (b : Batch) : Batch :=
  match op_sid o with
  | Some ((_ :: _) as sid) =>
      match sessions (app b) !! sid with
      | Some s =>
          let c := ms_inner s in
          match decode_payload (op_d o) with
          | Err e => push_result i (resp_error (bs "bad base64: " ++ e)) b
          | Ok None => push_tcp (i, sid, c, op_seq o) b
          | Ok (Some payload) =>
              let st := update_inner c (write_data (op_wseq o) payload) (app b) in
              let st := update_inner c (set_last_active (env_now env)) st in
              push_tcp (i, sid, c, op_seq o) (mark_active (set_app st b))
          end
      | None => push_result i (eof_response sid (op_seq o)) b
      end
  | _ => push_result i (resp_error (bs "missing sid")) b
  end.

Definition batch_udp_data (env : OpEnv) (i : nat) (o : BatchOp) (b : Batch) : Batch :=
  match op_sid o with
  | Some ((_ :: _) as sid) =>
      match udp_sessions (app b) !! sid with
      | Some c =>
          match decode_payload (op_d o) with
          | Err e => push_result i (resp_error (bs "bad base64: " ++ e)) b
          | Ok None => push_udp (i, sid, c, op_seq o) b
          | Ok (Some payload) =>
              let st := update_udp c (udp_send payload) (app b) in
              let st := update_udp c (udp_set_last_active (env_now env)) st in
              push_udp (i, sid, c, op_seq o) (mark_active (set_app st b))
          end
      | None => push_result i (eof_response sid (op_seq o)) b
      end
  | _ => push_result i (resp_error (bs "missing sid")) b
  end.

(** One turn of the [for (i, op)] loop. *)
Definition batch_op (env : OpEnv) (i : nat) (o : BatchOp) (b : Batch) : Batch :=
  if bool_decide (op o = bs "connect") then spawn_job i o (mark_active b)
  else if bool_decide (op o = bs "connect_data") then spawn_job i o (mark_active b)
  else if bool_decide (op o = bs "udp_open") then
    spawn_job i o (match op_d o with Some (_ :: _) => mark_active b | _ => b end)
  else if bool_decide (op o = bs "data") then batch_data env i o b
  else if bool_decide (op o = bs "udp_data") then batch_udp_data env i o b
  else if bool_decide (op o = bs "close") then
    let '(r, st) := handle_close (op_sid o) (app b) in push_result i r (set_app st b)
  else push_result i (unsupported_op (op o)) b.

Fixpoint batch_ops (env : BatchEnv) (i : nat) (ops : list BatchOp) (b : Batch) : Batch :=
  match ops with
  | [] => b
  | o :: ops' => batch_ops env (S i) ops' (batch_op (be_op env i) i o b)
  end.

(** A spawned connect and its arm in the [join_next] loop.  The jobs touch
    only the session they create; they are run at their completion. *)
Definition join_job (env : BatchEnv) (b : Batch) (job : nat * BatchOp) : Batch :=
  let '(i, o) := job in
  let e := be_op env i in
  if be_panics env i then b
  else if bool_decide (op o = bs "connect") then
    let '(r, st) := handle_connect e (op_host o) (op_port o) (app b) in
    push_result i r (set_app st b)
  else if bool_decide (op o = bs "connect_data") then
    let '(r, st) := handle_connect_data_phase1 e (op_host o) (op_port o) (op_d o) (app b) in
    match r with
    | Ok (sid, c) => push_tcp (i, sid, c, None) (set_app st b)
    | Err r => push_result i r (set_app st b)
    end
  else
    let '(r, st) := handle_udp_open_phase1 e (op_host o) (op_port o) (op_d o) (app b) in
    match r with
    | Ok (sid, c) => push_udp (i, sid, c, None) (set_app st b)
    | Err r => push_result i r (set_app st b)
    end.

Definition join_jobs (env : BatchEnv) (b : Batch) : Batch :=
  foldl (join_job env) b (sort_by_key (λ job, be_join env job.1) (new_conn_jobs b)).

Definition batch_phase1 (env : BatchEnv) (ops : list BatchOp) (st : AppState) : Batch :=
  join_jobs env (batch_ops env 0 ops (mk_acc st [] [] [] false [])).

(** The deadline of the wait between the phases. *)
Definition drain_deadline (b : Batch) : Z :=
  if had_writes_or_connects b then ACTIVE_DRAIN_DEADLINE else LONGPOLL_DEADLINE.

(** ** The batch handler, phase 2 *)

(** What a tick brings to a session. *)
Definition tick_inner (t : DrainTick) (s : SessionInner) : SessionInner :=
  let s := set_read_buf (read_buf s ++ t_data t) s in
  if t_eof t then set_eof s else s.

(** One turn of the drain loop: [inr] when the loop goes on. *)
Definition drain_turn (t : DrainTick) (remaining : Z) (all_data : bytes) (final_eof : bool)
    (s : SessionInner) : (bytes * bool) * SessionInner * bool :=
  let '(data, e, s) := drain_now (tick_inner t s) (sat_sub remaining (len all_data)) in
  let final_eof := if e then true else final_eof in
  if bool_decide (data = []) then (all_data, final_eof, s, false)
  else
    let hit_session_cap := TCP_DRAIN_MAX_BYTES <=? len data in
    let all_data := all_data ++ data in
    if final_eof || hit_session_cap || (remaining <=? len all_data) then
      (all_data, final_eof, s, false)
    else (all_data, final_eof, s, negb (t_late t)).

(** The drain loop of one session.  The turns end with the one-second
    deadline at the latest: after the given ticks, one that finds nothing
    new and is late. *)
Fixpoint drain_loop (ticks : list DrainTick) (remaining : Z) (all_data : bytes)
    (final_eof : bool) (s : SessionInner) : bytes * bool * SessionInner :=
  match ticks with
  | [] => (drain_turn (mk_tick [] false true) remaining all_data final_eof s).1
  | t :: ticks' =>
      let '(all_data, final_eof, s, more) := drain_turn t remaining all_data final_eof s in
      if more then drain_loop ticks' remaining all_data final_eof s
      else (all_data, final_eof, s)
  end.

(** What was drained for one op. *)
Record Drained := mk_drained {
  dr_index : nat; dr_sid : bytes; dr_data : bytes; dr_eof : bool; dr_seq : option Z }.

(** The [for (i, sid, inner, seq) in &tcp_drains] loop, stopping when the
    budget is used up. *)
Fixpoint tcp_drain_phase (env : BatchEnv) (drains : list TcpDrain) (remaining : Z)
    (st : AppState) : list Drained * AppState :=
  match drains with
  | [] => ([], st)
  | (i, sid, c, seq) :: drains' =>
      let '(all_data, final_eof, s) :=
        drain_loop (be_ticks env i) remaining [] false (tcp_heap st !!! c) in
      let s := if 0 <? len all_data then set_last_active (be_now env) s else s in
      let st := update_inner c (λ _, s) st in
      let d := mk_drained i sid all_data final_eof seq in
      let remaining := sat_sub remaining (len all_data) in
      if remaining =? 0 then ([d], st)
      else let '(ds, st) := tcp_drain_phase env drains' remaining st in (d :: ds, st)
  end.

Definition drained_response (d : Drained) : nat * TunnelResponse :=
  (dr_index d, tcp_drain_response (dr_sid d) (dr_data d) (dr_eof d) (dr_seq d)).

Definition remove_tcp_eof (st : AppState) (sid : bytes) : AppState :=
  match sessions st !! sid with
  | Some s => abort_all s (set_sessions (delete sid (sessions st)) st)
  | None => st
  end.

(** The datagrams the UDP reader receives before its drain. *)
Definition udp_receive (evs : list (Z * Recv)) (s : UdpSessionInner) : UdpSessionInner :=
  (foldl (λ st ev, let '(s, running) := st in
     if running : bool then udp_reader_step ev.1 ev.2 s else st) (s, negb (udp_eof s)) evs).1.

Fixpoint udp_drain_phase (env : BatchEnv) (drains : list UdpDrain) (st : AppState)
    : list (nat * TunnelResponse) * list bytes * AppState :=
  match drains with
  | [] => ([], [], st)
  | (i, sid, c, seq) :: drains' =>
      let '(pkts, e, s) := drain_udp_now (udp_receive (be_udp env i) (udp_heap st !!! c)) in
      let st := update_udp c (λ _, s) st in
      let '(rs, sids, st) := udp_drain_phase env drains' st in
      ((i, udp_drain_response sid pkts e seq) :: rs, (if e then sid :: sids else sids), st)
  end.

Definition remove_udp_eof (st : AppState) (sid : bytes) : AppState :=
  match udp_sessions st !! sid with
  | Some c => abort_udp_reader c (set_udp_sessions (delete sid (udp_sessions st)) st)
  | None => st
  end.

(** Both drains, with the eof'd sessions removed, and the responses in op
    order. *)
Definition batch_phase2 (env : BatchEnv) (b : Batch) : list (nat * TunnelResponse) * AppState :=
  let '(ds, st) := tcp_drain_phase env (tcp_drains b) BATCH_RESPONSE_BUDGET (app b) in
  let eof_sids := map dr_sid (List.filter dr_eof ds) in
  let st := foldl remove_tcp_eof st eof_sids in
  let '(urs, udp_eof_sids, st) := udp_drain_phase env (udp_drains b) st in
  let st := foldl remove_udp_eof st udp_eof_sids in
  (results b ++ map drained_response ds ++ urs, st).

Definition process_batch (env : BatchEnv) (ops : list BatchOp) (st : AppState)
    : list TunnelResponse * AppState :=
  let '(rs, st) := batch_phase2 env (batch_phase1 env ops st) in
  (map snd (sort_by_key (λ r, Z.of_nat r.1) rs), st).

(** ** The batch handler, complete *)

Definition json_ok (b : bytes) : HttpResponse := mk_http 200 (bs "application/json") b.
Definition batch_error (msg : bytes) : HttpResponse := json_ok (json_of_batch [resp_error msg]).

(** The body, decompressed when it carries the gzip magic. *)
Definition batch_json (body : bytes) : result bytes bytes :=
  if starts_with [x1f; x8b] body then
    match decompress_gzip body with Ok b => Ok b | Err e => Err (bs "gzip decode: " ++ e) end
  else Ok body.

(** The ops of an authenticated request, from [zops] when present. *)
Definition request_ops (req : BatchRequest) : result (list BatchOp) bytes :=
  match br_zops req with
  | None => Ok (br_ops req)
  | Some zops =>
      match b64_decode zops with
      | Err e => Err (bs "zops b64: " ++ e)
      | Ok compressed =>
          match zstd_decode_all compressed with
          | Err e => Err (bs "zstd decode: " ++ e)
          | Ok json =>
              match ops_of_json json with
              | Err e => Err (bs "zops json: " ++ e)
              | Ok ops => Ok ops
              end
          end
      end
  end.

(** The encoding of the responses, compressed for a client that can read it. *)
Definition encode_batch (client_zstd : bool) (rs : list TunnelResponse) : bytes :=
  if client_zstd then
    match zstd_encode_all (json_of_resps rs) with
    | Ok compressed => json_of_zr (b64_encode compressed)
    | Err _ => json_of_batch rs
    end
  else json_of_batch rs.

Definition handle_batch (env : BatchEnv) (body : bytes) (st : AppState)
    : HttpResponse * AppState :=
  match batch_json body with
  | Err e => (batch_error e, st)
  | Ok json =>
      match batch_of_json json with
      | Err e => (batch_error (bs "bad json: " ++ e), st)
      | Ok req =>
          if negb (bool_decide (br_k req = auth_key st)) then
            if diagnostic_mode st then (batch_error (bs "unauthorized"), st)
            else (mk_http 404 (bs "text/html") DECOY_404_BODY, st)
          else
            let had_zops := match br_zops req with Some _ => true | None => false end in
            let client_zstd := had_zops || match br_zc req with Some _ => true | None => false end in
            match request_ops req with
            | Err e => (batch_error e, st)
            | Ok ops =>
                let '(rs, st) := process_batch env ops st in
                (json_ok (encode_batch client_zstd rs), st)
            end
      end
  end.

(** ** The idle reaper *)

Definition tcp_stale (now : Z) (st : AppState) (s : ManagedSession) : bool :=
  300000 <? now - last_active (tcp_heap st !!! ms_inner s).
Definition udp_stale (now : Z) (st : AppState) (c : nat) : bool :=
  120000 <? now - udp_last_active (udp_heap st !!! c).

(** One tick of [cleanup_task]. *)
Definition cleanup_tick (now : Z) (st : AppState) : AppState :=
  let stale := List.filter (λ kv, tcp_stale now st kv.2) (map_to_list (sessions st)) in
  let st' := foldl (λ st kv, set_sessions (delete kv.1 (sessions st)) st) st stale in
  let st' := foldl (λ st kv, abort_all kv.2 st) st' stale in
  let udp_stale_l := List.filter (λ kv, udp_stale now st' kv.2) (map_to_list (udp_sessions st')) in
  let st'' := foldl (λ st kv, set_udp_sessions (delete kv.1 (udp_sessions st)) st) st' udp_stale_l in
  foldl (λ st kv, abort_udp_reader kv.2 st) st'' udp_stale_l.
End handlers.

(** ** Every op is claimed exactly once *)

Section alignment.
Context `{!Base64} `{!WireFormats}.

Definition drain_index (d : TcpDrain) : nat := d.1.1.1.
Definition drain_sid (d : TcpDrain) : bytes := d.1.1.2.

(** The op indices that have a response or are queued for a drain. *)
Definition answered (b : Batch) : list nat :=
  map fst (results b) ++ map drain_index (tcp_drains b) ++ map drain_index (udp_drains b).
Definition claimed (b : Batch) : list nat := answered b ++ map fst (new_conn_jobs b).

Lemma answered_push_result i r b : answered (push_result i r b) ≡ₚ i :: answered b.
Proof. unfold answered. simpl. rewrite map_app. simpl. solve_Permutation. Qed.
Lemma answered_push_tcp d b : answered (push_tcp d b) ≡ₚ drain_index d :: answered b.
Proof. unfold answered. simpl. rewrite map_app. simpl. solve_Permutation. Qed.
Lemma answered_push_udp d b : answered (push_udp d b) ≡ₚ drain_index d :: answered b.
Proof. unfold answered. simpl. rewrite map_app. simpl. solve_Permutation. Qed.

Lemma claimed_push_result i r b : claimed (push_result i r b) ≡ₚ i :: claimed b.
Proof. unfold claimed. by rewrite answered_push_result. Qed.
Lemma claimed_push_tcp d b : claimed (push_tcp d b) ≡ₚ drain_index d :: claimed b.
Proof. unfold claimed. by rewrite answered_push_tcp. Qed.
Lemma claimed_push_udp d b : claimed (push_udp d b) ≡ₚ drain_index d :: claimed b.
Proof. unfold claimed. by rewrite answered_push_udp. Qed.
Lemma claimed_spawn_job i o b : claimed (spawn_job i o b) ≡ₚ i :: claimed b.
Proof.
  unfold claimed, answered. simpl. rewrite map_app. simpl.
  rewrite !app_assoc. solve_Permutation.
Qed.
Lemma claimed_mark_active b : claimed (mark_active b) = claimed b.
Proof. done. Qed.
Lemma claimed_set_app st b : claimed (set_app st b) = claimed b.
Proof. done. Qed.

Ltac claim_one :=
  rewrite ?claimed_push_result, ?claimed_push_tcp, ?claimed_push_udp, ?claimed_spawn_job,
    ?claimed_mark_active, ?claimed_set_app; done.

Lemma batch_data_claims env i o b : claimed (batch_data env i o b) ≡ₚ i :: claimed b.
Proof.
  unfold batch_data. destruct (op_sid o) as [[|]|]; [claim_one| |claim_one].
  destruct (sessions _ !! _); [|claim_one].
  destruct (decode_payload _) as [[|]|]; claim_one.
Qed.

Lemma batch_udp_data_claims env i o b : claimed (batch_udp_data env i o b) ≡ₚ i :: claimed b.
Proof.
  unfold batch_udp_data. destruct (op_sid o) as [[|]|]; [claim_one| |claim_one].
  destruct (udp_sessions _ !! _); [|claim_one].
  destruct (decode_payload _) as [[|]|]; claim_one.
Qed.

Lemma batch_op_claims env i o b : claimed (batch_op env i o b) ≡ₚ i :: claimed b.
Proof.
  unfold batch_op. case_if; [claim_one|]. case_if; [claim_one|].
  case_if; [destruct (op_d o) as [[|]|]; claim_one|].
  case_if; [apply batch_data_claims|]. case_if; [apply batch_udp_data_claims|].
  case_if; [|claim_one]. destruct (handle_close _ _). claim_one.
Qed.

Lemma batch_ops_claims env i ops b :
  claimed (batch_ops env i ops b) ≡ₚ seq i (length ops) ++ claimed b.
Proof.
  revert i b. induction ops as [|o ops IH]; intros i b; [done|].
  cbn [batch_ops length seq]. rewrite IH, batch_op_claims. solve_Permutation.
Qed.

Lemma join_job_answers env b job :
  be_panics env job.1 = false → answered (join_job env b job) ≡ₚ job.1 :: answered b.
Proof.
  destruct job as [i o]. simpl. intros ->.
  case_if; [|case_if].
  - destruct (handle_connect _ _ _ _). by rewrite answered_push_result.
  - destruct (handle_connect_data_phase1 _ _ _ _ _) as [[[sid c]|] st].
    + by rewrite answered_push_tcp.
    + by rewrite answered_push_result.
  - destruct (handle_udp_open_phase1 _ _ _ _ _) as [[[sid c]|] st].
    + by rewrite answered_push_udp.
    + by rewrite answered_push_result.
Qed.

Lemma join_jobs_answers env jobs b :
  (∀ i, be_panics env i = false) →
  answered (foldl (join_job env) b jobs) ≡ₚ map fst jobs ++ answered b.
Proof.
  intros Hp. revert b. induction jobs as [|j jobs IH]; intros b; [done|].
  cbn [foldl map]. rewrite IH, join_job_answers by done. solve_Permutation.
Qed.

Lemma batch_phase1_answers env ops st :
  (∀ i, be_panics env i = false) →
  answered (batch_phase1 env ops st) ≡ₚ seq 0 (length ops).
Proof.
  intros Hp. unfold batch_phase1, join_jobs. rewrite join_jobs_answers by done.
  rewrite (sort_by_key_perm _ (new_conn_jobs _)).
  pose proof (batch_ops_claims env 0 ops (mk_acc st [] [] [] false [])) as Hc.
  unfold claimed in Hc at 1. rewrite app_nil_r in Hc. rewrite <-Hc. solve_Permutation.
Qed.

(** ** The drain phase *)

Lemma tcp_drain_phase_prefix env drains remaining st ds st' :
  tcp_drain_phase env drains remaining st = (ds, st') →
  map dr_index ds `prefix_of` map drain_index drains.
Proof.
  revert remaining st ds st'.
  induction drains as [|[[[i sid] c] seq] drains IH]; intros remaining st ds st'; simpl.
  { intros [= <- <-]. done. }
  destruct (drain_loop _ _ _ _ _) as [[data e] s]. case_if.
  { intros [= <- <-]. simpl. apply prefix_cons, prefix_nil. }
  destruct (tcp_drain_phase _ _ _ _) as [ds1 st1] eqn:E1. intros [= <- <-].
  simpl. apply prefix_cons. by eapply IH.
Qed.

Definition total_drained (ds : list Drained) : Z := foldr (λ d n, len (dr_data d) + n) 0 ds.

Lemma total_drained_nonneg ds : 0 ≤ total_drained ds.
Proof.
  unfold total_drained. induction ds as [|d ds IH]; simpl; [lia|].
  pose proof (len_nonneg (dr_data d)). lia.
Qed.

Lemma tcp_drain_phase_complete env drains remaining st ds st' :
  tcp_drain_phase env drains remaining st = (ds, st') → total_drained ds < remaining →
  map dr_index ds = map drain_index drains.
Proof.
  revert remaining st ds st'.
  induction drains as [|[[[i sid] c] seq] drains IH]; intros remaining st ds st'; simpl.
  { intros [= <- <-]. done. }
  destruct (drain_loop _ _ _ _ _) as [[data e] s]. case_if.
  { intros [= <- <-]. simpl. unfold sat_sub in *. lia. }
  destruct (tcp_drain_phase _ _ _ _) as [ds1 st1] eqn:E1. intros [= <- <-] Ht.
  simpl in *. pose proof (total_drained_nonneg ds1). f_equal. eapply IH; [exact E1|].
  unfold sat_sub. lia.
Qed.

Lemma drain_turn_len t remaining all fin s all' fin' s' more :
  drain_turn t remaining all fin s = (all', fin', s', more) →
  len all ≤ remaining → len all' ≤ remaining.
Proof.
  unfold drain_turn. destruct (drain_now _ _) as [[data e] s1] eqn:E. intros Hrun Hl.
  apply drain_now_spec in E as (_ & _ & Hd & _). unfold drain_cap, sat_sub in Hd.
  assert (len (all ++ data) ≤ remaining) by (rewrite len_app; pose proof (len_nonneg data); lia).
  revert Hrun. case_if; [by intros [= <- <- <- <-]|]. case_if; by intros [= <- <- <- <-].
Qed.

Lemma drain_loop_len ticks remaining all fin s all' fin' s' :
  drain_loop ticks remaining all fin s = (all', fin', s') →
  len all ≤ remaining → len all' ≤ remaining.
Proof.
  revert all fin s. induction ticks as [|t ticks IH]; intros all fin s; simpl.
  - destruct (drain_turn _ _ _ _ _) as [[[a f] s1] m] eqn:E. intros [= <- <- <-].
    by eapply drain_turn_len.
  - destruct (drain_turn _ _ _ _ _) as [[[a f] s1] m] eqn:E. intros Hrun Hl.
    pose proof (drain_turn_len _ _ _ _ _ _ _ _ _ E Hl).
    destruct m; [by eapply IH|by simplify_eq].
Qed.

Lemma tcp_drain_phase_budget env drains remaining st ds st' :
  0 ≤ remaining → tcp_drain_phase env drains remaining st = (ds, st') →
  total_drained ds ≤ remaining.
Proof.
  revert remaining st ds st'.
  induction drains as [|[[[i sid] c] seq] drains IH]; intros remaining st ds st' Hr; simpl.
  { intros [= <- <-]. done. }
  destruct (drain_loop _ _ _ _ _) as [[data e] s] eqn:El.
  pose proof (drain_loop_len _ _ _ _ _ _ _ _ El ltac:(done)) as Hl. case_if.
  { intros [= <- <-]. simpl. lia. }
  destruct (tcp_drain_phase _ _ _ _) as [ds1 st1] eqn:E1. intros [= <- <-].
  simpl. apply IH in E1; unfold sat_sub in *; lia.
Qed.

Lemma udp_drain_phase_indices env drains st rs sids st' :
  udp_drain_phase env drains st = (rs, sids, st') → map fst rs = map drain_index drains.
Proof.
  revert st rs sids st'.
  induction drains as [|[[[i sid] c] seq] drains IH]; intros st rs sids st'; simpl.
  { by intros [= <- <- <-]. }
  destruct (udp_drain_phase _ _ _) as [[rs1 sids1] st1] eqn:E. intros [= <- <- <-].
  simpl. f_equal. by eapply IH.
Qed.

(** ** Every response answers its op *)

Definition is_open (o : BatchOp) : bool :=
  bool_decide (op o = bs "connect") || bool_decide (op o = bs "connect_data")
  || bool_decide (op o = bs "udp_open").

(** The session an op's response has to name: the new one for an open, the
    op's own otherwise. *)
Definition reply_sid (env : BatchEnv) (i : nat) (o : BatchOp) : option bytes :=
  if is_open o then Some (env_uuid (be_op env i)) else op_sid o.

Definition answers (env : BatchEnv) (i : nat) (o : BatchOp) (r : TunnelResponse) : Prop :=
  (∃ e, r_e r = Some e) ∨ r_sid r = reply_sid env i o.

Definition result_ok (env : BatchEnv) (ops : list BatchOp) (ir : nat * TunnelResponse) : Prop :=
  ∃ o, ops !! ir.1 = Some o ∧ answers env ir.1 o ir.2.
Definition drain_ok (env : BatchEnv) (ops : list BatchOp) (d : TcpDrain) : Prop :=
  ∃ o, ops !! drain_index d = Some o ∧ reply_sid env (drain_index d) o = Some (drain_sid d).
Definition job_ok (ops : list BatchOp) (j : nat * BatchOp) : Prop :=
  ops !! j.1 = Some j.2 ∧ is_open j.2 = true.

Record batch_ok (env : BatchEnv) (ops : list BatchOp) (b : Batch) : Prop := {
  ok_results : Forall (result_ok env ops) (results b);
  ok_tcp : Forall (drain_ok env ops) (tcp_drains b);
  ok_udp : Forall (drain_ok env ops) (udp_drains b);
  ok_jobs : Forall (job_ok ops) (new_conn_jobs b)
}.

Lemma ok_push_result env ops i r b :
  batch_ok env ops b → result_ok env ops (i, r) → batch_ok env ops (push_result i r b).
Proof. intros [] ?. split; simpl; try done. apply Forall_app; split; [done|by constructor]. Qed.
Lemma ok_push_tcp env ops d b :
  batch_ok env ops b → drain_ok env ops d → batch_ok env ops (push_tcp d b).
Proof. intros [] ?. split; simpl; try done. apply Forall_app; split; [done|by constructor]. Qed.
Lemma ok_push_udp env ops d b :
  batch_ok env ops b → drain_ok env ops d → batch_ok env ops (push_udp d b).
Proof. intros [] ?. split; simpl; try done. apply Forall_app; split; [done|by constructor]. Qed.
Lemma ok_spawn_job env ops i o b :
  batch_ok env ops b → job_ok ops (i, o) → batch_ok env ops (spawn_job i o b).
Proof. intros [] ?. split; simpl; try done. apply Forall_app; split; [done|by constructor]. Qed.
Lemma ok_mark_active env ops b : batch_ok env ops b → batch_ok env ops (mark_active b).
Proof. intros []. by split. Qed.
Lemma ok_set_app env ops st b : batch_ok env ops b → batch_ok env ops (set_app st b).
Proof. intros []. by split. Qed.

Hint Resolve ok_push_result ok_push_tcp ok_push_udp ok_spawn_job ok_mark_active ok_set_app : gvpn.

Lemma result_ok_error env ops i o r e :
  ops !! i = Some o → r_e r = Some e → result_ok env ops (i, r).
Proof. intros Ho He. exists o. split; [done|]. left. by exists e. Qed.

Lemma result_ok_sid env ops i o r :
  ops !! i = Some o → r_sid r = reply_sid env i o → result_ok env ops (i, r).
Proof. intros Ho Hs. exists o. split; [done|]. by right. Qed.

Lemma drain_ok_intro env ops i o sid c seq :
  ops !! i = Some o → reply_sid env i o = Some sid → drain_ok env ops (i, sid, c, seq).
Proof. intros Ho Hs. by exists o. Qed.

Hint Resolve result_ok_error result_ok_sid drain_ok_intro : gvpn.
Hint Extern 1 (r_e _ = Some _) => reflexivity : gvpn.
Hint Extern 2 (r_sid _ = reply_sid _ _ _) => (symmetry; eassumption) : gvpn.

Lemma ok_batch_data env ops e i o b :
  ops !! i = Some o → is_open o = false → batch_ok env ops b → batch_ok env ops (batch_data e i o b).
Proof.
  intros Ho Hopen Hb. assert (Hs : reply_sid env i o = op_sid o) by (unfold reply_sid; by rewrite Hopen).
  unfold batch_data. revert Hs.
  destruct (op_sid o) as [[|x sid]|]; intros Hs; eauto with gvpn.
  destruct (sessions _ !! _); [|by eauto with gvpn].
  destruct (decode_payload _) as [[|]|]; eauto 6 with gvpn.
Qed.

Lemma ok_batch_udp_data env ops e i o b :
  ops !! i = Some o → is_open o = false → batch_ok env ops b →
  batch_ok env ops (batch_udp_data e i o b).
Proof.
  intros Ho Hopen Hb. assert (Hs : reply_sid env i o = op_sid o) by (unfold reply_sid; by rewrite Hopen).
  unfold batch_udp_data. revert Hs.
  destruct (op_sid o) as [[|x sid]|]; intros Hs; eauto with gvpn.
  destruct (udp_sessions _ !! _); [|by eauto with gvpn].
  destruct (decode_payload _) as [[|]|]; eauto 6 with gvpn.
Qed.

Lemma ok_batch_op env ops e i o b :
  ops !! i = Some o → batch_ok env ops b → batch_ok env ops (batch_op e i o b).
Proof.
  intros Ho Hb. unfold batch_op.
  destruct (bool_decide (op o = bs "connect")) eqn:E1.
  { apply ok_spawn_job; [by auto with gvpn|]. split; [done|]. unfold is_open. simpl. by rewrite E1. }
  destruct (bool_decide (op o = bs "connect_data")) eqn:E2.
  { apply ok_spawn_job; [by auto with gvpn|]. split; [done|]. unfold is_open. simpl.
    by rewrite E1, E2. }
  destruct (bool_decide (op o = bs "udp_open")) eqn:E3.
  { apply ok_spawn_job; [destruct (op_d o) as [[|]|]; by auto with gvpn|].
    split; [done|]. unfold is_open. simpl. by rewrite E1, E2, E3. }
  assert (Hopen : is_open o = false) by (unfold is_open; by rewrite E1, E2, E3).
  case_if; [by apply ok_batch_data|]. case_if; [by apply ok_batch_udp_data|].
  case_if; [|by eauto with gvpn].
  destruct (handle_close _ _) as [r st] eqn:Ec. apply ok_push_result; [by auto with gvpn|].
  unfold handle_close in Ec. assert (Hs : reply_sid env i o = op_sid o) by (unfold reply_sid; by rewrite Hopen).
  revert Hs Ec. destruct (op_sid o) as [[|x sid]|]; intros Hs [= <- _]; eauto with gvpn.
Qed.

Lemma ok_batch_ops env ops ops0 i b :
  (∀ j o, ops !! j = Some o → ops0 !! (i + j)%nat = Some o) →
  batch_ok env ops0 b → batch_ok env ops0 (batch_ops env i ops b).
Proof.
  revert i b. induction ops as [|o ops IH]; intros i b Hops Hb; [done|]. cbn [batch_ops].
  apply IH.
  - intros j o' Hj. rewrite <-(Hops (S j) o' Hj). f_equal. lia.
  - apply ok_batch_op; [|done]. rewrite <-(Hops 0%nat o eq_refl). f_equal. lia.
Qed.

Lemma connect_reply env host port st r st' :
  handle_connect env host port st = (r, st') →
  (∃ e, r_e r = Some e) ∨ r_sid r = Some (env_uuid env).
Proof.
  unfold handle_connect, validate_host_port. intros Hrun.
  destruct host as [[|x h]|]; try (injection Hrun as <- _; left; by eexists).
  destruct port as [p|]; try (injection Hrun as <- _; left; by eexists).
  destruct (0 <? p); try (injection Hrun as <- _; left; by eexists).
  destruct (open_session _ _ _ _) as [[s|e] st1]; injection Hrun as <- _;
    [by right|left; by eexists].
Qed.

Lemma connect_data_reply env host port d st r st' :
  handle_connect_data_phase1 env host port d st = (r, st') →
  match r with Ok (sid, _) => sid = env_uuid env | Err r => ∃ e, r_e r = Some e end.
Proof.
  unfold handle_connect_data_phase1, validate_host_port. intros Hrun.
  destruct host as [[|x h]|]; try (injection Hrun as <- _; by eexists).
  destruct port as [p|]; try (injection Hrun as <- _; by eexists).
  destruct (0 <? p); try (injection Hrun as <- _; by eexists).
  destruct (open_session _ _ _ _) as [[s|e] st1]; try (injection Hrun as <- _; by eexists).
  destruct (decode_payload d) as [[b|]|e]; try (injection Hrun as <- _; by eexists);
    destruct (env_write env); injection Hrun as <- _; by eexists || done.
Qed.

Lemma udp_open_reply env host port d st r st' :
  handle_udp_open_phase1 env host port d st = (r, st') →
  match r with Ok (sid, _) => sid = env_uuid env | Err r => ∃ e, r_e r = Some e end.
Proof.
  unfold handle_udp_open_phase1, validate_host_port. intros Hrun.
  destruct host as [[|x h]|]; try (injection Hrun as <- _; by eexists).
  destruct port as [p|]; try (injection Hrun as <- _; by eexists).
  destruct (0 <? p); try (injection Hrun as <- _; by eexists).
  destruct (create_udp_session _ _) as [[s|e] st1]; try (injection Hrun as <- _; by eexists).
  destruct (decode_payload d) as [[b|]|e]; try (injection Hrun as <- _; by eexists);
    destruct (env_write env); injection Hrun as <- _; by eexists || done.
Qed.

Lemma ok_join_job env ops b j :
  job_ok ops j → batch_ok env ops b → batch_ok env ops (join_job env b j).
Proof.
  destruct j as [i o]. intros [Ho Hopen] Hb. simpl in Ho, Hopen. simpl.
  assert (Hs : reply_sid env i o = Some (env_uuid (be_op env i)))
    by (unfold reply_sid; by rewrite Hopen).
  case_if; [done|]. case_if; [|case_if].
  - destruct (handle_connect _ _ _ _) as [r st] eqn:Er.
    apply ok_push_result; [by auto with gvpn|]. exists o. split; [done|].
    unfold answers. simpl. rewrite Hs. by eapply connect_reply.
  - destruct (handle_connect_data_phase1 _ _ _ _ _) as [[[sid c]|r] st] eqn:Er;
      apply connect_data_reply in Er; [subst sid; by eauto with gvpn|].
    destruct Er; eauto with gvpn.
  - destruct (handle_udp_open_phase1 _ _ _ _ _) as [[[sid c]|r] st] eqn:Er;
      apply udp_open_reply in Er; [subst sid; by eauto with gvpn|].
    destruct Er; eauto with gvpn.
Qed.

Lemma ok_join_jobs env ops js b :
  Forall (job_ok ops) js → batch_ok env ops b → batch_ok env ops (foldl (join_job env) b js).
Proof.
  intros Hj. revert b. induction Hj as [|j js Hj Hjs IH]; intros b Hb; [done|].
  cbn [foldl]. apply IH. by apply ok_join_job.
Qed.

Lemma ok_batch_phase1 env ops st : batch_ok env ops (batch_phase1 env ops st).
Proof.
  unfold batch_phase1, join_jobs.
  assert (Hb : batch_ok env ops (batch_ops env 0 ops (mk_acc st [] [] [] false []))).
  { apply ok_batch_ops; [done|]. by split. }
  apply ok_join_jobs; [|done].
  rewrite sort_by_key_perm. apply (ok_jobs _ _ _ Hb).
Qed.

Lemma ok_tcp_drain_phase env ops drains remaining st ds st' :
  Forall (drain_ok env ops) drains → tcp_drain_phase env drains remaining st = (ds, st') →
  Forall (result_ok env ops) (map drained_response ds).
Proof.
  intros Hd. revert remaining st ds st'.
  induction Hd as [|[[[i sid] c] seq] drains (o & Ho & Hs) Hd IH];
    intros remaining st ds st'; simpl.
  { intros [= <- <-]. constructor. }
  assert (Hok : ∀ data e, result_ok env ops (drained_response (mk_drained i sid data e seq))).
  { intros data e. exists o. split; [done|]. by right. }
  destruct (drain_loop _ _ _ _ _) as [[data e] s]. case_if.
  { intros [= <- <-]. simpl. by repeat constructor. }
  destruct (tcp_drain_phase _ _ _ _) as [ds1 st1] eqn:E1. intros [= <- <-].
  simpl. constructor; [done|]. by eapply IH.
Qed.

Lemma ok_udp_drain_phase env ops drains st rs sids st' :
  Forall (drain_ok env ops) drains → udp_drain_phase env drains st = (rs, sids, st') →
  Forall (result_ok env ops) rs.
Proof.
  intros Hd. revert st rs sids st'.
  induction Hd as [|[[[i sid] c] seq] drains (o & Ho & Hs) Hd IH]; intros st rs sids st'; simpl.
  { intros [= <- <- <-]. constructor. }
  destruct (udp_drain_phase _ _ _) as [[rs1 sids1] st1] eqn:E. intros [= <- <- <-].
  constructor; [|by eapply IH]. exists o. split; [done|]. by right.
Qed.

(** What the TCP drains of a batch return. *)
Definition batch_drained (env : BatchEnv) (ops : list BatchOp) (st : AppState) : list Drained :=
  let b := batch_phase1 env ops st in
  (tcp_drain_phase env (tcp_drains b) BATCH_RESPONSE_BUDGET (app b)).1.

Lemma batch_results env ops st rs st' :
  batch_phase2 env (batch_phase1 env ops st) = (rs, st') →
  Forall (result_ok env ops) rs ∧
  ((∀ i, be_panics env i = false) →
   total_drained (batch_drained env ops st) < BATCH_RESPONSE_BUDGET →
   map fst rs ≡ₚ seq 0 (length ops)).
Proof.
  unfold batch_phase2, batch_drained. pose proof (ok_batch_phase1 env ops st) as Hok.
  pose proof (batch_phase1_answers env ops st) as Ha.
  set (b := batch_phase1 env ops st) in *.
  destruct (tcp_drain_phase _ _ _ _) as [ds st1] eqn:Et.
  destruct (udp_drain_phase _ _ _) as [[urs sids] st2] eqn:Eu. intros [= <- _].
  split.
  - apply Forall_app; split; [apply (ok_results _ _ _ Hok)|]. apply Forall_app; split.
    + eapply ok_tcp_drain_phase; [apply (ok_tcp _ _ _ Hok)|exact Et].
    + eapply ok_udp_drain_phase; [apply (ok_udp _ _ _ Hok)|exact Eu].
  - intros Hp Hlt. rewrite <-(Ha Hp). unfold answered. rewrite !map_app, map_map.
    change (map (λ x, (drained_response x).1) ds) with (map dr_index ds).
    rewrite (udp_drain_phase_indices _ _ _ _ _ _ Eu).
    simpl in Hlt. by rewrite (tcp_drain_phase_complete _ _ _ _ _ _ Et Hlt).
Qed.

(** Responses in op order, each for its own op. *)
Lemma process_batch_aligned env ops st rs st' :
  (∀ i, be_panics env i = false) →
  total_drained (batch_drained env ops st) < BATCH_RESPONSE_BUDGET →
  process_batch env ops st = (rs, st') →
  length rs = length ops ∧
  ∀ i o r, ops !! i = Some o → rs !! i = Some r → answers env i o r.
Proof.
  intros Hp Hlt. unfold process_batch.
  destruct (batch_phase2 _ _) as [irs st1] eqn:E. intros [= <- _].
  apply batch_results in E as [Hok Hidx]. specialize (Hidx Hp Hlt).
  set (srt := sort_by_key (λ r, Z.of_nat r.1) irs).
  assert (Hs : map fst srt = seq 0 (length ops)) by (by apply sort_by_key_seq).
  split; [by rewrite length_map, <-(length_map fst), Hs, length_seq|].
  intros i o r Ho Hr. rewrite list_lookup_fmap in Hr.
  destruct (srt !! i) as [[j r']|] eqn:Ei; simplify_eq/=.
  assert (j = i) as ->.
  { assert (Hj : map fst srt !! i = Some j) by (by rewrite list_lookup_fmap, Ei).
    rewrite Hs in Hj. by apply lookup_seq in Hj as [-> _]. }
  assert (Hin : (i, r) ∈ irs).
  { rewrite <-(sort_by_key_perm (λ r, Z.of_nat r.1) irs). by eapply list_elem_of_lookup_2. }
  rewrite Forall_forall in Hok. destruct (Hok _ Hin) as (o' & Ho' & Ha). simpl in *.
  by simplify_eq.
Qed.

(** C9: batch responses are aligned with their ops.  As long as the drains
    do not use up the response budget (and no connect task panics), the reply
    has exactly one response per op, in op order, and each one is an error or
    names the session of its op (the freshly opened one for an open), in
    whatever order the concurrent connects complete. *)
Theorem batch_response_aligned env ops st rs st' :
  (∀ i, be_panics env i = false) →
  total_drained (batch_drained env ops st) < BATCH_RESPONSE_BUDGET →
  process_batch env ops st = (rs, st') →
  length rs = length ops ∧
  ∀ i o r, ops !! i = Some o → rs !! i = Some r → answers env i o r.
Proof. apply process_batch_aligned. Qed.

(** C8: the raw bytes of all TCP drains of one batch stay within
    [BATCH_RESPONSE_BUDGET], however many sessions have data and however fast
    the readers refill them during the drain. *)
Theorem batch_drain_within_budget env ops st :
  total_drained (batch_drained env ops st) ≤ BATCH_RESPONSE_BUDGET.
Proof.
  unfold batch_drained.
  destruct (tcp_drain_phase _ _ _ _) as [ds st1] eqn:Et. simpl.
  by eapply tcp_drain_phase_budget; [|exact Et].
Qed.
End alignment.

(** ** When the budget runs out *)

Section budget.
Context `{!Base64}.

(** A session with at least [TCP_DRAIN_MAX_BYTES] buffered and nothing
    arriving during the drain uses up exactly that much of the budget. *)
Lemma tcp_drain_phase_full env i sid c seq drains remaining st :
  be_ticks env i = [] → eof (tcp_heap st !!! c) = false →
  TCP_DRAIN_MAX_BYTES ≤ len (read_buf (tcp_heap st !!! c)) → TCP_DRAIN_MAX_BYTES ≤ remaining →
  ∃ s', tcp_drain_phase env ((i, sid, c, seq) :: drains) remaining st =
    let d := mk_drained i sid (ztake TCP_DRAIN_MAX_BYTES (read_buf (tcp_heap st !!! c))) false seq in
    let st := update_inner c (λ _, s') st in
    if remaining - TCP_DRAIN_MAX_BYTES =? 0 then ([d], st)
    else let '(ds, st) := tcp_drain_phase env drains (remaining - TCP_DRAIN_MAX_BYTES) st in
         (d :: ds, st).
Proof.
  intros Ht He Hl Hr. set (s := tcp_heap st !!! c) in *. set (cap := TCP_DRAIN_MAX_BYTES) in *.
  set (t := mk_tick [] false true).
  assert (Hcap : drain_cap (sat_sub remaining (len (@nil byte))) = cap).
  { unfold drain_cap, sat_sub. change (len (@nil byte)) with 0. fold cap.
    assert (cap = 16777216) by done. lia. }
  assert (Hb : read_buf (tick_inner t s) = read_buf s) by (simpl; apply app_nil_r).
  assert (Hpos : 0 < cap) by done.
  assert (Hlen : len (ztake cap (read_buf s)) = cap) by (apply len_ztake; lia).
  assert (Hd : ∃ s1, drain_now (tick_inner t s) (sat_sub remaining (len (@nil byte))) =
    (ztake cap (read_buf s), false, s1)).
  { unfold drain_now, take_buf. rewrite Hcap, Hb. case_if.
    - eexists. f_equal. f_equal; [|exact He].
      unfold ztake. rewrite take_ge; [done|]. unfold len in *. lia.
    - by eexists. }
  destruct Hd as [s1 Hd].
  assert (Hloop : drain_loop [] remaining [] false s = (ztake cap (read_buf s), false, s1)).
  { cbn [drain_loop]. unfold drain_turn. fold t. rewrite Hd.
    rewrite bool_decide_eq_false_2.
    2:{ intros Hn. rewrite Hn, len_nil in Hlen. lia. }
    fold cap. rewrite Hlen, (Z.leb_refl cap). done. }
  exists (set_last_active (be_now env) s1). cbn [tcp_drain_phase]. fold s. rewrite Ht, Hloop, Hlen.
  replace (0 <? cap) with true by done.
  replace (sat_sub remaining cap) with (remaining - cap) by (unfold sat_sub; lia). done.
Qed.

Definition poll (sid : bytes) : BatchOp :=
  mk_op (bs "data") (Some sid) None None None None None.
Definition close_op (sid : bytes) : BatchOp :=
  mk_op (bs "close") (Some sid) None None None None None.

(** An environment in which nothing arrives. *)
Definition quiet_op : OpEnv := mk_env 0 (Ok tt) (Ok tt) (bs "uuid").
Definition quiet_env : BatchEnv :=
  mk_batch_env (λ _, quiet_op) (λ _, 0) (λ _, false) (λ _, []) (λ _, []) 0.

Definition buffered (b : bytes) : SessionInner := set_read_buf b (new_inner 0).

(** Three open sessions, the first two with data buffered. *)
Definition three_sessions (ba bb : bytes) : AppState :=
  mk_app (<[0%nat := buffered ba]> (<[1%nat := buffered bb]> (<[2%nat := buffered []]> ∅))) ∅ 3
    (<[bs "a" := mk_managed 0 false]> (<[bs "b" := mk_managed 1 false]>
      (<[bs "c" := mk_managed 2 false]> ∅)))
    ∅ {[0; 1; 2]}%nat ∅ ∅ (bs "key") false.

Definition busy_ops : list BatchOp := [poll (bs "a"); poll (bs "b"); poll (bs "c"); close_op (bs "x")].

(** When the budget runs out, responses are missing and the rest shift.
    Two sessions with 16 MiB each use it up; the third poll gets no response
    at all, so the position that belongs to session [c] carries the answer to
    closing [x], with eof set. *)
Theorem batch_budget_misaligns ba bb :
  TCP_DRAIN_MAX_BYTES ≤ len ba → TCP_DRAIN_MAX_BYTES ≤ len bb →
  (process_batch quiet_env busy_ops (three_sessions ba bb)).1 =
    [ tcp_drain_response (bs "a") (ztake TCP_DRAIN_MAX_BYTES ba) false None;
      tcp_drain_response (bs "b") (ztake TCP_DRAIN_MAX_BYTES bb) false None;
      mk_resp (Some (bs "x")) None None (Some true) None None None ].
Proof.
  intros Ha Hb. unfold process_batch, batch_phase2.
  assert (E : batch_phase1 quiet_env busy_ops (three_sessions ba bb) =
    mk_acc (three_sessions ba bb) [(3%nat, mk_resp (Some (bs "x")) None None (Some true) None None None)]
      [(0%nat, bs "a", 0%nat, None); (1%nat, bs "b", 1%nat, None); (2%nat, bs "c", 2%nat, None)]
      [] false []) by (vm_compute; reflexivity).
  rewrite E. cbn [tcp_drains app udp_drains results].
  destruct (tcp_drain_phase_full quiet_env 0 (bs "a") 0 None
    [(1%nat, bs "b", 1%nat, None); (2%nat, bs "c", 2%nat, None)] BATCH_RESPONSE_BUDGET
    (three_sessions ba bb) eq_refl eq_refl Ha ltac:(done)) as [s1 ->].
  cbv zeta. replace (BATCH_RESPONSE_BUDGET - TCP_DRAIN_MAX_BYTES) with TCP_DRAIN_MAX_BYTES by done.
  replace (TCP_DRAIN_MAX_BYTES =? 0) with false by done.
  set (st1 := update_inner 0 (λ _, s1) (three_sessions ba bb)).
  assert (Hh : tcp_heap st1 !!! 1%nat = buffered bb).
  { unfold st1, update_inner. cbn [tcp_heap]. rewrite lookup_total_insert_ne by done. done. }
  destruct (tcp_drain_phase_full quiet_env 1 (bs "b") 1 None [(2%nat, bs "c", 2%nat, None)]
    TCP_DRAIN_MAX_BYTES st1 eq_refl) as [s2 ->]; [by rewrite Hh..|done|].
  rewrite Hh, Z.sub_diag, Z.eqb_refl. reflexivity.
Qed.

End budget.

Lemma full_buffer : ∃ b : bytes, TCP_DRAIN_MAX_BYTES ≤ len b.
Proof.
  exists (replicate (Z.to_nat TCP_DRAIN_MAX_BYTES) x00).
  unfold len. rewrite length_replicate, Z2Nat.id; [lia|done].
Qed.

Lemma batch_budget_misaligns_witness :
  ∃ ba bb, TCP_DRAIN_MAX_BYTES ≤ len ba ∧ TCP_DRAIN_MAX_BYTES ≤ len bb ∧
    ((process_batch quiet_env busy_ops (three_sessions ba bb)).1 !! 2%nat) =
      Some (mk_resp (Some (bs "x")) None None (Some true) None None None).
Proof.
  destruct full_buffer as [b Hb].
  exists b, b. split_and!; [exact Hb|exact Hb|].
  rewrite (batch_budget_misaligns b b Hb Hb). reflexivity.
Defined.
(** A batch on concrete sessions: aligned. *)
Lemma batch_response_aligned_witness :
  length (process_batch quiet_env [poll (bs "a"); close_op (bs "b"); poll (bs "zz")]
    (three_sessions (bs "hello") [])).1 = 3%nat.
Proof.
  set (ops := [poll (bs "a"); close_op (bs "b"); poll (bs "zz")]).
  destruct (process_batch quiet_env ops (three_sessions (bs "hello") [])) as [rs st'] eqn:E.
  exact (proj1 (batch_response_aligned quiet_env ops (three_sessions (bs "hello") []) rs st'
    (λ _, eq_refl) ltac:(by vm_compute) E)).
Defined.

(** ** Authentication, close and the reaper *)

Section access.
Context `{!Base64} `{!WireFormats}.

(** A body that does not decode to a request with the right key. *)
Definition unauthenticated (body : bytes) (st : AppState) : Prop :=
  ∀ json req, batch_json body = Ok json → batch_of_json json = Ok req → br_k req ≠ auth_key st.

(** C25: without the shared key nothing happens, and a wrong key is hidden.
    A request to the single-op handler with another key changes no state and is
    answered with the decoy (the JSON error in diagnostic mode).  A batch body
    that is not a well-formed request with the key changes no state; if it is a
    well-formed request with another key it is answered with the very same decoy
    in production mode, and with the JSON error in diagnostic mode; if it is no
    well-formed request (bad gzip, or JSON that is not one, for want of a key
    say), it is answered, in either mode, with status 200 and the protocol's own
    JSON error.  (A single-op body that is no well-formed request is refused by
    the framework before this handler.) *)
Theorem unauthenticated_inert env benv arrived req body st :
  tr_k req ≠ auth_key st → unauthenticated body st →
  handle_tunnel env arrived req st = (decoy_or_unauthorized (diagnostic_mode st), st) ∧
  (handle_batch benv body st).2 = st ∧
  (∀ json breq, batch_json body = Ok json → batch_of_json json = Ok breq →
   if diagnostic_mode st
   then (handle_batch benv body st).1 = mk_http 200 (bs "application/json") (json_of_batch [resp_error (bs "unauthorized")])
   else (handle_batch benv body st).1 = mk_http 404 (bs "text/html") DECOY_404_BODY ∧
        (handle_batch benv body st).1 = (handle_tunnel env arrived req st).1) ∧
  (∀ e, batch_json body = Err e →
   (handle_batch benv body st).1 = mk_http 200 (bs "application/json") (json_of_batch [resp_error e])) ∧
  (∀ json e, batch_json body = Ok json → batch_of_json json = Err e →
   (handle_batch benv body st).1 = mk_http 200 (bs "application/json") (json_of_batch [resp_error (bs "bad json: " ++ e)])).
Proof.
  intros Hk Hu.
  assert (Ht : handle_tunnel env arrived req st = (decoy_or_unauthorized (diagnostic_mode st), st)).
  { unfold handle_tunnel. by rewrite bool_decide_eq_false_2. }
  split_and!; [done| |..].
  - unfold handle_batch. destruct (batch_json body) as [json|] eqn:Ej; [|done].
    destruct (batch_of_json json) as [breq|] eqn:Er; [|done].
    rewrite bool_decide_eq_false_2 by (by eapply Hu). simpl. by destruct (diagnostic_mode st).
  - intros json breq Ej Er. rewrite Ht. unfold handle_batch. rewrite Ej, Er.
    rewrite bool_decide_eq_false_2 by (by eapply Hu). simpl. by destruct (diagnostic_mode st).
  - intros e Ej. unfold handle_batch. by rewrite Ej.
  - intros json e Ej Er. unfold handle_batch. by rewrite Ej, Er.
Qed.

(** A malformed batch body is not decoyed.  Whatever the sender knows, a
    body that is not JSON is answered with status 200 and the batch protocol's
    own JSON error, in production mode too. *)
Theorem malformed_batch_not_decoyed benv body e st :
  starts_with [x1f; x8b] body = false → batch_of_json body = Err e →
  handle_batch benv body st =
    (mk_http 200 (bs "application/json") (json_of_batch [resp_error (bs "bad json: " ++ e)]), st).
Proof.
  intros Hs He. unfold handle_batch, batch_json. rewrite Hs, He. done.
Qed.

Lemma abort_all_maps s st :
  sessions (abort_all s st) = sessions st ∧ udp_sessions (abort_all s st) = udp_sessions st ∧
  readers (abort_all s st) = readers st ∖ {[ms_inner s]} ∧
  udp_readers (abort_all s st) = udp_readers st.
Proof. unfold abort_all. by destruct (ms_udpgw s). Qed.

(** Closing a session removes it from both tables and stops its reader
    tasks; no other session is touched. *)
Theorem close_removes_session sid st r st' :
  sid ≠ [] → handle_close (Some sid) st = (r, st') →
  r = mk_resp (Some sid) None None (Some true) None None None ∧
  sessions st' = delete sid (sessions st) ∧ udp_sessions st' = delete sid (udp_sessions st) ∧
  readers st' = readers st ∖ (match sessions st !! sid with
                              | Some s => {[ms_inner s]} | None => ∅ end) ∧
  udp_readers st' = udp_readers st ∖ (match udp_sessions st !! sid with
                              | Some c => {[c]} | None => ∅ end).
Proof.
  intros Hne. unfold handle_close. destruct sid as [|x sid]; [done|]. intros [= <- <-].
  split; [done|].
  destruct (sessions st !! (x :: sid)) as [s|] eqn:Es.
  - destruct (abort_all_maps s (set_sessions (delete (x :: sid) (sessions st)) st))
      as (H1 & H2 & H3 & H4).
    rewrite H2. cbn [udp_sessions set_sessions].
    destruct (udp_sessions st !! (x :: sid)) as [c|] eqn:Eu; simpl;
      rewrite ?H1, ?H2, ?H3, ?H4; simpl; split_and!; try done.
    + by rewrite delete_id.
    + set_solver.
  - destruct (udp_sessions st !! (x :: sid)) as [c|] eqn:Eu; simpl;
      split_and!; rewrite ?delete_id by done; try done; set_solver.
Qed.

(** On a failed upstream write the single-op data handler drops the
    session from the table but leaves its reader task running, which no later
    close or reap can reach. *)
Theorem data_single_write_error_orphans_reader env arrived sid s data payload e st :
  sid ≠ [] → sessions st !! sid = Some s → ms_inner s ∈ readers st →
  decode_payload data = Ok (Some payload) → env_write env = Err e →
  let '(r, st') := handle_data_single env arrived (Some sid) data st in
  r = resp_error (bs "write failed: " ++ e) ∧ sessions st' = delete sid (sessions st) ∧
  ms_inner s ∈ readers st'.
Proof.
  intros Hne Hs Hr Hd He. unfold handle_data_single.
  destruct sid as [|x sid]; [done|]. rewrite Hs, Hd, He. done.
Qed.
End access.

Section reaper.

Lemma foldl_delete_sessions l st :
  foldl (λ st (kv : bytes * ManagedSession), set_sessions (delete kv.1 (sessions st)) st) st l =
  set_sessions (foldr (λ kv m, delete kv.1 m) (sessions st) (rev l)) st.
Proof.
  revert st. induction l as [|kv l IH]; intros st; simpl; [by destruct st|].
  rewrite IH, foldr_app. by destruct st.
Qed.

Lemma foldl_delete_udp l st :
  foldl (λ st (kv : bytes * nat), set_udp_sessions (delete kv.1 (udp_sessions st)) st) st l =
  set_udp_sessions (foldr (λ kv m, delete kv.1 m) (udp_sessions st) (rev l)) st.
Proof.
  revert st. induction l as [|kv l IH]; intros st; simpl; [by destruct st|].
  rewrite IH, foldr_app. by destruct st.
Qed.

Lemma lookup_foldr_delete {V} (l : list (bytes * V)) (m : gmap bytes V) k :
  foldr (λ kv m, delete kv.1 m) m l !! k = if decide (k ∈ l.*1) then None else m !! k.
Proof.
  induction l as [|[k' v] l IH]; simpl; [done|].
  destruct (decide (k = k')) as [->|Hne].
  - rewrite lookup_delete_eq, decide_True; [done|by constructor].
  - rewrite lookup_delete_ne by done. rewrite IH.
    apply decide_ext. rewrite elem_of_cons. split; [by right|by intros [?|?]].
Qed.

(** Deleting the entries selected by a test leaves the others. *)
Lemma lookup_reap {V} (test : V → bool) (m : gmap bytes V) k :
  foldr (λ kv m, delete kv.1 m) m
    (rev (List.filter (λ kv, test kv.2) (map_to_list m))) !! k =
  match m !! k with Some v => if test v then None else Some v | None => None end.
Proof.
  rewrite lookup_foldr_delete.
  assert (Hin : k ∈ (rev (List.filter (λ kv, test kv.2) (map_to_list m))).*1 ↔
    ∃ v, m !! k = Some v ∧ test v = true).
  { rewrite list_elem_of_fmap. setoid_rewrite list_elem_of_In.
    setoid_rewrite <-in_rev. setoid_rewrite filter_In.
    setoid_rewrite <-list_elem_of_In. split.
    - intros ([k' v] & -> & Hm & Ht). apply elem_of_map_to_list in Hm. by exists v.
    - intros (v & Hm & Ht). exists (k, v). split_and!; [done|by apply elem_of_map_to_list|done]. }
  case_decide as Hd.
  - apply Hin in Hd as (v & -> & ->). done.
  - destruct (m !! k) as [v|] eqn:E; [|done]. destruct (test v) eqn:Et; [|done].
    destruct Hd. apply Hin. by exists v.
Qed.

Lemma foldl_abort_all l st :
  sessions (foldl (λ st (kv : bytes * ManagedSession), abort_all kv.2 st) st l) = sessions st ∧
  udp_sessions (foldl (λ st kv, abort_all kv.2 st) st l) = udp_sessions st ∧
  udp_heap (foldl (λ st kv, abort_all kv.2 st) st l) = udp_heap st ∧
  ∀ c, c ∈ readers (foldl (λ st kv, abort_all kv.2 st) st l) ↔
       c ∈ readers st ∧ c ∉ (ms_inner <$> l.*2).
Proof.
  revert st. induction l as [|[k s] l IH]; intros st; simpl; [set_solver|].
  destruct (IH (abort_all s st)) as (H1 & H2 & H3 & H4).
  destruct (abort_all_maps s st) as (A1 & A2 & A3 & A4).
  rewrite H1, H2, H3, A1, A2. split_and!; try done.
  - unfold abort_all. by destruct (ms_udpgw s).
  - intros c. rewrite H4, A3. set_solver.
Qed.

Lemma foldl_abort_udp l st :
  let st' := foldl (λ st (kv : bytes * nat), abort_udp_reader kv.2 st) st l in
  sessions st' = sessions st ∧ udp_sessions st' = udp_sessions st ∧ readers st' = readers st.
Proof. revert st. induction l as [|kv l IH]; intros st; cbn [foldl]; [done|]. apply (IH (abort_udp_reader kv.2 st)). Qed.

(** One tick of the reaper removes exactly the TCP sessions idle for more
    than 300 s and the UDP sessions idle for more than 120 s, keeps every
    other one, and stops exactly the readers of the TCP sessions it removed. *)
Theorem cleanup_reaps_exactly_idle now st :
  let st' := cleanup_tick now st in
  (∀ sid, sessions st' !! sid =
     match sessions st !! sid with
     | Some s => if 300000 <? now - last_active (tcp_heap st !!! ms_inner s) then None else Some s
     | None => None
     end) ∧
  (∀ sid, udp_sessions st' !! sid =
     match udp_sessions st !! sid with
     | Some c => if 120000 <? now - udp_last_active (udp_heap st !!! c) then None else Some c
     | None => None
     end) ∧
  (∀ c, c ∈ readers st' ↔ c ∈ readers st ∧
     ¬ ∃ sid s, sessions st !! sid = Some s ∧ tcp_stale now st s = true ∧ ms_inner s = c).
Proof.
  unfold cleanup_tick. rewrite foldl_delete_sessions.
  set (stale := List.filter _ (map_to_list (sessions st))).
  set (st1 := set_sessions _ st).
  destruct (foldl_abort_all stale st1) as (H1 & H2 & H3 & H4).
  set (st2 := foldl _ st1 stale) in *. rewrite foldl_delete_udp.
  set (ustale := List.filter _ (map_to_list (udp_sessions st2))).
  set (st3 := set_udp_sessions _ st2).
  destruct (foldl_abort_udp ustale st3) as (U1 & U2 & U3). cbv zeta in U1, U2, U3.
  cbv zeta. rewrite U1, U2, U3. unfold st3. cbn [sessions udp_sessions readers set_udp_sessions].
  split_and!.
  - intros sid. rewrite H1. unfold st1. cbn [sessions set_sessions].
    apply (lookup_reap (tcp_stale now st)).
  - intros sid. rewrite (lookup_reap (udp_stale now st2)), H2. unfold udp_stale. by rewrite H3.
  - intros c. rewrite H4. cbn [readers set_sessions st1].
    assert (Hs : c ∈ (ms_inner <$> stale.*2) ↔
      ∃ sid s, sessions st !! sid = Some s ∧ tcp_stale now st s = true ∧ ms_inner s = c).
    { rewrite list_elem_of_fmap. setoid_rewrite list_elem_of_fmap. unfold stale.
      setoid_rewrite list_elem_of_In. setoid_rewrite filter_In.
      setoid_rewrite <-list_elem_of_In. split.
      - intros (s & -> & [k s'] & -> & Hm & Ht). apply elem_of_map_to_list in Hm. eauto.
      - intros (k & s & Hm & Ht & <-). exists s. split; [done|]. exists (k, s).
        split_and!; [done|by apply elem_of_map_to_list|done]. }
    by rewrite Hs.
Qed.
End reaper.

(** ** Concrete requests

    A minimal wire format: a body is the key of a request without ops, the
    empty body is malformed, responses print as their error messages. *)
Definition toy_formats : WireFormats := {|
  decompress_gzip b := Err (bs "unsupported");
  batch_of_json b := match b with [] => Err (bs "eof") | _ => Ok (mk_batch b [] None None) end;
  ops_of_json b := Ok [];
  json_of_resp r := default [] (r_e r);
  json_of_resps rs := concat (map (λ r, default [] (r_e r)) rs);
  json_of_batch rs := concat (map (λ r, default [] (r_e r)) rs);
  json_of_zr b := b;
  zstd_decode_all b := Ok b;
  zstd_encode_all b := Ok b
|}.

Lemma unauthenticated_inert_witness :
  handle_tunnel (H0 := toy_formats) quiet_op ([], false)
    (mk_tunnel_request (bs "guess") (bs "close") None None (Some (bs "a")) None)
    (three_sessions [] []) =
  (mk_http 404 (bs "text/html") DECOY_404_BODY, three_sessions [] []) ∧
  (handle_batch (H0 := toy_formats) quiet_env (bs "guess") (three_sessions [] [])).1 =
  mk_http 404 (bs "text/html") DECOY_404_BODY.
Proof.
  destruct (unauthenticated_inert (H0 := toy_formats) quiet_op quiet_env ([], false)
    (mk_tunnel_request (bs "guess") (bs "close") None None (Some (bs "a")) None)
    (bs "guess") (three_sessions [] [])) as (H1 & H2 & H3 & _).
  - done.
  - intros json req Hj Hr. change (Ok (bs "guess") = Ok json :> result bytes bytes) in Hj.
    injection Hj as <-. simpl in Hr. injection Hr as <-. done.
  - split; [exact H1|].
    destruct (H3 (bs "guess") (mk_batch (bs "guess") [] None None) eq_refl eq_refl) as [_ ->].
    by rewrite H1.
Defined.

Lemma malformed_batch_not_decoyed_witness :
  handle_batch (H0 := toy_formats) quiet_env [] (three_sessions [] []) =
  (mk_http 200 (bs "application/json") (bs "bad json: eof"), three_sessions [] []).
Proof.
  rewrite (malformed_batch_not_decoyed (H0 := toy_formats) quiet_env [] (bs "eof")
    (three_sessions [] []) eq_refl eq_refl). reflexivity.
Defined.

Lemma close_removes_session_witness :
  readers (handle_close (Some (bs "b")) (three_sessions [] [])).2 = {[0; 1; 2]}%nat ∖ {[1%nat]}.
Proof.
  destruct (handle_close (Some (bs "b")) (three_sessions [] [])) as [r st'] eqn:E.
  destruct (close_removes_session (bs "b") (three_sessions [] []) r st') as (_ & _ & _ & Hr & _);
    [done|exact E|]. exact Hr.
Defined.

Lemma data_single_write_error_orphans_reader_witness :
  1%nat ∈ readers (handle_data_single (mk_env 5 (Ok tt) (Err (bs "reset")) [])
    ([], false) (Some (bs "b")) (Some (bs "aGk=")) (three_sessions [] [])).2.
Proof.
  pose proof (data_single_write_error_orphans_reader (mk_env 5 (Ok tt) (Err (bs "reset")) [])
    ([], false) (bs "b") (mk_managed 1 false) (Some (bs "aGk=")) (bs "hi") (bs "reset")
    (three_sessions [] []) ltac:(done) eq_refl ltac:(by vm_compute)
    ltac:(by vm_compute) eq_refl) as H.
  destruct (handle_data_single _ _ _ _ _) as [r st']. by destruct H as (_ & _ & H).
Defined.
