(* ===== verification/Cache.v ===== *)
(** * The response cache (src/cache.rs)

    [ResponseCache]: a byte-bounded FIFO cache with per-entry expiry, its
    [get] and [put], and the rules that decide whether and for how long a
    response may be cached.  An [Instant] and a [Duration] are in
    milliseconds; [parse_ttl] returns seconds. *)

From Stdlib Require Import Strings.Byte.
From S2P Require Import Prelude RustBytes.

Definition DEFAULT_MAX_BYTES : Z := 50 * 1024 * 1024.
Definition MAX_ENTRY_FRACTION : Z := 4.

Record CachedResponse := mk_cached { cached_bytes : bytes; expires : Z }.

(** [ResponseCache] with its [Inner]: the map, the insertion order (front
    first), the accounted size, the limit and the two counters. *)
Record ResponseCache := mk_cache {
  entries : gmap bytes CachedResponse;
  order : list bytes;
  size : Z;
  max_bytes : Z;
  hits : Z;
  misses : Z
}.

Definition new (max_bytes : Z) : ResponseCache := mk_cache ∅ [] 0 max_bytes 0 0.

(** [order.retain(|k| k != key)]. *)
Definition retain_ne (key : bytes) (l : list bytes) : list bytes :=
  List.filter (λ k, negb (bool_decide (k = key))) l.

Definition get (now : Z) (key : bytes) (c : ResponseCache) : option bytes * ResponseCache :=
  match entries c !! key with
  | Some entry =>
      if now <? expires entry then
        (Some (cached_bytes entry),
         mk_cache (entries c) (order c) (size c) (max_bytes c) (wadd64 (hits c) 1) (misses c))
      else
        (None,
         mk_cache (delete key (entries c)) (retain_ne key (order c))
           (sat_sub (size c) (len (cached_bytes entry))) (max_bytes c) (hits c)
           (wadd64 (misses c) 1))
  | None =>
      (None, mk_cache (entries c) (order c) (size c) (max_bytes c) (hits c) (wadd64 (misses c) 1))
  end.

(** The removal of an old entry under the same key. *)
Definition remove_old (key : bytes) (e : gmap bytes CachedResponse) (o : list bytes) (sz : Z)
    : gmap bytes CachedResponse * list bytes * Z :=
  match e !! key with
  | Some old => (delete key e, retain_ne key o, sat_sub sz (len (cached_bytes old)))
  | None => (e, o, sz)
  end.

(** The eviction loop: pop the oldest key until the new entry fits. *)
Fixpoint evict (limit need : Z) (e : gmap bytes CachedResponse) (o : list bytes) (sz : Z)
    : gmap bytes CachedResponse * list bytes * Z :=
  if limit <? sz + need then
    match o with
    | [] => (e, [], sz)
    | oldest :: o' =>
        match e !! oldest with
        | Some removed => evict limit need (delete oldest e) o' (sat_sub sz (len (cached_bytes removed)))
        | None => evict limit need e o' sz
        end
    end
  else (e, o, sz).

Definition put (now : Z) (key b : bytes) (ttl : Z) (c : ResponseCache) : ResponseCache :=
  let n := len b in
  if (n =? 0) || (max_bytes c / MAX_ENTRY_FRACTION <? n) then c
  else
    let '(e, o, sz) := remove_old key (entries c) (order c) (size c) in
    let '(e, o, sz) := evict (max_bytes c) n e o sz in
    mk_cache (<[key := mk_cached b (now + ttl)]> e) (o ++ [key]) (sz + n) (max_bytes c)
      (hits c) (misses c).

(** ** What may be cached *)

Definition contains_any (s : bytes) (ps : list bytes) : bool := existsb (contains s) ps.

Definition STATIC_EXTS : list bytes :=
  [bs ".css"; bs ".js"; bs ".mjs"; bs ".woff"; bs ".woff2"; bs ".ttf"; bs ".otf"; bs ".eot";
   bs ".png"; bs ".jpg"; bs ".jpeg"; bs ".gif"; bs ".webp"; bs ".svg"; bs ".ico"; bs ".avif";
   bs ".mp3"; bs ".mp4"; bs ".wasm"; bs ".webm"; bs ".ogg"].

(** The text after the first occurrence of [key]. *)
Definition text_after (key s : bytes) : option bytes :=
  let? pos := find_sub key s in Some (drop (pos + length key) s).

(** The [max-age] directive: [None] when there is none or its number does not
    parse. *)
Definition max_age (hdr_lower : bytes) : option Z :=
  let? rest := text_after (bs "max-age=") hdr_lower in
  let e := default (length rest) (find_byte (λ c, negb (is_ascii_digit c)) rest) in
  parse_u64 (take e rest).

Definition static_url (url : bytes) : bool :=
  let path_no_query := to_ascii_lowercase (split_first x3f url) in
  existsb (λ ext, ends_with ext path_no_query) STATIC_EXTS.

Definition content_type_ttl (hdr_lower : bytes) : option Z :=
  let? rest := text_after (bs "content-type:") hdr_lower in
  let line_end := default (length rest) (find_byte (is_byte x0d) rest) in
  let ct := take line_end rest in
  if contains_any ct [bs "image/"; bs "font/"] then Some 3600
  else if contains_any ct [bs "text/css"; bs "javascript"; bs "application/wasm"] then Some 1800
  else None.

(** The header block, lowercased, of a response that may be cached at all. *)
Definition cacheable_header (raw_response : bytes) : option bytes :=
  let? hdr_end := find_sub [x0d; x0a; x0d; x0a] raw_response in
  let? hdr := from_utf8 (take hdr_end raw_response) in
  let hdr_lower := to_ascii_lowercase hdr in
  let? line := first_line hdr_lower in
  if negb (starts_with (bs "http/1.1 200") line) && negb (starts_with (bs "http/1.0 200") line)
  then None
  else if contains_any hdr_lower [bs "no-store"; bs "no-cache"; bs "private"] then None
  else if contains hdr_lower (bs "set-cookie:") then None
  else Some hdr_lower.

Definition parse_ttl (raw_response url : bytes) : option Z :=
  let? hdr_lower := cacheable_header raw_response in
  match max_age hdr_lower with
  | Some secs => if secs =? 0 then None else Some (Z.min secs 86400)
  | None => if static_url url then Some 3600 else content_type_ttl hdr_lower
  end.

Definition is_cacheable_method (method : bytes) : bool :=
  let u := to_ascii_uppercase method in
  bool_decide (u = bs "GET") || bool_decide (u = bs "HEAD").

Definition cache_key (method url : bytes) : bytes :=
  to_ascii_uppercase method ++ [x3a] ++ url.

(** ** Invariant *)

Definition entry_len (e : gmap bytes CachedResponse) (k : bytes) : Z :=
  match e !! k with Some r => len (cached_bytes r) | None => 0 end.

(** The bytes held under the keys of [o]. *)
Definition held (e : gmap bytes CachedResponse) (o : list bytes) : Z :=
  foldr (λ k n, entry_len e k + n) 0 o.

(** The order lists the cached keys, each once, and the accounted size is
    what the entries hold. *)
Definition accounted (e : gmap bytes CachedResponse) (o : list bytes) (sz : Z) : Prop :=
  NoDup o ∧ (∀ k, k ∈ o ↔ is_Some (e !! k)) ∧ sz = held e o.

Definition cache_inv (c : ResponseCache) : Prop :=
  accounted (entries c) (order c) (size c) ∧ size c ≤ max_bytes c.

Lemma entry_len_nonneg e k : 0 ≤ entry_len e k.
Proof. unfold entry_len. destruct (e !! k); [apply len_nonneg|done]. Qed.

Lemma held_cons e k o : held e (k :: o) = entry_len e k + held e o.
Proof. done. Qed.

Lemma held_nonneg e o : 0 ≤ held e o.
Proof.
  induction o as [|k o IH]; [done|]. rewrite held_cons.
  pose proof (entry_len_nonneg e k). lia.
Qed.

Lemma held_ext e e' o : (∀ k, k ∈ o → e !! k = e' !! k) → held e o = held e' o.
Proof.
  induction o as [|k o IH]; intros H; [done|]. rewrite !held_cons.
  rewrite IH by (intros; apply H; by right).
  unfold entry_len. by rewrite H by (by constructor).
Qed.

Lemma held_app e o o' : held e (o ++ o') = held e o + held e o'.
Proof. induction o as [|k o IH]; [done|]. cbn [app]. rewrite !held_cons. lia. Qed.

Lemma retain_ne_spec key o k : k ∈ retain_ne key o ↔ k ∈ o ∧ k ≠ key.
Proof.
  unfold retain_ne. rewrite !list_elem_of_In, filter_In, negb_true_iff, bool_decide_eq_false.
  done.
Qed.

Lemma held_retain e key o :
  NoDup o → held (delete key e) (retain_ne key o) = held e o - (if decide (key ∈ o) then entry_len e key else 0).
Proof.
  induction 1 as [|k o Hk Hnd IH]; [done|]. unfold retain_ne in *. cbn [List.filter].
  rewrite held_cons. destruct (decide (k = key)) as [->|Hne].
  - rewrite bool_decide_eq_true_2 by done. cbn [negb]. rewrite decide_True by (by constructor).
    rewrite decide_False in IH by done. rewrite IH. lia.
  - rewrite bool_decide_eq_false_2 by done. cbn [negb]. rewrite held_cons, IH.
    unfold entry_len at 1. rewrite lookup_delete_ne by done. fold (entry_len e k).
    rewrite (decide_ext (key ∈ k :: o) (key ∈ o)); [lia|]. set_solver.
Qed.

Lemma accounted_remove e o sz key r :
  accounted e o sz → e !! key = Some r →
  accounted (delete key e) (retain_ne key o) (sat_sub sz (len (cached_bytes r))).
Proof.
  intros (Hnd & Hk & Hs) He. split_and!.
  - apply NoDup_ListNoDup, List.NoDup_filter. by apply NoDup_ListNoDup.
  - intros k. rewrite retain_ne_spec, Hk. destruct (decide (k = key)) as [->|Hne].
    + rewrite lookup_delete_eq. split; [naive_solver|intros [? ?]; done].
    + rewrite lookup_delete_ne by done. naive_solver.
  - rewrite held_retain by done. rewrite decide_True by (apply Hk; by rewrite He).
    unfold entry_len. rewrite He. rewrite <-Hs. unfold sat_sub.
    pose proof (held_nonneg (delete key e) (retain_ne key o)) as Hn.
    rewrite held_retain in Hn by done. rewrite decide_True in Hn by (apply Hk; by rewrite He).
    unfold entry_len in Hn. rewrite He in Hn. lia.
Qed.

Lemma accounted_pop e k o sz r :
  accounted e (k :: o) sz → e !! k = Some r →
  accounted (delete k e) o (sat_sub sz (len (cached_bytes r))).
Proof.
  intros Ha He. pose proof (accounted_remove _ _ _ _ _ Ha He) as Hr.
  destruct Ha as (Hnd & _ & _). apply NoDup_cons in Hnd as [Hk Hnd].
  assert (Ho : retain_ne k (k :: o) = o); [|by rewrite Ho in Hr].
  unfold retain_ne. cbn [List.filter]. rewrite bool_decide_eq_true_2 by done. cbn [negb].
  apply forallb_filter_id, forallb_forall. intros x Hx.
  apply negb_true_iff, bool_decide_eq_false. intros ->. by apply list_elem_of_In in Hx.
Qed.

(** Eviction keeps the accounting, makes room, and only removes entries from
    the front of the order. *)
Lemma evict_spec limit need e o sz e' o' sz' :
  0 ≤ need ≤ limit → accounted e o sz → evict limit need e o sz = (e', o', sz') →
  accounted e' o' sz' ∧ sz' + need ≤ limit ∧ e' ⊆ e ∧ o' `suffix_of` o ∧
  (sz + need ≤ limit → e' = e).
Proof.
  intros Hn. revert e sz. induction o as [|k o IH]; intros e sz Ha; cbn [evict].
  - assert (sz = 0) as -> by (by destruct Ha as (_ & _ & ->)).
    case_if; intros [= <- <- <-]; split_and!; try done; lia.
  - case_if; [|by intros [= <- <- <-]].
    destruct (e !! k) as [r|] eqn:Ek.
    2:{ destruct Ha as (_ & Hk & _). destruct (proj1 (Hk k)) as [? ?]; [by constructor|]. congruence. }
    intros Hr. pose proof (accounted_pop _ _ _ _ _ Ha Ek) as Ha'.
    destruct (IH _ _ Ha' Hr) as (H1 & H2 & H3 & H4 & H5).
    split_and!; try done; [|by apply suffix_cons_r|lia].
    etrans; [exact H3|]. apply delete_subseteq.
Qed.

Lemma remove_old_spec key e o sz e' o' sz' :
  accounted e o sz → remove_old key e o sz = (e', o', sz') →
  accounted e' o' sz' ∧ e' = delete key e ∧ sz' ≤ sz ∧ key ∉ o'.
Proof.
  intros Ha. unfold remove_old. destruct (e !! key) as [r|] eqn:Ek; intros [= <- <- <-].
  - split_and!; [by apply accounted_remove|done| |rewrite retain_ne_spec; tauto].
    destruct Ha as (_ & _ & ->). unfold sat_sub. pose proof (len_nonneg (cached_bytes r)).
    pose proof (held_nonneg e o). lia.
  - split_and!; [done|by rewrite delete_id|lia|].
    destruct Ha as (_ & Hk & _). rewrite Hk, Ek. by intros [? ?].
Qed.

Definition admissible (b : bytes) (c : ResponseCache) : Prop :=
  0 < len b ≤ max_bytes c / MAX_ENTRY_FRACTION.

#[global] Instance admissible_dec b c : Decision (admissible b c).
Proof. unfold admissible. apply _. Defined.

(** What an admitted [put] does: the new entry over a subset of the others. *)
Lemma put_spec now key b ttl c :
  cache_inv c → admissible b c →
  ∃ e o, put now key b ttl c =
      mk_cache (<[key := mk_cached b (now + ttl)]> e) (o ++ [key]) (held e o + len b)
        (max_bytes c) (hits c) (misses c) ∧
    accounted e o (held e o) ∧ e ⊆ delete key (entries c) ∧
    held e o + len b ≤ max_bytes c ∧ (key ∉ o) ∧
    (size c + len b ≤ max_bytes c → e = delete key (entries c)).
Proof.
  intros [Ha Hm] [Hb1 Hb2]. unfold put.
  replace (len b =? 0) with false by lia.
  replace (max_bytes c / MAX_ENTRY_FRACTION <? len b) with false by lia. cbn [orb].
  destruct (remove_old _ _ _ _) as [[e1 o1] sz1] eqn:E1.
  apply remove_old_spec in E1 as (Ha1 & -> & Hsz & Hk1); [|done].
  destruct (evict _ _ _ _ _) as [[e2 o2] sz2] eqn:E2.
  assert (Hle : len b ≤ max_bytes c).
  { destruct (decide (0 ≤ max_bytes c)); unfold MAX_ENTRY_FRACTION in *; divlia. }
  apply evict_spec in E2 as (Ha2 & Hle2 & Hsub & Hsuf & Hfit); [|lia|done].
  assert (sz2 = held e2 o2) as -> by (by destruct Ha2 as (_ & _ & ?)).
  exists e2, o2. split_and!; try done.
  - intros Hin. apply Hk1. destruct Hsuf as [pre ->]. apply elem_of_app. by right.
  - intros Hfits. apply Hfit. lia.
Qed.

Lemma put_inv now key b ttl c : cache_inv c → cache_inv (put now key b ttl c).
Proof.
  intros Hi. destruct (decide (admissible b c)) as [Hadm|Hadm].
  - destruct (put_spec now key b ttl c Hi Hadm) as (e & o & Hput & (Hnd & Hk & _) & _ & Hle & Hni & _).
    rewrite Hput.
    split; [|exact Hle]. split_and!; simpl.
    + apply NoDup_app. split_and!; [done| |apply NoDup_singleton].
      intros x Hx ->%list_elem_of_singleton. done.
    + intros k. rewrite elem_of_app, list_elem_of_singleton, Hk.
      destruct (decide (k = key)) as [->|Hne].
      * rewrite lookup_insert_eq. split; [by eauto|by right].
      * rewrite lookup_insert_ne by done. naive_solver.
    + rewrite held_app. rewrite (held_ext (<[key := mk_cached b (now + ttl)]> e) e o).
      2:{ intros k Hin. rewrite lookup_insert_ne; [done|]. intros ->. done. }
      rewrite held_cons. unfold entry_len. rewrite lookup_insert_eq. cbn [held foldr cached_bytes].
      lia.
  - unfold put, admissible in *. pose proof (len_nonneg b).
    replace ((len b =? 0) || (max_bytes c / MAX_ENTRY_FRACTION <? len b)) with true by lia. done.
Qed.

Lemma get_inv now key c : cache_inv c → cache_inv (get now key c).2.
Proof.
  intros [Ha Hm]. unfold get. destruct (entries c !! key) as [r|] eqn:Ek; [|done].
  case_if; [done|]. split; [by apply accounted_remove|]. simpl.
  destruct Ha as (_ & _ & Hs). unfold sat_sub. pose proof (len_nonneg (cached_bytes r)).
  pose proof (held_nonneg (entries c) (order c)). lia.
Qed.

(** ** Histories *)

Inductive CacheOp :=
  | OGet (now : Z) (key : bytes)
  | OPut (now : Z) (key b : bytes) (ttl : Z).

Definition cache_op (c : ResponseCache) (o : CacheOp) : ResponseCache :=
  match o with
  | OGet now key => (get now key c).2
  | OPut now key b ttl => put now key b ttl c
  end.

Definition cache_run (limit : Z) (ops : list CacheOp) : ResponseCache :=
  foldl cache_op (new limit) ops.

(** The abstract cache: the last admissible response stored under each key,
    nothing evicted. *)
Definition spec_op (limit : Z) (m : gmap bytes CachedResponse) (o : CacheOp)
    : gmap bytes CachedResponse :=
  match o with
  | OGet _ _ => m
  | OPut now key b ttl =>
      if decide (admissible b (new limit)) then <[key := mk_cached b (now + ttl)]> m else m
  end.
Definition spec_run (limit : Z) (ops : list CacheOp) : gmap bytes CachedResponse :=
  foldl (spec_op limit) ∅ ops.

Lemma cache_op_max c o : max_bytes (cache_op c o) = max_bytes c.
Proof.
  destruct o as [now key|now key b ttl]; simpl.
  - unfold get. destruct (_ !! _); [|done]. by case_if.
  - unfold put. case_if; [done|]. destruct (remove_old _ _ _ _) as [[? ?] ?].
    by destruct (evict _ _ _ _ _) as [[? ?] ?].
Qed.

Lemma cache_op_inv c o : cache_inv c → cache_inv (cache_op c o).
Proof. destruct o; [apply get_inv|apply put_inv]. Qed.

Lemma cache_op_refines limit c m o :
  cache_inv c → max_bytes c = limit → entries c ⊆ m →
  entries (cache_op c o) ⊆ spec_op limit m o.
Proof.
  intros Hi Hl Hsub. destruct o as [now key|now key b ttl]; simpl.
  - unfold get. destruct (entries c !! key); [|done]. case_if; [done|]. simpl.
    etrans; [apply delete_subseteq|done].
  - case_decide as Hadm.
    + destruct (put_spec now key b ttl c Hi) as (e & o & -> & _ & He & _).
      { unfold admissible in *. by rewrite Hl. }
      simpl. apply insert_mono. etrans; [exact He|]. etrans; [apply delete_subseteq|done].
    + unfold put. unfold admissible in Hadm. simpl in Hadm. pose proof (len_nonneg b).
      rewrite Hl. replace (_ || _) with true; [done|]. lia.
Qed.

Lemma cache_run_inv limit ops c m :
  cache_inv c → max_bytes c = limit → entries c ⊆ m →
  cache_inv (foldl cache_op c ops) ∧ max_bytes (foldl cache_op c ops) = limit ∧
  entries (foldl cache_op c ops) ⊆ foldl (spec_op limit) m ops.
Proof.
  revert c m. induction ops as [|o ops IH]; intros c m Hi Hl Hsub; [done|].
  cbn [foldl]. apply IH; [by apply cache_op_inv|by rewrite cache_op_max|].
  by apply cache_op_refines.
Qed.

Lemma cache_run_from_new limit ops :
  0 ≤ limit →
  cache_inv (cache_run limit ops) ∧ max_bytes (cache_run limit ops) = limit ∧
  entries (cache_run limit ops) ⊆ spec_run limit ops.
Proof.
  intros Hl. apply cache_run_inv; [|done|done]. split; [|done]. split_and!; [constructor| |done].
  intros k. simpl. rewrite lookup_empty. split; [by intros ?%elem_of_nil|by intros [? ?]].
Qed.

(** The cache is bounded and its accounting is exact after any history
    of gets and puts: the size is the total of the cached bodies and at most
    [max_bytes], and the eviction order lists exactly the cached keys, each
    once. *)
Theorem cache_bounded limit ops :
  0 ≤ limit →
  let c := cache_run limit ops in
  size c = held (entries c) (order c) ∧ size c ≤ limit ∧ NoDup (order c) ∧
  ∀ k, k ∈ order c ↔ is_Some (entries c !! k).
Proof.
  intros Hl c. destruct (cache_run_from_new limit ops Hl) as ([(Hnd & Hk & Hs) Hm] & Hmax & _).
  fold c in Hnd, Hk, Hs, Hm, Hmax. split_and!; try done. lia.
Qed.

Lemma cache_bounded_witness :
  let c := cache_run 100 [OPut 0 (bs "a") (bs "0123456789") 5; OPut 1 (bs "a") (bs "01234") 5] in
  size c = 5 ∧ size c ≤ 100.
Proof.
  intros c. split; [by vm_compute|].
  exact (proj1 (proj2 (cache_bounded 100
    [OPut 0 (bs "a") (bs "0123456789") 5; OPut 1 (bs "a") (bs "01234") 5] ltac:(lia)))).
Defined.

(** C10: a hit is never wrong or stale.  After any history, what [get]
    returns for a key is the last admissible response stored under that very
    key, before its expiry: the cache implements the unbounded cache, minus
    evictions. *)
Theorem cache_hit_sound limit ops now key b :
  0 ≤ limit → (get now key (cache_run limit ops)).1 = Some b →
  ∃ t, spec_run limit ops !! key = Some (mk_cached b t) ∧ now < t.
Proof.
  intros Hl Hg. destruct (cache_run_from_new limit ops Hl) as (_ & _ & Hsub).
  unfold get in Hg. destruct (entries (cache_run limit ops) !! key) as [[b' t]|] eqn:Ek; [|done].
  destruct (now <? _) eqn:Et; [|done]. simpl in *. bool_to_prop. simplify_eq.
  exists t. split; [|done]. by eapply lookup_weaken.
Qed.

Lemma cache_hit_sound_witness :
  ∃ t, spec_run 100 [OPut 0 (bs "a") (bs "x") 5; OPut 1 (bs "a") (bs "y") 5] !! bs "a" =
    Some (mk_cached (bs "y") t) ∧ 3 < t.
Proof.
  apply (cache_hit_sound 100 [OPut 0 (bs "a") (bs "x") 5; OPut 1 (bs "a") (bs "y") 5] 3
    (bs "a") (bs "y")); [lia|by vm_compute].
Defined.

(** A stored response is returned until it expires, and not after; when
    the new entry fits, storing it leaves every other entry in place. *)
Theorem cache_get_put now key b ttl now' limit ops :
  let c := cache_run limit ops in
  0 ≤ limit → admissible b c →
  (get now' key (put now key b ttl c)).1 = (if now' <? now + ttl then Some b else None) ∧
  (size c + len b ≤ limit → ∀ key', key' ≠ key →
   entries (put now key b ttl c) !! key' = entries c !! key').
Proof.
  intros c Hl Hadm. destruct (cache_run_from_new limit ops Hl) as (Hi & Hmax & _).
  fold c in Hi, Hmax.
  destruct (put_spec now key b ttl c Hi Hadm) as (e & o & -> & _ & _ & _ & _ & Hfit). split.
  - unfold get. simpl. rewrite lookup_insert_eq. simpl. by case_if.
  - intros Hs key' Hne. simpl. rewrite lookup_insert_ne by done.
    rewrite Hfit by lia. by rewrite lookup_delete_ne.
Qed.

Lemma cache_get_put_witness :
  (get 4 (bs "k") (put 0 (bs "k") (bs "body") 5 (cache_run 100 []))).1 = Some (bs "body").
Proof.
  destruct (cache_get_put 0 (bs "k") (bs "body") 5 4 100 []) as [-> _]; [lia|by vm_compute|done].
Defined.

(** ** Caching rules *)

Lemma max_age_nonneg h n : max_age h = Some n → 0 ≤ n.
Proof.
  unfold max_age. destruct (text_after _ h) as [rest|]; [|done].
  intros Hp%parse_u64_range. destruct Hp. lia.
Qed.

Lemma content_type_ttl_range h n : content_type_ttl h = Some n → 1800 ≤ n ≤ 3600.
Proof.
  unfold content_type_ttl. destruct (text_after _ h) as [rest|]; [|done].
  case_if; [intros [= <-]; lia|]. case_if; [intros [= <-]; lia|done].
Qed.

Lemma cacheable_header_spec raw h :
  cacheable_header raw = Some h →
  ∃ hdr body, raw = hdr ++ [x0d; x0a; x0d; x0a] ++ body ∧ utf8_valid hdr = true ∧
    h = to_ascii_lowercase hdr ∧
    contains h (bs "no-store") = false ∧ contains h (bs "no-cache") = false ∧
    contains h (bs "private") = false ∧ contains h (bs "set-cookie:") = false ∧
    ∃ line, first_line h = Some line ∧
      (starts_with (bs "http/1.1 200") line = true ∨ starts_with (bs "http/1.0 200") line = true).
Proof.
  unfold cacheable_header.
  destruct (find_sub _ raw) as [i|] eqn:Ei; [|done].
  unfold from_utf8. destruct (utf8_valid _) eqn:Eu; [|done].
  destruct (first_line _) as [line|] eqn:El; [|done].
  case_if; [done|]. destruct (contains_any _ _) eqn:Ec; [done|].
  destruct (contains _ (bs "set-cookie:")) eqn:Es; [done|]. intros [= <-].
  apply find_sub_Some in Ei.
  exists (take i raw), (drop (i + 4) raw).
  unfold contains_any in Ec. cbn [existsb] in Ec. bool_to_prop.
  split_and!; try done. exists line. split; [done|]. destruct E; bool_to_prop; auto.
Qed.

(** What is given a lifetime may be cached.  A response gets one only if
    its header block is complete and valid UTF-8, its status is 200 and it
    says none of no-store, no-cache, private or Set-Cookie (in any case); the
    lifetime is between one second and one day. *)
Theorem parse_ttl_gated raw url secs :
  parse_ttl raw url = Some secs →
  1 ≤ secs ≤ 86400 ∧
  ∃ hdr body, raw = hdr ++ [x0d; x0a; x0d; x0a] ++ body ∧
    let h := to_ascii_lowercase hdr in
    contains h (bs "no-store") = false ∧ contains h (bs "no-cache") = false ∧
    contains h (bs "private") = false ∧ contains h (bs "set-cookie:") = false ∧
    ∃ line, first_line h = Some line ∧
      (starts_with (bs "http/1.1 200") line = true ∨ starts_with (bs "http/1.0 200") line = true).
Proof.
  unfold parse_ttl. destruct (cacheable_header raw) as [h|] eqn:Eh; [|done].
  intros Hp. split.
  - destruct (max_age h) as [n|] eqn:Em.
    + apply max_age_nonneg in Em. destruct (n =? 0) eqn:E0; [done|]. bool_to_prop.
      injection Hp as <-. lia.
    + destruct (static_url url); [injection Hp as <-; lia|].
      apply content_type_ttl_range in Hp. lia.
  - apply cacheable_header_spec in Eh as (hdr & body & -> & _ & -> & Hrest).
    by exists hdr, body.
Qed.

Definition sample_response (cc : bytes) : bytes :=
  bs "HTTP/1.1 200 OK" ++ [x0d; x0a] ++ bs "Cache-Control: " ++ cc ++ [x0d; x0a; x0d; x0a] ++ bs "hi".

Lemma parse_ttl_gated_witness :
  parse_ttl (sample_response (bs "max-age=99999999")) (bs "/x") = Some 86400 ∧ 1 ≤ 86400 ≤ 86400 ∧
  parse_ttl (sample_response (bs "Private, max-age=60")) (bs "/x.css") = None.
Proof.
  assert (Hp : parse_ttl (sample_response (bs "max-age=99999999")) (bs "/x") = Some 86400)
    by (by vm_compute).
  split_and!; [exact Hp| | |by vm_compute]; apply (parse_ttl_gated _ _ _ Hp).
Defined.
