(* ===== verification/Quota.v ===== *)
(** * Quota accounting of the Apps Script accounts (src/quota_tracker.rs)

    One [AccountBucket] per configured script id with a rolling 24-hour
    window, the hard stop at the safety buffer, the aggregate queries and the
    persistence of the state.  Unix times are in seconds and an argument of
    the operations that read the clock.  A write to the state file either
    stores the state ([io = true]) or fails and leaves the old file. *)

From Stdlib Require Import Strings.Byte.
From S2P Require Import Prelude RustBytes.

(** The characters of a valid UTF-8 string. *)
Fixpoint chars (s : bytes) : list bytes :=
  match s with
  | [] => []
  | b :: s' =>
      match chars s' with
      | (b' :: c) :: cs => if is_cont b' then (b :: b' :: c) :: cs else [b] :: (b' :: c) :: cs
      | cs => [b] :: cs
      end
  end.

Record AccountBucket := mk_bucket {
  masked_id : bytes;
  requests_used : Z;
  failed_requests : Z;
  bytes_up : Z;
  bytes_down : Z;
  bytes_total : Z;
  last_request_at : option Z;
  next_reset_at : option Z;
  exhausted : bool;
  hard_stopped : bool;
  exhaustion_reason : option bytes;
  quota_error_count : Z
}.

Record QuotaState := mk_quota_state {
  buckets : gmap bytes AccountBucket;
  total_relay_calls : Z;
  relay_today_day : Z
}.

(** [state_file] is what [quota_state.json] holds. *)
Record QuotaTracker := mk_tracker {
  state : QuotaState;
  script_ids : list bytes;
  daily_limit : Z;
  safety_buffer : Z;
  dirty_count : Z;
  state_file : option QuotaState
}.

Definition mask_id (id : bytes) : bytes :=
  let cs := chars id in
  let n := length cs in
  if (n <=? 8)%nat then bs "***"
  else concat (take 4 cs) ++ bs "..." ++ concat (drop (n - 4) cs).

Definition default_bucket (id : bytes) : AccountBucket :=
  mk_bucket (mask_id id) 0 0 0 0 0 None None false false None 0.

Definition stop_reason (where_ : bytes) (used limit buffer : Z) : bytes :=
  where_ ++ fmt_uint used ++ bs "/" ++ fmt_uint limit ++ bs " requests used (limit " ++
  fmt_uint limit ++ bs ", buffer " ++ fmt_uint buffer ++ bs ")".

(** Set [exhausted] and [hard_stopped] with a reason. *)
Definition hard_stop (reason : bytes) (b : AccountBucket) : AccountBucket :=
  mk_bucket (masked_id b) (requests_used b) (failed_requests b) (bytes_up b) (bytes_down b)
    (bytes_total b) (last_request_at b) (next_reset_at b) true true (Some reason)
    (quota_error_count b).

Definition check_safety_buffer (limit buffer : Z) (b : AccountBucket) : AccountBucket :=
  if hard_stopped b then b
  else if sat_sub limit (requests_used b) <? buffer then
    hard_stop (stop_reason (bs "safety buffer crossed on load: ") (requests_used b) limit buffer) b
  else b.

Definition check_all_safety_buffers (qs : QuotaState) (limit buffer : Z) : QuotaState :=
  mk_quota_state (check_safety_buffer limit buffer <$> buckets qs)
    (total_relay_calls qs) (relay_today_day qs).

Definition set_state (qs : QuotaState) (t : QuotaTracker) : QuotaTracker :=
  mk_tracker qs (script_ids t) (daily_limit t) (safety_buffer t) (dirty_count t) (state_file t).
Definition set_buckets (m : gmap bytes AccountBucket) (t : QuotaTracker) : QuotaTracker :=
  set_state (mk_quota_state m (total_relay_calls (state t)) (relay_today_day (state t))) t.
Definition set_dirty (n : Z) (t : QuotaTracker) : QuotaTracker :=
  mk_tracker (state t) (script_ids t) (daily_limit t) (safety_buffer t) n (state_file t).
Definition mark_dirty (t : QuotaTracker) : QuotaTracker :=
  set_dirty (wadd64 (dirty_count t) 1) t.

Definition save (io : bool) (t : QuotaTracker) : QuotaTracker :=
  if io then mk_tracker (state t) (script_ids t) (daily_limit t) (safety_buffer t)
               (dirty_count t) (Some (state t))
  else t.

(** [load] from the parsed state file, if it could be read and parsed. *)
Definition load (file : option QuotaState) (ids : list bytes) (limit buffer : Z) (io : bool)
    : QuotaTracker :=
  let qs := default (mk_quota_state ∅ 0 0) file in
  let m := foldl (λ m sid, match m !! sid with
                           | Some _ => m
                           | None => <[sid := default_bucket sid]> m
                           end) (buckets qs) ids in
  let qs := mk_quota_state m (total_relay_calls qs) (relay_today_day qs) in
  let qs := check_all_safety_buffers qs limit buffer in
  save io (mk_tracker qs ids limit buffer 0 file).

(** The bucket of an id, or a fresh one ([entry().or_insert_with()]). *)
Definition entry (id : bytes) (t : QuotaTracker) : AccountBucket :=
  default (default_bucket id) (buckets (state t) !! id).

(** The reset of an elapsed window. *)
Definition roll_bucket (now : Z) (b : AccountBucket) : AccountBucket :=
  mk_bucket (masked_id b) 0 0 0 0 0 (last_request_at b) (Some (wadd64 now 86400)) false false
    None 0.

Definition open_window (now : Z) (b : AccountBucket) : AccountBucket :=
  match next_reset_at b with
  | Some reset_at => if reset_at <=? now then roll_bucket now b else b
  | None =>
      mk_bucket (masked_id b) (requests_used b) (failed_requests b) (bytes_up b) (bytes_down b)
        (bytes_total b) (last_request_at b) (Some (wadd64 now 86400)) (exhausted b)
        (hard_stopped b) (exhaustion_reason b) (quota_error_count b)
  end.

Definition attempt_bucket (now up limit buffer : Z) (b : AccountBucket) : AccountBucket :=
  let b := open_window now b in
  let next_used := wadd64 (requests_used b) 1 in
  let remaining := sat_sub limit next_used in
  let b :=
    if negb (hard_stopped b) && (remaining <? buffer) then
      hard_stop (stop_reason (bs "safety buffer crossed: ") next_used limit buffer) b
    else b in
  mk_bucket (masked_id b) next_used (failed_requests b) (wadd64 (bytes_up b) up) (bytes_down b)
    (wadd64 (bytes_total b) up) (Some now) (next_reset_at b) (exhausted b) (hard_stopped b)
    (exhaustion_reason b) (quota_error_count b).

Definition record_attempt (now : Z) (id : bytes) (up : Z) (io : bool) (t : QuotaTracker)
    : QuotaTracker :=
  let b := attempt_bucket now up (daily_limit t) (safety_buffer t) (entry id t) in
  let n := dirty_count t in
  let t := mark_dirty (set_buckets (<[id := b]> (buckets (state t))) t) in
  if n mod 50 =? 0 then save io t else t.

Definition success_bucket (down : Z) (b : AccountBucket) : AccountBucket :=
  mk_bucket (masked_id b) (requests_used b) (failed_requests b) (bytes_up b)
    (wadd64 (bytes_down b) down) (wadd64 (bytes_total b) down) (last_request_at b)
    (next_reset_at b) (exhausted b) (hard_stopped b) (exhaustion_reason b) (quota_error_count b).

Definition record_success (id : bytes) (down : Z) (t : QuotaTracker) : QuotaTracker :=
  mark_dirty (set_buckets (alter (success_bucket down) id (buckets (state t))) t).

Definition failure_bucket (is_quota_error : bool) (b : AccountBucket) : AccountBucket :=
  mk_bucket (masked_id b) (requests_used b) (wadd64 (failed_requests b) 1) (bytes_up b)
    (bytes_down b) (bytes_total b) (last_request_at b) (next_reset_at b) (exhausted b)
    (hard_stopped b) (exhaustion_reason b)
    (if is_quota_error then wadd64 (quota_error_count b) 1 else quota_error_count b).

Definition record_failure (id : bytes) (is_quota_error : bool) (t : QuotaTracker)
    : QuotaTracker :=
  mark_dirty (set_buckets (alter (failure_bucket is_quota_error) id (buckets (state t))) t).

Definition mark_exhausted (id reason : bytes) (io : bool) (t : QuotaTracker) : QuotaTracker :=
  save io (set_buckets (<[id := hard_stop reason (entry id t)]> (buckets (state t))) t).

(** ** Queries *)

Definition is_hard_stopped (id : bytes) (t : QuotaTracker) : bool :=
  match buckets (state t) !! id with Some b => hard_stopped b | None => false end.

(** [script_ids.iter().filter_map(get).map(f).sum()]. *)
Definition sum_buckets (f : AccountBucket → Z) (t : QuotaTracker) : Z :=
  foldl (λ n sid, match buckets (state t) !! sid with
                  | Some b => wadd64 n (f b) | None => n end) 0 (script_ids t).

Definition is_globally_hard_stopped (t : QuotaTracker) : bool :=
  if bool_decide (script_ids t = []) then false
  else if forallb (λ sid, is_hard_stopped sid t) (script_ids t) then true
  else if sum_buckets quota_error_count t =? 0 then false
  else
    let n := len (script_ids t) in
    let total_used := sum_buckets requests_used t in
    let total_cap := wmul64 (daily_limit t) n in
    let total_remaining := sat_sub total_cap total_used in
    let aggregate_reserve := wmul64 (safety_buffer t) n in
    total_remaining <? aggregate_reserve.

Record QuotaSummary := mk_summary {
  account_count : Z;
  daily_capacity_total : Z;
  requests_used_total : Z;
  requests_remaining_total : Z;
  failed_requests_total : Z;
  bytes_up_total : Z;
  bytes_down_total : Z;
  sum_bytes_total : Z;
  exhausted_count : Z;
  hard_stopped_count : Z;
  global_hard_stop : bool;
  sum_next_reset_at : option Z;
  next_reset_at_any : option Z;
  sum_total_relay_calls : Z
}.

Definition min_opt (prev : option Z) (r : Z) : option Z :=
  Some (match prev with None => r | Some p => Z.min p r end).

(** The soonest reset over the buckets that satisfy [p]. *)
Definition soonest_reset (p : AccountBucket → bool) (t : QuotaTracker) : option Z :=
  foldl (λ acc sid, match buckets (state t) !! sid with
                    | Some b => match next_reset_at b with
                                | Some r => if p b then min_opt acc r else acc
                                | None => acc
                                end
                    | None => acc
                    end) None (script_ids t).

Definition count_buckets (p : AccountBucket → bool) (t : QuotaTracker) : Z :=
  len (List.filter (λ sid, match buckets (state t) !! sid with
                           | Some b => p b | None => false end) (script_ids t)).

Definition summary (t : QuotaTracker) : QuotaSummary :=
  let n := len (script_ids t) in
  if n =? 0 then mk_summary 0 0 0 0 0 0 0 0 0 0 false None None 0
  else
    let used_total := sum_buckets requests_used t in
    let capacity := wmul64 (daily_limit t) n in
    mk_summary n capacity used_total (sat_sub capacity used_total)
      (sum_buckets failed_requests t) (sum_buckets bytes_up t) (sum_buckets bytes_down t)
      (sum_buckets bytes_total t) (count_buckets exhausted t) (count_buckets hard_stopped t)
      (is_globally_hard_stopped t)
      (soonest_reset (λ b, negb (hard_stopped b)) t) (soonest_reset (λ _, true) t)
      (total_relay_calls (state t)).

(** ** Periodic tasks *)

Definition expired (now : Z) (b : AccountBucket) : bool :=
  match next_reset_at b with Some r => r <=? now | None => false end.

Definition roll_expired_windows (now : Z) (t : QuotaTracker) : QuotaTracker :=
  let m := (λ b, if expired now b then roll_bucket now b else b) <$> buckets (state t) in
  let rolled := existsb (λ kv, expired now kv.2) (map_to_list (buckets (state t))) in
  let t := set_buckets m t in
  if rolled then mark_dirty t else t.

Definition record_relay (now : Z) (t : QuotaTracker) : QuotaTracker :=
  let today := now / 86400 in
  let st := state t in
  let calls := if relay_today_day st =? today then total_relay_calls st else 0 in
  mark_dirty (set_state (mk_quota_state (buckets st) (wadd64 calls 1) today) t).

(** [save_if_needed] in its three steps: the test, the save, the reset. *)
Definition save_if_needed (io : bool) (t : QuotaTracker) : QuotaTracker :=
  if 0 <? dirty_count t then set_dirty 0 (save io t) else t.

(** ** Histories *)

Inductive QuotaOp :=
  | QAttempt (now : Z) (id : bytes) (up : Z) (io : bool)
  | QSuccess (id : bytes) (down : Z)
  | QFailure (id : bytes) (is_quota_error : bool)
  | QExhausted (id reason : bytes) (io : bool)
  | QRoll (now : Z)
  | QRelay (now : Z)
  | QSave (io : bool).

Definition quota_op (t : QuotaTracker) (o : QuotaOp) : QuotaTracker :=
  match o with
  | QAttempt now id up io => record_attempt now id up io t
  | QSuccess id down => record_success id down t
  | QFailure id q => record_failure id q t
  | QExhausted id reason io => mark_exhausted id reason io t
  | QRoll now => roll_expired_windows now t
  | QRelay now => record_relay now t
  | QSave io => save_if_needed io t
  end.

Definition quota_run (t : QuotaTracker) (ops : list QuotaOp) : QuotaTracker :=
  foldl quota_op t ops.

(** The buckets after an operation; the file and the dirty counter do not
    matter to them. *)
Definition op_buckets (L B : Z) (m : gmap bytes AccountBucket) (o : QuotaOp)
    : gmap bytes AccountBucket :=
  let get id := default (default_bucket id) (m !! id) in
  match o with
  | QAttempt now id up _ => <[id := attempt_bucket now up L B (get id)]> m
  | QSuccess id down => alter (success_bucket down) id m
  | QFailure id q => alter (failure_bucket q) id m
  | QExhausted id reason _ => <[id := hard_stop reason (get id)]> m
  | QRoll now => (λ b, if expired now b then roll_bucket now b else b) <$> m
  | QRelay _ | QSave _ => m
  end.

Lemma save_buckets io t : state (save io t) = state t.
Proof. by destruct io. Qed.

Lemma quota_op_buckets t o :
  buckets (state (quota_op t o)) = op_buckets (daily_limit t) (safety_buffer t) (buckets (state t)) o.
Proof.
  destruct o as [now id up io|id down|id q|id reason io|now|now|io]; simpl; try done.
  - unfold record_attempt. destruct (_ mod 50 =? 0); [by rewrite save_buckets|done].
  - unfold mark_exhausted. by rewrite save_buckets.
  - unfold roll_expired_windows. by destruct (existsb _ _).
  - unfold save_if_needed. destruct (0 <? _); [simpl; by rewrite save_buckets|done].
Qed.

Lemma quota_op_config t o :
  daily_limit (quota_op t o) = daily_limit t ∧ safety_buffer (quota_op t o) = safety_buffer t ∧
  script_ids (quota_op t o) = script_ids t.
Proof.
  destruct o as [now id up io|id down|id q|id reason io|now|now|io]; simpl; try done.
  - unfold record_attempt, save. destruct (_ mod 50 =? 0); [by destruct io|done].
  - by destruct io.
  - unfold roll_expired_windows. by destruct (existsb _ _).
  - unfold save_if_needed, save. destruct (0 <? _); [by destruct io|done].
Qed.

(** A property of buckets that every update establishes or keeps holds of
    every bucket after any history. *)
Section bucket_invariant.
Context (L B : Z) (P : AccountBucket → Prop).
Hypothesis P_attempt : ∀ now up b id, P b ∨ b = default_bucket id → P (attempt_bucket now up L B b).
Hypothesis P_success : ∀ down b, P b → P (success_bucket down b).
Hypothesis P_failure : ∀ q b, P b → P (failure_bucket q b).
Hypothesis P_stop : ∀ r b id, P b ∨ b = default_bucket id → P (hard_stop r b).
Hypothesis P_roll : ∀ now b, P b → P (roll_bucket now b).

Definition all_buckets (m : gmap bytes AccountBucket) : Prop := map_Forall (λ _ b, P b) m.

Lemma entry_ok m id : all_buckets m →
  P (default (default_bucket id) (m !! id)) ∨ default (default_bucket id) (m !! id) = default_bucket id.
Proof. intros Hm. destruct (m !! id) as [b|] eqn:E; simpl; [left; by eapply Hm|by right]. Qed.

Lemma all_buckets_op m o : all_buckets m → all_buckets (op_buckets L B m o).
Proof.
  intros Hm. destruct o as [now id up io|id down|id q|id reason io|now|now|io]; simpl; try done.
  - apply map_Forall_insert_2; [|done]. eapply P_attempt. by apply entry_ok.
  - intros k b Hk. destruct (decide (id = k)) as [->|Hne].
    + rewrite lookup_alter_eq in Hk. destruct (m !! k) as [b'|] eqn:E; [|done].
      injection Hk as <-. apply P_success. by eapply Hm.
    + rewrite lookup_alter_ne in Hk by done. by eapply Hm.
  - intros k b Hk. destruct (decide (id = k)) as [->|Hne].
    + rewrite lookup_alter_eq in Hk. destruct (m !! k) as [b'|] eqn:E; [|done].
      injection Hk as <-. apply P_failure. by eapply Hm.
    + rewrite lookup_alter_ne in Hk by done. by eapply Hm.
  - apply map_Forall_insert_2; [|done]. eapply P_stop. by apply entry_ok.
  - intros k b Hk. rewrite lookup_fmap in Hk. destruct (m !! k) as [b'|] eqn:E; [|done].
    injection Hk as <-. destruct (expired now b'); [apply P_roll|]; by eapply Hm.
Qed.

Lemma all_buckets_run t ops :
  daily_limit t = L → safety_buffer t = B → all_buckets (buckets (state t)) →
  all_buckets (buckets (state (quota_run t ops))).
Proof.
  revert t. induction ops as [|o ops IH]; intros t HL HB Hm; [done|]. cbn [quota_run foldl].
  destruct (quota_op_config t o) as (H1 & H2 & _).
  apply IH; [congruence..|]. rewrite quota_op_buckets, HL, HB. by apply all_buckets_op.
Qed.
End bucket_invariant.

Lemma load_buckets file ids L B io :
  ∃ m, buckets (state (load file ids L B io)) = check_safety_buffer L B <$> m.
Proof. unfold load. rewrite save_buckets. by eexists. Qed.

Lemma load_config file ids L B io :
  daily_limit (load file ids L B io) = L ∧ safety_buffer (load file ids L B io) = B.
Proof. unfold load, save. by destruct io. Qed.

(** ** Properties *)

Definition reserve_kept (L B : Z) (b : AccountBucket) : Prop :=
  hard_stopped b = false → Z.min B L ≤ sat_sub L (requests_used b).

(** C11: no account runs into its safety buffer unnoticed.  From whatever the
    state file held at start-up and after any history, every account that is
    not hard-stopped has at least [safety_buffer] requests of its daily limit
    left, or the whole limit when [safety_buffer] is set above it. *)
Theorem quota_reserve_kept file ids L B io ops id b :
  buckets (state (quota_run (load file ids L B io) ops)) !! id = Some b →
  is_hard_stopped id (quota_run (load file ids L B io) ops) = false →
  Z.min B L ≤ sat_sub L (requests_used b).
Proof.
  intros Hb Hs. unfold is_hard_stopped in Hs. rewrite Hb in Hs.
  destruct (load_config file ids L B io) as [HL HB].
  refine (all_buckets_run L B (reserve_kept L B) _ _ _ _ _ _ ops HL HB _ id b Hb Hs).
  - intros now up b' id' _ Hstop. unfold attempt_bucket in *. simpl in *.
    destruct (negb _ && _) eqn:E; [done|]. simpl in *. bool_to_prop.
    destruct E as [E|E]; bool_to_prop; [congruence|lia].
  - done.
  - done.
  - done.
  - intros now b' _ _. simpl. unfold sat_sub. lia.
  - destruct (load_buckets file ids L B io) as [m ->]. intros k b' Hk.
    rewrite lookup_fmap in Hk. destruct (m !! k) as [b0|]; [|done]. injection Hk as <-.
    unfold reserve_kept, check_safety_buffer. destruct (hard_stopped b0) eqn:E0; [by rewrite E0|].
    case_if; [done|]. simpl. intros _. bool_to_prop. lia.
Qed.

Lemma quota_reserve_kept_witness :
  let t := quota_run (load None [bs "id"] 10 3 true)
    (replicate 7 (QAttempt 100 (bs "id") 5 true)) in
  is_hard_stopped (bs "id") t = false ∧ Z.min 3 10 ≤ sat_sub 10 7 ∧
  is_hard_stopped (bs "id") (quota_op t (QAttempt 100 (bs "id") 5 true)) = true.
Proof.
  split_and!; [by vm_compute| |by vm_compute].
  set (t := quota_run (load None [bs "id"] 10 3 true) (replicate 7 (QAttempt 100 (bs "id") 5 true))).
  destruct (buckets (state t) !! bs "id") as [b|] eqn:E; [|by vm_compute in E].
  assert (Hu : requests_used b = 7) by (vm_compute in E; by injection E as <-).
  rewrite <-Hu.
  exact (quota_reserve_kept None [bs "id"] 10 3 true (replicate 7 (QAttempt 100 (bs "id") 5 true))
    (bs "id") b E ltac:(by vm_compute)).
Defined.

(** With a buffer above the limit (the settings check does not compare the
    two) the reserve is not the buffer.  An account whose window the state file
    has open is stopped by [load]; the periodic reset makes it usable again, and
    it then has the whole limit left, which is less than the buffer. *)
Definition open_window_file : QuotaState :=
  mk_quota_state {[bs "id" := mk_bucket (bs "***") 4 0 0 0 0 (Some 100) (Some 86500) false false None 0]} 0 0.

Example buffer_above_limit :
  let t := load (Some open_window_file) [bs "id"] 10 20 true in
  is_hard_stopped (bs "id") t = true ∧
  is_hard_stopped (bs "id") (quota_run t [QRoll 86500]) = false ∧
  requests_used <$> (buckets (state (quota_run t [QRoll 86500])) !! bs "id") = Some 0.
Proof. by vm_compute. Qed.

Definition bytes_ok (b : AccountBucket) : Prop :=
  bytes_total b = wadd64 (bytes_up b) (bytes_down b).

(** The byte counters agree: in every account, after any history from a
    consistent state file, the total is the sum of the bytes up and down (as
    64-bit counters). *)
Theorem quota_bytes_consistent t ops id b :
  map_Forall (λ _ b, bytes_ok b) (buckets (state t)) →
  buckets (state (quota_run t ops)) !! id = Some b →
  bytes_total b = wadd64 (bytes_up b) (bytes_down b).
Proof.
  intros Ht Hb.
  refine (all_buckets_run (daily_limit t) (safety_buffer t) bytes_ok _ _ _ _ _ t ops
    eq_refl eq_refl Ht id b Hb).
  - intros now up b' id' Hok.
    assert (H0 : bytes_ok b') by (destruct Hok as [?| ->]; done). clear Hok.
    assert (H1 : bytes_ok (open_window now b')).
    { unfold open_window. destruct (next_reset_at b'); [|done]. by case_if. }
    unfold bytes_ok, attempt_bucket in *. destruct (negb _ && _); simpl; rewrite H1;
      unfold wadd64; rewrite !Zplus_mod_idemp_l; f_equal; lia.
  - intros down b' H0. unfold bytes_ok, success_bucket in *. simpl. rewrite H0.
    unfold wadd64. rewrite Zplus_mod_idemp_l, Zplus_mod_idemp_r. f_equal. lia.
  - done.
  - intros r b' id' [?| ->]; done.
  - done.
Qed.

Lemma quota_bytes_consistent_witness :
  ∃ b, buckets (state (quota_run (load None [bs "id"] 10 3 true)
         [QAttempt 100 (bs "id") 5 true; QSuccess (bs "id") 70])) !! bs "id" = Some b ∧
       bytes_total b = 75 ∧ bytes_total b = wadd64 (bytes_up b) (bytes_down b).
Proof.
  destruct (buckets (state (quota_run (load None [bs "id"] 10 3 true)
    [QAttempt 100 (bs "id") 5 true; QSuccess (bs "id") 70])) !! bs "id") as [b|] eqn:E;
    [|by vm_compute in E].
  exists b. split_and!; [done|vm_compute in E; by injection E as <-|].
  apply (quota_bytes_consistent (load None [bs "id"] 10 3 true)
    [QAttempt 100 (bs "id") 5 true; QSuccess (bs "id") 70] (bs "id") b); [|exact E].
  apply map_Forall_lookup_2. intros k b' Hk.
  assert (Hm : buckets (state (load None [bs "id"] 10 3 true)) =
    <[bs "id" := default_bucket (bs "id")]> ∅) by (by vm_compute).
  rewrite Hm in Hk. apply lookup_insert_Some in Hk as [[_ <-]|[_ Hk]]; [done|].
  by rewrite lookup_empty in Hk.
Defined.

(** [id] is hard-stopped in a window that ends at [r]. *)
Definition stopped_until (r : Z) (id : bytes) (m : gmap bytes AccountBucket) : Prop :=
  ∃ b, m !! id = Some b ∧ hard_stopped b = true ∧ next_reset_at b = Some r.

(** The operation happens before [r], as far as it reads the clock. *)
Definition op_before (r : Z) (o : QuotaOp) : Prop :=
  match o with QAttempt now _ _ _ | QRoll now => now < r | _ => True end.

Lemma attempt_keeps_stop now up L B r b :
  now < r → hard_stopped b = true → next_reset_at b = Some r →
  hard_stopped (attempt_bucket now up L B b) = true ∧
  next_reset_at (attempt_bucket now up L B b) = Some r.
Proof.
  intros Hn Hs Hr. unfold attempt_bucket, open_window. rewrite Hr.
  replace (r <=? now) with false by lia. rewrite Hs. simpl. by rewrite Hs, Hr.
Qed.

Lemma stopped_until_op L B r id m o :
  op_before r o → stopped_until r id m → stopped_until r id (op_buckets L B m o).
Proof.
  intros Ho (b & Hb & Hs & Hr).
  destruct o as [now k up io|k down|k q|k reason io|now|now|io]; simpl in *;
    try (by exists b).
  - destruct (decide (k = id)) as [->|Hne].
    + exists (attempt_bucket now up L B b). rewrite lookup_insert_eq, Hb.
      split; [done|]. by apply attempt_keeps_stop.
    + exists b. by rewrite lookup_insert_ne.
  - destruct (decide (k = id)) as [->|Hne].
    + eexists. rewrite lookup_alter_eq, Hb. by split.
    + exists b. by rewrite lookup_alter_ne.
  - destruct (decide (k = id)) as [->|Hne].
    + eexists. rewrite lookup_alter_eq, Hb. by split.
    + exists b. by rewrite lookup_alter_ne.
  - destruct (decide (k = id)) as [->|Hne].
    + eexists. rewrite lookup_insert_eq, Hb. by split.
    + exists b. by rewrite lookup_insert_ne.
  - exists b. rewrite lookup_fmap, Hb. simpl. unfold expired. rewrite Hr.
    by replace (r <=? now) with false by lia.
Qed.

Lemma stopped_until_run r id t ops :
  Forall (op_before r) ops → stopped_until r id (buckets (state t)) →
  stopped_until r id (buckets (state (quota_run t ops))).
Proof.
  intros Hf. revert t. induction Hf as [|o ops Ho Hf IH]; intros t Ht; [done|].
  cbn [quota_run foldl]. apply IH. rewrite quota_op_buckets. by apply stopped_until_op.
Qed.

(** A hard stop lasts exactly until the window resets.  A stopped account
    stays stopped through any history of operations before its reset time,
    successes and further failures included, and the periodic task clears the
    stop and the counters once that time has come. *)
Theorem quota_hard_stop_until_reset t ops id r now :
  stopped_until r id (buckets (state t)) → Forall (op_before r) ops →
  let t' := quota_run t ops in
  is_hard_stopped id t' = true ∧
  (r ≤ now →
   is_hard_stopped id (roll_expired_windows now t') = false ∧
   ∃ b, buckets (state (roll_expired_windows now t')) !! id = Some b ∧ requests_used b = 0).
Proof.
  intros Ht Hops t'.
  destruct (stopped_until_run r id t ops Hops Ht) as (b & Hb & Hs & Hr). fold t' in Hb.
  split; [unfold is_hard_stopped; by rewrite Hb|]. intros Hn.
  pose proof (quota_op_buckets t' (QRoll now)) as Hm. simpl in Hm.
  assert (Hl : buckets (state (roll_expired_windows now t')) !! id = Some (roll_bucket now b)).
  { rewrite Hm, lookup_fmap, Hb. simpl. unfold expired. rewrite Hr.
    by replace (r <=? now) with true by lia. }
  unfold is_hard_stopped. rewrite Hl. split; [done|]. by eexists.
Qed.

Lemma quota_hard_stop_until_reset_witness :
  let t := quota_run (load None [bs "id"] 10 3 true) (replicate 8 (QAttempt 100 (bs "id") 5 true)) in
  is_hard_stopped (bs "id") (quota_run t [QAttempt 200 (bs "id") 1 true; QSuccess (bs "id") 9]) = true.
Proof.
  intros t.
  refine (proj1 (quota_hard_stop_until_reset t
    [QAttempt 200 (bs "id") 1 true; QSuccess (bs "id") 9] (bs "id") 86500 0 _ _)).
  - destruct (buckets (state t) !! bs "id") as [b|] eqn:E; [|by vm_compute in E].
    exists b. split; [done|]. vm_compute in E. by injection E as <-.
  - repeat constructor; by vm_compute.
Defined.

(** A stop without an open window is never cleared by the periodic task: the
    account was stopped (by [load], or by [mark_exhausted] before its first
    attempt) while [next_reset_at] was unset. *)
Theorem quota_stop_without_window t id b now :
  buckets (state t) !! id = Some b → hard_stopped b = true → next_reset_at b = None →
  is_hard_stopped id (roll_expired_windows now t) = true.
Proof.
  intros Hb Hs Hr. pose proof (quota_op_buckets t (QRoll now)) as Hm. simpl in Hm.
  unfold is_hard_stopped. rewrite Hm, lookup_fmap, Hb. simpl. unfold expired. by rewrite Hr, Hs.
Qed.

(** ** Flushing and concurrent updates *)

(** [save_if_needed] with another task's operation between its save and its
    reset of the dirty counter. *)
Definition save_if_needed_interleaved (io : bool) (o : QuotaOp) (t : QuotaTracker) : QuotaTracker :=
  if 0 <? dirty_count t then set_dirty 0 (quota_op (save io t) o) else t.

Lemma record_relay_changes now t : state (record_relay now t) ≠ state t.
Proof.
  unfold record_relay. intros H. apply (f_equal total_relay_calls) in H as Hc.
  apply (f_equal relay_today_day) in H as Hd. simpl in *.
  rewrite Hd, Z.eqb_refl in Hc. revert Hc. unfold wadd64, u64_mod.
  generalize (total_relay_calls (state t)). intros c Hc. divlia.
Qed.

(** An update that lands between the save and the reset is not flushed: the
    file holds the state before it, the counter says there is nothing to do,
    and the next [save_if_needed] writes nothing. *)
Theorem quota_flush_loses_update now t :
  0 < dirty_count t →
  let t' := save_if_needed_interleaved true (QRelay now) t in
  state_file t' = Some (state t) ∧ state t' ≠ state t ∧ save_if_needed true t' = t'.
Proof.
  intros Hd t'. unfold t', save_if_needed_interleaved.
  replace (0 <? dirty_count t) with true by lia. simpl. split_and!; [done| |done].
  intros H. by apply (record_relay_changes now t).
Qed.
