(* ===== verification/Scripts.v ===== *)
(** * Choice of Apps Script deployments (src/domain_fronter.rs)

    Round-robin over the configured script ids, skipping blacklisted and
    quota-stopped ones, the fan-out variant, the blacklist and the timeout
    strikes that feed it.  What the dispatcher needs of the quota tracker is
    the class [QuotaView]; [Quota]'s tracker is its instance. *)

From Stdlib Require Import Strings.Byte.
From S2P Require Import Prelude RustBytes Quota.

(** What the dispatcher asks the quota tracker. *)
Class QuotaView (T : Type) := { quota_stopped : T → bytes → bool }.
#[global] Instance tracker_view : QuotaView QuotaTracker :=
  {| quota_stopped t id := is_hard_stopped id t |}.

Definition BLACKLIST_COOLDOWN_SECS : Z := 600.

(** The dispatcher's part of [DomainFronter]: the atomics and the maps behind
    mutexes.  Instants and durations are in milliseconds. *)
Record Fronter := mk_fronter {
  ids : list bytes;
  script_idx : Z;
  blacklist : gmap bytes Z;
  script_timeouts : gmap bytes (Z * Z);
  auto_blacklist_strikes : Z;
  auto_blacklist_window : Z;
  auto_blacklist_cooldown : Z
}.

Definition set_idx (i : Z) (f : Fronter) : Fronter :=
  mk_fronter (ids f) i (blacklist f) (script_timeouts f) (auto_blacklist_strikes f)
    (auto_blacklist_window f) (auto_blacklist_cooldown f).
Definition set_blacklist (bl : gmap bytes Z) (f : Fronter) : Fronter :=
  mk_fronter (ids f) (script_idx f) bl (script_timeouts f) (auto_blacklist_strikes f)
    (auto_blacklist_window f) (auto_blacklist_cooldown f).
Definition set_timeouts (m : gmap bytes (Z * Z)) (f : Fronter) : Fronter :=
  mk_fronter (ids f) (script_idx f) (blacklist f) m (auto_blacklist_strikes f)
    (auto_blacklist_window f) (auto_blacklist_cooldown f).

(** [self.script_ids[idx % n]]. *)
Definition script_at (f : Fronter) (idx : Z) : bytes :=
  nth (Z.to_nat (idx mod len (ids f))) (ids f) [].

(** [bl.retain(|_, until| *until > now)]. *)
Definition retain_active (now : Z) (bl : gmap bytes Z) : gmap bytes Z :=
  filter (λ kv, now < kv.2) bl.

(** [iter().min_by_key(|(_, t)| t)]: the first entry with the least time. *)
Fixpoint min_by_time (l : list (bytes * Z)) : option (bytes * Z) :=
  match l with
  | [] => None
  | (k, t) :: l' =>
      match min_by_time l' with
      | Some (k', t') => if t <=? t' then Some (k, t) else Some (k', t')
      | None => Some (k, t)
      end
  end.

Section dispatch.
Context {T : Type} `{!QuotaView T} (q : T).

Definition healthy (bl : gmap bytes Z) (sid : bytes) : bool :=
  negb (bool_decide (is_Some (bl !! sid))) && negb (quota_stopped q sid).

(** The [for _ in 0..n] loop of [next_script_id]: the pick, if any, and the
    index afterwards. *)
Fixpoint round_robin (turns : nat) (f : Fronter) (bl : gmap bytes Z) (idx : Z)
    : option bytes * Z :=
  match turns with
  | O => (None, idx)
  | S turns' =>
      let sid := script_at f idx in
      let idx := wadd64 idx 1 in
      if healthy bl sid then (Some sid, idx) else round_robin turns' f bl idx
  end.

(** The pick when the round found nothing healthy, and the blacklist after
    it. *)
Definition fallback_script (f : Fronter) (bl : gmap bytes Z) : bytes * gmap bytes Z :=
  let not_exhausted := List.filter (λ kv, negb (quota_stopped q kv.1)) (map_to_list bl) in
  match min_by_time not_exhausted with
  | Some (sid, _) => (sid, delete sid bl)
  | None =>
      match min_by_time (map_to_list bl) with
      | Some (sid, _) => (sid, delete sid bl)
      | None => (nth 0 (ids f) [], bl)
      end
  end.

Definition next_script_id (now : Z) (f : Fronter) : bytes * Fronter :=
  let bl := retain_active now (blacklist f) in
  let '(pick, idx) := round_robin (length (ids f)) f bl (script_idx f) in
  let f := set_blacklist bl (set_idx idx f) in
  match pick with
  | Some sid => (sid, f)
  | None => let '(sid, bl) := fallback_script f bl in (sid, set_blacklist bl f)
  end.

(** The loop of [next_script_ids]. *)
Fixpoint pick_many (turns : nat) (want : Z) (f : Fronter) (bl : gmap bytes Z) (idx : Z)
    (picked : list bytes) : list bytes * Z :=
  match turns with
  | O => (picked, idx)
  | S turns' =>
      if want <=? len picked then (picked, idx)
      else
        let sid := script_at f idx in
        let idx := wadd64 idx 1 in
        if healthy bl sid && negb (bool_decide (sid ∈ picked))
        then pick_many turns' want f bl idx (picked ++ [sid])
        else pick_many turns' want f bl idx picked
  end.

Definition next_script_ids (now want : Z) (f : Fronter) : list bytes * Fronter :=
  if bool_decide (ids f = []) then ([], f)
  else
    let bl := retain_active now (blacklist f) in
    let '(picked, idx) := pick_many (length (ids f)) want f bl (script_idx f) [] in
    let f := set_blacklist bl (set_idx idx f) in
    (if bool_decide (picked = []) then [nth 0 (ids f) []] else picked, f).
End dispatch.

Definition blacklist_script_for (now : Z) (sid : bytes) (cooldown : Z) (f : Fronter) : Fronter :=
  set_blacklist (<[sid := now + cooldown]> (blacklist f)) f.

Definition blacklist_script (now : Z) (sid : bytes) (f : Fronter) : Fronter :=
  blacklist_script_for now sid (BLACKLIST_COOLDOWN_SECS * 1000) f.

Definition record_timeout_strike (now : Z) (sid : bytes) (f : Fronter) : Fronter :=
  let '(since, count) := default (now, 0) (script_timeouts f !! sid) in
  let '(since, count) :=
    if auto_blacklist_window f <? now - since then (now, 1) else (since, (count + 1) mod u32_mod) in
  if auto_blacklist_strikes f <=? count then
    blacklist_script_for now sid (auto_blacklist_cooldown f)
      (set_timeouts (delete sid (script_timeouts f)) f)
  else set_timeouts (<[sid := (since, count)]> (script_timeouts f)) f.

Definition record_batch_success (sid : bytes) (f : Fronter) : Fronter :=
  set_timeouts (delete sid (script_timeouts f)) f.

(** ** Lemmas *)

Lemma min_by_time_spec l :
  match min_by_time l with
  | Some (k, t) => (k, t) ∈ l ∧ ∀ k' t', (k', t') ∈ l → t ≤ t'
  | None => l = []
  end.
Proof.
  induction l as [|[k t] l IH]; simpl; [done|].
  destruct (min_by_time l) as [[k1 t1]|].
  - destruct IH as [Hin Hmin]. case_if; split; try (by constructor).
    + intros k' t' [[= -> ->]|Hk]%elem_of_cons; [lia|]. specialize (Hmin _ _ Hk). lia.
    + intros k' t' [[= -> ->]|Hk]%elem_of_cons; [lia|]. by eapply Hmin.
  - subst l. split; [by constructor|].
    intros k' t' [[= -> ->]|Hk]%elem_of_cons; [lia|]. by apply elem_of_nil in Hk.
Qed.

Lemma script_at_in f idx : ids f ≠ [] → script_at f idx ∈ ids f.
Proof.
  intros Hne. unfold script_at. apply list_elem_of_In, nth_In.
  pose proof (len_pos _ Hne).
  pose proof (Z.mod_pos_bound idx (len (ids f)) ltac:(lia)). unfold len in *. lia.
Qed.

(** A full round visits every configured script. *)
Lemma round_covers f idx sid :
  0 ≤ idx → sid ∈ ids f → ∃ j, 0 ≤ j < len (ids f) ∧ script_at f (idx + j) = sid.
Proof.
  intros Hi Hin. apply list_elem_of_In, (In_nth _ _ []) in Hin as (k & Hk & Hn).
  set (n := len (ids f)) in *. assert (Hkn : Z.of_nat k < n) by (unfold n, len; lia).
  exists ((Z.of_nat k - idx) mod n). split; [apply Z.mod_pos_bound; lia|].
  unfold script_at. fold n. rewrite Zplus_mod_idemp_r.
  replace (idx + (Z.of_nat k - idx)) with (Z.of_nat k) by lia.
  by rewrite Z.mod_small, Nat2Z.id by lia.
Qed.

Section dispatch_facts.
Context {T : Type} `{!QuotaView T} (q : T).

Lemma round_robin_spec turns f bl idx :
  0 ≤ idx → idx + Z.of_nat turns ≤ u64_max →
  match round_robin q turns f bl idx with
  | (Some sid, idx') =>
      ∃ j, 0 ≤ j < Z.of_nat turns ∧ sid = script_at f (idx + j) ∧ healthy q bl sid = true ∧
        idx' = idx + j + 1 ∧ ∀ i, 0 ≤ i < j → healthy q bl (script_at f (idx + i)) = false
  | (None, idx') =>
      idx' = idx + Z.of_nat turns ∧
      ∀ i, 0 ≤ i < Z.of_nat turns → healthy q bl (script_at f (idx + i)) = false
  end.
Proof.
  revert idx. induction turns as [|turns IH]; intros idx H0 Hmax; [simpl; split; [lia|intros; lia]|].
  cbn [round_robin].
  assert (Hw : wadd64 idx 1 = idx + 1) by (unfold wadd64; apply Z.mod_small; zlia).
  rewrite Hw. destruct (healthy q bl (script_at f idx)) eqn:Eh.
  { exists 0. rewrite Z.add_0_r. split_and!; try done; lia. }
  specialize (IH (idx + 1) ltac:(lia) ltac:(lia)).
  destruct (round_robin q turns f bl (idx + 1)) as [[sid|] idx'].
  - destruct IH as (j & Hj & -> & Hh & -> & Hall). exists (j + 1).
    replace (idx + (j + 1)) with (idx + 1 + j) by lia. split_and!; try done; try lia.
    intros i Hi. destruct (decide (i = 0)) as [->|]; [by rewrite Z.add_0_r|].
    replace (idx + i) with (idx + 1 + (i - 1)) by lia. apply Hall. lia.
  - destruct IH as (-> & Hall). split; [lia|].
    intros i Hi. destruct (decide (i = 0)) as [->|]; [by rewrite Z.add_0_r|].
    replace (idx + i) with (idx + 1 + (i - 1)) by lia. apply Hall. lia.
Qed.

(** Dispatch avoids unhealthy deployments whenever it can.  If some
    configured script is neither blacklisted nor quota-stopped, the pick is
    such a script; if none is but some blacklisted one still has quota, the
    pick is the one of these whose cooldown ends first, and it leaves the
    blacklist.  A quota-stopped script is picked only when every candidate
    is. *)
Theorem next_script_id_choice now f :
  ids f ≠ [] → 0 ≤ script_idx f → script_idx f + len (ids f) ≤ u64_max →
  let bl := retain_active now (blacklist f) in
  let '(sid, f') := next_script_id q now f in
  ((∃ s, s ∈ ids f ∧ healthy q bl s = true) → sid ∈ ids f ∧ healthy q bl sid = true) ∧
  ((∀ s, s ∈ ids f → healthy q bl s = false) →
   (∃ s, is_Some (bl !! s) ∧ quota_stopped q s = false) →
   quota_stopped q sid = false ∧ blacklist f' !! sid = None ∧
   ∃ t, bl !! sid = Some t ∧ ∀ s t', bl !! s = Some t' → quota_stopped q s = false → t ≤ t').
Proof.
  intros Hne Hi Hmax bl. unfold next_script_id. fold bl.
  pose proof (round_robin_spec (length (ids f)) f bl (script_idx f) Hi Hmax) as Hr.
  destruct (round_robin q _ f bl _) as [[sid|] idx'].
  - destruct Hr as (j & Hj & -> & Hh & _). split.
    + intros _. split; [by apply script_at_in|done].
    + intros Hall. rewrite (Hall _ (script_at_in f _ Hne)) in Hh. done.
  - destruct Hr as [_ Hall]. unfold fallback_script.
    pose proof (min_by_time_spec (List.filter (λ kv, negb (quota_stopped q kv.1)) (map_to_list bl))) as Hm.
    destruct (min_by_time _) as [[sid t]|].
    + destruct Hm as [Hin Hmin]. split.
      { intros (s & Hs & Hhs). destruct (round_covers f _ _ Hi Hs) as (j & Hj & <-).
        unfold len in Hj. by rewrite Hall in Hhs. }
      intros _ _. apply list_elem_of_In, filter_In in Hin as [Hin Hq%negb_true_iff].
      apply list_elem_of_In, elem_of_map_to_list in Hin. simpl in *.
      split_and!; [done|by rewrite lookup_delete_eq|]. exists t. split; [done|].
      intros s t' Hs Hqs. apply (Hmin s t'), list_elem_of_In, filter_In.
      split; [by apply list_elem_of_In, elem_of_map_to_list|]. simpl. by rewrite Hqs.
    + destruct (match min_by_time (map_to_list bl) with Some _ => _ | None => _ end) as [sid bl'].
      split.
      { intros (s & Hs & Hhs). destruct (round_covers f _ _ Hi Hs) as (j & Hj & <-).
        unfold len in Hj. by rewrite Hall in Hhs. }
      intros _ (s & [t Hs] & Hq). exfalso. assert (Hin : (s, t) ∈ map_to_list bl)
        by (by apply elem_of_map_to_list).
      assert (Hf : In (s, t) (List.filter (λ kv, negb (quota_stopped q kv.1)) (map_to_list bl))).
      { apply filter_In. split; [by apply list_elem_of_In|]. simpl. by rewrite Hq. }
      rewrite Hm in Hf. done.
Qed.

Lemma round_robin_configured turns f bl idx :
  ids f ≠ [] →
  match (round_robin q turns f bl idx).1 with Some sid => sid ∈ ids f | None => True end.
Proof.
  intros Hne. revert idx. induction turns as [|turns IH]; intros idx; simpl; [done|].
  destruct (healthy q bl (script_at f idx)); [by apply script_at_in|apply IH].
Qed.

Lemma fallback_configured f bl :
  ids f ≠ [] → dom bl ⊆ (list_to_set (ids f) : gset bytes) →
  (fallback_script q f bl).1 ∈ ids f ∧ (fallback_script q f bl).2 ⊆ bl.
Proof.
  intros Hne Hd. unfold fallback_script.
  assert (Hdom : ∀ k t, (k, t) ∈ map_to_list bl → k ∈ ids f).
  { intros k t Hk%elem_of_map_to_list. eapply (elem_of_list_to_set (C:=gset bytes)), Hd, elem_of_dom_2, Hk. }
  pose proof (min_by_time_spec (List.filter (λ kv, negb (quota_stopped q kv.1)) (map_to_list bl))) as H1.
  destruct (min_by_time (List.filter _ _)) as [[sid t]|]; simpl.
  { destruct H1 as [Hin _]. apply list_elem_of_In, filter_In in Hin as [Hin%list_elem_of_In _].
    split; [by eapply Hdom|apply delete_subseteq]. }
  pose proof (min_by_time_spec (map_to_list bl)) as H2.
  destruct (min_by_time (map_to_list bl)) as [[sid t]|]; simpl.
  { destruct H2 as [Hin _]. split; [by eapply Hdom|apply delete_subseteq]. }
  split; [|done]. destruct (ids f); [done|]. by constructor.
Qed.

(** The pick is a configured script, and only configured scripts stay
    blacklisted. *)
Lemma next_script_id_configured now f sid f' :
  ids f ≠ [] → dom (blacklist f) ⊆ (list_to_set (ids f) : gset bytes) →
  next_script_id q now f = (sid, f') →
  sid ∈ ids f ∧ ids f' = ids f ∧ dom (blacklist f') ⊆ (list_to_set (ids f) : gset bytes).
Proof.
  intros Hne Hd. unfold next_script_id.
  assert (Hr : dom (retain_active now (blacklist f)) ⊆ (list_to_set (ids f) : gset bytes)).
  { etrans; [|exact Hd]. apply subseteq_dom, map_filter_subseteq. }
  set (bl := retain_active now (blacklist f)) in *.
  pose proof (round_robin_configured (length (ids f)) f bl (script_idx f) Hne) as Hp.
  destruct (round_robin q _ f bl _) as [[s|] idx]; simpl in Hp.
  { intros [= <- <-]. by split_and!. }
  destruct (fallback_configured (set_blacklist bl (set_idx idx f)) bl) as [H1 H2]; [done|done|].
  destruct (fallback_script q _ bl) as [s bl']. simpl in *. intros [= <- <-].
  split_and!; [done|done|]. simpl. etrans; [|exact Hr]. by apply subseteq_dom.
Qed.

Lemma pick_many_spec turns want f bl idx picked :
  ids f ≠ [] → 0 ≤ idx → idx + Z.of_nat turns ≤ u64_max → len picked ≤ Z.max 0 want →
  NoDup picked → Forall (λ s, s ∈ ids f ∧ healthy q bl s = true) picked →
  let out := (pick_many q turns want f bl idx picked).1 in
  NoDup out ∧ Forall (λ s, s ∈ ids f ∧ healthy q bl s = true) out ∧ len out ≤ Z.max 0 want ∧
  (∀ s, s ∈ picked → s ∈ out) ∧
  (len out < want → ∀ j, 0 ≤ j < Z.of_nat turns →
     healthy q bl (script_at f (idx + j)) = true → script_at f (idx + j) ∈ out).
Proof.
  intros Hne. revert idx picked. induction turns as [|turns IH]; intros idx picked Hi Hm Hl Hnd Hf.
  { simpl. split_and!; try done. intros; lia. }
  cbn [pick_many]. case_if; [simpl; split_and!; try done; lia|].
  assert (Hw : wadd64 idx 1 = idx + 1) by (unfold wadd64; apply Z.mod_small; zlia).
  rewrite Hw.
  assert (Hshift : ∀ (out : list bytes),
    (healthy q bl (script_at f idx) = true → script_at f idx ∈ out) →
    (∀ j, 0 ≤ j < Z.of_nat turns → healthy q bl (script_at f (idx + 1 + j)) = true →
       script_at f (idx + 1 + j) ∈ out) →
    ∀ j, 0 ≤ j < Z.of_nat (S turns) → healthy q bl (script_at f (idx + j)) = true →
       script_at f (idx + j) ∈ out).
  { intros out H0 H1 j Hj. destruct (decide (j = 0)) as [->|]; [by rewrite Z.add_0_r|].
    replace (idx + j) with (idx + 1 + (j - 1)) by lia. apply H1. lia. }
  destruct (healthy q bl (script_at f idx) && negb (bool_decide (script_at f idx ∈ picked))) eqn:Eh.
  - apply andb_true_iff in Eh as [Eh Ep%negb_true_iff%bool_decide_eq_false].
    destruct (IH (idx + 1) (picked ++ [script_at f idx])) as (H1 & H2 & H3 & H4 & H5).
    + lia.
    + lia.
    + rewrite len_app, len_cons, len_nil. lia.
    + apply NoDup_app. split_and!; [done| |apply NoDup_singleton].
      by intros x Hx ->%list_elem_of_singleton.
    + apply Forall_app. split; [done|]. constructor; [|done]. split; [by apply script_at_in|done].
    + split_and!; try done; [intros s Hs; apply H4, elem_of_app; by left|].
      intros Hlt. apply Hshift; [|by apply H5]. intros _. apply H4, elem_of_app. right. by constructor.
  - destruct (IH (idx + 1) picked) as (H1 & H2 & H3 & H4 & H5); try done; [lia|lia|].
    split_and!; try done. intros Hlt. apply Hshift; [|by apply H5]. intros Hh.
    rewrite Hh in Eh. simpl in Eh. apply negb_false_iff, bool_decide_eq_true in Eh. by apply H4.
Qed.

(** A fan-out goes to distinct deployments.  Unless no script is healthy
    (then the first configured one is used alone), the picks are distinct,
    configured and healthy, no more than asked for, and fewer only when every
    healthy script was taken. *)
Theorem next_script_ids_fanout now want f :
  ids f ≠ [] → 0 ≤ script_idx f → script_idx f + len (ids f) ≤ u64_max → 0 < want →
  let bl := retain_active now (blacklist f) in
  let picked := (next_script_ids q now want f).1 in
  ((∀ s, s ∈ ids f → healthy q bl s = false) ∧ picked = [nth 0 (ids f) []]) ∨
  (NoDup picked ∧ (∀ s, s ∈ picked → s ∈ ids f ∧ healthy q bl s = true) ∧ len picked ≤ want ∧
   (len picked < want → ∀ s, s ∈ ids f → healthy q bl s = true → s ∈ picked)).
Proof.
  intros Hne Hi Hmax Hw bl. unfold next_script_ids.
  rewrite bool_decide_eq_false_2 by done. fold bl.
  destruct (pick_many_spec (length (ids f)) want f bl (script_idx f) [] Hne Hi Hmax)
    as (H1 & H2 & H3 & _ & H5); [rewrite len_nil; lia|constructor|constructor|].
  destruct (pick_many q _ want f bl _ []) as [out idx'] eqn:E. cbn [fst] in *.
  assert (Hall : len out < want → ∀ s, s ∈ ids f → healthy q bl s = true → s ∈ out).
  { intros Hlt s Hs Hh. destruct (round_covers f _ _ Hi Hs) as (j & Hj & <-).
    by apply H5; [|unfold len in Hj|]. }
  case_bool_decide as Ho; [left|right].
  - subst out. split; [|done]. intros s Hs. destruct (healthy q bl s) eqn:Eh; [|done].
    specialize (Hall ltac:(rewrite len_nil; lia) s Hs Eh). by apply elem_of_nil in Hall.
  - split_and!; [done| |lia|done]. rewrite Forall_forall in H2. done.
Qed.
End dispatch_facts.

(** Two scripts, the first one blacklisted until 500. *)
Definition two_scripts : Fronter :=
  mk_fronter [bs "s1"; bs "s2"] 0 {[bs "s1" := 500]} ∅ 3 30000 120000.
Definition fresh_tracker : QuotaTracker := load None [bs "s1"; bs "s2"] 20000 100 true.

Lemma next_script_id_choice_witness :
  healthy fresh_tracker (retain_active 100 (blacklist two_scripts)) (bs "s1") = false ∧
  healthy fresh_tracker (retain_active 100 (blacklist two_scripts))
    (next_script_id fresh_tracker 100 two_scripts).1 = true.
Proof.
  split; [by vm_compute|].
  pose proof (next_script_id_choice fresh_tracker 100 two_scripts ltac:(done) ltac:(by vm_compute)
    ltac:(by vm_compute)) as H. cbv zeta in H.
  destruct (next_script_id fresh_tracker 100 two_scripts) as [sid f'].
  apply (proj1 H). exists (bs "s2"). split; [by apply elem_of_cons; right; constructor|by vm_compute].
Defined.

Lemma next_script_ids_fanout_witness :
  NoDup (next_script_ids fresh_tracker 600 2 two_scripts).1.
Proof.
  destruct (next_script_ids_fanout fresh_tracker 600 2 two_scripts) as [[Hall _]|[Hnd _]];
    [done|by vm_compute|by vm_compute|lia| |exact Hnd].
  specialize (Hall (bs "s1") ltac:(by constructor)). by vm_compute in Hall.
Defined.

(** ** Histories of dispatch

    What happens to the dispatcher while it serves, with the deployments it has
    handed out so far, the latest first: the picks for one request and for a
    fan-out, under whatever the quota tracker says at the time, and the failures,
    timeouts and successes of deployments it handed out. *)
Inductive dispatched {T : Type} `{!QuotaView T} (f0 : Fronter) : list bytes → Fronter → Prop :=
  | dispatch_start : dispatched f0 [] f0
  | dispatch_one (q : T) now picks f sid f' :
      dispatched f0 picks f → next_script_id q now f = (sid, f') → dispatched f0 (sid :: picks) f'
  | dispatch_many (q : T) now want picks f sids f' :
      dispatched f0 picks f → next_script_ids q now want f = (sids, f') → dispatched f0 (sids ++ picks) f'
  | dispatch_failed now picks f sid :
      dispatched f0 picks f → sid ∈ picks → dispatched f0 picks (blacklist_script now sid f)
  | dispatch_timed_out now picks f sid :
      dispatched f0 picks f → sid ∈ picks → dispatched f0 picks (record_timeout_strike now sid f)
  | dispatch_answered picks f sid :
      dispatched f0 picks f → sid ∈ picks → dispatched f0 picks (record_batch_success sid f).

Section histories.
Context {T : Type} `{!QuotaView T}.

Lemma pick_many_configured (q : T) turns want f bl idx picked :
  ids f ≠ [] → Forall (λ s, s ∈ ids f) picked →
  Forall (λ s, s ∈ ids f) (pick_many q turns want f bl idx picked).1.
Proof.
  intros Hne. revert idx picked. induction turns as [|turns IH]; intros idx picked Hf; [done|]. cbn [pick_many].
  case_if; [done|]. case_if; apply IH; [|done]. apply Forall_app. split; [done|]. constructor; [by apply script_at_in|done].
Qed.

Lemma next_script_ids_configured (q : T) now want f sids f' :
  ids f ≠ [] → dom (blacklist f) ⊆ (list_to_set (ids f) : gset bytes) →
  next_script_ids q now want f = (sids, f') →
  Forall (λ s, s ∈ ids f) sids ∧ ids f' = ids f ∧ dom (blacklist f') ⊆ (list_to_set (ids f) : gset bytes).
Proof.
  intros Hne Hd. unfold next_script_ids. rewrite bool_decide_eq_false_2 by done.
  set (bl := retain_active now (blacklist f)).
  assert (Hr : dom bl ⊆ (list_to_set (ids f) : gset bytes)).
  { etrans; [|exact Hd]. apply subseteq_dom, map_filter_subseteq. }
  pose proof (pick_many_configured q (length (ids f)) want f bl (script_idx f) [] Hne ltac:(constructor)) as Hp.
  destruct (pick_many q _ want f bl _ []) as [out idx]. cbn [fst] in Hp. intros [= <- <-]. split_and!; [|done|done].
  case_bool_decide; [|done]. constructor; [|done]. destruct (ids f); [done|by constructor].
Qed.

Lemma blacklist_for_configured now sid cooldown f :
  sid ∈ ids f → dom (blacklist f) ⊆ (list_to_set (ids f) : gset bytes) →
  dom (blacklist (blacklist_script_for now sid cooldown f)) ⊆ (list_to_set (ids f) : gset bytes).
Proof. intros Hs Hd. simpl. rewrite dom_insert. set_solver. Qed.

Lemma timeout_strike_configured now sid f :
  sid ∈ ids f → dom (blacklist f) ⊆ (list_to_set (ids f) : gset bytes) →
  ids (record_timeout_strike now sid f) = ids f ∧
  dom (blacklist (record_timeout_strike now sid f)) ⊆ (list_to_set (ids f) : gset bytes).
Proof.
  intros Hs Hd. unfold record_timeout_strike. destruct (default _ _) as [since count].
  destruct (if auto_blacklist_window f <? now - since then (now, 1) else (since, (count + 1) mod u32_mod)) as [since' count'].
  case_if; [|done]. split; [done|]. by apply (blacklist_for_configured now sid _ (set_timeouts _ f)).
Qed.

(** Whatever happens, only configured deployments are handed out: the fallback
    picks come from a blacklist that holds nothing else. *)
Lemma dispatched_configured f0 picks f :
  ids f0 ≠ [] → dom (blacklist f0) ⊆ (list_to_set (ids f0) : gset bytes) →
  dispatched (T := T) f0 picks f →
  ids f = ids f0 ∧ dom (blacklist f) ⊆ (list_to_set (ids f0) : gset bytes) ∧ Forall (λ s, s ∈ ids f0) picks.
Proof.
  intros Hne Hd. induction 1 as [|q now picks f sid f' _ (Hi & Hb & Hp) Hn|q now want picks f sids f' _ (Hi & Hb & Hp) Hn
    |now picks f sid _ (Hi & Hb & Hp) Hs|now picks f sid _ (Hi & Hb & Hp) Hs|picks f sid _ (Hi & Hb & Hp) Hs];
    rewrite <-?Hi in *; try (rewrite Forall_forall in Hp; specialize (Hp sid Hs) as Hsid).
  - done.
  - destruct (next_script_id_configured q now f sid f' Hne Hb Hn) as (H1 & -> & H2). by split_and!; [..|constructor].
  - destruct (next_script_ids_configured q now want f sids f' Hne Hb Hn) as (H1 & -> & H2).
    split_and!; [done..|]. by apply Forall_app.
  - split_and!; [done| |by apply Forall_forall]. by apply blacklist_for_configured.
  - destruct (timeout_strike_configured now sid f Hsid Hb) as [-> H2]. split_and!; [done..|by apply Forall_forall].
  - split_and!; [done..|by apply Forall_forall].
Qed.
End histories.

(** ** Timeout strikes *)

Definition strikes (times : list Z) (sid : bytes) (f : Fronter) : Fronter :=
  foldl (λ f now, record_timeout_strike now sid f) f times.

Lemma strike_counts now sid f since count :
  script_timeouts f !! sid = Some (since, count) → now - since ≤ auto_blacklist_window f →
  0 ≤ count → count + 1 < auto_blacklist_strikes f ≤ u32_max →
  record_timeout_strike now sid f =
    set_timeouts (<[sid := (since, count + 1)]> (script_timeouts f)) f.
Proof.
  intros Hs Hw Hc Hl. unfold record_timeout_strike. rewrite Hs. simpl.
  replace (auto_blacklist_window f <? now - since) with false by lia.
  rewrite Z.mod_small by zlia. by replace (auto_blacklist_strikes f <=? count + 1) with false by lia.
Qed.

Lemma strikes_accumulate times sid f since count :
  script_timeouts f !! sid = Some (since, count) →
  Forall (λ t, t - since ≤ auto_blacklist_window f) times → 0 ≤ count →
  count + len times < auto_blacklist_strikes f ≤ u32_max →
  blacklist (strikes times sid f) = blacklist f ∧
  script_timeouts (strikes times sid f) !! sid = Some (since, count + len times).
Proof.
  intros Hs Hf. revert f count Hs Hf. induction times as [|t times IH]; intros f count Hs Hf Hc Hl.
  { simpl. by rewrite len_nil, Z.add_0_r. }
  rewrite len_cons in *. pose proof (len_nonneg times). inversion Hf as [|? ? Ht Hf']; subst.
  cbn [strikes foldl]. rewrite (strike_counts t sid f since count) by (done || lia).
  destruct (IH (set_timeouts (<[sid := (since, count + 1)]> (script_timeouts f)) f) (count + 1))
    as [H1 H2]; [simpl; apply lookup_insert_eq|done|lia|simpl; lia|].
  split; [exact H1|]. unfold strikes in H2. rewrite H2. do 2 f_equal. lia.
Qed.

(** The strike window starts at its first strike and does not slide.  A
    deployment whose limit is three can time out three times within any two
    milliseconds that straddle the end of the window and is not blacklisted:
    the earlier strike is forgotten with the old window. *)
Theorem timeout_window_does_not_slide sid f W :
  auto_blacklist_strikes f = 3 → auto_blacklist_window f = W → 0 < W →
  script_timeouts f !! sid = None → blacklist f !! sid = None →
  blacklist (strikes [0; W; W + 1; W + 2] sid f) !! sid = None.
Proof.
  intros H3 HW HW0 Hn Hb.
  cbn [strikes foldl]. unfold record_timeout_strike at 4. rewrite Hn. simpl default. cbv beta iota.
  rewrite HW, H3. replace (W <? 0 - 0) with false by lia.
  replace ((0 + 1) mod u32_mod) with 1 by done. replace (3 <=? 1) with false by done.
  set (f1 := set_timeouts _ f).
  rewrite (strike_counts W sid f1 0 1); simpl; try (rewrite ?HW, ?H3; unfold u32_max, u32_mod; lia).
  2:{ apply lookup_insert_eq. }
  set (f2 := set_timeouts _ f1). unfold record_timeout_strike at 2. simpl.
  rewrite lookup_insert_eq. simpl default. cbv beta iota. rewrite HW.
  replace (W <? W + 1 - 0) with true by lia. rewrite H3. replace (3 <=? 1) with false by done.
  set (f3 := set_timeouts _ f2).
  rewrite (strike_counts (W + 2) sid f3 (W + 1) 1); simpl;
    try (rewrite ?HW, ?H3; unfold u32_max, u32_mod; lia); [done|].
  apply lookup_insert_eq.
Qed.

Lemma timeout_window_does_not_slide_witness :
  blacklist (strikes [0; 30000; 30001; 30002] (bs "s2") two_scripts) !! bs "s2" = None.
Proof.
  apply (timeout_window_does_not_slide (bs "s2") two_scripts 30000); done.
Defined.
