(* ===== verification/Mux.v ===== *)
(** * The batch multiplexer of the tunnel client (src/tunnel_client.rs)

    [mux_loop] collects the messages of all sessions during a coalescing
    window, packs the data-bearing ones into batches ([BatchAccum]) and fires
    each batch at a deployment, thirty at a time per deployment
    ([fire_batch]).  Replies travel over [oneshot] channels: a sender is
    modelled by its identity, a [Channel].  [Net] is the interleaving of the
    mux task with the batch tasks it spawns, as a step relation.  The wire
    structures [TunnelResponse] and [BatchOp], which both crates declare with
    the same fields, are those of the node's handlers. *)

From Stdlib Require Import Strings.Byte.
From S2P Require Import Prelude RustBytes Base64 NodeHandlers Quota Scripts.

(** ** Constants *)

Definition CONCURRENCY_PER_DEPLOYMENT : nat := 30.
Definition MAX_BATCH_PAYLOAD_BYTES : Z := 4 * 1024 * 1024.
Definition MAX_BATCH_OPS : Z := 50.

(** ** Messages and pending ops *)

Definition Channel : Type := nat.

Inductive MuxMsg :=
  | MConnect (host : bytes) (port : Z) (reply : Channel)
  | MConnectData (host : bytes) (port : Z) (data : bytes) (reply : Channel)
  | MData (sid : bytes) (data : bytes) (seq wseq : option Z) (reply : Channel)
  | MUdpOpen (host : bytes) (port : Z) (data : bytes) (reply : Channel)
  | MUdpData (sid : bytes) (data : bytes) (reply : Channel)
  | MClose (sid : bytes).

Record PendingOp := mk_pending {
  p_op : bytes;
  p_sid : option bytes;
  p_host : option bytes;
  p_port : option Z;
  p_data : option bytes;
  encode_empty : bool;
  p_seq : option Z;
  p_wseq : option Z
}.

Definition should_fire (pending_len payload_bytes op_bytes : Z) : bool :=
  (0 <? pending_len)
  && ((MAX_BATCH_OPS <=? pending_len)
      || (MAX_BATCH_PAYLOAD_BYTES <? sat_add64 payload_bytes op_bytes)).

(** [n.div_ceil(3) * 4]; a slice length is below [2^63], so neither operation
    wraps. *)
Definition encoded_len (n : Z) : Z := div_ceil n 3 * 4.

Definition encode_pending `{!Base64} (p : PendingOp) : BatchOp :=
  let d :=
    match p_data p, encode_empty p with
    | Some ((_ :: _) as b), _ => Some (b64_encode b)
    | Some _, true => Some []
    | _, _ => None
    end in
  mk_op (p_op p) (p_sid p) (p_host p) (p_port p) d (p_seq p) (p_wseq p).

(** ** The accumulator *)

Record BatchAccum := mk_accum {
  pending_ops : list PendingOp;
  data_replies : list (nat * Channel);
  payload_bytes : Z
}.

Definition new_accum : BatchAccum := mk_accum [] [] 0.

(** The arguments of a [fire_batch] call. *)
Record FiredBatch := mk_fire { b_ops : list PendingOp; b_replies : list (nat * Channel) }.

(** [push_or_fire]: the batch it fires first, if any. *)
Definition push_or_fire (op : PendingOp) (op_bytes : Z) (reply : Channel) (a : BatchAccum)
    : list FiredBatch * BatchAccum :=
  let '(fired, a) :=
    if should_fire (len (pending_ops a)) (payload_bytes a) op_bytes then
      ([mk_fire (pending_ops a) (data_replies a)], mk_accum [] [] 0)
    else ([], a) in
  let idx := length (pending_ops a) in
  (fired,
   mk_accum (pending_ops a ++ [op]) (data_replies a ++ [(idx, reply)])
     (wadd64 (payload_bytes a) op_bytes)).

Definition opt_payload (data : bytes) : option bytes :=
  if bool_decide (data = []) then None else Some data.

(** The op and reply channel of the data-bearing messages; [MConnect] is
    requested on its own and [MClose] has no reply. *)
Definition op_of_msg (m : MuxMsg) : option (PendingOp * Z * Channel) :=
  match m with
  | MConnectData host port data reply =>
      Some (mk_pending (bs "connect_data") None (Some host) (Some port) (Some data) true None None,
            encoded_len (len data), reply)
  | MData sid data seq wseq reply =>
      Some (mk_pending (bs "data") (Some sid) None None (opt_payload data) false seq wseq,
            encoded_len (len data), reply)
  | MUdpOpen host port data reply =>
      Some (mk_pending (bs "udp_open") None (Some host) (Some port) (opt_payload data) false None None,
            encoded_len (len data), reply)
  | MUdpData sid data reply =>
      Some (mk_pending (bs "udp_data") (Some sid) None None (opt_payload data) false None None,
            encoded_len (len data), reply)
  | MConnect _ _ _ | MClose _ => None
  end.

Definition close_pending (sid : bytes) : PendingOp :=
  mk_pending (bs "close") (Some sid) None None None false None None.

(** One iteration's state: the accumulator, [close_sids], the batches fired
    and the plain connects spawned so far. *)
Record Window := mk_window {
  accum : BatchAccum;
  close_sids : list bytes;
  fired : list FiredBatch;
  connects : list (bytes * Z * Channel)
}.

(** The [match msg] of the dispatch loop. *)
Definition mux_msg (w : Window) (m : MuxMsg) : Window :=
  match op_of_msg m with
  | Some (op, op_bytes, reply) =>
      let '(bs, a) := push_or_fire op op_bytes reply (accum w) in
      mk_window a (close_sids w) (fired w ++ bs) (connects w)
  | None =>
      match m with
      | MConnect host port reply =>
          mk_window (accum w) (close_sids w) (fired w) (connects w ++ [(host, port, reply)])
      | MClose sid => mk_window (accum w) (close_sids w ++ [sid]) (fired w) (connects w)
      | _ => w
      end
  end.

(** The dispatch of one window: the batches fired, in order, and the plain
    connects spawned. *)
Definition mux_dispatch (msgs : list MuxMsg) : list FiredBatch * list (bytes * Z * Channel) :=
  let w := foldl mux_msg (mk_window new_accum [] [] []) msgs in
  let ops := pending_ops (accum w) ++ map close_pending (close_sids w) in
  match ops with
  | [] => (fired w, connects w)
  | _ => (fired w ++ [mk_fire ops (data_replies (accum w))], connects w)
  end.

(** ** The coalescing window *)

(** What one turn of the coalescing loop sees: the messages [try_recv] finds
    (with the clock after each), the clock of the deadline test, and how the
    bounded [recv] ends. *)
Inductive Waited := Received (m : MuxMsg) (at_ : Z) | Elapsed | ChannelClosed.
Record Turn := mk_turn { queued : list (MuxMsg * Z); turn_now : Z; waited : Waited }.

(** The inner loop; [None] when the channel is closed under it.  The last
    turn is one that finds the deadline passed. *)
Fixpoint coalesce (step hard : Z) (turns : list Turn) (soft : Z) (msgs : list MuxMsg)
    : option (list MuxMsg) :=
  match turns with
  | [] => Some msgs
  | t :: turns' =>
      let msgs := msgs ++ map fst (queued t) in
      let soft := match last (queued t) with Some (_, at_) => at_ + step | None => soft end in
      let wait_until := Z.min soft hard in
      if wait_until <=? turn_now t then Some msgs
      else
        match waited t with
        | Received m at_ => coalesce step hard turns' (at_ + step) (msgs ++ [m])
        | ChannelClosed => None
        | Elapsed => Some msgs
        end
  end.

(** The window that starts with [first], received at [t0]. *)
Definition coalesce_window (step max t0 : Z) (first : MuxMsg) (turns : list Turn)
    : option (list MuxMsg) :=
  coalesce step (t0 + max) turns (t0 + step) [first].

(** ** Firing a batch *)

(** The daily counters of [DomainFronter]. *)
Record Today := mk_today { today_key : bytes; today_calls : Z; today_bytes : Z }.

Definition record_today (today : bytes) (n : Z) (t : Today) : Today :=
  let t := if bool_decide (today_key t = today) then t else mk_today today 0 0 in
  mk_today (today_key t) (wadd64 (today_calls t) 1) (wadd64 (today_bytes t) n).

(** How the request of a batch ends: its responses, a [FronterError] (whether
    it is [Timeout], and its text), or the budget of the whole batch. *)
Inductive BatchResult :=
  | BatchOk (r : list TunnelResponse)
  | BatchFailed (is_timeout : bool) (msg : bytes)
  | BatchElapsed.

Definition sum64 (l : list Z) : Z := foldl wadd64 0 l.

Definition response_bytes (r : TunnelResponse) : Z :=
  wadd64 (default 0 (len <$> r_d r)) (default 0 ((λ v, sum64 (map len v)) <$> r_pkts r)).

Definition Reply : Type := result (TunnelResponse * bytes) bytes.

(** [&script_id[..script_id.len().min(8)]]; ids are ASCII. *)
Definition sid_short (script : bytes) : bytes := ztake (Z.min (len script) 8) script.

Definition missing_response (script : bytes) : bytes :=
  bs "missing response in batch from script " ++ sid_short script.

(** What is sent to a reply channel when the batch succeeds. *)
Definition reply_at (script : bytes) (r : list TunnelResponse) (ic : nat * Channel)
    : Channel * Reply :=
  (ic.2, match r !! ic.1 with
         | Some resp => Ok (resp, script)
         | None => Err (missing_response script)
         end).

(** The replies a finished batch sends, in order. *)
Definition batch_replies (script : bytes) (b : FiredBatch) (res : BatchResult)
    : list (Channel * Reply) :=
  match res with
  | BatchOk r => map (reply_at script r) (b_replies b)
  | BatchFailed _ msg => map (λ ic, (ic.2, Err msg)) (b_replies b)
  | BatchElapsed => map (λ ic, (ic.2, Err (bs "batch timed out"))) (b_replies b)
  end.

(** What a finished batch does to the fronter. *)
Definition batch_account (now : Z) (today script : bytes) (res : BatchResult)
    (ft : Fronter * Today) : Fronter * Today :=
  let '(f, t) := ft in
  match res with
  | BatchOk r =>
      (record_batch_success script f, record_today today (sum64 (map response_bytes r)) t)
  | BatchFailed true _ | BatchElapsed => (record_timeout_strike now script f, t)
  | BatchFailed false _ => (f, t)
  end.

(** ** The mux task and its batch tasks

    [fire_batch] picks a deployment, waits for one of its permits and spawns
    the batch task, which holds the permit until it has sent its replies.
    The state: the fronter and its counters, the free permits, the batches
    the current window still has to fire, the batch waiting for a permit,
    the running batches and the replies sent. *)
Module Net.

Record state := mk {
  fronter : Fronter;
  counters : Today;
  permits : gmap bytes nat;
  todo : list FiredBatch;
  waiting : option (bytes * FiredBatch);
  running : list (bytes * FiredBatch);
  replies : list (Channel * Reply)
}.

(** [sems]: one semaphore per distinct configured id. *)
Definition init_sems (ids : list bytes) : gmap bytes nat :=
  list_to_map (map (λ id, (id, CONCURRENCY_PER_DEPLOYMENT)) ids).

Definition init (f : Fronter) (t : Today) : state := mk f t (init_sems (ids f)) [] None [] [].

(** A fronter changed by other tasks: the configured ids stay, and only
    configured ids are blacklisted. *)
Definition fronter_step (f f' : Fronter) : Prop :=
  ids f' = ids f ∧ dom (blacklist f') ⊆ (list_to_set (ids f) : gset bytes).

(** A step is labelled with the messages the mux task takes in. *)
Inductive step {T} `{!QuotaView T} : list MuxMsg → state → state → Prop :=
  | step_window msgs s :
      todo s = [] → waiting s = None →
      step msgs s (mk (fronter s) (counters s) (permits s) (mux_dispatch msgs).1 None
                (running s) (replies s))
  | step_pick (q : T) now b bs script f s :
      todo s = b :: bs → waiting s = None →
      next_script_id q now (fronter s) = (script, f) →
      step [] s (mk f (counters s) (permits s) bs (Some (script, b)) (running s) (replies s))
  | step_acquire script b n s :
      waiting s = Some (script, b) → permits s !! script = Some (S n) →
      step [] s (mk (fronter s) (counters s) (<[script := n]> (permits s)) (todo s) None
                (running s ++ [(script, b)]) (replies s))
  | step_acquire_unknown script b s :
      waiting s = Some (script, b) → permits s !! script = None →
      step [] s (mk (fronter s) (counters s) (permits s) (todo s) None
                (running s ++ [(script, b)]) (replies s))
  | step_finish now today script b res rs1 rs2 f t s :
      running s = rs1 ++ (script, b) :: rs2 →
      batch_account now today script res (fronter s, counters s) = (f, t) →
      step [] s (mk f t (alter S script (permits s)) (todo s) (waiting s) (rs1 ++ rs2)
                (replies s ++ batch_replies script b res))
  | step_other f' t' s :
      fronter_step (fronter s) f' →
      step [] s (mk f' t' (permits s) (todo s) (waiting s) (running s) (replies s)).

(** Executions, with all messages taken in. *)
Inductive trace {T} `{!QuotaView T} : state → list MuxMsg → state → Prop :=
  | trace_refl s : trace s [] s
  | trace_step s msgs s1 msgs' s2 :
      trace s msgs s1 → step msgs' s1 s2 → trace s (msgs ++ msgs') s2.

End Net.

(** ** What a window dispatches *)

(** The data-bearing messages of a window, as ops with their channels. *)
Definition data_sends (msgs : list MuxMsg) : list (PendingOp * Channel) :=
  omap (λ m, (λ x, (x.1.1, x.2)) <$> op_of_msg m) msgs.
Definition closes (msgs : list MuxMsg) : list bytes :=
  omap (λ m, match m with MClose sid => Some sid | _ => None end) msgs.
Definition plain_connects (msgs : list MuxMsg) : list (bytes * Z * Channel) :=
  omap (λ m, match m with MConnect h p c => Some (h, p, c) | _ => None end) msgs.

(** The batch that carries the ops [l], each answered on its channel, and the
    closes [cl]. *)
Definition batch_of (l : list (PendingOp * Channel)) (cl : list bytes) : FiredBatch :=
  mk_fire (map fst l ++ map close_pending cl) (zip (seq 0 (length l)) (map snd l)).

(** The payload of an op once it is encoded. *)
Definition wire_len (p : PendingOp) : Z := encoded_len (len (default [] (p_data p))).
Definition payload_len (l : list (PendingOp * Channel)) : Z :=
  foldr (λ x n, wire_len x.1 + n) 0 l.

Definition within_limits (l : list (PendingOp * Channel)) : Prop :=
  0 < len l ≤ MAX_BATCH_OPS ∧ (payload_len l ≤ MAX_BATCH_PAYLOAD_BYTES ∨ len l = 1).

(** A Rust slice has at most [isize::MAX] bytes. *)
Definition isize_max : Z := 2 ^ 63 - 1.
Definition small_op (p : PendingOp) : Prop := len (default [] (p_data p)) ≤ isize_max.

Lemma encoded_len_nonneg n : 0 ≤ n → 0 ≤ encoded_len n.
Proof. intros. unfold encoded_len, div_ceil. divlia. Qed.

Lemma wire_len_bounds p : small_op p → 0 ≤ wire_len p < u64_mod.
Proof.
  unfold small_op, wire_len, encoded_len, div_ceil, isize_max, u64_mod. intros.
  pose proof (len_nonneg (default [] (p_data p))). divlia.
Qed.

Lemma payload_len_nonneg l : 0 ≤ payload_len l.
Proof.
  induction l as [|x l IH]; simpl; [lia|].
  pose proof (encoded_len_nonneg (len (default [] (p_data x.1))) (len_nonneg _)).
  unfold wire_len. lia.
Qed.

Lemma payload_len_snoc l x : payload_len (l ++ [x]) = payload_len l + wire_len x.1.
Proof. unfold payload_len. induction l as [|y l IH]; simpl in *; lia. Qed.

Lemma batch_of_snoc_replies (l : list (PendingOp * Channel)) x :
  zip (seq 0 (length l)) (map snd l) ++ [(length l, x.2)] =
  zip (seq 0 (length (l ++ [x]))) (map snd (l ++ [x])).
Proof.
  rewrite length_app, Nat.add_1_r, seq_S, map_app. simpl.
  by rewrite zip_with_app by (rewrite length_seq, length_map; done).
Qed.

Lemma op_of_msg_len m op n c :
  op_of_msg m = Some (op, n, c) → n = wire_len op.
Proof.
  assert (H : ∀ d, len (default [] (opt_payload d)) = len d).
  { intros d. unfold opt_payload. case_bool_decide; by subst. }
  destruct m; simpl; intros ?; simplify_eq/=; unfold wire_len; simpl; by rewrite ?H.
Qed.

(** The accumulator that holds the ops [cur]. *)
Definition accum_of (cur : list (PendingOp * Channel)) : BatchAccum :=
  mk_accum (map fst cur) (zip (seq 0 (length cur)) (map snd cur)) (payload_len cur).

Lemma push_or_fire_spec op c cur :
  small_op op → (cur = [] ∨ within_limits cur) →
  ∃ fired cur',
    push_or_fire op (wire_len op) c (accum_of cur) =
      (map (λ l, batch_of l []) fired, accum_of cur') ∧
    concat fired ++ cur' = cur ++ [(op, c)] ∧
    Forall within_limits fired ∧ within_limits cur'.
Proof.
  intros Hop Hcur. pose proof (wire_len_bounds op Hop) as Hw.
  assert (Hsingle : within_limits [(op, c)]).
  { unfold within_limits, MAX_BATCH_OPS. change (len [(op, c)]) with 1. split; [lia|by right]. }
  unfold push_or_fire, should_fire, accum_of. cbn [pending_ops payload_bytes data_replies].
  rewrite len_map. destruct Hcur as [->|Hlim].
  { exists [], [(op, c)]. simpl. split_and!; try done.
    unfold accum_of. simpl. f_equal. f_equal. unfold payload_len, wadd64. simpl. by rewrite Z.add_0_r, Z.mod_small by lia. }
  destruct Hlim as [Hn Hp]. replace (0 <? len cur) with true by lia. simpl andb.
  pose proof (payload_len_nonneg cur) as Hnn.
  case_if.
  - exists [cur], [(op, c)]. simpl. split_and!; try done.
    + unfold batch_of, accum_of. simpl. rewrite !app_nil_r. unfold payload_len, wadd64. simpl.
      by rewrite Z.add_0_r, Z.mod_small by lia.
    + by rewrite app_nil_r.
    + apply Forall_singleton. by split.
  - exists [], (cur ++ [(op, c)]). unfold sat_add64 in *.
    assert (payload_len cur + wire_len op ≤ MAX_BATCH_PAYLOAD_BYTES)
      by (unfold MAX_BATCH_PAYLOAD_BYTES, u64_max, u64_mod in *; lia).
    split_and!; try done.
    + unfold accum_of. simpl. rewrite length_map, map_app, <-batch_of_snoc_replies, payload_len_snoc. simpl.
      unfold wadd64. rewrite Z.mod_small by (unfold MAX_BATCH_PAYLOAD_BYTES, u64_mod in *; lia).
      done.
    + unfold within_limits. split; [|left].
      { unfold len in *. rewrite length_app. simpl. lia. }
      rewrite payload_len_snoc. simpl. lia.
Qed.

Definition window_ok (msgs : list MuxMsg) (w : Window) : Prop :=
  ∃ groups cur,
    accum w = accum_of cur ∧ fired w = map (λ l, batch_of l []) groups ∧
    concat groups ++ cur = data_sends msgs ∧
    Forall within_limits groups ∧ (cur = [] ∨ within_limits cur) ∧
    close_sids w = closes msgs ∧ connects w = plain_connects msgs.

Lemma omap_snoc {A B} (f : A → option B) l x :
  omap f (l ++ [x]) = omap f l ++ match f x with Some y => [y] | None => [] end.
Proof. rewrite omap_app. simpl. by destruct (f x). Qed.

Definition small_msgs (msgs : list MuxMsg) : Prop :=
  Forall (λ x, small_op x.1) (data_sends msgs).

Lemma window_ok_msgs msgs :
  small_msgs msgs → window_ok msgs (foldl mux_msg (mk_window new_accum [] [] []) msgs).
Proof.
  induction msgs as [|m msgs IH] using rev_ind; intros Hs.
  { exists [], []. split_and!; try done. by left. }
  rewrite foldl_snoc. unfold small_msgs in *. unfold data_sends in Hs at 1.
  rewrite omap_snoc in Hs. apply Forall_app in Hs as [Hs Hm].
  destruct (IH Hs) as (groups & cur & Ha & Hf & Hc & Hg & Hl & Hcl & Hco).
  set (w := foldl _ _ _) in *. unfold window_ok, mux_msg, data_sends, closes, plain_connects.
  setoid_rewrite omap_snoc. fold (data_sends msgs) (closes msgs) (plain_connects msgs).
  destruct (op_of_msg m) as [[[op n] c]|] eqn:Em; simpl in Hm |- *.
  - apply Forall_cons in Hm as [Hm _]. rewrite Ha. simpl in Hm.
    pose proof (op_of_msg_len _ _ _ _ Em) as ->.
    destruct (push_or_fire_spec op c cur Hm Hl) as (fd & cur' & -> & Hcat & Hfd & Hcur').
    exists (groups ++ fd), cur'. cbn [accum fired close_sids connects].
    split_and!; [done|by rewrite Hf, map_app| |by apply Forall_app|by right| |].
    + by rewrite concat_app, <-app_assoc, Hcat, app_assoc, Hc.
    + rewrite Hcl. destruct m; simplify_eq/=; by rewrite app_nil_r.
    + rewrite Hco. destruct m; simplify_eq/=; by rewrite app_nil_r.
  - exists groups, cur. rewrite app_nil_r.
    destruct m; simplify_eq/=; rewrite ?app_nil_r, ?Hcl, ?Hco; by split_and!.
Qed.

(** The whole dispatch of a window. *)
Lemma mux_dispatch_shape msgs :
  small_msgs msgs →
  ∃ groups cur,
    concat groups ++ cur = data_sends msgs ∧
    Forall within_limits groups ∧ (cur = [] ∨ within_limits cur) ∧
    mux_dispatch msgs =
      (map (λ l, batch_of l []) groups ++
         match cur, closes msgs with
         | [], [] => []
         | _, _ => [batch_of cur (closes msgs)]
         end,
       plain_connects msgs).
Proof.
  intros Hs. destruct (window_ok_msgs msgs Hs) as (groups & cur & Ha & Hf & Hc & Hg & Hl & Hcl & Hco).
  exists groups, cur. split_and!; try done. unfold mux_dispatch.
  set (w := foldl _ _ _) in *. rewrite Ha, Hf, Hcl, Hco. unfold accum_of. cbn [pending_ops data_replies].
  destruct cur as [|x cur]; simpl.
  - destruct (closes msgs); simpl; [by rewrite app_nil_r|done].
  - done.
Qed.

(** The op whose response each reply channel of a batch receives: the one at
    the index the channel is registered under. *)
Definition answered_ops (b : FiredBatch) : list (PendingOp * Channel) :=
  omap (λ ic, (λ o, (o, ic.2)) <$> b_ops b !! ic.1) (b_replies b).

Lemma answered_ops_from (ops : list PendingOp) (l : list (PendingOp * Channel)) pre post :
  ops = pre ++ map fst l ++ post →
  omap (λ ic, (λ o, (o, ic.2)) <$> ops !! ic.1) (zip (seq (length pre) (length l)) (map snd l)) = l.
Proof.
  intros ->. revert pre. induction l as [|[o c] l IH]; intros pre; [done|]. simpl.
  rewrite list_lookup_middle by done. simpl. f_equal.
  specialize (IH (pre ++ [o])). rewrite length_app, Nat.add_1_r, <-app_assoc in IH. exact IH.
Qed.

Lemma answered_ops_batch_of l cl : answered_ops (batch_of l cl) = l.
Proof. by apply (answered_ops_from _ l [] (map close_pending cl)). Qed.

(** C2: a window loses, repeats and reorders nothing.  Plain connects are
    requested one by one; across the batches fired, every data-bearing
    message appears exactly once and in order, and the index its reply
    channel is registered under is the index of its own op; every close is
    carried by the last batch. *)
Theorem mux_dispatch_delivers msgs :
  small_msgs msgs →
  let '(batches, conns) := mux_dispatch msgs in
  conns = plain_connects msgs ∧
  concat (map answered_ops batches) = data_sends msgs ∧
  concat (map b_ops batches) = map fst (data_sends msgs) ++ map close_pending (closes msgs).
Proof.
  intros Hs. destruct (mux_dispatch_shape msgs Hs) as (groups & cur & <- & _ & _ & ->).
  split; [done|]. rewrite !map_app, !concat_app, !map_map.
  assert (E1 : map (λ l, answered_ops (batch_of l [])) groups = groups).
  { rewrite <-(map_id groups) at 2. apply map_ext. intros l. apply answered_ops_batch_of. }
  assert (E2 : concat (map (λ l, b_ops (batch_of l [])) groups) = map fst (concat groups)).
  { rewrite concat_map. f_equal. apply map_ext. intros l. apply app_nil_r. }
  rewrite E1, E2, <-app_assoc.
  destruct cur as [|x cur], (closes msgs) as [|sid sids]; cbn [map concat app];
    rewrite ?answered_ops_batch_of, ?app_nil_r; (split; [done|]); unfold batch_of; simpl;
    by rewrite ?app_nil_r.
Qed.

Section payload.
Context `{Base64Laws}.

(** The encoded payload a batch puts on the wire. *)
Definition wire_payload (b : FiredBatch) : Z :=
  foldr (λ p n, len (default [] (op_d (encode_pending p))) + n) 0 (b_ops b).

Lemma encode_pending_len p : len (default [] (op_d (encode_pending p))) = wire_len p.
Proof.
  unfold encode_pending, wire_len. destruct (p_data p) as [[|x b]|]; simpl; [|apply b64_encode_len|done].
  by destruct (encode_empty p).
Qed.

Lemma wire_payload_batch_of l cl : wire_payload (batch_of l cl) = payload_len l.
Proof.
  unfold wire_payload, payload_len, batch_of. cbn [b_ops]. rewrite foldr_app.
  assert (E : foldr (λ p n, len (default [] (op_d (encode_pending p))) + n) 0
    (map close_pending cl) = 0) by (induction cl; simpl in *; done).
  rewrite E. induction l as [|x l IH]; cbn [foldr map]; [done|]. by rewrite IH, encode_pending_len.
Qed.

Lemma len_b_replies l cl : len (b_replies (batch_of l cl)) = len l.
Proof.
  unfold batch_of, len. simpl. rewrite length_zip_with, length_seq, length_map. lia.
Qed.

(** Batches stay within the caps.  Every batch a window fires carries at
    most [MAX_BATCH_OPS] data ops, and at most [MAX_BATCH_PAYLOAD_BYTES] of
    encoded payload unless it carries a single op; closes carry no payload. *)
Theorem mux_batch_limits msgs :
  small_msgs msgs →
  Forall (λ b,
    len (b_replies b) ≤ MAX_BATCH_OPS ∧
    (wire_payload b ≤ MAX_BATCH_PAYLOAD_BYTES ∨ len (b_replies b) = 1))
    (mux_dispatch msgs).1.
Proof.
  intros Hs. destruct (mux_dispatch_shape msgs Hs) as (groups & cur & _ & Hg & Hc & ->).
  assert (Hok : ∀ l cl, l = [] ∨ within_limits l →
    len (b_replies (batch_of l cl)) ≤ MAX_BATCH_OPS ∧
    (wire_payload (batch_of l cl) ≤ MAX_BATCH_PAYLOAD_BYTES ∨ len (b_replies (batch_of l cl)) = 1)).
  { intros l cl Hl. rewrite wire_payload_batch_of, len_b_replies.
    destruct Hl as [->|[? ?]]; [split; [done|by left]|]. split; [lia|done]. }
  apply Forall_app. split.
  - apply Forall_map. eapply Forall_impl; [exact Hg|]. intros l Hl. apply Hok. by right.
  - destruct cur as [|x cur], (closes msgs); try (apply Forall_singleton, Hok, Hc); constructor.
Qed.
End payload.

(** Closes are not counted: any number of them rides in one batch. *)
Lemma closes_uncapped sids :
  sids ≠ [] → mux_dispatch (map MClose sids) = ([mk_fire (map close_pending sids) []], []).
Proof.
  intros Hne. unfold mux_dispatch.
  assert (E : ∀ cl, foldl mux_msg (mk_window new_accum cl [] []) (map MClose sids) =
    mk_window new_accum (cl ++ sids) [] []).
  { clear Hne. induction sids as [|s l IH]; intros cl; cbn [foldl map]; [by rewrite app_nil_r|].
    unfold mux_msg at 2. cbn. by rewrite IH, <-app_assoc. }
  rewrite (E []). simpl. by destruct sids.
Qed.

(** ** The mux task and its batch tasks: invariants *)

Module NetFacts.
Import Net.

Definition chans (b : FiredBatch) : list Channel := map snd (b_replies b).

(** The channels still waiting for a reply. *)
Definition open_chans (s : state) : list Channel :=
  concat (map (chans ∘ snd) (running s)) ++
  match waiting s with Some (_, b) => chans b | None => [] end ++
  concat (map chans (todo s)).

(** How many batches run on a deployment. *)
Definition in_flight (id : bytes) (l : list (bytes * FiredBatch)) : nat :=
  length (filter (λ sb, sb.1 = id) l).

Record inv (scripts : list bytes) (acc : list Channel) (s : state) : Prop := {
  inv_ids : ids (fronter s) = scripts;
  inv_black : dom (blacklist (fronter s)) ⊆ (list_to_set scripts : gset bytes);
  inv_waiting : ∀ id b, waiting s = Some (id, b) → id ∈ scripts;
  inv_running : Forall (λ sb, sb.1 ∈ scripts) (running s);
  inv_permits : ∀ id, id ∈ scripts →
    ∃ n, permits s !! id = Some n ∧ (n + in_flight id (running s) = CONCURRENCY_PER_DEPLOYMENT)%nat;
  inv_chans : map fst (replies s) ++ open_chans s ≡ₚ acc
}.

Lemma init_sems_lookup l id :
  id ∈ l → init_sems l !! id = Some CONCURRENCY_PER_DEPLOYMENT.
Proof.
  unfold init_sems. induction l as [|x l IH]; intros Hin; [by apply elem_of_nil in Hin|].
  simpl. destruct (decide (x = id)) as [->|]; [by rewrite lookup_insert_eq|].
  rewrite lookup_insert_ne by done. apply IH. by apply elem_of_cons in Hin as [->|].
Qed.

Lemma in_flight_app id l l' : in_flight id (l ++ l') = (in_flight id l + in_flight id l')%nat.
Proof. unfold in_flight. by rewrite filter_app, length_app. Qed.

Lemma in_flight_one id id' b : in_flight id [(id', b)] = if decide (id' = id) then 1%nat else 0%nat.
Proof. unfold in_flight. rewrite filter_cons. simpl. by destruct (decide (id' = id)). Qed.

Lemma in_flight_none id l : Forall (λ sb, sb.1 ≠ id) l → in_flight id l = 0%nat.
Proof.
  unfold in_flight. induction 1 as [|x l Hx _ IH]; [done|]. by rewrite filter_cons_False.
Qed.

Lemma chans_batch_replies script b res : map fst (batch_replies script b res) = chans b.
Proof. by destruct res; simpl; unfold chans; rewrite map_map. Qed.

Lemma chans_batch_of l cl : chans (batch_of l cl) = map snd l.
Proof.
  unfold chans, batch_of. simpl. apply (snd_zip (seq 0 (length l)) (map snd l)).
  rewrite length_map, length_seq. lia.
Qed.

Lemma chans_dispatch msgs :
  small_msgs msgs → concat (map chans (mux_dispatch msgs).1) = map snd (data_sends msgs).
Proof.
  intros Hs. destruct (mux_dispatch_shape msgs Hs) as (groups & cur & <- & _ & _ & ->).
  simpl. rewrite !map_app, concat_app, map_map. f_equal.
  - rewrite concat_map. f_equal. apply map_ext. intros l. apply chans_batch_of.
  - destruct cur as [|x cur], (closes msgs); cbn [map concat];
      rewrite ?chans_batch_of, ?app_nil_r; done.
Qed.

Lemma batch_account_configured now today script res f t f' t' :
  batch_account now today script res (f, t) = (f', t') → script ∈ ids f →
  dom (blacklist f) ⊆ (list_to_set (ids f) : gset bytes) →
  ids f' = ids f ∧ dom (blacklist f') ⊆ (list_to_set (ids f) : gset bytes).
Proof.
  intros E Hin Hd.
  assert (Hst : ids (record_timeout_strike now script f) = ids f ∧
    dom (blacklist (record_timeout_strike now script f)) ⊆ (list_to_set (ids f) : gset bytes)).
  { unfold record_timeout_strike. destruct (default _ _) as [since count].
    destruct (auto_blacklist_window f <? now - since); case_if; simpl; split; try done;
    rewrite dom_insert_L; apply union_subseteq; (split; [|done]);
    by apply singleton_subseteq_l, elem_of_list_to_set. }
  destruct res as [r|[|] msg|]; simpl in E; simplify_eq; done.
Qed.

Lemma small_msgs_app m1 m2 : small_msgs (m1 ++ m2) ↔ small_msgs m1 ∧ small_msgs m2.
Proof. unfold small_msgs, data_sends. rewrite omap_app. apply Forall_app. Qed.

Lemma data_sends_app m1 m2 : data_sends (m1 ++ m2) = data_sends m1 ++ data_sends m2.
Proof. apply omap_app. Qed.

Section run.
Context {T : Type} `{!QuotaView T}.

Lemma net_inv_init f t :
  dom (blacklist f) ⊆ (list_to_set (ids f) : gset bytes) → inv (ids f) [] (init f t).
Proof.
  intros Hd. split; simpl; try done.
  intros id Hid. exists CONCURRENCY_PER_DEPLOYMENT. split; [by apply init_sems_lookup|].
  by change (in_flight id []) with 0%nat.
Qed.

Lemma inv_acquire scripts acc script b n s :
  inv scripts acc s → waiting s = Some (script, b) → permits s !! script = Some (S n) →
  inv scripts acc (mk (fronter s) (counters s) (<[script := n]> (permits s)) (todo s) None
                (running s ++ [(script, b)]) (replies s)).
Proof.
  intros [Hi Hb Hw Hr Hp Hc] Ew Ep. split; simpl; try done.
  - apply Forall_app. split; [done|]. apply Forall_singleton. simpl. by eapply Hw.
  - intros id Hid. destruct (Hp id Hid) as (m & Em & Hm).
    rewrite in_flight_app, in_flight_one. destruct (decide (script = id)) as [->|].
    + rewrite lookup_insert_eq. exists n. split; [done|]. simplify_eq. lia.
    + rewrite lookup_insert_ne by done. exists m. split; [done|]. lia.
  - rewrite <-Hc. unfold open_chans. cbn [running waiting todo]. rewrite Ew, map_app, concat_app.
    simpl. by rewrite app_nil_r, <-app_assoc.
Qed.

Lemma inv_finish scripts acc now today script b res rs1 rs2 f t s :
  inv scripts acc s → running s = rs1 ++ (script, b) :: rs2 →
  batch_account now today script res (fronter s, counters s) = (f, t) →
  inv scripts acc (mk f t (alter S script (permits s)) (todo s) (waiting s) (rs1 ++ rs2)
                (replies s ++ batch_replies script b res)).
Proof.
  intros [Hi Hb Hw Hr Hp Hc] Er Ea. rewrite Er in Hr.
  apply Forall_app in Hr as [Hr1 [Hs Hr2]%Forall_cons]. simpl in Hs.
  destruct (batch_account_configured _ _ _ _ _ _ _ _ Ea) as [Hf1 Hf2]; [by rewrite Hi..|].
  split; simpl; [by rewrite Hf1|by rewrite <-Hi|done|by apply Forall_app| |].
  - intros id Hid. destruct (Hp id Hid) as (m & Em & Hm). rewrite Er in Hm.
    change ((script, b) :: rs2) with ([(script, b)] ++ rs2) in Hm.
    rewrite !in_flight_app, in_flight_one in Hm. rewrite in_flight_app.
    destruct (decide (script = id)) as [->|].
    + rewrite lookup_alter_eq, Em. exists (S m). split; [done|lia].
    + rewrite lookup_alter_ne by done. exists m. split; [done|lia].
  - rewrite <-Hc. unfold open_chans. cbn [running waiting todo].
    rewrite Er, !map_app, !concat_app, chans_batch_replies. simpl. unfold compose at 4. simpl.
    solve_Permutation.
Qed.

Lemma net_inv_step scripts acc msgs s s' :
  scripts ≠ [] → small_msgs msgs → inv scripts acc s → step msgs s s' →
  inv scripts (acc ++ map snd (data_sends msgs)) s'.
Proof.
  intros Hne Hs Hinv Hst. pose proof Hinv as [Hi Hb Hw Hr Hp Hc].
  destruct Hst as [msgs s Ht Ewt|q now b bs script f s Ht Ewt En|script b n s Ewt Ep|
    script b s Ewt Ep|now today script b res rs1 rs2 f t s Er Ea|f' t' s [Hf1 Hf2]];
    try (rewrite app_nil_r).
  - split; simpl; try done. rewrite <-Hc. unfold open_chans. cbn [running waiting todo].
    rewrite Ht, Ewt, chans_dispatch by done. simpl. by rewrite !app_nil_r, app_assoc.
  - destruct (next_script_id_configured q now (fronter s) script f) as (H1 & H2 & H3);
      [by rewrite Hi|by rewrite Hi|done|].
    rewrite Hi in *. split; simpl; try done; [by intros ? ? [= <- _]|].
    rewrite <-Hc. unfold open_chans. cbn [running waiting todo]. by rewrite Ht, Ewt.
  - by eapply inv_acquire.
  - destruct (Hp script (Hw _ _ Ewt)) as (m & Em & _). by rewrite Em in Ep.
  - by eapply inv_finish.
  - split; simpl; try done; by rewrite <-Hi.
Qed.

Lemma net_inv_trace scripts acc s msgs s' :
  scripts ≠ [] → trace s msgs s' → small_msgs msgs → inv scripts acc s →
  inv scripts (acc ++ map snd (data_sends msgs)) s'.
Proof.
  intros Hne Htr. induction Htr as [s|s msgs s1 msgs' s2 Htr IH Hst]; intros Hs Hinv.
  { by rewrite app_nil_r. }
  apply small_msgs_app in Hs as [Hs1 Hs2].
  rewrite data_sends_app, map_app, app_assoc. eapply net_inv_step; [done..|by apply IH|done].
Qed.
End run.
End NetFacts.

Module NetTheorems.
Import Net NetFacts.

Section run.
Context {T : Type} `{!QuotaView T}.

(** C26: thirty requests per deployment, and no reply lost or repeated.  In
    every interleaving of the mux task, the batch tasks and the rest of the
    program, at most [CONCURRENCY_PER_DEPLOYMENT] batches run on a
    deployment, and the reply channels of the messages taken in are exactly
    the ones already answered plus the ones still waiting, none twice. *)
Theorem mux_concurrency_bounded f t msgs s :
  ids f ≠ [] → dom (blacklist f) ⊆ (list_to_set (ids f) : gset bytes) →
  small_msgs msgs → trace (init f t) msgs s →
  (∀ id, (in_flight id (running s) ≤ CONCURRENCY_PER_DEPLOYMENT)%nat) ∧
  map fst (replies s) ++ open_chans s ≡ₚ map snd (data_sends msgs).
Proof.
  intros Hne Hd Hs Htr.
  destruct (net_inv_trace _ [] _ _ _ Hne Htr Hs (net_inv_init f t Hd)) as [_ _ _ Hr Hp Hc].
  split; [|done]. intros id. destruct (decide (id ∈ ids f)) as [Hid|Hid].
  { destruct (Hp id Hid) as (n & _ & Hn). lia. }
  rewrite in_flight_none; [lia|]. eapply Forall_impl; [exact Hr|].
  intros [i b] Hi. simpl in *. by intros ->.
Qed.

(** Work left, in steps. *)
Definition work (s : state) : nat :=
  3 * length (todo s) + match waiting s with Some _ => 2 | None => 0 end + length (running s).

Lemma trace_cons m s s1 ms s2 : step m s s1 → trace s1 ms s2 → trace s (m ++ ms) s2.
Proof.
  intros Hst Htr. induction Htr as [s1|s1 ms s2 ms' s3 Htr IH Hst'].
  - rewrite app_nil_r. apply (trace_step s [] s m s1); [constructor|done].
  - rewrite app_assoc. by eapply trace_step; [apply IH|].
Qed.

(** Some task can always make progress. *)
Lemma work_progress (q : T) scripts acc s :
  scripts ≠ [] → inv scripts acc s → work s ≠ 0%nat → ∃ s', step [] s s' ∧ (work s' < work s)%nat.
Proof.
  intros Hne [Hi Hb Hw Hr Hp Hc] Hwork. unfold work in *.
  destruct (running s) as [|[script b] rs] eqn:Er.
  - destruct (waiting s) as [[script b]|] eqn:Ew.
    + destruct (Hp script (Hw _ _ eq_refl)) as (n & Hn & Hn30).
      change (in_flight script []) with 0%nat in Hn30. destruct n as [|n]; [done|].
      eexists. split; [by eapply step_acquire|]. simpl. rewrite Er. simpl. lia.
    + destruct (todo s) as [|b bs] eqn:Et; [done|].
      destruct (next_script_id q 0 (fronter s)) as [script f] eqn:En.
      eexists. split; [by eapply step_pick|]. simpl. rewrite Er. simpl. lia.
  - destruct (batch_account 0 [] script BatchElapsed (fronter s, counters s)) as [f t] eqn:Ea.
    eexists. split; [by apply (step_finish 0 [] script b BatchElapsed [] rs f t)|]. simpl.
    destruct (waiting s); lia.
Qed.

Lemma work_finishes (q : T) n scripts acc s :
  scripts ≠ [] → inv scripts acc s → (work s ≤ n)%nat →
  ∃ s', trace s [] s' ∧ inv scripts acc s' ∧ work s' = 0%nat.
Proof.
  intros Hne. revert s. induction n as [|n IH]; intros s Hinv Hn.
  { exists s. split_and!; [constructor|done|lia]. }
  destruct (decide (work s = 0)%nat) as [|Hw]; [exists s; split_and!; [constructor|done|done]|].
  destruct (work_progress q scripts acc s Hne Hinv Hw) as (s1 & Hst & Hlt).
  pose proof (net_inv_step scripts acc [] s s1 Hne ltac:(constructor) Hinv Hst) as Hinv1.
  rewrite app_nil_r in Hinv1.
  destruct (IH s1 Hinv1 ltac:(lia)) as (s2 & Htr & Hinv2 & H0).
  exists s2. split_and!; [by apply (trace_cons [] s s1 [])|done|done].
Qed.

(** C27: the multiplexer cannot deadlock.  From every reachable state, with
    no further messages, the permits and batch tasks can run to a state in
    which nothing waits and every reply channel taken in has been answered
    exactly once. *)
Theorem mux_can_answer_all (q : T) f t msgs s :
  ids f ≠ [] → dom (blacklist f) ⊆ (list_to_set (ids f) : gset bytes) →
  small_msgs msgs → trace (init f t) msgs s →
  ∃ s', trace s [] s' ∧ running s' = [] ∧ waiting s' = None ∧ todo s' = [] ∧
    map fst (replies s') ≡ₚ map snd (data_sends msgs).
Proof.
  intros Hne Hd Hs Htr.
  pose proof (net_inv_trace _ [] _ _ _ Hne Htr Hs (net_inv_init f t Hd)) as Hinv.
  destruct (work_finishes q (work s) _ _ s Hne Hinv (le_n _)) as (s' & Htr' & Hinv' & H0).
  exists s'. destruct Hinv' as [_ _ _ _ _ Hc]. unfold work, open_chans in *.
  destruct (running s'), (waiting s') as [[]|], (todo s'); simpl in *; try lia.
  rewrite app_nil_r in Hc. by split_and!.
Qed.
End run.
End NetTheorems.

(** ** From the client to the tunnel node and back *)

Section round_trip.
Context `{!Base64}.

Lemma batch_of_reply l cl i c :
  (i, c) ∈ b_replies (batch_of l cl) →
  ∃ op, b_ops (batch_of l cl) !! i = Some op ∧ (op, c) ∈ l.
Proof.
  intros Hin. apply list_elem_of_lookup in Hin as [k Hk]. unfold batch_of in *. simpl in *.
  apply lookup_zip_Some in Hk as [[-> Hlt]%lookup_seq Hc]. rewrite list_lookup_fmap in Hc.
  destruct (l !! k) as [[op c']|] eqn:El; simplify_eq/=. exists op. split.
  - rewrite lookup_app_l by (by rewrite length_map). by rewrite list_lookup_fmap, El.
  - by eapply list_elem_of_lookup_2.
Qed.

Lemma dispatched_reply msgs b i c :
  small_msgs msgs → b ∈ (mux_dispatch msgs).1 → (i, c) ∈ b_replies b →
  ∃ op, b_ops b !! i = Some op ∧ (op, c) ∈ data_sends msgs.
Proof.
  intros Hs Hb Hi. destruct (mux_dispatch_shape msgs Hs) as (groups & cur & <- & _ & _ & E).
  rewrite E in Hb. simpl in Hb.
  assert (Hbo : ∃ l cl, b = batch_of l cl ∧ ∀ x, x ∈ l → x ∈ concat groups ++ cur).
  { apply elem_of_app in Hb as [Hb|Hb].
    - apply list_elem_of_In, in_map_iff in Hb as (l & <- & Hl). exists l, []. split; [done|].
      intros x Hx. apply elem_of_app. left. apply list_elem_of_In, in_concat.
      exists l. split; [done|by apply list_elem_of_In].
    - exists cur, (closes msgs). split; [|intros x Hx; apply elem_of_app; by right].
      destruct cur as [|y cur], (closes msgs) as [|z cl]; [by apply elem_of_nil in Hb|..];
        by apply list_elem_of_singleton in Hb. }
  destruct Hbo as (l & cl & -> & Hl). destruct (batch_of_reply l cl i c Hi) as (op & Ho & Hin).
  exists op. split; [done|by apply Hl].
Qed.

(** C28: each session receives its own response.  When the node processes a
    batch the multiplexer fired (no connect task panics and the drains do not
    use up the response budget), every reply channel of the batch receives
    the response to the very op its session sent: an error, or one that names
    that session (the new one for an open). *)
Theorem mux_replies_match_ops msgs b env st rs st' script :
  small_msgs msgs → b ∈ (mux_dispatch msgs).1 →
  (∀ i, be_panics env i = false) →
  total_drained (batch_drained env (map encode_pending (b_ops b)) st) < BATCH_RESPONSE_BUDGET →
  process_batch env (map encode_pending (b_ops b)) st = (rs, st') →
  ∀ i c, (i, c) ∈ b_replies b →
    ∃ op r, b_ops b !! i = Some op ∧ (op, c) ∈ data_sends msgs ∧
      (c, Ok (r, script)) ∈ batch_replies script b (BatchOk rs) ∧
      answers env i (encode_pending op) r.
Proof.
  intros Hs Hb Hp Hlt E i c Hi.
  destruct (dispatched_reply msgs b i c Hs Hb Hi) as (op & Ho & Hin).
  destruct (process_batch_aligned env _ st rs st' Hp Hlt E) as [Hl Ha].
  assert (Hr : ∃ r, rs !! i = Some r).
  { apply lookup_lt_is_Some_2. rewrite Hl, length_map. by eapply lookup_lt_Some. }
  destruct Hr as [r Hr]. exists op, r. split_and!; [done|done| |].
  - simpl. apply list_elem_of_In, in_map_iff. exists (i, c). split.
    + unfold reply_at. simpl. by rewrite Hr.
    + by apply list_elem_of_In.
  - eapply Ha; [|exact Hr]. by rewrite list_lookup_fmap, Ho.
Qed.
End round_trip.

(** ** Witnesses *)

(** A window with a poll, an upload and a close. *)
Definition window_msgs : list MuxMsg :=
  [MData (bs "a") [] (Some 0) None 7%nat; MClose (bs "b");
   MData (bs "c") (bs "hi") (Some 1) (Some 0) 8%nat].

Lemma window_msgs_small : small_msgs window_msgs.
Proof. repeat constructor; by vm_compute. Qed.

Lemma mux_dispatch_delivers_witness :
  concat (map answered_ops (mux_dispatch window_msgs).1) = data_sends window_msgs.
Proof.
  pose proof (mux_dispatch_delivers window_msgs window_msgs_small) as H.
  destruct (mux_dispatch window_msgs) as [batches conns]. exact (proj1 (proj2 H)).
Defined.

Lemma mux_batch_limits_witness :
  Forall (λ b, len (b_replies b) ≤ MAX_BATCH_OPS) (mux_dispatch window_msgs).1.
Proof.
  eapply Forall_impl; [exact (mux_batch_limits window_msgs window_msgs_small)|].
  intros b [Hb _]. exact Hb.
Defined.

Definition one_script : Fronter := mk_fronter [bs "s1"] 0 ∅ ∅ 3 30000 120000.

(** The window dispatched and its batch running. *)
Lemma window_trace :
  ∃ s, Net.trace (T := QuotaTracker) (Net.init one_script (mk_today [] 0 0)) window_msgs s ∧
    Net.running s = [(bs "s1", mk_fire
      [mk_pending (bs "data") (Some (bs "a")) None None None false (Some 0) None;
       mk_pending (bs "data") (Some (bs "c")) None None (Some (bs "hi")) false (Some 1) (Some 0);
       close_pending (bs "b")] [(0, 7); (1, 8)]%nat)].
Proof.
  eexists. split.
  - change window_msgs with ((([] ++ window_msgs) ++ []) ++ [] : list MuxMsg).
    eapply Net.trace_step; [eapply Net.trace_step; [eapply Net.trace_step; [constructor|]|]|].
    + by eapply Net.step_window.
    + eapply (Net.step_pick fresh_tracker 0); [reflexivity|done|by vm_compute].
    + eapply Net.step_acquire; [reflexivity|by vm_compute].
  - reflexivity.
Qed.

Lemma mux_concurrency_bounded_witness :
  ∃ s, NetFacts.in_flight (bs "s1") (Net.running s) = 1%nat ∧
    map fst (Net.replies s) ++ NetFacts.open_chans s ≡ₚ [7; 8]%nat.
Proof.
  destruct window_trace as (s & Htr & Hr). exists s. split; [by rewrite Hr|].
  exact (proj2 (NetTheorems.mux_concurrency_bounded one_script (mk_today [] 0 0) window_msgs s
    ltac:(done) ltac:(by vm_compute) window_msgs_small Htr)).
Defined.

Lemma mux_can_answer_all_witness :
  ∃ s, Net.running s = [] ∧ map fst (Net.replies s) ≡ₚ [7; 8]%nat.
Proof.
  destruct window_trace as (s & Htr & _).
  destruct (NetTheorems.mux_can_answer_all fresh_tracker one_script (mk_today [] 0 0) window_msgs s
    ltac:(done) ltac:(by vm_compute) window_msgs_small Htr) as (s' & _ & Hr & _ & _ & Hp).
  exists s'. split; [exact Hr|exact Hp].
Defined.

(** The window's batch, processed by a node with three sessions. *)
Lemma mux_replies_match_ops_witness :
  ∃ b rs op r, (mux_dispatch window_msgs).1 = [b] ∧
    (process_batch quiet_env (map encode_pending (b_ops b)) (three_sessions (bs "hello") [])).1 = rs ∧
    (7%nat, Ok (r, bs "s1")) ∈ batch_replies (bs "s1") b (BatchOk rs) ∧
    answers quiet_env 0 (encode_pending op) r.
Proof.
  set (b := nth 0 (mux_dispatch window_msgs).1 (mk_fire [] [])).
  destruct (process_batch quiet_env (map encode_pending (b_ops b)) (three_sessions (bs "hello") []))
    as [rs st'] eqn:E.
  destruct (mux_replies_match_ops window_msgs b quiet_env (three_sessions (bs "hello") []) rs st'
    (bs "s1") window_msgs_small ltac:(by apply list_elem_of_singleton) (λ _, eq_refl)
    ltac:(by vm_compute) E 0%nat 7%nat) as (op & r & _ & _ & Hr & Ha).
  { by apply elem_of_cons; left. }
  exists b, rs, op, r. rewrite E. by split_and!.
Defined.
