(* ===== verification/MuxState.v ===== *)
(** * Adaptive state of the tunnel multiplexer (src/tunnel_client.rs)

    What [TunnelMux] remembers between batches: the coalescing preset chosen
    from round-trip times ([RttTracker]), the deployments observed without
    long-polling, and the short-lived negative cache of unreachable targets.
    Instants and durations are in milliseconds; [HashMap] iteration is in the
    map's canonical order, which decides only ties of equal expiry. *)

From Stdlib Require Import Strings.Byte.
From S2P Require Import Prelude RustBytes NodeHandlers.

(** ** Coalescing presets *)

Definition COALESCE_FAST_STEP_MS : Z := 50.
Definition COALESCE_FAST_MAX_MS : Z := 300.
Definition COALESCE_SLOW_STEP_MS : Z := 150.
Definition COALESCE_SLOW_MAX_MS : Z := 600.
Definition RTT_SLOW_THRESHOLD_MS : Z := 1200.
Definition RTT_FAST_THRESHOLD_MS : Z := 700.
Definition HYSTERESIS_FAST_COUNT : Z := 3.
Definition RTT_WINDOW : Z := 8.

Record RttTracker := mk_rtt {
  samples : list Z;
  rtt_head : Z;
  filled : Z;
  slow : bool;
  consecutive_fast : Z;
  coalesce_step_ms : Z;
  coalesce_max_ms : Z
}.

Definition new_tracker (start_slow : bool) (step max : Z) : RttTracker :=
  mk_rtt (replicate (Z.to_nat RTT_WINDOW) 0) 0 0 start_slow 0 step max.

Definition apply_preset (s : bool) (t : RttTracker) : RttTracker :=
  let '(step, max) :=
    if s then (COALESCE_SLOW_STEP_MS, COALESCE_SLOW_MAX_MS)
    else (COALESCE_FAST_STEP_MS, COALESCE_FAST_MAX_MS) in
  mk_rtt (samples t) (rtt_head t) (filled t) s 0 step max.

Definition set_fast (n : Z) (t : RttTracker) : RttTracker :=
  mk_rtt (samples t) (rtt_head t) (filled t) (slow t) n (coalesce_step_ms t) (coalesce_max_ms t).

(** [sorted[RTT_WINDOW / 2]] of the sorted ring buffer. *)
Definition median (buf : list Z) : Z :=
  nth (Z.to_nat (RTT_WINDOW / 2)) (sort_by_key (λ x, x) buf) 0.

(** The sample stored in its slot. *)
Definition store_sample (rtt_ms : Z) (t : RttTracker) : RttTracker :=
  let slot := rtt_head t mod RTT_WINDOW in
  mk_rtt (<[Z.to_nat slot := rtt_ms]> (samples t)) (wadd64 (rtt_head t) 1) (filled t) (slow t)
    (consecutive_fast t) (coalesce_step_ms t) (coalesce_max_ms t).

Definition record (rtt_ms : Z) (t : RttTracker) : RttTracker :=
  let t := store_sample rtt_ms t in
  if filled t <? RTT_WINDOW then
    mk_rtt (samples t) (rtt_head t) (filled t + 1) (slow t) (consecutive_fast t)
      (coalesce_step_ms t) (coalesce_max_ms t)
  else
    let m := median (samples t) in
    if slow t then
      if m <? RTT_FAST_THRESHOLD_MS then
        let n := (consecutive_fast t + 1) mod u32_mod in
        let t := set_fast n t in
        if HYSTERESIS_FAST_COUNT <=? n then apply_preset false t else t
      else set_fast 0 t
    else if RTT_SLOW_THRESHOLD_MS <? m then apply_preset true (set_fast 0 t)
    else t.

(** [network_preset] and the configured overrides in [TunnelMux::start]: the
    initial step and maximum, and whether adaptation runs. *)
Definition initial_coalesce (step max : Z) (preset : option bytes) : Z * Z * option RttTracker :=
  let '(init_step, init_max, locked) :=
    if bool_decide (preset = Some (bs "slow")) then
      (COALESCE_SLOW_STEP_MS, COALESCE_SLOW_MAX_MS, true)
    else if bool_decide (preset = Some (bs "fast")) then
      (COALESCE_FAST_STEP_MS, COALESCE_FAST_MAX_MS, true)
    else
      (if 0 <? step then step else COALESCE_FAST_STEP_MS,
       if 0 <? max then max else COALESCE_FAST_MAX_MS, false) in
  let locked := locked || ((0 <? step) || (0 <? max)) in
  (init_step, init_max, if locked then None else Some (new_tracker false init_step init_max)).

(** ** Deployments without long-polling *)

Definition LEGACY_RECOVER_AFTER : Z := 60000.

Record Legacy := mk_legacy {
  legacy_deployments : gmap bytes Z;
  all_legacy : bool;
  num_scripts : Z
}.

(** [deps.retain(|_, marked_at| now - marked_at < LEGACY_RECOVER_AFTER)]. *)
Definition unexpired (now : Z) (m : gmap bytes Z) : gmap bytes Z :=
  filter (λ kv, now - kv.2 < LEGACY_RECOVER_AFTER) m.

Definition map_len {K A} `{Countable K} (m : gmap K A) : Z := Z.of_nat (size m).

Definition all_servers_legacy (now : Z) (l : Legacy) : bool * Legacy :=
  if negb (all_legacy l) then (false, l)
  else
    let deps := unexpired now (legacy_deployments l) in
    let still_all := map_len deps =? num_scripts l in
    (still_all, mk_legacy deps (if still_all then all_legacy l else false) (num_scripts l)).

Definition mark_server_no_longpoll (now : Z) (script : bytes) (l : Legacy) : Legacy :=
  let deps := <[script := now]> (unexpired now (legacy_deployments l)) in
  mk_legacy deps (map_len deps =? num_scripts l) (num_scripts l).

(** ** Unreachable targets *)

Definition UNREACHABLE_CACHE_TTL : Z := 30000.
Definition UNREACHABLE_CACHE_MAX : Z := 256.

Abbreviation UnreachableCache := (gmap (bytes * Z) Z).

Definition is_unreachable_error_str (s : bytes) : bool :=
  let lc := to_ascii_lowercase s in
  contains lc (bs "network is unreachable") || contains lc (bs "no route to host")
  || contains lc (bs "os error 101") || contains lc (bs "os error 113").

Definition normalize_cache_host (host : bytes) : bytes :=
  let trimmed := default host (strip_suffix (bs ".") host) in
  to_ascii_lowercase trimmed.

Definition unreachable_key (host : bytes) (port : Z) : bytes * Z := (normalize_cache_host host, port).

Definition is_unreachable (now : Z) (host : bytes) (port : Z) (c : UnreachableCache) : bool * UnreachableCache :=
  let key := unreachable_key host port in
  match c !! key with
  | Some expiry => if now <? expiry then (true, c) else (false, delete key c)
  | None => (false, c)
  end.

(** [cache.retain(|_, expiry| *expiry > now)]. *)
Definition unexpired_targets (now : Z) (c : UnreachableCache) : UnreachableCache :=
  filter (λ kv, now < kv.2) c.

(** [cache.iter().min_by_key(|(_, expiry)| **expiry)]. *)
Fixpoint min_expiry (l : list ((bytes * Z) * Z)) : option ((bytes * Z) * Z) :=
  match l with
  | [] => None
  | (k, t) :: l' =>
      match min_expiry l' with
      | Some (k', t') => if t <=? t' then Some (k, t) else Some (k', t')
      | None => Some (k, t)
      end
  end.

(** The eviction loop; each turn removes an entry, so the size is enough
    fuel. *)
Fixpoint evict_soonest (fuel : nat) (c : UnreachableCache) : UnreachableCache :=
  match fuel with
  | O => c
  | S fuel' =>
      if UNREACHABLE_CACHE_MAX <=? map_len c then
        match min_expiry (map_to_list c) with
        | Some (k, _) => evict_soonest fuel' (delete k c)
        | None => c
        end
      else c
  end.

Definition record_unreachable_if_match (now : Z) (host : bytes) (port : Z) (err : bytes)
    (c : UnreachableCache) : UnreachableCache :=
  if negb (is_unreachable_error_str err) then c
  else
    let c :=
      if UNREACHABLE_CACHE_MAX <=? map_len c then
        let c := unexpired_targets now c in evict_soonest (size c) c
      else c in
    <[unreachable_key host port := now + UNREACHABLE_CACHE_TTL]> c.

(** ** The negative cache *)

Inductive CacheOp :=
  | Failed (now : Z) (host : bytes) (port : Z) (err : bytes)
  | Asked (now : Z) (host : bytes) (port : Z).

Definition cache_step (c : UnreachableCache) (o : CacheOp) : UnreachableCache :=
  match o with
  | Failed now host port err => record_unreachable_if_match now host port err c
  | Asked now host port => (is_unreachable now host port c).2
  end.

Definition cache_run (ops : list CacheOp) : UnreachableCache := foldl cache_step ∅ ops.

Lemma min_expiry_elem l : l ≠ [] → ∃ k t, min_expiry l = Some (k, t) ∧ (k, t) ∈ l.
Proof.
  induction l as [|[k t] l IH]; intros Hne; [done|]. simpl.
  destruct l as [|y l]; [exists k, t; split; [done|by constructor]|].
  destruct IH as (k' & t' & -> & Hin); [done|]. case_if.
  - exists k, t. split; [done|by constructor].
  - exists k', t'. split; [done|by constructor].
Qed.

Lemma evict_soonest_spec fuel c :
  (size c ≤ fuel)%nat →
  evict_soonest fuel c ⊆ c ∧ map_len (evict_soonest fuel c) < UNREACHABLE_CACHE_MAX.
Proof.
  revert c. induction fuel as [|fuel IH]; intros c Hs; simpl.
  { split; [done|]. unfold map_len, UNREACHABLE_CACHE_MAX. lia. }
  case_if; [|done].
  destruct (min_expiry_elem (map_to_list c)) as (k & t & -> & Hin%elem_of_map_to_list).
  { intros Hn%map_to_list_empty_iff. subst c. by vm_compute in E. }
  assert (Hd : size (delete k c) = pred (size c)).
  { apply map_size_delete_Some. by eexists. }
  destruct (IH (delete k c)) as [H1 H2]; [lia|]. split; [|done].
  etrans; [exact H1|apply delete_subseteq].
Qed.

(** What a history leaves in the cache: entries of recorded failures, at most
    [UNREACHABLE_CACHE_MAX] of them. *)
Definition entry_recorded (ops : list CacheOp) (key : bytes * Z) (expiry : Z) : Prop :=
  ∃ t host err, Failed t host key.2 err ∈ ops ∧ is_unreachable_error_str err = true ∧
    normalize_cache_host host = key.1 ∧ expiry = t + UNREACHABLE_CACHE_TTL.

Lemma entry_recorded_snoc ops o key e : entry_recorded ops key e → entry_recorded (ops ++ [o]) key e.
Proof.
  intros (t & host & err & Hin & H). exists t, host, err. split; [apply elem_of_app; by left|done].
Qed.

Lemma insert_size_bound (c : UnreachableCache) k v :
  map_len c < UNREACHABLE_CACHE_MAX → map_len (<[k := v]> c) ≤ UNREACHABLE_CACHE_MAX.
Proof.
  unfold map_len. rewrite map_size_insert. destruct (c !! k); simpl; lia.
Qed.

Lemma make_room (now : Z) (c : UnreachableCache) :
  let c' := if UNREACHABLE_CACHE_MAX <=? map_len c
    then evict_soonest (size (unexpired_targets now c)) (unexpired_targets now c) else c in
  c' ⊆ c ∧ map_len c' < UNREACHABLE_CACHE_MAX.
Proof.
  simpl. case_if; [|done].
  destruct (evict_soonest_spec (size (unexpired_targets now c)) (unexpired_targets now c))
    as [H1 H2]; [done|]. split; [|done]. etrans; [exact H1|apply map_filter_subseteq].
Qed.

Lemma cache_run_ok ops :
  map_len (cache_run ops) ≤ UNREACHABLE_CACHE_MAX ∧
  ∀ key e, cache_run ops !! key = Some e → entry_recorded ops key e.
Proof.
  induction ops as [|o ops [IHs IHe]] using rev_ind; [split; [by vm_compute|done]|].
  unfold cache_run in *. rewrite foldl_snoc. set (c := foldl _ _ _) in *.
  assert (Hsub : ∀ c', c' ⊆ c → ∀ key e, c' !! key = Some e → entry_recorded (ops ++ [o]) key e).
  { intros c' Hc key e He. apply entry_recorded_snoc, IHe. by eapply lookup_weaken. }
  destruct o as [now host port err|now host port]; simpl.
  - unfold record_unreachable_if_match. destruct (is_unreachable_error_str err) eqn:Ee; simpl.
    2:{ split; [done|by apply Hsub]. }
    destruct (make_room now c) as [Hr1 Hr2]. split; [by apply insert_size_bound|].
    intros key e [[<- <-]|[_ He]]%lookup_insert_Some; [|by eapply Hsub].
    exists now, host, err. split_and!; try done. apply elem_of_app. right. by constructor.
  - unfold is_unreachable. destruct (c !! _) as [e|] eqn:El; [case_if|]; simpl;
      (split; [|by apply Hsub; try apply delete_subseteq]); try done.
    unfold map_len in *. rewrite map_size_delete, El. simpl. lia.
Qed.

(** The negative cache is bounded, sound and effective.  After any history
    it holds at most [UNREACHABLE_CACHE_MAX] targets; it declares a target
    unreachable only if the node reported a no-route error for that host (up
    to case and a trailing dot) and port within the last thirty seconds; and
    right after such a report it does, until the thirty seconds are over. *)
Theorem unreachable_cache_sound ops now host port :
  map_len (cache_run ops) ≤ UNREACHABLE_CACHE_MAX ∧
  ((is_unreachable now host port (cache_run ops)).1 = true →
   ∃ t host' err, Failed t host' port err ∈ ops ∧ is_unreachable_error_str err = true ∧
     normalize_cache_host host' = normalize_cache_host host ∧ now < t + UNREACHABLE_CACHE_TTL) ∧
  (∀ t err, is_unreachable_error_str err = true → now < t + UNREACHABLE_CACHE_TTL →
   (is_unreachable now host port
      (record_unreachable_if_match t host port err (cache_run ops))).1 = true).
Proof.
  destruct (cache_run_ok ops) as [Hs He]. split_and!; [done| |].
  - unfold is_unreachable. destruct (cache_run ops !! unreachable_key host port) as [e|] eqn:El; [|done].
    case_if; [|done]. intros _. destruct (He _ _ El) as (t & h & err & Hin & Hm & Hn & ->).
    by exists t, h, err.
  - intros t err Hm Ht. unfold record_unreachable_if_match. rewrite Hm. simpl.
    unfold is_unreachable. rewrite lookup_insert_eq. by replace (now <? _) with true by lia.
Qed.

(** ** Preset changes *)

Definition record_all (rtts : list Z) (t : RttTracker) : RttTracker :=
  foldl (λ t r, record r t) t rtts.

(** A record that reads the network as fast while in the slow preset. *)
Definition fast_reading (r : Z) (t : RttTracker) : Prop :=
  slow t = true ∧ median (samples (store_sample r t)) < RTT_FAST_THRESHOLD_MS.

Definition preset_values (t : RttTracker) : Prop :=
  (coalesce_step_ms t, coalesce_max_ms t) =
    if slow t then (COALESCE_SLOW_STEP_MS, COALESCE_SLOW_MAX_MS)
    else (COALESCE_FAST_STEP_MS, COALESCE_FAST_MAX_MS).

(** The streak of fast readings the counter stands for. *)
Fixpoint streak (n : nat) (rtts : list Z) (t : RttTracker) : Prop :=
  match n with
  | O => True
  | S n' =>
      ∃ pre r, rtts = pre ++ [r] ∧ fast_reading r (record_all pre t) ∧ streak n' pre t
  end.

Lemma record_all_snoc rtts r t : record_all (rtts ++ [r]) t = record r (record_all rtts t).
Proof. unfold record_all. by rewrite foldl_snoc. Qed.

Record tracker_ok (t : RttTracker) : Prop := {
  ok_count : 0 ≤ consecutive_fast t < HYSTERESIS_FAST_COUNT;
  ok_filling : filled t < RTT_WINDOW → consecutive_fast t = 0;
  ok_fast : slow t = false → consecutive_fast t = 0;
  ok_preset : preset_values t
}.

(** How one record moves the preset and the counter. *)
Definition record_move (r : Z) (t t' : RttTracker) : Prop :=
  match slow t, slow t' with
  | true, true => consecutive_fast t' = 0 ∨
      (consecutive_fast t' = consecutive_fast t + 1 ∧ fast_reading r t)
  | true, false => consecutive_fast t + 1 = HYSTERESIS_FAST_COUNT ∧ fast_reading r t
  | false, true => consecutive_fast t' = 0 ∧
      RTT_SLOW_THRESHOLD_MS < median (samples (store_sample r t))
  | false, false => True
  end.

Lemma record_ok r t : tracker_ok t → tracker_ok (record r t) ∧ record_move r t (record r t).
Proof.
  intros [Hc Hfi Hfa Hp]. unfold record, record_move, fast_reading.
  set (t1 := store_sample r t). assert (Hs : slow t1 = slow t) by done.
  assert (Hf : consecutive_fast t1 = consecutive_fast t) by done.
  assert (Hfl : filled t1 = filled t) by done.
  assert (Hp1 : preset_values t1) by exact Hp.
  unfold preset_values, HYSTERESIS_FAST_COUNT in *. case_if.
  { rewrite Hfl in *. rewrite Hs, Hf. specialize (Hfi ltac:(lia)).
    split; [split; simpl; rewrite ?Hs, ?Hf; try done|].
    simpl. by destruct (slow t); [left|]. }
  rewrite Hs, Hf. destruct (slow t) eqn:Es.
  - rewrite (Z.mod_small (consecutive_fast t + 1)) by (unfold u32_mod; lia). case_if.
    + case_if; (split; [split; simpl; unfold HYSTERESIS_FAST_COUNT in *; rewrite ?Es; try done; lia|]).
      * simpl. split; [lia|done].
      * simpl. rewrite Es. by right.
    + split; [split; simpl; unfold HYSTERESIS_FAST_COUNT in *; try done; lia|].
      simpl. rewrite Es. by left.
  - specialize (Hfa eq_refl).
    case_if; (split; [split; simpl; unfold HYSTERESIS_FAST_COUNT in *; try done; lia|]).
    + simpl. split; [done|assumption].
    + by rewrite Hs.
Qed.

Lemma record_all_ok rtts t :
  tracker_ok t → consecutive_fast t = 0 →
  tracker_ok (record_all rtts t) ∧
  streak (Z.to_nat (consecutive_fast (record_all rtts t))) rtts t.
Proof.
  intros Ht H0. induction rtts as [|r rtts [IH Hst]] using rev_ind.
  { simpl. by rewrite H0. }
  rewrite record_all_snoc. destruct (record_ok r _ IH) as [Hok Hmv]. split; [done|].
  destruct IH as [Hc _ _ _]. unfold record_move in Hmv.
  assert (Hz : consecutive_fast (record r (record_all rtts t)) = 0 →
    streak (Z.to_nat (consecutive_fast (record r (record_all rtts t)))) (rtts ++ [r]) t).
  { by intros ->. }
  destruct (slow (record r (record_all rtts t))) eqn:Es'.
  2:{ apply Hz. by apply (ok_fast _ Hok). }
  destruct (slow (record_all rtts t)) eqn:Es.
  - destruct Hmv as [|[-> Hf]]; [by apply Hz|].
    rewrite Z2Nat.inj_add by lia. rewrite Nat.add_comm. simpl. by exists rtts, r.
  - apply Hz. by destruct Hmv.
Qed.

Lemma new_tracker_ok :
  tracker_ok (new_tracker false COALESCE_FAST_STEP_MS COALESCE_FAST_MAX_MS).
Proof. split; try done; by vm_compute. Qed.

(** The coalescing preset has hysteresis.  With adaptation on, the step
    and maximum in force are always those of the current preset; the slow
    preset is entered only on a median above [RTT_SLOW_THRESHOLD_MS]; and it is
    left only after [HYSTERESIS_FAST_COUNT] consecutive records, all in the
    slow preset, with a median below [RTT_FAST_THRESHOLD_MS]. *)
Theorem rtt_hysteresis rtts r t0 :
  (initial_coalesce 0 0 None).2 = Some t0 →
  let t := record_all rtts t0 in
  let t' := record_all (rtts ++ [r]) t0 in
  preset_values t' ∧
  (slow t = false → slow t' = true →
   RTT_SLOW_THRESHOLD_MS < median (samples (store_sample r t))) ∧
  (slow t = true → slow t' = false →
   ∃ pre a b, rtts = pre ++ [a; b] ∧ fast_reading a (record_all pre t0) ∧
     fast_reading b (record_all (pre ++ [a]) t0) ∧ fast_reading r t).
Proof.
  intros [= <-]. set (t0 := new_tracker _ _ _).
  destruct (record_all_ok rtts t0 new_tracker_ok eq_refl) as [Hok Hst].
  rewrite record_all_snoc. destruct (record_ok r _ Hok) as [Hok' Hmv]. unfold record_move in Hmv.
  split; [apply (ok_preset _ Hok')|]. split.
  - intros H1 H2. rewrite H1, H2 in Hmv. by destruct Hmv.
  - intros H1 H2. rewrite H1, H2 in Hmv. destruct Hmv as [Hn Hr].
    assert (Hc : consecutive_fast (record_all rtts t0) = 2) by (unfold HYSTERESIS_FAST_COUNT in Hn; lia).
    rewrite Hc in Hst. simpl in Hst. destruct Hst as (pre1 & b & -> & Hb & pre & a & -> & Ha & _).
    exists pre, a, b. rewrite <-app_assoc in *. by split_and!.
Qed.

(** Nine slow samples enter the slow preset. *)
Lemma rtt_hysteresis_witness :
  let t0 := new_tracker false COALESCE_FAST_STEP_MS COALESCE_FAST_MAX_MS in
  let t := record_all (replicate 8 2000) t0 in
  slow t = false ∧ slow (record 2000 t) = true ∧
  RTT_SLOW_THRESHOLD_MS < median (samples (store_sample 2000 t)).
Proof.
  split; [by vm_compute|]. split; [by vm_compute|].
  pose proof (rtt_hysteresis (replicate 8 2000) 2000
    (new_tracker false COALESCE_FAST_STEP_MS COALESCE_FAST_MAX_MS) eq_refl) as H.
  apply (proj1 (proj2 H)); by vm_compute.
Defined.

(** ** The long-poll aggregate *)

Inductive LegacyOp := Marked (now : Z) (script : bytes) | AskedAll (now : Z).

Definition op_time (o : LegacyOp) : Z := match o with Marked t _ | AskedAll t => t end.

Definition legacy_step (l : Legacy) (o : LegacyOp) : Legacy :=
  match o with
  | Marked now script => mark_server_no_longpoll now script l
  | AskedAll now => (all_servers_legacy now l).2
  end.

(** The latest mark of every deployment, without expiry. *)
Definition last_marks (ops : list LegacyOp) : gmap bytes Z :=
  foldl (λ m o, match o with Marked t s => <[s := t]> m | AskedAll _ => m end) ∅ ops.

Definition legacy_run (ids : gset bytes) (ops : list LegacyOp) : Legacy :=
  foldl legacy_step (mk_legacy ∅ false (Z.of_nat (size ids))) ops.

Record legacy_ok (ids : gset bytes) (m : gmap bytes Z) (now : Z) (l : Legacy) : Prop := {
  lo_num : num_scripts l = Z.of_nat (size ids);
  lo_sub : legacy_deployments l ⊆ m;
  lo_ids : dom (legacy_deployments l) ⊆ ids;
  lo_kept : ∀ s t, m !! s = Some t → now - t < LEGACY_RECOVER_AFTER → legacy_deployments l !! s = Some t;
  lo_flag : all_legacy l = (map_len (legacy_deployments l) =? num_scripts l)
}.

Lemma unexpired_sub now m : unexpired now m ⊆ m.
Proof. apply map_filter_subseteq. Qed.

Lemma unexpired_lookup now m s t :
  unexpired now m !! s = Some t ↔ m !! s = Some t ∧ now - t < LEGACY_RECOVER_AFTER.
Proof. unfold unexpired. by rewrite map_lookup_filter_Some. Qed.

Lemma full_iff (ids : gset bytes) (m : gmap bytes Z) :
  dom m ⊆ ids →
  (map_len m =? Z.of_nat (size ids)) = true ↔ ∀ id, id ∈ ids → is_Some (m !! id).
Proof.
  intros Hd. unfold map_len. rewrite Z.eqb_eq, <-(size_dom (D := gset bytes)). split.
  - intros Hs id Hid. apply (elem_of_dom (D := gset bytes)).
    assert (E : dom m = ids) by (apply set_subseteq_size_eq; [done|lia]). by rewrite E.
  - intros Hall. f_equal. apply set_size_proper. apply set_equiv_subseteq. split; [done|].
    intros id Hid. by apply elem_of_dom, Hall.
Qed.

(** The code's answer at [now] from a sound state. *)
Lemma all_servers_legacy_iff ids m now0 now l :
  ids ≠ ∅ → legacy_ok ids m now0 l → now0 ≤ now →
  (all_servers_legacy now l).1 = true ↔
    ∀ id, id ∈ ids → ∃ t, m !! id = Some t ∧ now - t < LEGACY_RECOVER_AFTER.
Proof.
  intros Hne [Hn Hs Hi Hk Hf] Hle.
  assert (Hud : dom (unexpired now (legacy_deployments l)) ⊆ ids).
  { etrans; [apply subseteq_dom, unexpired_sub|done]. }
  assert (Hiff : (map_len (unexpired now (legacy_deployments l)) =? num_scripts l) = true ↔
    ∀ id, id ∈ ids → ∃ t, m !! id = Some t ∧ now - t < LEGACY_RECOVER_AFTER).
  { rewrite Hn, full_iff by done. split; intros H id Hid.
    - destruct (H id Hid) as [t [Ht Hx]%unexpired_lookup]. exists t. split; [|done].
      by eapply lookup_weaken.
    - destruct (H id Hid) as (t & Ht & Hx). exists t. apply unexpired_lookup. split; [|done].
      apply Hk; [done|lia]. }
  unfold all_servers_legacy. destruct (all_legacy l) eqn:Ea; simpl; [exact Hiff|].
  split; [done|]. intros H%Hiff. exfalso. rewrite Hn, full_iff in H by done.
  assert (Ht : (map_len (legacy_deployments l) =? num_scripts l) = true).
  { rewrite Hn. apply full_iff; [done|]. intros id Hid. destruct (H id Hid) as [t [Ht _]%unexpired_lookup].
    by exists t. }
  congruence.
Qed.

Lemma legacy_ok_step ids m now0 l o :
  legacy_ok ids m now0 l → now0 ≤ op_time o →
  match o with Marked _ s => s ∈ ids | AskedAll _ => True end →
  legacy_ok ids (match o with Marked t s => <[s := t]> m | AskedAll _ => m end) (op_time o)
    (legacy_step l o).
Proof.
  intros [Hn Hs Hi Hk Hf] Hle Ho.
  assert (Hud : ∀ now, dom (unexpired now (legacy_deployments l)) ⊆ ids).
  { intros now. etrans; [apply subseteq_dom, unexpired_sub|done]. }
  destruct o as [now s|now]; simpl in *.
  - split; simpl; try done.
    + apply insert_mono. etrans; [apply unexpired_sub|done].
    + rewrite dom_insert. set_solver.
    + intros s' t [[-> ->]|[Hne Ht]]%lookup_insert_Some Hx; [apply lookup_insert_eq|].
      rewrite lookup_insert_ne by done. apply unexpired_lookup. split; [|done]. apply Hk; [done|lia].
  - unfold all_servers_legacy. destruct (all_legacy l) eqn:Ea; simpl.
    2:{ split; try done. intros s t Ht Hx. apply Hk; [done|lia]. congruence. }
    split; simpl; try done.
    + etrans; [apply unexpired_sub|done].
    + intros s t Ht Hx. apply unexpired_lookup. split; [|done]. apply Hk; [done|lia].
    + by destruct (map_len (unexpired now (legacy_deployments l)) =? num_scripts l).
Qed.

(** Histories with a clock that does not go back and marks of configured
    deployments only. *)
Fixpoint legacy_history (ids : gset bytes) (now : Z) (ops : list LegacyOp) : Prop :=
  match ops with
  | [] => True
  | o :: ops' =>
      now ≤ op_time o ∧ match o with Marked _ s => s ∈ ids | AskedAll _ => True end ∧
      legacy_history ids (op_time o) ops'
  end.

Lemma legacy_run_ok ids ops : ∀ now0 m l,
  legacy_ok ids m now0 l → legacy_history ids now0 ops →
  legacy_ok ids
    (foldl (λ m o, match o with Marked t s => <[s := t]> m | AskedAll _ => m end) m ops)
    (foldl (λ _ o, op_time o) now0 ops) (foldl legacy_step l ops).
Proof.
  induction ops as [|o ops IH]; intros now0 m l Hok Hh; [done|]. simpl in *.
  destruct Hh as (Hle & Ho & Hh). apply IH; [|done]. by eapply legacy_ok_step.
Qed.

(** The aggregate is exact: after any history, the client believes that no
    deployment long-polls if and only if each configured one was marked within
    the last [LEGACY_RECOVER_AFTER]. *)
Theorem all_legacy_exact ids ops now :
  ids ≠ ∅ → legacy_history ids 0 ops → foldl (λ _ o, op_time o) 0 ops ≤ now →
  (all_servers_legacy now (legacy_run ids ops)).1 = true ↔
    ∀ id, id ∈ ids → ∃ t, last_marks ops !! id = Some t ∧ now - t < LEGACY_RECOVER_AFTER.
Proof.
  intros Hne Hh Hle. eapply all_servers_legacy_iff; [done| |exact Hle].
  apply legacy_run_ok; [|done]. split; simpl; try done.
  symmetry. apply Z.eqb_neq. unfold map_len. rewrite map_size_empty.
  intros E. apply Hne, leibniz_equiv, size_empty_iff. lia.
Qed.
