(* ===== verification/TunnelLoop.v ===== *)
(** * The per-session loop of the tunnel client (src/tunnel_client.rs)

    [tunnel_loop] keeps several [data] ops in flight for one session: it
    numbers them ([seq]), numbers the uploads among them ([wseq]), writes the
    replies to the client in [seq] order and adapts its pipeline depth.  The
    loop is a state machine: one [Event] per turn says which await completes
    and with what; [step] is the turn.  [connect_plain],
    [connect_with_initial_data] and [tunnel_connection] around it are
    functions of the replies they receive. *)

From Stdlib Require Import Strings.Byte.
From S2P Require Import Prelude RustBytes Base64 NodeHandlers NodeSession.

(** ** Constants *)

Definition INFLIGHT_IDLE : Z := 1.
Definition INFLIGHT_OPTIMIST : Z := 2.
Definition INFLIGHT_ACTIVE : Z := 6.
Definition MAX_ELEVATED_TOTAL : Z := 10.

(** ** Writing a response to the client *)

(** How a [write_all] and [flush] end: done, or failed after some bytes. *)
Inductive IoWrite := WrittenAll | WriteFailed (n : Z).

Inductive WriteOutcome := Wrote | NoData | BadBase64.

Section loop.
Context `{!Base64}.

(** The outcome ([Err] for an I/O error) and the bytes that reach the
    client. *)
Definition write_tunnel_response (io : IoWrite) (resp : TunnelResponse)
    : result WriteOutcome unit * bytes :=
  match r_d resp with
  | None | Some [] => (Ok NoData, [])
  | Some ((_ :: _) as d) =>
      match b64_decode d with
      | Ok ((_ :: _) as b) =>
          match io with
          | WrittenAll => (Ok Wrote, b)
          | WriteFailed n => (Err tt, ztake n b)
          end
      | Ok [] => (Ok NoData, [])
      | Err _ => (Ok BadBase64, [])
      end
  end.

(** [extract_bytes]: the data taken out of the read buffer, and the buffer
    afterwards. *)
Definition extract_bytes (buf : bytes) (n : Z) : bytes * bytes :=
  if 65536 / 2 <=? n then (buf, []) else (ztake n buf, []).

(** [decode_udp_packets]. *)
Fixpoint decode_packets (pkts : list bytes) : result (list bytes) bytes :=
  match pkts with
  | [] => Ok []
  | p :: pkts' =>
      match b64_decode p with
      | Ok b => let! l := decode_packets pkts' in Ok (b :: l)
      | Err e => Err (bs "bad UDP packet base64: " ++ e)
      end
  end.

Definition decode_udp_packets (resp : TunnelResponse) : result (list bytes) bytes :=
  match r_pkts resp with None => Ok [] | Some pkts => decode_packets pkts end.

(** ** State *)

Record InflightMeta := mk_meta { m_seq : Z; was_empty_poll : bool }.

(** A [MuxMsg::Data] of this session. *)
Record DataOp := mk_data { d_data : bytes; d_seq : Z; d_wseq : option Z }.

(** The locals of [tunnel_loop], grouped: the sending side with what it has
    sent to the multiplexer; the receiving side with what has reached the
    client; the depth heuristics; and the rest, with the shared count of
    elevated sessions.  [refill_at] is the delay of the pending timer. *)
Record Up := mk_up {
  next_send_seq : Z;
  next_data_write_seq : Z;
  inflight : list InflightMeta;
  outbox : list DataOp
}.

Record Down := mk_down {
  next_write_seq : Z;
  pending_writes : list (Z * (TunnelResponse * bool));
  eof_seen : bool;
  to_client : bytes
}.

Record Depth := mk_depth {
  max_inflight : Z;
  consecutive_empty : Z;
  idle_tier : Z;
  consecutive_data : Z;
  is_elevated : bool;
  total_download_bytes : Z
}.

Record LoopState := mk_loop {
  up : Up;
  down : Down;
  depth : Depth;
  client_closed : bool;
  buffered_upload : option bytes;
  refill_at : option Z;
  refill_steps : Z;
  read_buf : bytes;
  elevated_sessions : Z
}.

Definition set_up (u : Up) (s : LoopState) : LoopState :=
  mk_loop u (down s) (depth s) (client_closed s) (buffered_upload s) (refill_at s)
    (refill_steps s) (read_buf s) (elevated_sessions s).
Definition set_down (d : Down) (s : LoopState) : LoopState :=
  mk_loop (up s) d (depth s) (client_closed s) (buffered_upload s) (refill_at s)
    (refill_steps s) (read_buf s) (elevated_sessions s).
Definition set_depth (d : Depth) (s : LoopState) : LoopState :=
  mk_loop (up s) (down s) d (client_closed s) (buffered_upload s) (refill_at s)
    (refill_steps s) (read_buf s) (elevated_sessions s).
Definition set_closed (s : LoopState) : LoopState :=
  mk_loop (up s) (down s) (depth s) true (buffered_upload s) (refill_at s)
    (refill_steps s) (read_buf s) (elevated_sessions s).
Definition set_buffered (b : option bytes) (s : LoopState) : LoopState :=
  mk_loop (up s) (down s) (depth s) (client_closed s) b (refill_at s)
    (refill_steps s) (read_buf s) (elevated_sessions s).
Definition set_refill (at_ : option Z) (steps : Z) (s : LoopState) : LoopState :=
  mk_loop (up s) (down s) (depth s) (client_closed s) (buffered_upload s) at_
    steps (read_buf s) (elevated_sessions s).
Definition set_read (b : bytes) (s : LoopState) : LoopState :=
  mk_loop (up s) (down s) (depth s) (client_closed s) (buffered_upload s) (refill_at s)
    (refill_steps s) b (elevated_sessions s).
Definition set_elevated (n : Z) (s : LoopState) : LoopState :=
  mk_loop (up s) (down s) (depth s) (client_closed s) (buffered_upload s) (refill_at s)
    (refill_steps s) (read_buf s) n.

Definition set_idle (ce tier : Z) (d : Depth) : Depth :=
  mk_depth (max_inflight d) ce tier (consecutive_data d) (is_elevated d) (total_download_bytes d).
Definition set_max (n : Z) (d : Depth) : Depth :=
  mk_depth n (consecutive_empty d) (idle_tier d) (consecutive_data d) (is_elevated d)
    (total_download_bytes d).
Definition set_is_elevated (b : bool) (d : Depth) : Depth :=
  mk_depth (max_inflight d) (consecutive_empty d) (idle_tier d) (consecutive_data d) b
    (total_download_bytes d).

(** ** Sending *)

Definition send_empty_poll (u : Up) : Up :=
  let seq := next_send_seq u in
  mk_up (wadd64 seq 1) (next_data_write_seq u) (inflight u ++ [mk_meta seq true])
    (outbox u ++ [mk_data [] seq None]).

Definition send_data_op (data : bytes) (u : Up) : Up :=
  let seq := next_send_seq u in
  let wseq := next_data_write_seq u in
  mk_up (wadd64 seq 1) (wadd64 wseq 1) (inflight u ++ [mk_meta seq false])
    (outbox u ++ [mk_data data seq (Some wseq)]).

Definition inflight_len (s : LoopState) : Z := len (inflight (up s)).

(** The state before the first turn: the pending client data, then empty
    polls up to the starting depth. *)
Definition prefill (pending : option bytes) : Up :=
  let u := mk_up 0 0 [] [] in
  let u := match pending with Some ((_ :: _) as data) => send_data_op data u | _ => u end in
  Nat.iter (Z.to_nat (sat_sub (Z.min INFLIGHT_OPTIMIST INFLIGHT_ACTIVE) (len (inflight u))))
    send_empty_poll u.

Definition loop_start (pending : option bytes) (elevated : Z) : LoopState :=
  let u := prefill pending in
  let max := Z.min INFLIGHT_OPTIMIST INFLIGHT_ACTIVE in
  mk_loop u (mk_down 0 [] false []) (mk_depth max 0 0 0 false 0) false None
    (if len (inflight u) <? max then Some 100 else None) 0 [] elevated.

(** ** Receiving *)

(** [d.len() as u64 * 3 / 4]. *)
Definition approx_bytes (resp : TunnelResponse) : Z :=
  match r_d resp with Some d => wmul64 (len d) 3 / 4 | None => 0 end.

(** The idle and streak counters after a response was written. *)
Definition account_write (wrote was_empty : bool) (n : Z) (d : Depth) : Depth :=
  if wrote then
    let '(ce, tier) :=
      if 1024 <=? n then (0, idle_tier d / 2)
      else (consecutive_empty d, sat_sub (idle_tier d) 1) in
    mk_depth (max_inflight d) ce tier (sat_add32 (consecutive_data d) 1) (is_elevated d)
      (wadd64 (total_download_bytes d) n)
  else if was_empty && (0 <? consecutive_data d) then d
  else
    mk_depth (max_inflight d) (sat_add32 (consecutive_empty d) 1) (sat_add32 (idle_tier d) 1) 0
      (is_elevated d) (total_download_bytes d).

Definition is_eof (resp : TunnelResponse) : bool := default false (r_eof resp).

(** One response written in order: the bytes, the next sequence number and
    the eof flag. *)
Definition append_bytes (b : bytes) (d : Down) : Down :=
  mk_down (next_write_seq d) (pending_writes d) (eof_seen d) (to_client d ++ b).
Definition advance (resp : TunnelResponse) (d : Down) : Down :=
  mk_down (wadd64 (next_write_seq d) 1) (pending_writes d) (eof_seen d || is_eof resp) (to_client d).
Definition set_pending (pw : list (Z * (TunnelResponse * bool))) (d : Down) : Down :=
  mk_down (next_write_seq d) pw (eof_seen d) (to_client d).

(** The [while let Some(entry) = pending_writes.first_entry()] loop, with the
    outcomes of its writes; [false] when a write fails. *)
Fixpoint flush_writes (pw : list (Z * (TunnelResponse * bool))) (ios : list IoWrite)
    (d : Down) (dp : Depth) : bool * Down * Depth :=
  match pw with
  | [] => (true, set_pending [] d, dp)
  | (k, (resp, was_empty)) :: pw' =>
      if negb (k =? next_write_seq d) then (true, set_pending pw d, dp)
      else
        let '(r, out) := write_tunnel_response (hd WrittenAll ios) resp in
        let d := append_bytes out d in
        match r with
        | Err _ => (false, set_pending pw' d, dp)
        | Ok BadBase64 => (true, set_pending pw' d, dp)
        | Ok Wrote =>
            flush_writes pw' (tl ios) (advance resp d)
              (account_write true was_empty (approx_bytes resp) dp)
        | Ok NoData => flush_writes pw' (tl ios) (advance resp d) (account_write false was_empty 0 dp)
        end
  end.

(** The flush of the grace period after eof: outcomes are ignored. *)
Fixpoint flush_grace (pw : list (Z * (TunnelResponse * bool))) (ios : list IoWrite) (d : Down)
    : Down :=
  match pw with
  | [] => set_pending [] d
  | (k, (resp, _)) :: pw' =>
      if negb (k =? next_write_seq d) then set_pending pw d
      else
        let d := append_bytes (write_tunnel_response (hd WrittenAll ios) resp).2 d in
        flush_grace pw' (tl ios)
          (mk_down (wadd64 (next_write_seq d) 1) (pending_writes d) (eof_seen d) (to_client d))
  end.

(** ** Depth, uploads and refill after a reply *)

(** The adaptive depth: the heuristics and the shared count afterwards. *)
Definition adapt_depth (d : Depth) (elevated : Z) : Depth * Z :=
  if (2 <=? consecutive_empty d) && (INFLIGHT_IDLE <? max_inflight d) then
    let d' := set_max (Z.min INFLIGHT_IDLE INFLIGHT_ACTIVE) d in
    if is_elevated d then (set_is_elevated false d', wsub64 elevated 1) else (d', elevated)
  else if (1 <=? consecutive_data d) && (max_inflight d <? INFLIGHT_OPTIMIST) then
    (set_max (Z.min INFLIGHT_OPTIMIST INFLIGHT_ACTIVE) d, elevated)
  else if (2 <=? consecutive_data d) && (INFLIGHT_OPTIMIST <=? max_inflight d)
          && (max_inflight d <? INFLIGHT_ACTIVE) && (32 * 1024 <=? total_download_bytes d) then
    let deeper := set_max (Z.min (max_inflight d + 1) INFLIGHT_ACTIVE) d in
    if negb (is_elevated d) then
      if elevated <? MAX_ELEVATED_TOTAL then (set_is_elevated true deeper, wadd64 elevated 1)
      else (d, elevated)
    else (deeper, elevated)
  else (d, elevated).

Definition clear_empty (s : LoopState) : LoopState :=
  set_depth (set_idle 0 (idle_tier (depth s)) (depth s)) s.

(** The end of the [ReplyOutcome::Ok] arm. *)
Definition after_reply (resp_has_seq : bool) (s : LoopState) : LoopState :=
  let s :=
    match buffered_upload s with
    | Some bm =>
        if inflight_len s <? max_inflight (depth s) then
          clear_empty (set_up (send_data_op bm (up s)) (set_buffered None s))
        else s
    | None => s
    end in
  let s :=
    if resp_has_seq then
      let '(d, n) := adapt_depth (depth s) (elevated_sessions s) in set_elevated n (set_depth d s)
    else s in
  if negb (eof_seen (down s)) && (inflight_len s <? max_inflight (depth s))
     && bool_decide (refill_at s = None)
     && negb ((max_inflight (depth s) <=? INFLIGHT_IDLE) && (2 <=? consecutive_empty (depth s)))
  then set_refill (Some (if INFLIGHT_IDLE <? max_inflight (depth s) then 100 else 0)) 0 s
  else s.

(** ** The events of a turn *)

Inductive ReplyOutcome :=
  | ReplyOk (resp : TunnelResponse) (script_id : bytes)
  | BatchErr (e : bytes)
  | Timeout
  | Dropped.

Inductive ReadResult := ReadBytes (b : bytes) | ReadError.

(** [Reply k o ios]: the [k]-th op in flight completes with [o], the writes
    it causes end as [ios] says. *)
Inductive Event :=
  | GraceElapsed
  | GraceReply (k : nat) (o : ReplyOutcome) (ios : list IoWrite)
  | IdleRead (all_legacy : bool) (r : ReadResult)
  | Keepalive (all_legacy : bool)
  | Refill
  | Reply (k : nat) (o : ReplyOutcome) (ios : list IoWrite)
  | Read (r : ReadResult).

(** Where a turn leads: to the next turn, out of the loop, or out of the
    function through [?]. *)
Inductive Outcome := Continue (s : LoopState) | Break (s : LoopState) | Raise (s : LoopState).

Definition remove_inflight (k : nat) (s : LoopState) : LoopState :=
  set_up (mk_up (next_send_seq (up s)) (next_data_write_seq (up s)) (delete k (inflight (up s)))
    (outbox (up s))) s.

(** A response that is written or buffered during the grace period. *)
Definition grace_write (meta : InflightMeta) (resp : TunnelResponse) (ios : list IoWrite)
    (d : Down) : Down :=
  if m_seq meta =? next_write_seq d then
    let d := append_bytes (write_tunnel_response (hd WrittenAll ios) resp).2 d in
    flush_grace (pending_writes d) (tl ios)
      (mk_down (wadd64 (next_write_seq d) 1) (pending_writes d) (eof_seen d) (to_client d))
  else set_pending (bt_insert (m_seq meta) (resp, was_empty_poll meta) (pending_writes d)) d.

(** The [ReplyOutcome::Ok] arm. *)
Definition on_reply_ok (meta : InflightMeta) (resp : TunnelResponse) (ios : list IoWrite)
    (s : LoopState) : Outcome :=
  let s := match r_seq resp with None => set_depth (set_max 1 (depth s)) s | Some _ => s end in
  match r_e resp with
  | Some _ => Break s
  | None =>
      let resp_has_seq := match r_seq resp with Some _ => true | None => false end in
      if m_seq meta =? next_write_seq (down s) then
        let '(r, out) := write_tunnel_response (hd WrittenAll ios) resp in
        let d := append_bytes out (down s) in
        match r with
        | Err _ => Raise (set_down d s)
        | Ok BadBase64 => Break (set_down d s)
        | Ok w =>
            let wrote := match w with Wrote => true | _ => false end in
            let dp := account_write wrote (was_empty_poll meta) (if wrote then approx_bytes resp else 0)
              (depth s) in
            let '(ok, d, dp) := flush_writes (pending_writes d) (tl ios) (advance resp d) dp in
            let s := set_depth dp (set_down d s) in
            if ok : bool then Continue (after_reply resp_has_seq s) else Raise s
        end
      else
        let d := set_pending (bt_insert (m_seq meta) (resp, was_empty_poll meta)
          (pending_writes (down s))) (down s) in
        Continue (after_reply resp_has_seq (set_down d s))
  end.

(** The reply arm of the select. *)
Definition on_reply (meta : InflightMeta) (o : ReplyOutcome) (ios : list IoWrite) (s : LoopState)
    : Outcome :=
  match o with
  | ReplyOk resp _ => on_reply_ok meta resp ios s
  | BatchErr _ | Dropped => Break s
  | Timeout =>
      let d := depth s in
      Continue (set_depth (set_idle (sat_add32 (consecutive_empty d) 1) (sat_add32 (idle_tier d) 1) d) s)
  end.

(** The refill arm of the select. *)
Definition on_refill (s : LoopState) : LoopState :=
  let s := set_refill None (refill_steps s) s in
  if negb (eof_seen (down s)) && (inflight_len s <? max_inflight (depth s)) then
    let steps := (refill_steps s + 1) mod u32_mod in
    if 10 <=? steps then
      let s :=
        match buffered_upload s with
        | Some bm => set_up (send_data_op bm (up s)) (set_buffered None s)
        | None => set_up (send_empty_poll (up s)) s
        end in
      let s := set_refill None 0 s in
      if (inflight_len s <? max_inflight (depth s)) && (INFLIGHT_IDLE <? max_inflight (depth s))
      then set_refill (Some 100) 0 s else s
    else set_refill (Some 100) steps s
  else s.

(** Bytes arrive in the read buffer and are taken out of it. *)
Definition take_read (b : bytes) (s : LoopState) : bytes * LoopState :=
  let '(data, buf) := extract_bytes (read_buf s ++ b) (len b) in (data, set_read buf s).

(** The read arm of the select. *)
Definition on_read (r : ReadResult) (s : LoopState) : LoopState :=
  match r with
  | ReadBytes [] | ReadError => set_closed s
  | ReadBytes ((_ :: _) as b) =>
      let '(data, s) := take_read b s in
      if inflight_len s <? max_inflight (depth s) then
        clear_empty (set_up (send_data_op data (up s)) s)
      else if inflight_len s <? max_inflight (depth s) + 2 then
        clear_empty (set_up (send_data_op data (up s)) s)
      else
        set_buffered (Some (match buffered_upload s with Some bm => bm ++ data | None => data end)) s
  end.

(** A read while nothing is in flight. *)
Definition on_idle_read (r : ReadResult) (s : LoopState) : Outcome :=
  match r with
  | ReadBytes [] | ReadError => Break s
  | ReadBytes ((_ :: _) as b) =>
      let '(data, s) := take_read b s in
      Continue (set_up (send_data_op data (up s)) (set_depth (set_idle 0 0 (depth s)) s))
  end.

Definition can_read (s : LoopState) : bool :=
  negb (client_closed s) && negb (eof_seen (down s))
  && (inflight_len s <? max_inflight (depth s) + 2).

(** Every deployment is legacy and the session is idle: no more polls. *)
Definition park (all_legacy : bool) (s : LoopState) : bool :=
  all_legacy && ((1 <? idle_tier (depth s)) || (3 <? consecutive_empty (depth s)))
  && negb (client_closed s).

(** One turn, from the top of the loop.  [None]: this await is not the one
    the loop is in. *)
Definition step (ev : Event) (s : LoopState) : option Outcome :=
  if bool_decide (inflight (up s) = []) && (eof_seen (down s) || client_closed s) then Some (Break s)
  else if eof_seen (down s) then
    match ev with
    | GraceElapsed => Some (Break s)
    | GraceReply k o ios =>
        let? meta := inflight (up s) !! k in
        let s := remove_inflight k s in
        match o with
        | ReplyOk resp _ => Some (Continue (set_down (grace_write meta resp ios (down s)) s))
        | _ => Some (Break s)
        end
    | _ => None
    end
  else if bool_decide (inflight (up s) = []) then
    match ev with
    | IdleRead all_legacy r =>
        if park all_legacy s || ((0 <? idle_tier (depth s)) && negb (client_closed s))
        then Some (on_idle_read r s) else None
    | Keepalive all_legacy =>
        if park all_legacy s then None else Some (Continue (set_up (send_empty_poll (up s)) s))
    | _ => None
    end
  else
    match ev with
    | Refill => match refill_at s with Some _ => Some (Continue (on_refill s)) | None => None end
    | Reply k o ios =>
        let? meta := inflight (up s) !! k in
        Some (on_reply meta o ios (remove_inflight k s))
    | Read r => if can_read s then Some (Continue (on_read r s)) else None
    | _ => None
    end.

(** The permit is given back when the loop ends, not when [?] leaves it. *)
Definition release_permit (s : LoopState) : LoopState :=
  if is_elevated (depth s) then set_elevated (wsub64 (elevated_sessions s) 1) s else s.

(** The loop on a sequence of events: running, returned [Ok] or returned an
    error.  Events the loop does not await are skipped. *)
Inductive LoopResult := Running (s : LoopState) | Returned (s : LoopState) | IoError (s : LoopState).

Fixpoint tunnel_loop (evs : list Event) (s : LoopState) : LoopResult :=
  match evs with
  | [] => Running s
  | ev :: evs' =>
      match step ev s with
      | None => tunnel_loop evs' s
      | Some (Continue s') => tunnel_loop evs' s'
      | Some (Break s') => Returned (release_permit s')
      | Some (Raise s') => IoError s'
      end
  end.

(** ** What a turn does to the sending side *)

(** The bytes a turn reads from the client. *)
Definition event_bytes (ev : Event) : bytes :=
  match ev with Read (ReadBytes b) | IdleRead _ (ReadBytes b) => b | _ => [] end.

(** Nothing of what was read is kept back. *)
Definition nothing_held (s : LoopState) : Prop := buffered_upload s = None ∧ read_buf s = [].

Definition without (k : nat) (u : Up) : Up :=
  mk_up (next_send_seq u) (next_data_write_seq u) (delete k (inflight u)) (outbox u).

Inductive sends (b : bytes) : Up → Up → Prop :=
  | sends_none u : b = [] → sends b u u
  | sends_poll u : b = [] → sends b u (send_empty_poll u)
  | sends_data u : b ≠ [] → sends b u (send_data_op b u).

Lemma take_read_held b s :
  nothing_held s → take_read b s = (b, set_read [] s).
Proof.
  intros [_ Hr]. unfold take_read, extract_bytes. rewrite Hr. simpl.
  case_if; [done|]. f_equal. unfold ztake, len. rewrite Nat2Z.id. apply take_ge. lia.
Qed.

Lemma after_reply_frame hs s :
  nothing_held s →
  up (after_reply hs s) = up s ∧ down (after_reply hs s) = down s ∧
  nothing_held (after_reply hs s) ∧ client_closed (after_reply hs s) = client_closed s.
Proof.
  intros [Hb Hr]. unfold after_reply. rewrite Hb.
  destruct hs; [destruct (adapt_depth _ _) as [d n]|]; case_if; unfold nothing_held; simpl; done.
Qed.

Lemma on_reply_frame meta o ios s s' :
  nothing_held s → on_reply meta o ios s = Continue s' →
  up s' = up s ∧ nothing_held s' ∧ client_closed s' = client_closed s.
Proof.
  intros Hh. destruct o as [resp script|e| |]; simpl; try (intros; by simplify_eq).
  unfold on_reply_ok. set (s1 := match r_seq resp with None => _ | Some _ => _ end).
  assert (H1 : up s1 = up s ∧ nothing_held s1 ∧ client_closed s1 = client_closed s)
    by (unfold s1; by destruct (r_seq resp)).
  destruct H1 as (Hu1 & Hh1 & Hc1). destruct (r_e resp); [done|].
  assert (Hgo : ∀ hs s2, up s2 = up s1 → nothing_held s2 → client_closed s2 = client_closed s1 →
    Continue (after_reply hs s2) = Continue s' →
    up s' = up s ∧ nothing_held s' ∧ client_closed s' = client_closed s).
  { intros hs s2 Hu2 Hh2 Hc2 [= <-]. destruct (after_reply_frame hs s2 Hh2) as (-> & _ & ? & ->).
    split_and!; congruence. }
  case_if; [|apply Hgo; done].
  destruct (write_tunnel_response _ _) as [[[]|] out]; try done;
    destruct (flush_writes _ _ _ _) as [[[] d] dp]; try done; apply Hgo; done.
Qed.

Lemma on_refill_frame s :
  nothing_held s →
  sends [] (up s) (up (on_refill s)) ∧ down (on_refill s) = down s ∧ nothing_held (on_refill s) ∧
  depth (on_refill s) = depth s ∧
  (up (on_refill s) ≠ up s → inflight_len s < max_inflight (depth s)).
Proof.
  intros [Hb Hr]. unfold on_refill. simpl. rewrite Hb.
  destruct (negb _ && _) eqn:E; bool_to_prop; simpl.
  2:{ unfold nothing_held. split_and!; try done. by apply sends_none. }
  case_if; [case_if|]; unfold nothing_held; simpl;
    split_and!; try done; try (by apply sends_poll); try (by apply sends_none).
  all: intros _; unfold inflight_len in *; simpl in *; lia.
Qed.

(** The op whose reply a turn takes, if any. *)
Definition event_reply (ev : Event) : option (nat * ReplyOutcome * list IoWrite) :=
  match ev with
  | Reply k o ios | GraceReply k o ios => Some (k, o, ios)
  | _ => None
  end.

Definition answered (ev : Event) (u : Up) : Up :=
  match event_reply ev with Some (k, _, _) => without k u | None => u end.

Lemma on_read_frame r s :
  nothing_held s → can_read s = true →
  sends (match r with ReadBytes b => b | ReadError => [] end) (up s) (up (on_read r s)) ∧
  down (on_read r s) = down s ∧ nothing_held (on_read r s) ∧
  max_inflight (depth (on_read r s)) = max_inflight (depth s) ∧
  is_elevated (depth (on_read r s)) = is_elevated (depth s).
Proof.
  intros Hh Hc. unfold can_read in Hc. bool_to_prop.
  destruct r as [[|x b]|]; simpl; try (split_and!; try done; by apply sends_none).
  rewrite take_read_held by done. unfold inflight_len in *. simpl.
  case_if; [|case_if; [|lia]];
    (split_and!; [by apply sends_data|done|by destruct Hh|done|done]).
Qed.

(** A turn sends at most one op: a poll, or the bytes it has just read. *)
Lemma step_up ev s s' :
  nothing_held s → step ev s = Some (Continue s') →
  nothing_held s' ∧ sends (event_bytes ev) (answered ev (up s)) (up s') ∧
  match event_reply ev with Some (k, _, _) => is_Some (inflight (up s) !! k) | None => True end.
Proof.
  intros Hh. unfold step. destruct (_ && _); [done|].
  destruct (eof_seen (down s)).
  { destruct ev as [|k o ios|al r|al| |k o ios|r]; try done.
    simpl. destruct (inflight (up s) !! k) as [meta|] eqn:Ek; [|done].
    destruct o; try done. intros [= <-]. unfold answered. simpl.
    split_and!; [done|by apply sends_none|by eexists]. }
  destruct (bool_decide _).
  { destruct ev as [|k o ios|al r|al| |k o ios|r]; try done.
    - case_if; [|done]. unfold on_idle_read. destruct r as [[|x b]|]; try done.
      rewrite take_read_held by done. intros [= <-]. simpl.
      split_and!; [by destruct Hh|by apply sends_data|done].
    - destruct (park al s); [done|]. intros [= <-]. split_and!; [done|by apply sends_poll|done]. }
  destruct ev as [|k o ios|al r|al| |k o ios|r]; try done.
  - destruct (refill_at s); [|done]. intros [= <-].
    destruct (on_refill_frame s Hh) as (H1 & _ & H2 & _). by split_and!.
  - simpl. destruct (inflight (up s) !! k) as [meta|] eqn:Ek; [|done]. intros [= E].
    destruct (on_reply_frame _ _ _ (remove_inflight k s) _ Hh E) as (-> & H2 & _).
    split_and!; [done|by apply sends_none|by eexists].
  - destruct (can_read s) eqn:Ec; [|done]. intros [= <-].
    destruct (on_read_frame r s Hh Ec) as (H1 & _ & H2 & _). by split_and!.
Qed.

(** The bytes the client sent to the loop: those read by the turns taken. *)
Fixpoint client_bytes (evs : list Event) (s : LoopState) : bytes :=
  match evs with
  | [] => []
  | ev :: evs' =>
      match step ev s with
      | None => client_bytes evs' s
      | Some (Continue s') => event_bytes ev ++ client_bytes evs' s'
      | Some _ => []
      end
  end.

(** The numbered chunks among the ops of a session. *)
Definition uploads (ops : list DataOp) : list (Z * bytes) :=
  omap (λ o, (λ w, (w, d_data o)) <$> d_wseq o) ops.

(** The sending side after a history: ops numbered from zero, uploads among
    them numbered from zero, carrying exactly [b]. *)
Record up_ok (b : bytes) (u : Up) : Prop := {
  uo_seq : next_send_seq u = len (outbox u);
  uo_seqs : map d_seq (outbox u) = seqZ 0 (len (outbox u));
  uo_wseq : next_data_write_seq u = len (uploads (outbox u));
  uo_wseqs : map fst (uploads (outbox u)) = seqZ 0 (len (uploads (outbox u)));
  uo_bytes : concat (map snd (uploads (outbox u))) = b
}.

Lemma len_uploads ops : len (uploads ops) ≤ len ops.
Proof.
  induction ops as [|[d q w] ops IH]; [done|]. unfold uploads, len in *.
  destruct w; simpl; unfold omap in *; lia.
Qed.

Lemma seqZ_snoc n : 0 ≤ n → seqZ 0 (n + 1) = seqZ 0 n ++ [n].
Proof. intros Hn. by rewrite seqZ_app by lia. Qed.

Lemma sends_up_ok b b' u u' :
  up_ok b u → sends b' u u' → next_send_seq u < u64_max → up_ok (b ++ b') u'.
Proof.
  intros [H1 H2 H3 H4 H5] Hs Hlt. pose proof (len_uploads (outbox u)) as Hl.
  pose proof (len_nonneg (uploads (outbox u))) as Hn.
  destruct Hs as [u Hb|u Hb|u Hne].
  - by rewrite Hb, app_nil_r.
  - rewrite Hb. assert (E : uploads (outbox (send_empty_poll u)) = uploads (outbox u)).
    { unfold uploads. simpl. by rewrite omap_app, app_nil_r. }
    split; rewrite ?E, ?app_nil_r; try done; simpl.
    + unfold wadd64. rewrite Z.mod_small by zlia. rewrite H1, len_app. done.
    + rewrite map_app, len_app, H2. simpl. rewrite seqZ_snoc by lia. by rewrite <-H1.
  - assert (E : uploads (outbox (send_data_op b' u)) =
      uploads (outbox u) ++ [(next_data_write_seq u, b')]).
    { unfold uploads. simpl. by rewrite omap_app. }
    split; rewrite ?E; simpl.
    + unfold wadd64. rewrite Z.mod_small by zlia. rewrite H1, len_app. done.
    + rewrite map_app, len_app, H2. simpl. rewrite seqZ_snoc by lia. by rewrite <-H1.
    + unfold wadd64. rewrite Z.mod_small by zlia. rewrite H3, len_app. done.
    + rewrite map_app, len_app, H4. simpl. rewrite seqZ_snoc by lia. by rewrite <-H3.
    + rewrite map_app, concat_app, H5. simpl. by rewrite app_nil_r.
Qed.

Definition loop_state (r : LoopResult) : LoopState :=
  match r with Running s | Returned s | IoError s => s end.

Lemma without_up_ok b k u : up_ok b u → up_ok b (without k u).
Proof. by intros []; split. Qed.

Lemma answered_up_ok b ev u : up_ok b u → up_ok b (answered ev u).
Proof. unfold answered. destruct (event_reply ev) as [[[k o] ios]|]; [apply without_up_ok|done]. Qed.

Lemma on_reply_end meta o ios s s' :
  on_reply meta o ios s = Break s' ∨ on_reply meta o ios s = Raise s' → up s' = up s.
Proof.
  assert (Hb : ∀ s1, Break s1 = Break s' ∨ Break s1 = Raise s' → s' = s1) by (intros ? [[= ->]|?]; done).
  assert (Hr : ∀ s1, Raise s1 = Break s' ∨ Raise s1 = Raise s' → s' = s1) by (intros ? [?|[= ->]]; done).
  assert (Hc : ∀ s1, ¬ (Continue s1 = Break s' ∨ Continue s1 = Raise s')) by (intros ? [?|?]; done).
  destruct o as [resp script|e| |]; simpl; try (by intros ->%Hb); try (by intros []%Hc).
  unfold on_reply_ok. set (s1 := match r_seq resp with None => _ | Some _ => _ end).
  assert (H1 : up s1 = up s) by (unfold s1; by destruct (r_seq resp)).
  destruct (r_e resp); [by intros ->%Hb|].
  case_if; [|by intros []%Hc].
  destruct (write_tunnel_response _ _) as [[[]|] out];
    try (destruct (flush_writes _ _ _ _) as [[[] d] dp]);
    first [by intros []%Hc|by intros ->%Hb|by intros ->%Hr].
Qed.

Lemma step_end ev s s' :
  step ev s = Some (Break s') ∨ step ev s = Some (Raise s') → outbox (up s') = outbox (up s) ∧
    next_send_seq (up s') = next_send_seq (up s) ∧
    next_data_write_seq (up s') = next_data_write_seq (up s).
Proof.
  assert (Hb : ∀ s1, Some (Break s1) = Some (Break s') ∨ Some (Break s1) = Some (Raise s') → s' = s1)
    by (intros ? [[= ->]|?]; done).
  assert (Hc : ∀ s1, ¬ (Some (Continue s1) = Some (Break s') ∨ Some (Continue s1) = Some (Raise s')))
    by (intros ? [?|?]; done).
  assert (Hn : ¬ (None = Some (Break s') ∨ None = Some (Raise s'))) by (intros [?|?]; done).
  unfold step. destruct (_ && _); [by intros ->%Hb|].
  destruct (eof_seen (down s)).
  { destruct ev as [|k o ios|al r|al| |k o ios|r]; try (by intros []%Hn); [by intros ->%Hb|].
    destruct (inflight (up s) !! k); [|by intros []%Hn].
    destruct o; first [by intros []%Hc|by intros ->%Hb]. }
  destruct (bool_decide _).
  { destruct ev as [|k o ios|al r|al| |k o ios|r]; try (by intros []%Hn).
    - case_if; [|by intros []%Hn]. unfold on_idle_read. destruct r as [[|x b]|]; try (by intros ->%Hb).
      destruct (take_read _ _). by intros []%Hc.
    - destruct (park al s); [by intros []%Hn|by intros []%Hc]. }
  destruct ev as [|k o ios|al r|al| |k o ios|r]; try (by intros []%Hn).
  - destruct (refill_at s); [by intros []%Hc|by intros []%Hn].
  - destruct (inflight (up s) !! k) as [meta|]; [|by intros []%Hn]. intros E.
    rewrite (on_reply_end meta o ios (remove_inflight k s) s'); [done|].
    destruct E as [[= ->]|[= ->]]; [by left|by right].
  - destruct (can_read s); [by intros []%Hc|by intros []%Hn].
Qed.

Lemma sends_seq b u u' :
  sends b u u' → 0 ≤ next_send_seq u < u64_max →
  next_send_seq u ≤ next_send_seq u' ≤ next_send_seq u + 1.
Proof.
  intros Hs Hu. destruct Hs; simpl; [lia|..]; unfold wadd64; rewrite Z.mod_small by zlia; lia.
Qed.

Lemma answered_seq ev u : next_send_seq (answered ev u) = next_send_seq u.
Proof. unfold answered. by destruct (event_reply ev) as [[[k o] ios]|]. Qed.

Lemma loop_up evs : ∀ s b,
  nothing_held s → up_ok b (up s) → next_send_seq (up s) + len evs < u64_mod →
  up_ok (b ++ client_bytes evs s) (up (loop_state (tunnel_loop evs s))).
Proof.
  induction evs as [|ev evs IH]; intros s b Hh Hu Hlt; simpl; [by rewrite app_nil_r|].
  rewrite len_cons in Hlt. pose proof (len_nonneg evs) as Hl.
  assert (Hs0 : 0 ≤ next_send_seq (up s)) by (rewrite (uo_seq _ _ Hu); apply len_nonneg).
  destruct (step ev s) as [[s'|s'|s']|] eqn:E; simpl.
  - destruct (step_up ev s s' Hh E) as (Hh' & Hs & _).
    rewrite app_assoc. apply IH; [done| |].
    + eapply sends_up_ok; [by apply answered_up_ok|exact Hs|rewrite answered_seq; zlia].
    + pose proof (sends_seq _ _ _ Hs) as Hq. rewrite answered_seq in Hq.
      specialize (Hq ltac:(zlia)). zlia.
  - destruct (step_end ev s s' (or_introl E)) as (E1 & E2 & E3).
    assert (Hr : up (release_permit s') = up s') by (unfold release_permit; by destruct (is_elevated _)).
    rewrite Hr, app_nil_r. destruct Hu. by split; rewrite ?E1, ?E2, ?E3.
  - destruct (step_end ev s s' (or_intror E)) as (E1 & E2 & E3).
    rewrite app_nil_r. destruct Hu. by split; rewrite ?E1, ?E2, ?E3.
  - apply IH; [done|done|lia].
Qed.

Lemma prefill_ok pending : up_ok (default [] pending) (prefill pending).
Proof. destruct pending as [[|x b]|]; (split; [done..|]); simpl; by rewrite ?app_nil_r. Qed.

Lemma prefill_seq pending : next_send_seq (prefill pending) = 2.
Proof. by destruct pending as [[|x b]|]. Qed.

(** A session has no more ops than turns and starting polls. *)
Lemma outbox_bound evs : ∀ s b,
  nothing_held s → up_ok b (up s) → next_send_seq (up s) + len evs < u64_mod →
  len (outbox (up (loop_state (tunnel_loop evs s)))) ≤ len (outbox (up s)) + len evs.
Proof.
  induction evs as [|ev evs IH]; intros s b Hh Hu Hlt; simpl; [rewrite len_nil; lia|].
  rewrite len_cons in *. pose proof (len_nonneg evs) as Hl.
  assert (Hs0 : 0 ≤ next_send_seq (up s)) by (rewrite (uo_seq _ _ Hu); apply len_nonneg).
  destruct (step ev s) as [[s'|s'|s']|] eqn:E; simpl.
  - destruct (step_up ev s s' Hh E) as (Hh' & Hs & _).
    assert (Hu' : up_ok (b ++ event_bytes ev) (up s')).
    { eapply sends_up_ok; [by apply answered_up_ok|exact Hs|rewrite answered_seq; zlia]. }
    pose proof (sends_seq _ _ _ Hs) as Hq. rewrite answered_seq in Hq. specialize (Hq ltac:(zlia)).
    specialize (IH s' _ Hh' Hu' ltac:(lia)).
    rewrite <-(uo_seq _ _ Hu') in IH. rewrite <-(uo_seq _ _ Hu). lia.
  - destruct (step_end ev s s' (or_introl E)) as (E1 & _).
    assert (Hr : up (release_permit s') = up s') by (unfold release_permit; by destruct (is_elevated _)).
    rewrite Hr, E1. lia.
  - destruct (step_end ev s s' (or_intror E)) as (E1 & _). rewrite E1. lia.
  - specialize (IH s b Hh Hu ltac:(lia)). lia.
Qed.

Lemma loop_uploads_bound evs pending n :
  len evs < u64_mod - 2 →
  len (uploads (outbox (up (loop_state (tunnel_loop evs (loop_start pending n)))))) < u64_mod.
Proof.
  intros Hlt. pose proof (outbox_bound evs (loop_start pending n) (default [] pending)) as Hb.
  simpl in Hb. rewrite prefill_seq in Hb.
  specialize (Hb ltac:(done) ltac:(apply prefill_ok) ltac:(lia)).
  rewrite <-(uo_seq _ _ (prefill_ok pending)), prefill_seq in Hb.
  pose proof (len_uploads (outbox (up (loop_state (tunnel_loop evs (loop_start pending n)))))). lia.
Qed.

(** The bytes of all uploads of a session. *)
Lemma loop_uploads_all evs pending n :
  len evs < u64_mod - 2 →
  concat (map snd (uploads (outbox (up (loop_state (tunnel_loop evs (loop_start pending n))))))) =
    default [] pending ++ client_bytes evs (loop_start pending n).
Proof.
  intros Hlt. destruct (loop_up evs (loop_start pending n) (default [] pending)) as [_ _ _ _ H5];
    [done|apply prefill_ok|simpl; rewrite prefill_seq; lia|done].
Qed.

(** Uploads are complete and in order.  Whatever the replies, timers and
    reads do, the ops the loop sends are numbered from zero without gaps, the
    uploads among them have consecutive [wseq] numbers from zero, and their
    payloads together are exactly the pending client data followed by every
    byte read from the client: nothing is lost, repeated, reordered or held
    back. *)
Theorem loop_uploads_complete evs pending n :
  len evs < u64_mod - 2 →
  let s := loop_state (tunnel_loop evs (loop_start pending n)) in
  map d_seq (outbox (up s)) = seqZ 0 (len (outbox (up s))) ∧
  map fst (uploads (outbox (up s))) = seqZ 0 (len (uploads (outbox (up s)))) ∧
  concat (map snd (uploads (outbox (up s)))) =
    default [] pending ++ client_bytes evs (loop_start pending n).
Proof.
  intros Hlt s. destruct (loop_up evs (loop_start pending n) (default [] pending)) as [_ H2 _ H4 H5].
  - done.
  - apply prefill_ok.
  - simpl. rewrite prefill_seq. lia.
  - by split_and!.
Qed.

(** ** What a turn does to the receiving side *)

(** The bytes a response carries, and whether it carries invalid base64. *)
Definition payload (resp : TunnelResponse) : bytes :=
  match r_d resp with
  | Some ((_ :: _) as d) => match b64_decode d with Ok b => b | Err _ => [] end
  | _ => []
  end.

Definition bad_base64 (resp : TunnelResponse) : bool :=
  match r_d resp with
  | Some ((_ :: _) as d) => match b64_decode d with Ok _ => false | Err _ => true end
  | _ => false
  end.

Lemma write_bytes resp : (write_tunnel_response WrittenAll resp).2 = payload resp.
Proof.
  unfold write_tunnel_response, payload. destruct (r_d resp) as [[|x d]|]; try done.
  by destruct (b64_decode (x :: d)) as [[|y b]|].
Qed.

Lemma write_good resp :
  bad_base64 resp = false →
  ∃ w, write_tunnel_response WrittenAll resp = (Ok w, payload resp) ∧ w ≠ BadBase64.
Proof.
  unfold write_tunnel_response, payload, bad_base64. destruct (r_d resp) as [[|x d]|]; intros Hb;
    try (exists NoData; done).
  destruct (b64_decode (x :: d)) as [[|y b]|]; [by exists NoData|by exists Wrote|done].
Qed.

(** The receiving side as a reorder buffer: the next number, the bytes
    delivered and the buffered responses. *)
Definition Buffer : Type := Z * bytes * list (Z * (TunnelResponse * bool)).

Fixpoint deliver (pw : list (Z * (TunnelResponse * bool))) (n : Z) (out : bytes) : Buffer :=
  match pw with
  | [] => (n, out, [])
  | (k, (r, w)) :: pw' => if k =? n then deliver pw' (wadd64 n 1) (out ++ payload r) else (n, out, pw)
  end.

Definition receive (k : Z) (r : TunnelResponse) (w : bool) (b : Buffer) : Buffer :=
  let '(n, out, pw) := b in
  if k =? n then deliver pw (wadd64 n 1) (out ++ payload r) else (n, out, bt_insert k (r, w) pw).

Definition buffer_of (d : Down) : Buffer := (next_write_seq d, to_client d, pending_writes d).

Definition ios_ok (ios : list IoWrite) : Prop := Forall (eq WrittenAll) ios.

Lemma ios_ok_hd ios : ios_ok ios → hd WrittenAll ios = WrittenAll ∧ ios_ok (tl ios).
Proof. intros [|? l <- ?]; [by repeat constructor|done]. Qed.

Lemma flush_writes_deliver pw : ∀ ios d dp,
  ios_ok ios → Forall (λ e, bad_base64 e.2.1 = false) pw →
  ∃ d' dp', flush_writes pw ios d dp = (true, d', dp') ∧
    buffer_of d' = deliver pw (next_write_seq d) (to_client d).
Proof.
  induction pw as [|[k [r w]] pw IH]; intros ios d dp Hio Hb; [by eexists _, _|].
  apply Forall_cons in Hb as [Hb Hbs]. destruct (ios_ok_hd ios Hio) as [Hhd Htl].
  cbn [flush_writes deliver]. destruct (k =? next_write_seq d) eqn:Ek; cbn [negb]; [|by eexists _, _].
  rewrite Hhd. destruct (write_good r Hb) as (wo & -> & Hw).
  destruct wo; [| |done].
  - destruct (IH (tl ios) (advance r (append_bytes (payload r) d))
      (account_write true w (approx_bytes r) dp) Htl Hbs) as (d' & dp' & -> & E). by eexists _, _.
  - destruct (IH (tl ios) (advance r (append_bytes (payload r) d))
      (account_write false w 0 dp) Htl Hbs) as (d' & dp' & -> & E). by eexists _, _.
Qed.

Lemma flush_grace_deliver pw : ∀ ios d,
  ios_ok ios → buffer_of (flush_grace pw ios d) = deliver pw (next_write_seq d) (to_client d).
Proof.
  induction pw as [|[k [r w]] pw IH]; intros ios d Hio; [done|].
  destruct (ios_ok_hd ios Hio) as [Hhd Htl]. cbn [flush_grace deliver].
  destruct (k =? next_write_seq d) eqn:Ek; cbn [negb]; [|done].
  rewrite Hhd, write_bytes, IH by done. done.
Qed.

Lemma grace_write_receive meta r ios d :
  ios_ok ios →
  buffer_of (grace_write meta r ios d) = receive (m_seq meta) r (was_empty_poll meta) (buffer_of d).
Proof.
  intros Hio. destruct (ios_ok_hd ios Hio) as [Hhd Htl]. unfold grace_write, receive. simpl.
  case_if; [|done]. rewrite Hhd, write_bytes, flush_grace_deliver by done. done.
Qed.

Lemma on_reply_receive meta r script ios s s' :
  nothing_held s → ios_ok ios → bad_base64 r = false →
  Forall (λ e, bad_base64 e.2.1 = false) (pending_writes (down s)) →
  on_reply meta (ReplyOk r script) ios s = Continue s' →
  buffer_of (down s') = receive (m_seq meta) r (was_empty_poll meta) (buffer_of (down s)).
Proof.
  intros Hh Hio Hb Hbs. destruct (ios_ok_hd ios Hio) as [Hhd Htl]. simpl. unfold on_reply_ok.
  set (s1 := match r_seq r with None => _ | Some _ => _ end).
  assert (H1 : down s1 = down s ∧ nothing_held s1) by (unfold s1; by destruct (r_seq r)).
  destruct H1 as [Hd1 Hh1]. destruct (r_e r); [done|]. rewrite Hd1. simpl.
  destruct (m_seq meta =? next_write_seq (down s)) eqn:Ek.
  - rewrite Hhd. destruct (write_good r Hb) as (wo & -> & Hw).
    destruct wo; [| |done].
    + edestruct (flush_writes_deliver (pending_writes (down s)) (tl ios)) as (d' & dp' & -> & E); [done..|].
      intros [= <-]. edestruct after_reply_frame as (_ & -> & _); [|exact E]. exact Hh1.
    + edestruct (flush_writes_deliver (pending_writes (down s)) (tl ios)) as (d' & dp' & -> & E); [done..|].
      intros [= <-]. edestruct after_reply_frame as (_ & -> & _); [|exact E]. exact Hh1.
  - intros [= <-]. edestruct after_reply_frame as (_ & -> & _); [|done]. exact Hh1.
Qed.

(** ** The reorder buffer *)

Lemma bt_insert_elem {V} k (v : V) m x :
  k ∉ map fst m → x ∈ bt_insert k v m ↔ x = (k, v) ∨ x ∈ m.
Proof.
  induction m as [|[k' v'] m IH]; intros Hk; simpl.
  { rewrite list_elem_of_singleton, elem_of_nil. tauto. }
  simpl in Hk. apply not_elem_of_cons in Hk as [Hne Hk].
  case_if; [by rewrite elem_of_cons|]. case_if; [lia|].
  rewrite !elem_of_cons, IH by done. tauto.
Qed.

Lemma bt_insert_sorted {V} k (v : V) m :
  k ∉ map fst m → StronglySorted Z.lt (map fst m) → StronglySorted Z.lt (map fst (bt_insert k v m)).
Proof.
  induction m as [|[k' v'] m IH]; intros Hk Hs; simpl; [by repeat constructor|].
  simpl in *. apply not_elem_of_cons in Hk as [Hne Hk].
  apply StronglySorted_inv in Hs as [Hs Hf].
  case_if; simpl.
  - constructor; [by constructor|]. constructor; [done|].
    eapply Forall_impl; [exact Hf|]. intros; lia.
  - case_if; [lia|]. simpl. constructor; [by apply IH|].
    apply Forall_forall. intros x Hx. apply list_elem_of_In, in_map_iff in Hx as ([k1 v1] & <- & Hx).
    apply list_elem_of_In, bt_insert_elem in Hx as [[= -> ->]|Hx]; [simpl; lia| |done].
    rewrite Forall_forall in Hf. apply Hf, list_elem_of_In, in_map_iff. exists (k1, v1).
    split; [done|by apply list_elem_of_In].
Qed.

(** The responses [rs] are the replies to the ops [0 .. len rs - 1]. *)
Definition answers_in_order (log : list (Z * TunnelResponse)) (rs : list TunnelResponse) : Prop :=
  ∀ i r, rs !! i = Some r → (Z.of_nat i, r) ∈ log.

(** Everything received is delivered or buffered; what is buffered comes
    after [lo], in order. *)
Record buffer_ok (log : list (Z * TunnelResponse)) (strict : bool) (b : Buffer) : Prop := {
  bo_out : ∃ rs, len rs = b.1.1 ∧ answers_in_order log rs ∧ b.1.2 = concat (map payload rs);
  bo_sorted : StronglySorted Z.lt (map fst b.2);
  bo_pending : ∀ k r w, (k, (r, w)) ∈ b.2 → (k, r) ∈ log ∧ b.1.1 + (if strict then 1 else 0) ≤ k;
  bo_complete : ∀ k r, (k, r) ∈ log → k < b.1.1 ∨ ∃ w, (k, (r, w)) ∈ b.2
}.

Lemma answers_snoc log rs r :
  answers_in_order log rs → (len rs, r) ∈ log → answers_in_order log (rs ++ [r]).
Proof.
  intros Ha Hr i r' Hi. apply lookup_app_Some in Hi as [Hi|[Hle Hi]]; [by apply Ha|].
  apply list_lookup_singleton_Some in Hi as [Hi ->].
  replace (Z.of_nat i) with (len rs); [done|]. unfold len. lia.
Qed.

Lemma deliver_ok log pw : ∀ n out,
  NoDup (map fst log) → (∀ k r, (k, r) ∈ log → 0 ≤ k < u64_max) →
  buffer_ok log false (n, out, pw) → buffer_ok log true (deliver pw n out).
Proof.
  induction pw as [|[k [r w]] pw IH]; intros n out Hnd Hrg [Ho Hs Hp Hc]; simpl in *.
  { split; simpl; try done. intros ? ? ? []%elem_of_nil. }
  destruct (Hp k r w ltac:(by constructor)) as [Hin Hle]. specialize (Hrg k r Hin) as Hk.
  destruct Ho as (rs & Hl & Ha & ->). apply StronglySorted_inv in Hs as [Hs Hf].
  assert (Hgt : ∀ k' r' w', (k', (r', w')) ∈ pw → k < k').
  { intros k' r' w' Hx. rewrite Forall_forall in Hf. apply Hf.
    apply list_elem_of_In, in_map_iff. exists (k', (r', w')). split; [done|by apply list_elem_of_In]. }
  destruct (k =? n) eqn:Ek; bool_to_prop.
  - subst k. unfold wadd64. rewrite Z.mod_small by zlia. apply IH; [done|done|]. split; simpl.
    + exists (rs ++ [r]). split_and!; [by rewrite len_app, Hl|by apply answers_snoc; rewrite ?Hl|].
      rewrite map_app, concat_app. simpl. by rewrite app_nil_r.
    + done.
    + intros k' r' w' Hx. split; [by eapply (Hp k' r' w'), elem_of_cons; right|].
      specialize (Hgt _ _ _ Hx). lia.
    + intros k' r' Hx. destruct (Hc k' r' Hx) as [|[w' Hw]]; [left; lia|].
      apply elem_of_cons in Hw as [[= -> -> ->]|Hw]; [left; lia|right; by exists w'].
  - split; simpl; [by exists rs|by constructor| |done].
    intros k' r' w' Hx. split; [by apply (Hp k' r' w')|].
    apply elem_of_cons in Hx as [[= -> -> ->]|Hx]; [lia|]. specialize (Hgt _ _ _ Hx). lia.
Qed.

(** Receiving a reply that was not received before keeps the buffer right. *)
Lemma receive_ok log k r w b :
  NoDup (map fst (log ++ [(k, r)])) → (∀ k' r', (k', r') ∈ log ++ [(k, r)] → 0 ≤ k' < u64_max) →
  buffer_ok log true b → buffer_ok (log ++ [(k, r)]) true (receive k r w b).
Proof.
  intros Hnd Hrg [Ho Hs Hp Hc]. destruct b as [[n out] pw]. simpl in *.
  assert (Hmono : ∀ x, x ∈ log → x ∈ log ++ [(k, r)]) by (intros; apply elem_of_app; by left).
  assert (Hnew : (k, r) ∈ log ++ [(k, r)]) by (apply elem_of_app; right; by constructor).
  destruct Ho as (rs & Hl & Ha & ->).
  assert (Ha' : answers_in_order (log ++ [(k, r)]) rs) by (intros i x Hx; by apply Hmono, Ha).
  pose proof Hrg as Hrg'. specialize (Hrg' k r Hnew).
  assert (Hnk : k ∉ map fst pw).
  { intros Hin. apply list_elem_of_In, in_map_iff in Hin as ([k' [r' w']] & E & Hin). simpl in E. subst k'.
    apply list_elem_of_In, Hp in Hin as [Hin _]. rewrite map_app in Hnd.
    apply NoDup_app in Hnd as (_ & Hdis & _). apply (Hdis k); [|by constructor].
    apply list_elem_of_In, in_map_iff. exists (k, r'). split; [done|by apply list_elem_of_In]. }
  case_if.
  - subst k. unfold wadd64. rewrite Z.mod_small by zlia. apply deliver_ok; [done|done|]. split; simpl.
    + exists (rs ++ [r]). split_and!; [by rewrite len_app, Hl|by apply answers_snoc; rewrite ?Hl|].
      rewrite map_app, concat_app. simpl. by rewrite app_nil_r.
    + done.
    + intros k' r' w' Hx. destruct (Hp k' r' w' Hx). split; [by apply Hmono|lia].
    + intros k' r' [Hx|Hx]%elem_of_app; [destruct (Hc k' r' Hx); [left; lia|by right]|].
      apply list_elem_of_singleton in Hx as [= -> ->]. left. lia.
  - assert (Hkn : n < k).
    { destruct (decide (k < n)) as [Hlt|]; [|lia]. exfalso. rewrite <-Hl in Hlt. unfold len in Hlt.
      destruct (lookup_lt_is_Some_2 rs (Z.to_nat k)) as [r' Hr']; [lia|]. apply Ha in Hr'.
      rewrite Z2Nat.id in Hr' by lia. rewrite map_app in Hnd. apply NoDup_app in Hnd as (_ & Hdis & _).
      apply (Hdis k); [|by constructor].
      apply list_elem_of_In, in_map_iff. exists (k, r'). split; [done|by apply list_elem_of_In]. }
    split; simpl.
    + by exists rs.
    + by apply bt_insert_sorted.
    + intros k' r' w' [[= -> -> ->]|Hx]%bt_insert_elem; [split; [done|lia]| |done].
      destruct (Hp k' r' w' Hx). split; [by apply Hmono|lia].
    + intros k' r' [Hx|Hx]%elem_of_app.
      * destruct (Hc k' r' Hx) as [|[w' Hw]]; [by left|right; exists w'].
        apply bt_insert_elem; [done|]. by right.
      * apply list_elem_of_singleton in Hx as [= -> ->]. right. exists w.
        apply bt_insert_elem; [done|]. by left.
Qed.

(** ** Replies over a whole session *)

(** A turn whose writes succeed and whose response is well encoded. *)
Definition event_good (ev : Event) : Prop :=
  match event_reply ev with
  | Some (_, ReplyOk r _, ios) => ios_ok ios ∧ bad_base64 r = false
  | _ => True
  end.

(** The reply a turn takes in, by the number of its op. *)
Definition event_log (ev : Event) (s : LoopState) : list (Z * TunnelResponse) :=
  match event_reply ev with
  | Some (k, ReplyOk r _, _) =>
      match inflight (up s) !! k with Some meta => [(m_seq meta, r)] | None => [] end
  | _ => []
  end.

Fixpoint reply_log (evs : list Event) (s : LoopState) : list (Z * TunnelResponse) :=
  match evs with
  | [] => []
  | ev :: evs' =>
      match step ev s with
      | None => reply_log evs' s
      | Some (Continue s') => event_log ev s ++ reply_log evs' s'
      | Some _ => []
      end
  end.

Lemma step_down ev s s' :
  nothing_held s → event_good ev →
  Forall (λ e, bad_base64 e.2.1 = false) (pending_writes (down s)) →
  step ev s = Some (Continue s') →
  match event_reply ev with
  | Some (k, ReplyOk r _, _) => ∃ meta, inflight (up s) !! k = Some meta ∧
      buffer_of (down s') = receive (m_seq meta) r (was_empty_poll meta) (buffer_of (down s))
  | _ => down s' = down s
  end.
Proof.
  intros Hh Hg Hbs. unfold step. destruct (_ && _); [done|].
  destruct (eof_seen (down s)).
  { destruct ev as [|k o ios|al r|al| |k o ios|r]; try done. simpl.
    destruct (inflight (up s) !! k) as [meta|]; [|done]. destruct o as [resp sc|e| |]; try done.
    intros [= <-]. exists meta. split; [done|]. simpl. by apply grace_write_receive, (proj1 Hg). }
  destruct (bool_decide _).
  { destruct ev as [|k o ios|al r|al| |k o ios|r]; try done.
    - case_if; [|done]. unfold on_idle_read. destruct r as [[|x b]|]; try done.
      rewrite take_read_held by done. by intros [= <-].
    - destruct (park al s); [done|]. by intros [= <-]. }
  destruct ev as [|k o ios|al r|al| |k o ios|r]; try done.
  - destruct (refill_at s); [|done]. intros [= <-]. by destruct (on_refill_frame s Hh) as (_ & ? & _).
  - simpl. destruct (inflight (up s) !! k) as [meta|]; [|done]. intros [= E].
    destruct o as [resp sc|e| |]; simpl in E; try done; [|by simplify_eq].
    exists meta. split; [done|]. destruct Hg as [Hio Hb].
    by apply (on_reply_receive meta resp sc ios (remove_inflight k s)).
  - destruct (can_read s) eqn:Ec; [|done]. intros [= <-].
    by destruct (on_read_frame r s Hh Ec) as (_ & ? & _).
Qed.

(** Op numbers that are answered or in flight. *)
Definition used (log : list (Z * TunnelResponse)) (u : Up) : list Z :=
  map fst log ++ map m_seq (inflight u).

Record loop_ok (log : list (Z * TunnelResponse)) (s : LoopState) : Prop := {
  lo_held : nothing_held s;
  lo_buffer : buffer_ok log true (buffer_of (down s));
  lo_good : Forall (λ e, bad_base64 e.2 = false) log;
  lo_nodup : NoDup (used log (up s));
  lo_range : ∀ k, k ∈ used log (up s) → 0 ≤ k < next_send_seq (up s);
  lo_send : 0 ≤ next_send_seq (up s)
}.

Lemma sends_used b log u u' :
  sends b u u' → 0 ≤ next_send_seq u < u64_max → NoDup (used log u) →
  (∀ k, k ∈ used log u → 0 ≤ k < next_send_seq u) →
  NoDup (used log u') ∧ (∀ k, k ∈ used log u' → 0 ≤ k < next_send_seq u') ∧
  0 ≤ next_send_seq u' ∧
  ∀ k, k ∈ used log u' → k ∈ used log u ∨ k = next_send_seq u.
Proof.
  intros Hs Hu Hnd Hrg.
  assert (Hw : wadd64 (next_send_seq u) 1 = next_send_seq u + 1)
    by (unfold wadd64; rewrite Z.mod_small; zlia).
  assert (H1 : NoDup (used log u ++ [next_send_seq u])).
  { apply NoDup_app. split_and!; [done| |apply NoDup_singleton].
    intros k Hk ->%list_elem_of_singleton. apply Hrg in Hk. lia. }
  assert (H2 : ∀ k, k ∈ used log u ++ [next_send_seq u] →
    0 ≤ k < wadd64 (next_send_seq u) 1 ∧ (k ∈ used log u ∨ k = next_send_seq u)).
  { intros k [Hk| ->%list_elem_of_singleton]%elem_of_app; [|split; [lia|by right]].
    specialize (Hrg k Hk). split; [lia|by left]. }
  assert (Hgo : ∀ u', used log u' = used log u ++ [next_send_seq u] →
    next_send_seq u' = wadd64 (next_send_seq u) 1 →
    NoDup (used log u') ∧ (∀ k, k ∈ used log u' → 0 ≤ k < next_send_seq u') ∧
    0 ≤ next_send_seq u' ∧ ∀ k, k ∈ used log u' → k ∈ used log u ∨ k = next_send_seq u).
  { intros u1 E1 E2. rewrite E1, E2. split_and!; [done| |lia|]; intros k Hk; by apply H2. }
  destruct Hs as [u _|u _|u _].
  - split_and!; try done; [lia|]. by left.
  - apply Hgo; [|done]. unfold used. simpl. by rewrite map_app, app_assoc.
  - apply Hgo; [|done]. unfold used. simpl. by rewrite map_app, app_assoc.
Qed.

(** Taking in a reply moves its number from the ops in flight to the log, or
    forgets it. *)
Lemma answered_used log ev s :
  match event_reply ev with Some (k, _, _) => is_Some (inflight (up s) !! k) | None => True end →
  ∃ lost, used log (up s) ≡ₚ lost ++ used (log ++ event_log ev s) (answered ev (up s)).
Proof.
  unfold event_log, answered. destruct (event_reply ev) as [[[k o] ios]|]; intros Hk.
  2:{ exists []. by rewrite app_nil_r. }
  destruct Hk as [meta Hk]. rewrite Hk. unfold used, without. simpl.
  assert (Hp : map m_seq (inflight (up s)) ≡ₚ m_seq meta :: map m_seq (delete k (inflight (up s)))).
  { change (m_seq meta :: map m_seq (delete k (inflight (up s))))
      with (map m_seq (meta :: delete k (inflight (up s)))).
    apply Permutation_map. by apply delete_Permutation. }
  destruct o as [r sc|e| |].
  { exists []. by rewrite map_app, <-app_assoc, Hp. }
  all: exists [m_seq meta]; rewrite app_nil_r, Hp; solve_Permutation.
Qed.

Lemma loop_ok_step log ev s s' :
  loop_ok log s → next_send_seq (up s) < u64_max → event_good ev →
  step ev s = Some (Continue s') →
  loop_ok (log ++ event_log ev s) s' ∧
  (∀ k, k ∈ used (log ++ event_log ev s) (up s') → k ∈ used log (up s) ∨ k = next_send_seq (up s)) ∧
  next_send_seq (up s) ≤ next_send_seq (up s') ≤ next_send_seq (up s) + 1.
Proof.
  intros [Hh Hb Hg Hnd Hrg Hs0] Hlt Heg E.
  destruct (step_up ev s s' Hh E) as (Hh' & Hs & Hk).
  destruct (answered_used log ev s Hk) as [lost Hp].
  assert (Hnd1 : NoDup (used (log ++ event_log ev s) (answered ev (up s)))).
  { rewrite Hp in Hnd. by apply NoDup_app in Hnd as (_ & _ & ?). }
  assert (Hin1 : ∀ k, k ∈ used (log ++ event_log ev s) (answered ev (up s)) → k ∈ used log (up s)).
  { intros k Hin. rewrite Hp. apply elem_of_app. by right. }
  destruct (sends_used _ (log ++ event_log ev s) _ _ Hs) as (H1 & H2 & H3 & H4);
    [rewrite answered_seq; lia|done|rewrite answered_seq; auto|].
  split_and!; [|intros k Hin; specialize (H4 k Hin); rewrite answered_seq in H4; naive_solver
    |pose proof (sends_seq _ _ _ Hs) as Hq; rewrite answered_seq in Hq; lia..].
  assert (Hbs : Forall (λ e, bad_base64 e.2.1 = false) (pending_writes (down s))).
  { apply Forall_forall. intros [k [r w]] Hin. destruct (bo_pending _ _ _ Hb k r w Hin) as [Hl _].
    rewrite Forall_forall in Hg. by apply (Hg (k, r)). }
  pose proof (step_down ev s s' Hh Heg Hbs E) as Hd. unfold event_log, event_good in *.
  destruct (event_reply ev) as [[[k o] ios]|]; [destruct o as [r sc|e| |]|];
    try (rewrite app_nil_r in *; rewrite <-Hd in Hb; by split).
  destruct Hd as (meta & Hm & Hd). rewrite Hm in *.
  split; try done.
  - rewrite Hd. apply receive_ok; [| |done].
    + unfold used in H1. by apply NoDup_app in H1 as (? & _).
    + intros k' r' Hin. assert (Hu : k' ∈ used log (up s)).
      { apply Hin1. unfold used. apply elem_of_app. left. apply list_elem_of_In, in_map_iff.
        exists (k', r'). split; [done|by apply list_elem_of_In]. }
      apply Hrg in Hu. lia.
  - apply Forall_app. split; [done|]. apply Forall_singleton. by destruct Heg.
Qed.

Lemma loop_ok_run evs : ∀ log s s',
  loop_ok log s → next_send_seq (up s) + len evs < u64_mod → Forall event_good evs →
  tunnel_loop evs s = Running s' →
  loop_ok (log ++ reply_log evs s) s' ∧ next_send_seq (up s') ≤ next_send_seq (up s) + len evs.
Proof.
  induction evs as [|ev evs IH]; intros log s s' Hok Hlt Hg; simpl.
  { intros [= <-]. rewrite app_nil_r, len_nil. split; [done|lia]. }
  apply Forall_cons in Hg as [Hge Hg]. rewrite len_cons in Hlt. pose proof (len_nonneg evs).
  destruct (step ev s) as [[s1|s1|s1]|] eqn:E; try done.
  - intros Hr. destruct (loop_ok_step log ev s s1 Hok) as (Hok1 & _ & Hs1); [zlia|done|done|].
    rewrite app_assoc, len_cons. destruct (IH (log ++ event_log ev s) s1 s') as [? ?];
      [done|lia|done|done|split; [done|lia]].
  - intros Hr. rewrite len_cons. destruct (IH log s s') as [? ?]; [done|lia|done|done|split; [done|lia]].
Qed.

Lemma loop_start_ok pending n : loop_ok [] (loop_start pending n).
Proof.
  split; simpl; try done.
  - split; simpl; [by exists []|apply SSorted_nil|by intros ? ? ? []%elem_of_nil|].
    by intros ? ? []%elem_of_nil.
  - by destruct pending as [[|x b]|]; simpl; repeat (constructor; [set_solver|]); constructor.
  - intros k. rewrite prefill_seq. destruct pending as [[|x b]|]; unfold used; simpl;
      change (wadd64 0 1) with 1; rewrite !elem_of_cons, elem_of_nil; lia.
  - rewrite prefill_seq. lia.
Qed.

Lemma loop_log_nodup log s : loop_ok log s → NoDup (map fst log).
Proof. intros Hok. by apply lo_nodup, NoDup_app in Hok as (? & _). Qed.

(** C3: downloads arrive complete and in order.  While the loop runs and the
    responses are well encoded, the client has been written exactly the
    payloads of the replies to ops [0, 1, .. , next_write_seq - 1], in that
    order, in whatever order the replies came in; each op is answered at most
    once; and delivery is never behind: the reply to the next number has not
    been received yet. *)
Theorem loop_downloads_in_order evs pending n s :
  len evs < u64_mod - 2 → Forall event_good evs →
  tunnel_loop evs (loop_start pending n) = Running s →
  let log := reply_log evs (loop_start pending n) in
  NoDup (map fst log) ∧
  (∃ rs, len rs = next_write_seq (down s) ∧ answers_in_order log rs ∧
     to_client (down s) = concat (map payload rs)) ∧
  ∀ r, ¬ (next_write_seq (down s), r) ∈ log.
Proof.
  intros Hlt Hg Hr log.
  pose proof (loop_ok_run evs [] _ s (loop_start_ok pending n)) as Hok.
  simpl in Hok. rewrite prefill_seq in Hok. specialize (Hok ltac:(lia) Hg Hr) as [Hok _].
  fold log in Hok. split; [by eapply loop_log_nodup|]. destruct (lo_buffer _ _ Hok) as [Ho _ Hp Hc]. split; [done|].
  intros r Hin. destruct (Hc _ _ Hin) as [Hl|[w Hw]]; [simpl in Hl; lia|].
  apply Hp in Hw as [_ Hw]. simpl in Hw. lia.
Qed.

(** An op whose reply will never be taken in. *)
Definition lost (m : Z) (log : list (Z * TunnelResponse)) (s : LoopState) : Prop :=
  (m ∉ used log (up s)) ∧ m < next_send_seq (up s).

Lemma lost_run m evs : ∀ log s s',
  loop_ok log s → lost m log s → next_send_seq (up s) + len evs < u64_mod → Forall event_good evs →
  tunnel_loop evs s = Running s' → lost m (log ++ reply_log evs s) s'.
Proof.
  induction evs as [|ev evs IH]; intros log s s' Hok Hl Hlt Hg; simpl.
  { intros [= <-]. by rewrite app_nil_r. }
  apply Forall_cons in Hg as [Hge Hg]. rewrite len_cons in Hlt. pose proof (len_nonneg evs).
  destruct (step ev s) as [[s1|s1|s1]|] eqn:E; try done.
  - intros Hr. destruct (loop_ok_step log ev s s1 Hok) as (Hok1 & Hu & Hs1); [zlia|done|done|].
    rewrite app_assoc. apply IH; try done; [|lia]. destruct Hl as [Hl1 Hl2].
    split; [|lia]. intros [|Heq]%Hu; [done|]. lia.
  - intros Hr. apply IH; try done. lia.
Qed.

Lemma lost_blocks m log s :
  loop_ok log s → 0 ≤ m → lost m log s → next_write_seq (down s) ≤ m.
Proof.
  intros Hok Hm [Hl _]. destruct (lo_buffer _ _ Hok) as [(rs & Hn & Ha & _) _ _ _]. simpl in Hn.
  destruct (decide (next_write_seq (down s) ≤ m)) as [|Hgt]; [done|]. exfalso. apply Hl.
  destruct (lookup_lt_is_Some_2 rs (Z.to_nat m)) as [r Hr]; [unfold len in Hn; lia|].
  apply Ha in Hr. rewrite Z2Nat.id in Hr by done. unfold used. apply elem_of_app. left.
  apply list_elem_of_In, in_map_iff. exists (m, r). split; [done|by apply list_elem_of_In].
Qed.

(** Delivery does not go back, and equal progress means equal output. *)
Lemma buffer_progress log log' s s' :
  loop_ok log s → loop_ok (log ++ log') s' →
  next_write_seq (down s) ≤ next_write_seq (down s') ∧
  (next_write_seq (down s) = next_write_seq (down s') → to_client (down s) = to_client (down s')).
Proof.
  intros Hok Hok'. pose proof (loop_log_nodup _ _ Hok') as Hnd.
  destruct (lo_buffer _ _ Hok) as [(rs & Hn & Ha & Ht) _ _ _].
  destruct (lo_buffer _ _ Hok') as [(rs' & Hn' & Ha' & Ht') _ Hp' Hc']. simpl in *.
  assert (Hin : ∀ i r, rs !! i = Some r → (Z.of_nat i, r) ∈ log ++ log').
  { intros i r Hi. apply elem_of_app. left. by apply Ha. }
  split.
  - destruct (decide (next_write_seq (down s') < next_write_seq (down s))) as [Hlt|]; [|lia].
    exfalso. pose proof (len_nonneg rs') as H0.
    destruct (lookup_lt_is_Some_2 rs (Z.to_nat (next_write_seq (down s')))) as [r Hr];
      [unfold len in Hn; lia|].
    apply Hin in Hr. rewrite Z2Nat.id in Hr by lia.
    destruct (Hc' _ _ Hr) as [|[w Hw]]; [lia|]. apply Hp' in Hw as [_ Hw]. lia.
  - intros E. rewrite Ht, Ht'. do 2 f_equal. apply list_eq_same_length with (n := length rs);
      [unfold len in *; lia|done|].
    intros i x y Hi Hx Hy. apply Hin in Hx. apply Ha' in Hy.
    apply list_elem_of_lookup in Hx as [a Hx], Hy as [b Hy].
    assert (a = b); [|by simplify_eq].
    eapply NoDup_lookup; [exact Hnd| |]; rewrite list_lookup_fmap, ?Hx, ?Hy; done.
Qed.

Lemma step_timeout_up k ios s s' :
  step (Reply k Timeout ios) s = Some (Continue s') → eof_seen (down s) = false →
  up s' = without k (up s) ∧ down s' = down s.
Proof.
  unfold step. intros E He. rewrite He in E. destruct (_ && _); [done|].
  destruct (bool_decide _); [done|]. simpl in E.
  destruct (inflight (up s) !! k); simplify_eq/=. done.
Qed.

(** A reply timeout stalls the download for good.  If the reply to the
    next op to be written times out ("retrying", says the log), nothing is
    written to the client any more, whatever replies arrive afterwards and
    however long the loop goes on. *)
Theorem reply_timeout_stalls evs1 evs2 k ios pending n meta s1 s :
  len evs1 + len evs2 < u64_mod - 3 → Forall event_good evs1 → Forall event_good evs2 →
  tunnel_loop evs1 (loop_start pending n) = Running s1 →
  inflight (up s1) !! k = Some meta → m_seq meta = next_write_seq (down s1) →
  eof_seen (down s1) = false →
  tunnel_loop (Reply k Timeout ios :: evs2) s1 = Running s →
  to_client (down s) = to_client (down s1).
Proof.
  intros Hlt Hg1 Hg2 Hr1 Hk Hm He Hr.
  pose proof (len_nonneg evs1) as Hl1. pose proof (len_nonneg evs2) as Hl2.
  pose proof (loop_ok_run evs1 [] _ s1 (loop_start_ok pending n)) as Hok1.
  simpl in Hok1. rewrite prefill_seq in Hok1. specialize (Hok1 ltac:(lia) Hg1 Hr1) as [Hok1 Hb].
  set (log1 := reply_log evs1 _) in *.
  cbn [tunnel_loop] in Hr. destruct (step (Reply k Timeout ios) s1) as [[s2|s2|s2]|] eqn:E; try done.
  - destruct (loop_ok_step log1 (Reply k Timeout ios) s1 s2 Hok1 ltac:(zlia) I E) as (Hok2 & _ & Hs2).
    change (event_log (Reply k Timeout ios) s1) with (@nil (Z * TunnelResponse)) in Hok2.
    rewrite app_nil_r in Hok2.
    assert (Hm1 : m_seq meta ∈ used log1 (up s1)).
    { unfold used. apply elem_of_app. right. apply list_elem_of_In, in_map_iff. exists meta.
      split; [done|]. by eapply list_elem_of_In, list_elem_of_lookup_2. }
    pose proof (lo_range _ _ Hok1 _ Hm1) as Hrg.
    assert (Hl2' : lost (m_seq meta) log1 s2).
    { split; [|lia]. apply step_timeout_up in E as [E _]; [|done]. unfold used. rewrite E. simpl.
      pose proof (lo_nodup _ _ Hok1) as Hnd. unfold used in *.
      rewrite (delete_Permutation _ _ _ Hk) in Hnd. simpl in Hnd.
      rewrite <-Permutation_middle in Hnd. by apply NoDup_cons in Hnd as [? _]. }
    destruct (loop_ok_run evs2 log1 s2 s Hok2 ltac:(lia) Hg2 Hr) as [Hok _].
    pose proof (lost_run _ evs2 log1 s2 s Hok2 Hl2' ltac:(lia) Hg2 Hr) as Hlost.
    pose proof (lost_blocks (m_seq meta) _ _ Hok ltac:(lia) Hlost) as Hle.
    destruct (buffer_progress log1 (reply_log evs2 s2) s1 s Hok1 Hok) as [Hmon Heq].
    symmetry. apply Heq. lia.
  - exfalso. unfold step in E. rewrite He in E. simpl in E.
    destruct (inflight (up s1)) eqn:Ei; [by rewrite lookup_nil in Hk|].
    simpl in E. rewrite Hk in E. done.
Qed.

(** ** Pipeline depth and elevation permits *)

(** The depth is within its range and the shared count is the others' [n]
    plus this session's permit. *)
Definition depth_ok (n : Z) (d : Depth) (elevated : Z) : Prop :=
  1 ≤ max_inflight d ≤ INFLIGHT_ACTIVE ∧ elevated = n + (if is_elevated d then 1 else 0).

Lemma account_write_depth wrote we n d :
  max_inflight (account_write wrote we n d) = max_inflight d ∧
  is_elevated (account_write wrote we n d) = is_elevated d.
Proof.
  unfold account_write. destruct wrote; [by destruct (1024 <=? n)|]. by destruct (we && _).
Qed.

Lemma flush_writes_depth pw : ∀ ios d dp,
  max_inflight (flush_writes pw ios d dp).2 = max_inflight dp ∧
  is_elevated (flush_writes pw ios d dp).2 = is_elevated dp.
Proof.
  induction pw as [|[k [r w]] pw IH]; intros ios d dp; [done|]. cbn [flush_writes].
  destruct (negb _); [done|]. destruct (write_tunnel_response _ _) as [[[]|] out]; try done.
  - destruct (IH (tl ios) (advance r (append_bytes out d))
      (account_write true w (approx_bytes r) dp)) as [-> ->]. apply account_write_depth.
  - destruct (IH (tl ios) (advance r (append_bytes out d)) (account_write false w 0 dp)) as [-> ->].
    apply account_write_depth.
Qed.

Lemma adapt_depth_ok n d e :
  0 ≤ n ≤ MAX_ELEVATED_TOTAL → depth_ok n d e →
  depth_ok n (adapt_depth d e).1 (adapt_depth d e).2.
Proof.
  unfold depth_ok, adapt_depth, INFLIGHT_ACTIVE, INFLIGHT_IDLE, INFLIGHT_OPTIMIST, MAX_ELEVATED_TOTAL.
  intros Hn [Hm He]. case_if; [|case_if; [|case_if]]; simpl.
  - destruct (is_elevated d) eqn:Ed; simpl; [|rewrite Ed; lia].
    unfold wsub64. rewrite Z.mod_small by zlia. lia.
  - lia.
  - destruct (is_elevated d) eqn:Ed; simpl; [rewrite Ed; lia|].
    case_if; simpl; [|rewrite Ed; lia]. unfold wadd64. rewrite Z.mod_small by zlia. lia.
  - lia.
Qed.

Lemma after_reply_depth n hs s :
  nothing_held s → 0 ≤ n ≤ MAX_ELEVATED_TOTAL → depth_ok n (depth s) (elevated_sessions s) →
  depth_ok n (depth (after_reply hs s)) (elevated_sessions (after_reply hs s)).
Proof.
  intros [Hb _] Hn Hd. unfold after_reply. rewrite Hb.
  pose proof (adapt_depth_ok n (depth s) (elevated_sessions s) Hn Hd) as Ha.
  destruct hs; [destruct (adapt_depth _ _) as [d e]|]; case_if; done.
Qed.

Definition outcome_state (o : Outcome) : LoopState :=
  match o with Continue s | Break s | Raise s => s end.

Lemma on_reply_depth n meta o ios s :
  nothing_held s → 0 ≤ n ≤ MAX_ELEVATED_TOTAL → depth_ok n (depth s) (elevated_sessions s) →
  let s' := outcome_state (on_reply meta o ios s) in depth_ok n (depth s') (elevated_sessions s').
Proof.
  intros Hh Hn Hd. destruct o as [r script|e| |]; simpl; try done. unfold on_reply_ok.
  set (s1 := match r_seq r with None => _ | Some _ => _ end).
  assert (H1 : nothing_held s1 ∧ depth_ok n (depth s1) (elevated_sessions s1)).
  { unfold s1. destruct (r_seq r); [done|]. split; [done|]. destruct Hd as [? ?].
    unfold depth_ok, INFLIGHT_ACTIVE in *. simpl. lia. }
  destruct H1 as [Hh1 Hd1]. destruct (r_e r); [done|].
  case_if; [|by apply after_reply_depth].
  destruct (write_tunnel_response _ _) as [[w|] out]; [|done].
  assert (Hgo : ∀ wo,
    let dp := account_write wo (was_empty_poll meta) (if wo then approx_bytes r else 0) (depth s1) in
    ∀ d, let s2 := set_depth (flush_writes (pending_writes (down s1)) (tl ios) d dp).2 s1 in
    depth_ok n (depth s2) (elevated_sessions s2)).
  { intros wo dp d. simpl. destruct (flush_writes_depth (pending_writes (down s1)) (tl ios) d dp) as [E1 E2].
    destruct (account_write_depth wo (was_empty_poll meta) (if wo then approx_bytes r else 0) (depth s1))
      as [E3 E4].
    unfold depth_ok in *. fold dp in E3, E4. rewrite E1, E2, E3, E4. done. }
  destruct w; [specialize (Hgo true (advance r (append_bytes out (down s1))))
    |specialize (Hgo false (advance r (append_bytes out (down s1))))|done];
  simpl in Hgo; destruct (flush_writes _ _ _ _) as [[ok d] dp]; (destruct ok; [|done]);
  by apply after_reply_depth.
Qed.

(** What stays true at every turn. *)
Definition bounded (n : Z) (s : LoopState) : Prop :=
  nothing_held s ∧ depth_ok n (depth s) (elevated_sessions s) ∧
  inflight_len s ≤ INFLIGHT_ACTIVE + 2.

Lemma without_inflight k u : len (inflight (without k u)) ≤ len (inflight u).
Proof.
  simpl. unfold len. rewrite delete_take_drop, length_app, length_take, length_drop. lia.
Qed.

Lemma sends_inflight b u u' : sends b u u' → len (inflight u') ≤ len (inflight u) + 1.
Proof.
  intros []; simpl; rewrite ?len_app, ?len_cons, ?len_nil; lia.
Qed.

Lemma step_depth n ev s o :
  bounded n s → 0 ≤ n ≤ MAX_ELEVATED_TOTAL → step ev s = Some o →
  depth_ok n (depth (outcome_state o)) (elevated_sessions (outcome_state o)).
Proof.
  intros (Hh & Hd & Hl) Hn. unfold step. destruct (_ && _); [by intros [= <-]|].
  destruct (eof_seen (down s)).
  { destruct ev as [|k o' ios|al r|al| |k o' ios|r]; try done; [by intros [= <-]|].
    destruct (inflight (up s) !! k); [|done]. by destruct o'; intros [= <-]. }
  destruct (bool_decide _).
  { destruct ev as [|k o' ios|al r|al| |k o' ios|r]; try done.
    - case_if; [|done]. unfold on_idle_read. destruct r as [[|x b]|]; try (by intros [= <-]).
      rewrite take_read_held by done. by intros [= <-].
    - destruct (park al s); [done|]. by intros [= <-]. }
  destruct ev as [|k o' ios|al r|al| |k o' ios|r]; try done.
  - destruct (refill_at s); [|done]. intros [= <-]. simpl.
    destruct (on_refill_frame s Hh) as (_ & _ & _ & -> & _). unfold on_refill.
    destruct (negb _ && _); [|done]. case_if; [|done]. by destruct (buffered_upload _); case_if.
  - destruct (inflight (up s) !! k); [|done]. intros [= <-]. by apply on_reply_depth.
  - destruct (can_read s) eqn:Ec; [|done]. intros [= <-]. simpl.
    destruct (on_read_frame r s Hh Ec) as (_ & _ & _ & E1 & E2). unfold depth_ok in *.
    rewrite E1, E2. unfold on_read. destruct r as [[|x b]|]; try done.
    rewrite take_read_held by done. by repeat case_if.
Qed.

(** A turn sends only when the pipeline has room. *)
Lemma step_room n ev s s' :
  bounded n s → step ev s = Some (Continue s') → inflight_len s' ≤ INFLIGHT_ACTIVE + 2.
Proof.
  intros (Hh & [Hm _] & Hl) E. destruct (step_up ev s s' Hh E) as (_ & Hs & _).
  pose proof (sends_inflight _ _ _ Hs) as Hle.
  assert (Ha : len (inflight (answered ev (up s))) ≤ inflight_len s).
  { unfold answered. destruct (event_reply ev) as [[[k o] ios]|]; [apply without_inflight|done]. }
  unfold inflight_len, INFLIGHT_ACTIVE in *. unfold step in E. destruct (_ && _) eqn:E0; [done|].
  destruct (eof_seen (down s)) eqn:Ee.
  { destruct ev as [|k o ios|al r|al| |k o ios|r]; try done. simpl in E.
    destruct (inflight (up s) !! k); [|done]. destruct o; simplify_eq.
    simpl. pose proof (without_inflight k (up s)). simpl in *. lia. }
  case_bool_decide as Hi.
  { rewrite Hi, len_nil in Ha. lia. }
  destruct ev as [|k o ios|al r|al| |k o ios|r]; try done.
  - destruct (refill_at s); simplify_eq. destruct (on_refill_frame s Hh) as (_ & _ & _ & _ & Hr).
    destruct (decide (len (inflight (up (on_refill s))) = len (inflight (up s)))) as [|Hne]; [lia|].
    assert (Hup : up (on_refill s) ≠ up s) by congruence. unfold answered in Hle, Ha. simpl in Hle.
    unfold inflight_len in Hr. specialize (Hr Hup). lia.
  - simpl in E. destruct (inflight (up s) !! k) as [meta|]; [|done]. injection E as E.
    destruct (on_reply_frame _ _ _ (remove_inflight k s) _ Hh E) as (-> & _).
    pose proof (without_inflight k (up s)). simpl in *. lia.
  - destruct (can_read s) eqn:Ec; simplify_eq. unfold can_read in Ec. bool_to_prop.
    unfold inflight_len, answered in *. simpl in *. lia.
Qed.

(** C29: the pipeline is bounded and the elevation permit is accounted for.  A
    session never has more than [INFLIGHT_ACTIVE + 2] ops in flight and its
    depth stays between one and [INFLIGHT_ACTIVE]; the shared count of elevated
    sessions includes its permit exactly while it is elevated, and the permit
    is given back when the loop returns; but when a write to the client fails
    while the session is elevated, the permit is never given back. *)
Theorem loop_pipeline_bounded evs pending n :
  0 ≤ n ≤ MAX_ELEVATED_TOTAL →
  match tunnel_loop evs (loop_start pending n) with
  | Running s => 1 ≤ max_inflight (depth s) ≤ INFLIGHT_ACTIVE ∧
      inflight_len s ≤ INFLIGHT_ACTIVE + 2 ∧
      elevated_sessions s = n + (if is_elevated (depth s) then 1 else 0)
  | Returned s => elevated_sessions s = n
  | IoError s => elevated_sessions s = n + (if is_elevated (depth s) then 1 else 0)
  end.
Proof.
  intros Hn.
  assert (Hb : bounded n (loop_start pending n)).
  { split; [done|]. split; [split; [by vm_compute|simpl; lia]|].
    by destruct pending as [[|x b]|]. }
  revert Hb. generalize (loop_start pending n). induction evs as [|ev evs IH]; intros s Hb; simpl.
  { destruct Hb as (_ & [[? ?] ?] & ?). by split_and!. }
  destruct (step ev s) as [[s'|s'|s']|] eqn:E; [| | |by apply IH];
    pose proof (step_depth n ev s _ Hb Hn E) as Hd; simpl in Hd.
  - apply IH. split; [|split; [done|by eapply step_room]].
    destruct Hb as [Hh _]. by destruct (step_up ev s s' Hh E).
  - destruct Hd as [_ He]. unfold release_permit. destruct (is_elevated (depth s')); simpl; [|lia].
    unfold wsub64, MAX_ELEVATED_TOTAL in *. rewrite Z.mod_small by zlia. lia.
  - by destruct Hd.
Qed.
End loop.

(** ** Witnesses *)

Definition resp_data (b : bytes) (seq : Z) : TunnelResponse :=
  mk_resp (Some (bs "a")) (Some (std_encode b)) None (Some false) None None (Some seq).

(** The two starting polls answered in the wrong order, then an upload. *)
Definition reordered : list Event :=
  [Reply 1 (ReplyOk (resp_data (bs "world") 1) (bs "s1")) [];
   Reply 0 (ReplyOk (resp_data (bs "hello ") 0) (bs "s1")) [];
   Keepalive false; Read (ReadBytes (bs "GET"))].

Lemma reordered_running :
  ∃ s, tunnel_loop reordered (loop_start None 0) = Running s ∧
    to_client (down s) = bs "hello world" ∧ next_write_seq (down s) = 2.
Proof. eexists. split; [by vm_compute|]. split; by vm_compute. Qed.

Lemma reordered_uploads :
  uploads (outbox (up (loop_state (tunnel_loop reordered (loop_start (Some (bs "hi ")) 0))))) =
    [(0, bs "hi "); (1, bs "GET")].
Proof. by vm_compute. Qed.

Lemma loop_uploads_complete_witness :
  concat (map snd (uploads (outbox (up (loop_state
    (tunnel_loop reordered (loop_start (Some (bs "hi ")) 0))))))) = bs "hi GET".
Proof.
  rewrite (proj2 (proj2 (loop_uploads_complete reordered (Some (bs "hi ")) 0 ltac:(by vm_compute)))).
  by vm_compute.
Defined.

Lemma reordered_good : Forall event_good reordered.
Proof. repeat constructor. Qed.

Lemma loop_downloads_in_order_witness :
  ∃ s rs, to_client (down s) = bs "hello world" ∧ len rs = 2 ∧
    to_client (down s) = concat (map payload rs).
Proof.
  destruct reordered_running as (s & Hr & Ht & Hn).
  destruct (loop_downloads_in_order reordered None 0 s ltac:(by vm_compute) reordered_good Hr)
    as (_ & (rs & Hl & _ & Hc) & _).
  exists s, rs. rewrite Hn in Hl. by split_and!.
Defined.

(** The first poll times out; the second one brings data. *)
Lemma reply_timeout_stalls_witness :
  ∃ s, tunnel_loop [Reply 0 Timeout []; Reply 0 (ReplyOk (resp_data (bs "hi") 1) (bs "s1")) []]
    (loop_start None 0) = Running s ∧ to_client (down s) = [].
Proof.
  eexists. split; [by vm_compute|].
  refine (reply_timeout_stalls [] [Reply 0 (ReplyOk (resp_data (bs "hi") 1) (bs "s1")) []] 0 []
    None 0 (mk_meta 0 true) (loop_start None 0) _ _ _ _ _ _ _ _ _);
    [by vm_compute|constructor|repeat constructor|done|done|done|done|by vm_compute].
Defined.

Lemma loop_pipeline_bounded_witness :
  match tunnel_loop reordered (loop_start None 4) with
  | Running s => inflight_len s ≤ 8
  | _ => False
  end.
Proof.
  pose proof (loop_pipeline_bounded reordered None 4 ltac:(unfold MAX_ELEVATED_TOTAL; lia)) as H.
  destruct (tunnel_loop reordered (loop_start None 4)) eqn:E; [|by vm_compute in E|by vm_compute in E].
  exact (proj1 (proj2 H)).
Defined.
