(* ===== verification/Session.v ===== *)
(** * One tunnelled connection (src/tunnel_client.rs)

    [tunnel_connection]: the pre-read of the client's first bytes, the
    connect ([connect_plain] or [connect_with_initial_data], with the
    fallback to the former when the node does not know [connect_data]), the
    first response, the session loop and the close.  The replies of the
    multiplexer, the client's socket and the clock are inputs. *)

From Stdlib Require Import Strings.Byte.
From S2P Require Import Prelude RustBytes Base64 NodeHandlers Mux MuxState TunnelLoop.

Definition CODE_UNSUPPORTED_OP : bytes := bs "UNSUPPORTED_OP".

Definition is_server_speaks_first (port : Z) : bool :=
  bool_decide (port ∈ [21; 22; 25; 80; 110; 143; 587]).

Definition is_connect_data_unsupported_error_str (e : bytes) : bool :=
  let e := to_ascii_lowercase e in
  (contains e (bs "unknown op") || contains e (bs "unknown tunnel op"))
  && contains e (bs "connect_data").

Definition is_connect_data_unsupported_response (resp : TunnelResponse) : bool :=
  bool_decide (r_code resp = Some CODE_UNSUPPORTED_OP)
  || match r_e resp with Some e => is_connect_data_unsupported_error_str e | None => false end.

(** [std::io::Error] by kind; [SocketError] is one the client's socket
    raised. *)
Inductive IoErr := ConnectionRefused (msg : bytes) | Other (msg : bytes) | SocketError.

(** ** Connecting *)

(** The reply of a [oneshot] channel: [None] when its sender was dropped. *)
Definition connect_plain (now : Z) (host : bytes) (port : Z)
    (reply : option (result TunnelResponse bytes)) (c : UnreachableCache)
    : result bytes IoErr * UnreachableCache :=
  match reply with
  | Some (Ok resp) =>
      match r_e resp with
      | Some e => (Err (ConnectionRefused e), record_unreachable_if_match now host port e c)
      | None =>
          (match r_sid resp with
           | Some sid => Ok sid
           | None => Err (Other (bs "tunnel connect: no session id"))
           end, c)
      end
  | Some (Err e) => (Err (ConnectionRefused e), c)
  | None => (Err (Other (bs "mux channel closed")), c)
  end.

Inductive ConnectDataOutcome := Opened (sid : bytes) (response : TunnelResponse) | Unsupported.

Definition connect_with_initial_data (now : Z) (host : bytes) (port : Z) (reply : option Mux.Reply)
    (c : UnreachableCache) : result ConnectDataOutcome IoErr * UnreachableCache :=
  match reply with
  | Some (Ok (resp, _)) =>
      if is_connect_data_unsupported_response resp then (Ok Unsupported, c)
      else
        match r_e resp with
        | Some e => (Err (ConnectionRefused e), record_unreachable_if_match now host port e c)
        | None =>
            (match r_sid resp with
             | Some sid => Ok (Opened sid resp)
             | None => Err (Other (bs "tunnel connect_data: no session id"))
             end, c)
        end
  | Some (Err e) =>
      if is_connect_data_unsupported_error_str e then (Ok Unsupported, c)
      else (Err (ConnectionRefused e), c)
  | None => (Err (Other (bs "mux channel closed")), c)
  end.

(** ** Shared state *)

Record Prereads := mk_prereads {
  preread_win : Z;
  preread_loss : Z;
  preread_skip_port : Z;
  preread_skip_unsupported : Z;
  preread_win_total_us : Z;
  preread_total_events : Z
}.

Definition record_preread_win (us : Z) (p : Prereads) : Prereads :=
  mk_prereads (wadd64 (preread_win p) 1) (preread_loss p) (preread_skip_port p)
    (preread_skip_unsupported p) (wadd64 (preread_win_total_us p) us)
    (wadd64 (preread_total_events p) 1).
Definition record_preread_loss (p : Prereads) : Prereads :=
  mk_prereads (preread_win p) (wadd64 (preread_loss p) 1) (preread_skip_port p)
    (preread_skip_unsupported p) (preread_win_total_us p) (wadd64 (preread_total_events p) 1).
Definition record_preread_skip_port (p : Prereads) : Prereads :=
  mk_prereads (preread_win p) (preread_loss p) (wadd64 (preread_skip_port p) 1)
    (preread_skip_unsupported p) (preread_win_total_us p) (wadd64 (preread_total_events p) 1).
Definition record_preread_skip_unsupported (p : Prereads) : Prereads :=
  mk_prereads (preread_win p) (preread_loss p) (preread_skip_port p)
    (wadd64 (preread_skip_unsupported p) 1) (preread_win_total_us p)
    (wadd64 (preread_total_events p) 1).

(** The part of [TunnelMux] a connection uses. *)
Record Shared := mk_shared {
  connect_data_unsupported : bool;
  unreachable_cache : UnreachableCache;
  prereads : Prereads
}.

Definition set_cache (c : UnreachableCache) (sh : Shared) : Shared :=
  mk_shared (connect_data_unsupported sh) c (prereads sh).
Definition set_prereads (p : Prereads) (sh : Shared) : Shared :=
  mk_shared (connect_data_unsupported sh) (unreachable_cache sh) p.
Definition mark_connect_data_unsupported (sh : Shared) : Shared :=
  mk_shared true (unreachable_cache sh) (prereads sh).

(** ** The connection *)

(** The pre-read: end of file, bytes (and how long they took), an error, or
    nothing in time. *)
Inductive Preread := PreEof | PreBytes (b : bytes) (us : Z) | PreError | PreTimeout.

Record SessionEnv := mk_senv {
  e_now : Z;
  e_preread : Preread;
  e_connect_data : option Mux.Reply;
  e_connect : option (result TunnelResponse bytes);
  e_first_write : IoWrite;
  e_turns : list Event;
  e_elevated : Z
}.

(** What the connection sends to the multiplexer; channels are internal. *)
Inductive Sent :=
  | SConnect
  | SConnectData (data : bytes)
  | SData (o : DataOp)
  | SClose (sid : bytes).

(** The first bytes: [inl] when the connection ends before connecting. *)
Definition initial_data (env : SessionEnv) (port : Z) (sh : Shared)
    : (result unit IoErr + option bytes) * Shared :=
  if connect_data_unsupported sh then
    (inr None, set_prereads (record_preread_skip_unsupported (prereads sh)) sh)
  else if is_server_speaks_first port then
    (inr None, set_prereads (record_preread_skip_port (prereads sh)) sh)
  else
    match e_preread env with
    | PreEof => (inl (Ok tt), sh)
    | PreBytes b us => (inr (Some b), set_prereads (record_preread_win us (prereads sh)) sh)
    | PreError => (inl (Err SocketError), sh)
    | PreTimeout => (inr None, set_prereads (record_preread_loss (prereads sh)) sh)
    end.

(** The session, its first response and the data to replay. *)
Definition connect_session (env : SessionEnv) (host : bytes) (port : Z) (initial : option bytes)
    (sh : Shared) : result (bytes * option TunnelResponse * option bytes) IoErr * list Sent * Shared :=
  let plain replay sent sh :=
    let '(r, c) := connect_plain (e_now env) host port (e_connect env) (unreachable_cache sh) in
    (match r with Ok sid => Ok (sid, None, replay) | Err e => Err e end,
     sent ++ [SConnect], set_cache c sh) in
  match initial with
  | Some data =>
      let '(r, c) := connect_with_initial_data (e_now env) host port (e_connect_data env)
        (unreachable_cache sh) in
      let sh := set_cache c sh in
      match r with
      | Ok (Opened sid resp) => (Ok (sid, Some resp, None), [SConnectData data], sh)
      | Ok Unsupported => plain (Some data) [SConnectData data] (mark_connect_data_unsupported sh)
      | Err e => (Err e, [SConnectData data], sh)
      end
  | None => plain None [] sh
  end.

Section connection.
Context `{!Base64}.

(** How the session block ends, with its ops and the bytes written. *)
Inductive SessionEnd := StillRunning | Ended (r : result unit IoErr).

Definition run_loop (env : SessionEnv) (pending : option bytes) : SessionEnd * LoopState :=
  match tunnel_loop (e_turns env) (loop_start pending (e_elevated env)) with
  | Running s => (StillRunning, s)
  | Returned s => (Ended (Ok tt), s)
  | IoError s => (Ended (Err SocketError), s)
  end.

(** The async block around the loop: the first response is written before
    the loop starts. *)
Definition session_block (env : SessionEnv) (first : option TunnelResponse) (pending : option bytes)
    : SessionEnd * list DataOp * bytes :=
  let loop out :=
    let '(e, s) := run_loop env pending in (e, outbox (up s), out ++ to_client (down s)) in
  match first with
  | None => loop []
  | Some resp =>
      let '(r, out) := write_tunnel_response (e_first_write env) resp in
      match r with
      | Err _ => (Ended (Err SocketError), [], out)
      | Ok BadBase64 => (Ended (Ok tt), [], out)
      | Ok _ => if default false (r_eof resp) then (Ended (Ok tt), [], out) else loop out
      end
  end.

(** [tunnel_connection]: how it ends, what it sent to the multiplexer, what
    it wrote to the client, and the shared state. *)
Definition tunnel_connection (env : SessionEnv) (host : bytes) (port : Z) (sh : Shared)
    : SessionEnd * list Sent * bytes * Shared :=
  let '(pre, sh) := initial_data env port sh in
  match pre with
  | inl r => (Ended r, [], [], sh)
  | inr initial =>
      let '(opened, sent, sh) := connect_session env host port initial sh in
      match opened with
      | Err e => (Ended (Err e), sent, [], sh)
      | Ok (sid, first, pending) =>
          let '(e, ops, out) := session_block env first pending in
          match e with
          | StillRunning => (e, sent ++ map SData ops, out, sh)
          | Ended _ => (e, sent ++ map SData ops ++ [SClose sid], out, sh)
          end
      end
  end.
End connection.

(** ** A whole connection *)

Definition closed_sids (msgs : list Sent) : list bytes :=
  omap (λ m, match m with SClose sid => Some sid | _ => None end) msgs.
Definition data_ops (msgs : list Sent) : list DataOp :=
  omap (λ m, match m with SData o => Some o | _ => None end) msgs.
Definition connect_payload (msgs : list Sent) : bytes :=
  concat (omap (λ m, match m with SConnectData b => Some b | _ => None end) msgs).

(** The session a connection opens: its id, first response and the data it
    replays; and the bytes read before connecting. *)
Definition session_of (env : SessionEnv) (host : bytes) (port : Z) (sh : Shared)
    : option (bytes * option TunnelResponse * option bytes * bytes) :=
  let '(pre, sh) := initial_data env port sh in
  match pre with
  | inl _ => None
  | inr initial =>
      match connect_session env host port initial sh with
      | (Ok (sid, first, pending), _, _) => Some (sid, first, pending, default [] initial)
      | _ => None
      end
  end.

Section facts.
Context `{!Base64}.

(** Whether the connection gets as far as the session loop. *)
Definition enters_loop (env : SessionEnv) (first : option TunnelResponse) : bool :=
  match first with
  | None => true
  | Some resp =>
      match (write_tunnel_response (e_first_write env) resp).1 with
      | Ok Wrote | Ok NoData => negb (default false (r_eof resp))
      | _ => false
      end
  end.

(** What reaches the node of the client's bytes: the connect payload if the
    node accepted it, then the uploads. *)
Definition bytes_to_node (first : option TunnelResponse) (msgs : list Sent) : bytes :=
  match first with Some _ => connect_payload msgs | None => [] end
  ++ concat (map snd (uploads (data_ops msgs))).

Lemma open_session_sent env host port initial sh r sent sh' :
  connect_session env host port initial sh = (r, sent, sh') →
  closed_sids sent = [] ∧ data_ops sent = [] ∧
  match r with
  | Ok (_, Some _, pending) => pending = None ∧ connect_payload sent = default [] initial
  | Ok (_, None, pending) => pending = initial
  | Err _ => True
  end.
Proof.
  unfold connect_session. destruct initial as [data|].
  - destruct (connect_with_initial_data _ _ _ _ _) as [[[sid resp|]|e] c].
    + intros [= <- <- _]. simpl. split_and!; try done. unfold connect_payload. simpl.
      by rewrite app_nil_r.
    + destruct (connect_plain _ _ _ _ _) as [[sid|e] c']; by intros [= <- <- _].
    + by intros [= <- <- _].
  - destruct (connect_plain _ _ _ _ _) as [[sid|e] c']; by intros [= <- <- _].
Qed.

Lemma closed_sids_app l l' : closed_sids (l ++ l') = closed_sids l ++ closed_sids l'.
Proof. apply omap_app. Qed.
Lemma data_ops_app l l' : data_ops (l ++ l') = data_ops l ++ data_ops l'.
Proof. apply omap_app. Qed.
Lemma connect_payload_app l l' : connect_payload (l ++ l') = connect_payload l ++ connect_payload l'.
Proof. unfold connect_payload. by rewrite omap_app, concat_app. Qed.

Lemma sent_data ops :
  closed_sids (map SData ops) = [] ∧ data_ops (map SData ops) = ops ∧
  connect_payload (map SData ops) = [].
Proof.
  induction ops as [|o ops (H1 & H2 & H3)]; [done|]. split_and!; [done| |done].
  change (data_ops (map SData (o :: ops))) with (o :: data_ops (map SData ops)). by rewrite H2.
Qed.

Lemma sent_shape (sent : list Sent) ops (closing : list Sent) :
  closed_sids sent = [] → data_ops sent = [] → data_ops closing = [] →
  connect_payload closing = [] →
  let msgs := sent ++ map SData ops ++ closing in
  closed_sids msgs = closed_sids closing ∧ data_ops msgs = ops ∧
  connect_payload msgs = connect_payload sent.
Proof.
  intros Hc Hd Hd' Hp msgs. unfold msgs. destruct (sent_data ops) as (E1 & E2 & E3).
  rewrite !closed_sids_app, !data_ops_app, !connect_payload_app, Hc, Hd, Hd', Hp, E1, E2, E3.
  by rewrite !app_nil_r.
Qed.

Lemma session_block_ops env first pending e ops out :
  len (e_turns env) < u64_mod - 2 →
  session_block env first pending = (e, ops, out) →
  (enters_loop env first = true →
   concat (map snd (uploads ops)) =
     default [] pending ++ client_bytes (e_turns env) (loop_start pending (e_elevated env))) ∧
  (enters_loop env first = false → ops = []).
Proof.
  intros Hlt. unfold session_block, enters_loop, run_loop.
  pose proof (loop_uploads_all (e_turns env) pending (e_elevated env) Hlt) as Hu.
  assert (Hloop : ∀ o, (let '(e', s) :=
      match tunnel_loop (e_turns env) (loop_start pending (e_elevated env)) with
      | Running s => (StillRunning, s) | Returned s => (Ended (Ok tt), s)
      | IoError s => (Ended (Err SocketError), s) end in
      (e', outbox (up s), o ++ to_client (down s))) = (e, ops, out) →
    concat (map snd (uploads ops)) =
     default [] pending ++ client_bytes (e_turns env) (loop_start pending (e_elevated env))).
  { intros o. destruct (tunnel_loop _ _); intros [= _ <- _]; exact Hu. }
  destruct first as [resp|]; [|intros E; split; [intros _; by eapply Hloop|done]].
  destruct (write_tunnel_response _ _) as [[[]|] o]; simpl;
    try (intros [= _ <- _]; by split);
    (destruct (default false (r_eof resp)); simpl;
      [intros [= _ <- _]; by split|intros E; split; [intros _; by eapply Hloop|done]]).
Qed.

(** C4: a connection opens, carries and closes one session.  Unless it fails
    before a session exists (then nothing is closed and no data sent), it
    sends exactly one close for the session once it ends, on every path; and
    when it gets to the loop, the bytes the node receives (the payload of an
    accepted [connect_data] and the uploads) are exactly those the client
    sent, the bytes read before connecting included and not repeated, also
    when [connect_data] is refused and they are replayed. *)
Theorem session_bytes_and_close env host port sh e msgs out sh' :
  len (e_turns env) < u64_mod - 2 →
  tunnel_connection env host port sh = (e, msgs, out, sh') →
  match session_of env host port sh with
  | None => closed_sids msgs = [] ∧ data_ops msgs = []
  | Some (sid, first, pending, early) =>
      closed_sids msgs = match e with Ended _ => [sid] | StillRunning => [] end ∧
      (enters_loop env first = true →
       bytes_to_node first msgs =
         early ++ client_bytes (e_turns env) (loop_start pending (e_elevated env)))
  end.
Proof.
  intros Hlt. unfold tunnel_connection, session_of.
  destruct (initial_data env port sh) as [[r|initial] sh1]; [by intros [= _ <- _ _]|].
  destruct (connect_session env host port initial sh1) as [[r sent] sh2] eqn:Eo.
  destruct (open_session_sent _ _ _ _ _ _ _ _ Eo) as (Hc & Hd & Hr).
  destruct r as [[[sid first] pending]|er]; [|by intros [= _ <- _ _]].
  destruct (session_block env first pending) as [[e1 ops] out1] eqn:Eb.
  destruct (session_block_ops _ _ _ _ _ _ Hlt Eb) as [Hops _].
  assert (Hgo : ∀ closing, data_ops closing = [] → connect_payload closing = [] →
    msgs = sent ++ map SData ops ++ closing →
    closed_sids msgs = closed_sids closing ∧
    (enters_loop env first = true →
     bytes_to_node first msgs =
       default [] initial ++ client_bytes (e_turns env) (loop_start pending (e_elevated env)))).
  { intros closing H1 H2 ->. destruct (sent_shape sent ops closing Hc Hd H1 H2) as (-> & Ed & Ep).
    split; [done|]. intros Hl. unfold bytes_to_node. rewrite Ed, Ep, (Hops Hl).
    destruct first as [resp|]; [|by rewrite Hr].
    destruct Hr as [-> ->]. done. }
  destruct e1; intros [= <- <- _ _].
  - apply (Hgo []); [done|done|]. by rewrite app_nil_r.
  - by apply (Hgo [SClose sid]).
Qed.
End facts.

(** ** Witness *)

(** The client speaks first, the node does not know [connect_data]: the bytes
    are replayed; then one more chunk, and the node goes away. *)
Definition fallback_env : SessionEnv :=
  mk_senv 0 (PreBytes (bs "hello ") 20)
    (Some (Ok (unsupported_op (bs "connect_data"), bs "s1")))
    (Some (Ok (mk_resp (Some (bs "sid1")) None None None None None None)))
    WrittenAll [Read (ReadBytes (bs "world")); Reply 0 Dropped []] 0.

Definition fresh_shared : Shared := mk_shared false ∅ (mk_prereads 0 0 0 0 0 0).

Lemma session_bytes_and_close_witness :
  ∃ msgs, (tunnel_connection fallback_env (bs "host") 443 fresh_shared).1.1.2 = msgs ∧
    closed_sids msgs = [bs "sid1"] ∧ bytes_to_node None msgs = bs "hello world".
Proof.
  destruct (tunnel_connection fallback_env (bs "host") 443 fresh_shared)
    as [[[e msgs] out] sh'] eqn:E.
  exists msgs. split; [done|].
  pose proof (session_bytes_and_close fallback_env (bs "host") 443 fresh_shared e msgs out sh'
    ltac:(by vm_compute) E) as H.
  assert (Es : session_of fallback_env (bs "host") 443 fresh_shared =
    Some (bs "sid1", None, Some (bs "hello "), bs "hello ")) by (by vm_compute).
  rewrite Es in H. destruct H as [Hc Hb].
  assert (Ee : e = Ended (Ok tt)).
  { replace e with (tunnel_connection fallback_env (bs "host") 443 fresh_shared).1.1.1
      by (by rewrite E). by vm_compute. }
  rewrite Ee in Hc. split; [exact Hc|]. rewrite (Hb eq_refl). by vm_compute.
Defined.
