(* ===== verification/EndToEnd.v ===== *)
(** * From the client's socket to the node's socket

    The uploads of a session loop ([TunnelLoop]) composed with the node's
    sequence-ordered write ([NodeSession]): batches may reorder and repeat the
    ops on the way. *)

From Stdlib Require Import Strings.Byte.
From S2P Require Import Prelude RustBytes Base64 NodeHandlers NodeSession TunnelLoop.

(** The numbered chunks as they arrive at the node. *)
Definition arrive (s : SessionInner) (chunks : list (Z * bytes)) : SessionInner :=
  foldl (λ s wb, write_data (Some wb.1) wb.2 s) s chunks.

(** The payload a session sent under a number. *)
Definition chunk_at (us : list (Z * bytes)) (k : Z) : bytes :=
  match us !! Z.to_nat k with Some wb => wb.2 | None => [] end.

Lemma chunk_at_elem us w b :
  map fst us = seqZ 0 (len us) → (w, b) ∈ us → 0 ≤ w < len us ∧ chunk_at us w = b.
Proof.
  intros Hs Hin. apply list_elem_of_lookup in Hin as [i Hi].
  assert (Hw : map fst us !! i = Some w) by (by rewrite list_lookup_fmap, Hi).
  rewrite Hs in Hw. apply lookup_seqZ in Hw as [-> Hlt].
  split; [lia|]. unfold chunk_at. by rewrite Z.add_0_l, Nat2Z.id, Hi.
Qed.

Lemma arrive_upload us s chunks :
  map fst us = seqZ 0 (len us) → (∀ x, x ∈ chunks → x ∈ us) →
  arrive s chunks = upload (chunk_at us) s (map fst chunks).
Proof.
  intros Hs. unfold arrive, upload. revert s.
  induction chunks as [|[w b] chunks IH]; intros s Hin; [done|]. simpl.
  destruct (chunk_at_elem us w b Hs) as [_ ->]; [apply Hin; by constructor|].
  apply IH. intros x Hx. apply Hin. by constructor.
Qed.

Lemma map_chunk_at us : map fst us = seqZ 0 (len us) → map (chunk_at us) (seqZ 0 (len us)) = map snd us.
Proof.
  intros Hs. rewrite <-Hs, map_map. apply map_ext_in. intros [w b] Hin. simpl.
  apply list_elem_of_In in Hin. by destruct (chunk_at_elem us w b Hs Hin).
Qed.

Section end_to_end.
Context `{!Base64}.

(** C30: uploads end to end.  Let the uploads of a session arrive at the node in
    any order and any number of times, the first one first and none missing:
    then what the node writes to the target is, byte for byte, what the client
    sent, early data included, and nothing stays pending. *)
Theorem upload_end_to_end evs pending n s first rest :
  len evs < u64_mod - 2 →
  let us := uploads (outbox (up (loop_state (tunnel_loop evs (loop_start pending n))))) in
  us !! 0%nat = Some first → (∀ x, x ∈ first :: rest ↔ x ∈ us) →
  NodeSession.next_write_seq s = None → NodeSession.pending_writes s = [] → writer s = [] →
  let s' := arrive s (first :: rest) in
  concat (writer s') = default [] pending ++ client_bytes evs (loop_start pending n) ∧
  NodeSession.pending_writes s' = [].
Proof.
  intros Hlt us Hf Hall Hn Hp Hw s'.
  destruct (loop_up evs (loop_start pending n) (default [] pending)) as [H1 _ _ Hs Hb];
    [done|apply prefill_ok|simpl; rewrite prefill_seq; lia|]. fold us in Hs, Hb.
  assert (Hfst : first.1 = 0).
  { assert (H0 : map fst us !! 0%nat = Some first.1) by (by rewrite list_lookup_fmap, Hf).
    rewrite Hs in H0. apply lookup_seqZ in H0 as [-> _]. done. }
  assert (Hpos : 0 < len us) by (unfold len; apply lookup_lt_Some in Hf; lia).
  assert (Hmax : len us ≤ u64_max).
  { pose proof (loop_uploads_bound evs pending n Hlt) as Hu. fold us in Hu. zlia. }
  unfold s'. rewrite (arrive_upload us) by (done || intros; by apply Hall).
  rewrite map_cons, Hfst.
  destruct (upload_all_arrived (chunk_at us) 0 (len us) (map fst rest) s) as (E1 & E2 & _);
    [done|done|lia|lia|lia| |].
  - intros k. assert (E : 0 :: map fst rest = map fst (first :: rest)) by (by rewrite map_cons, Hfst).
    rewrite E, Z.add_0_l. split.
    + intros Hk. apply list_elem_of_In, in_map_iff in Hk as ([w b] & <- & Hin).
      apply list_elem_of_In, Hall in Hin. by apply (chunk_at_elem us w b Hs) in Hin as [? _].
    + intros Hk. destruct (lookup_lt_is_Some_2 us (Z.to_nat k)) as [[w b] Hi]; [unfold len in Hk; lia|].
      assert (w = k) as <-.
      { assert (H0 : map fst us !! Z.to_nat k = Some w) by (by rewrite list_lookup_fmap, Hi).
        rewrite Hs in H0. apply lookup_seqZ in H0 as [-> _]. lia. }
      apply list_elem_of_In, in_map_iff. exists (w, b). split; [done|].
      apply list_elem_of_In, Hall. by eapply list_elem_of_lookup_2.
  - split; [|done]. rewrite E1, Hw, map_chunk_at by done. apply Hb.
Qed.
End end_to_end.

(** Early data and one read of the client; the second upload arrives three
    times, once more after a repeat of the first. *)
Lemma upload_end_to_end_witness :
  concat (writer (arrive (NodeSession.new_inner 0)
    [(0, bs "hi "); (1, bs "GET"); (0, bs "hi "); (1, bs "GET"); (1, bs "GET")])) = bs "hi GET".
Proof.
  destruct (upload_end_to_end reordered (Some (bs "hi ")) 0 (NodeSession.new_inner 0) (0, bs "hi ")
    [(1, bs "GET"); (0, bs "hi "); (1, bs "GET"); (1, bs "GET")]) as [-> _]; try by vm_compute.
  intros x. rewrite reordered_uploads.
  rewrite !elem_of_cons, elem_of_nil. tauto.
Defined.
