(* ===== verification/Http.v ===== *)
(** * HTTP responses of the range relay (src/domain_fronter.rs)

    Splitting a raw response, [Content-Range] and its validation, the
    synthetic heads the relay sends, and the error pages.  Strings are their
    UTF-8 bytes. *)

From Stdlib Require Import Strings.Byte.
From S2P Require Import Prelude RustBytes.

Definition crlf : bytes := [x0d; x0a].
Definition header_sep : bytes := [x0d; x0a; x0d; x0a].

(** Header fields in order, as trimmed name and value. *)
Definition Headers : Type := list (bytes * bytes).

(** [splitn(3, ' ')]: the second part, if there is one. *)
Definition second_word (s : bytes) : option bytes :=
  let? (_, rest) := split_once x20 s in Some (split_first x20 rest).

(** One header line of [split_response]: [None] when it is not UTF-8. *)
Definition parse_header_line (line : bytes) : option Headers :=
  let? line := from_utf8 line in
  let line := trim_end_matches x0d line in
  Some (match line with
        | [] => []
        | _ => match split_once x3a line with
               | Some (k, v) => [(trim k, trim v)]
               | None => []
               end
        end).

Fixpoint parse_header_lines (lines : list bytes) : option Headers :=
  match lines with
  | [] => Some []
  | line :: lines' =>
      let? h := parse_header_line line in
      let? hs := parse_header_lines lines' in
      Some (h ++ hs)
  end.

Definition split_response (raw : bytes) : option (Z * Headers * bytes) :=
  let? sep_pos := find_sub header_sep raw in
  let head := take sep_pos raw in
  let body := drop (sep_pos + 4) raw in
  match split_on x0a head with
  | [] => None
  | status_line :: lines =>
      let? status_line := from_utf8 status_line in
      let? word := second_word (trim_end_matches x0d status_line) in
      let? code := parse_u16 word in
      let? headers := parse_header_lines lines in
      Some (code, headers, body)
  end.

Record ContentRange := mk_range { cr_start : Z; cr_end : Z; cr_total : Z }.

(** [headers.iter().find(|(k, _)| k.eq_ignore_ascii_case(name))]. *)
Definition find_header (name : bytes) (hs : Headers) : option bytes :=
  let? (_, v) := List.find (λ kv, eq_ignore_ascii_case kv.1 name) hs in Some v.

Definition parse_content_range (headers : Headers) : option ContentRange :=
  let? value := find_header (bs "content-range") headers in
  let? (unit, rest) := split_once x20 (trim value) in
  if negb (eq_ignore_ascii_case unit (bs "bytes")) then None
  else
    let? (range, total) := split_once x2f (trim_start rest) in
    let? (s, e) := split_once x2d range in
    let? s := parse_u64 (trim s) in
    let? e := parse_u64 (trim e) in
    let? total := parse_u64 (trim total) in
    if (e <? s) || (total =? 0) || (total <=? e) then None
    else Some (mk_range s e total).

Definition content_range_matches_body (r : ContentRange) (body_len : Z) : bool :=
  (0 <? body_len) && (cr_end r - cr_start r + 1 =? body_len).

Definition probe_range_covers_complete_entity (r : ContentRange) (requested_end : Z) : bool :=
  (cr_start r =? 0) && (cr_total r <=? sat_add64 (cr_end r) 1)
  && (cr_total r <=? sat_add64 requested_end 1).

Definition validate_probe_range (status : Z) (headers : Headers) (body : bytes)
    (requested_end : Z) : option ContentRange :=
  if negb (status =? 206) then None
  else
    let? r := parse_content_range headers in
    if negb (cr_start r =? 0) || (requested_end <? cr_end r) then None
    else if content_range_matches_body r (len body)
            || probe_range_covers_complete_entity r requested_end then Some r
    else None.

Definition parse_range_start (range_header : bytes) : option Z :=
  let? s := strip_prefix (bs "bytes=") (trim range_header) in
  parse_u64 (trim (split_first x2d s)).

Definition validate_probe_range_at_offset (status : Z) (headers : Headers) (body : bytes)
    (req_start req_end : Z) : option ContentRange :=
  if negb (status =? 206) then None
  else
    let? r := parse_content_range headers in
    if negb (cr_start r =? req_start) || (req_end <? cr_end r) then None
    else if content_range_matches_body r (len body) then Some r
    else None.

Definition extract_exact_range_body (raw : bytes) (s e total : Z) : result bytes bytes :=
  match split_response raw with
  | None => Err (bs "malformed HTTP response")
  | Some (status, headers, body) =>
      if negb (status =? 206) then Err (bs "expected 206 Partial Content")
      else
        match parse_content_range headers with
        | None => Err (bs "missing or invalid Content-Range")
        | Some r =>
            if negb (cr_start r =? s) || negb (cr_end r =? e) || negb (cr_total r =? total)
            then Err (bs "unexpected Content-Range")
            else if negb (content_range_matches_body r (len body))
            then Err (bs "Content-Range/body length mismatch")
            else Ok body
        end
  end.

(** ** Synthetic responses *)

(** The header fields the relay does not forward. *)
Definition skip_header (k : bytes) : bool :=
  bool_decide (to_ascii_lowercase k ∈
    [bs "content-length"; bs "content-range"; bs "content-encoding";
     bs "transfer-encoding"; bs "connection"; bs "keep-alive"]).

Definition header_line (kv : bytes * bytes) : bytes := kv.1 ++ bs ": " ++ kv.2 ++ crlf.

Definition kept_lines (hs : Headers) : bytes :=
  concat (map header_line (List.filter (λ kv, negb (skip_header kv.1)) hs)).

Definition assemble_200_head (src_headers : Headers) (declared_length : Z) : bytes :=
  bs "HTTP/1.1 200 OK" ++ crlf ++ kept_lines src_headers ++
  bs "Content-Length: " ++ fmt_uint declared_length ++ crlf ++ crlf.

Definition assemble_full_200 (src_headers : Headers) (body : bytes) : bytes :=
  assemble_200_head src_headers (len body) ++ body.

Definition rewrite_206_to_200 (raw : bytes) : bytes :=
  match split_response raw with
  | Some (_, headers, body) => assemble_full_200 headers body
  | None => raw
  end.

Definition assemble_206_head (src_headers : Headers) (s total : Z) : bytes :=
  bs "HTTP/1.1 206 Partial Content" ++ crlf ++ kept_lines src_headers ++
  bs "Content-Range: bytes " ++ fmt_uint s ++ bs "-" ++ fmt_uint (wsub64 total 1) ++ bs "/" ++
  fmt_uint total ++ crlf ++
  bs "Content-Length: " ++ fmt_uint (sat_sub total s) ++ crlf ++ crlf.

(** What [write_response_with_head_transform] writes: the transformed head,
    then the body; a response without a head as it is. *)
Definition write_response_with_head_transform (response : bytes) (transform_head : bytes → bytes)
    : bytes :=
  match find_sub header_sep response with
  | None => response
  | Some idx => transform_head (take (idx + 4) response) ++ drop (idx + 4) response
  end.

(** ** Error pages *)

Definition status_text (code : Z) : bytes :=
  match code with
  | 200 => bs "OK"
  | 201 => bs "Created"
  | 204 => bs "No Content"
  | 206 => bs "Partial Content"
  | 301 => bs "Moved Permanently"
  | 302 => bs "Found"
  | 303 => bs "See Other"
  | 304 => bs "Not Modified"
  | 307 => bs "Temporary Redirect"
  | 308 => bs "Permanent Redirect"
  | 400 => bs "Bad Request"
  | 401 => bs "Unauthorized"
  | 403 => bs "Forbidden"
  | 404 => bs "Not Found"
  | 500 => bs "Internal Server Error"
  | 502 => bs "Bad Gateway"
  | 504 => bs "Gateway Timeout"
  | _ => bs "OK"
  end.

Definition html_escape (s : bytes) : bytes :=
  concat (map (λ c, match c with
                    | x26 => bs "&amp;"
                    | x3c => bs "&lt;"
                    | x3e => bs "&gt;"
                    | _ => [c]
                    end) s).

Definition error_response (status : Z) (message : bytes) : bytes :=
  let body := bs "<html><body><h1>" ++ fmt_uint status ++ bs "</h1><p>" ++ html_escape message ++
              bs "</p></body></html>" in
  bs "HTTP/1.1 " ++ fmt_uint status ++ bs " " ++ status_text status ++ crlf ++
  bs "Content-Type: text/html" ++ crlf ++
  bs "Content-Length: " ++ fmt_uint (len body) ++ crlf ++ crlf ++ body.

(** ** Where the head of an assembled response ends *)

(** A line that cannot be taken for the end of the head: no line feed, not
    empty, not starting with a carriage return. *)
Definition plain_line (l : bytes) : Prop :=
  (x0a ∉ l) ∧ match l with [] => False | c :: _ => c ≠ x0d end.

Lemma header_sep_not_here c s : c ≠ x0d → starts_with header_sep (c :: s) = false.
Proof.
  intros Hc. cbn. rewrite bool_decide_eq_false_2; [done|]. congruence.
Qed.

(** No match starts inside a line followed by CRLF and more text that does
    not start with CRLF. *)
Lemma find_sep_skip_line l s :
  (x0a ∉ l) → starts_with crlf s = false →
  find_sub header_sep (l ++ crlf ++ s) =
  match find_sub header_sep s with Some i => Some (i + (length l + 2))%nat | None => None end.
Proof.
  intros Hl Hs. induction l as [|c l IH].
  - assert (H1 : starts_with header_sep (crlf ++ s) = false) by (cbn in *; exact Hs).
    assert (H2 : starts_with header_sep (x0a :: s) = false) by reflexivity.
    change ([] ++ crlf ++ s) with (x0d :: x0a :: s). cbn [find_sub].
    change (x0d :: x0a :: s) with (crlf ++ s). rewrite H1, H2.
    destruct (find_sub header_sep s); [|done]. f_equal. simpl. lia.
  - apply not_elem_of_cons in Hl as [Hc Hl].
    assert (H1 : starts_with header_sep ((c :: l) ++ crlf ++ s) = false).
    { destruct (decide (c = x0d)) as [->|Hne]; [|by apply header_sep_not_here].
      destruct l as [|c' l]; cbn; [done|].
      apply not_elem_of_cons in Hl as [Hc' _].
      rewrite (bool_decide_eq_false_2 (x0a = c')) by done. done. }
    change ((c :: l) ++ crlf ++ s) with (c :: (l ++ crlf ++ s)) in *.
    cbn [find_sub]. rewrite H1, (IH Hl). destruct (find_sub header_sep s); [|done].
    f_equal. cbn [length]. lia.
Qed.

Lemma plain_line_no_crlf l s : plain_line l → starts_with crlf (l ++ s) = false.
Proof.
  intros [_ Hl]. destruct l as [|c l]; [done|]. cbn.
  rewrite bool_decide_eq_false_2; [done|]. congruence.
Qed.

Lemma find_sep_head ls body :
  Forall plain_line ls → ls ≠ [] →
  find_sub header_sep (concat (map (λ l, l ++ crlf) ls) ++ crlf ++ body) =
  Some (length (concat (map (λ l, l ++ crlf) ls)) - 2)%nat.
Proof.
  intros Hf Hne. induction Hf as [|l ls Hl Hf IH]; [done|]. cbn [map concat].
  rewrite <-!app_assoc. destruct ls as [|l' ls].
  - destruct Hl as [Hlf Hh]. cbn [map concat app].
    assert (Hend : ∀ l, (x0a ∉ l) → find_sub header_sep (l ++ header_sep ++ body) = Some (length l)).
    { clear. intros l Hl. induction l as [|c l IH]; [reflexivity|].
      apply not_elem_of_cons in Hl as [Hc Hl]. change ((c :: l) ++ ?x) with (c :: (l ++ x)).
      cbn [find_sub]. rewrite (IH Hl).
      destruct (starts_with header_sep (c :: l ++ header_sep ++ body)) eqn:E; [|done].
      exfalso. destruct l as [|c' l]; [cbn in E; by rewrite andb_false_r in E|].
      apply not_elem_of_cons in Hl as [Hc' _]. cbn in E.
      rewrite (bool_decide_eq_false_2 (x0a = c')) in E by done. by rewrite andb_false_r in E. }
    change (crlf ++ crlf ++ body) with (header_sep ++ body). rewrite Hend by done.
    rewrite app_nil_r, length_app. f_equal. change (length crlf) with 2%nat. lia.
  - rewrite find_sep_skip_line; [|apply Hl|].
    + rewrite IH by done. rewrite !length_app. change (length crlf) with 2%nat. f_equal.
      cbn [map concat]. rewrite !length_app. change (length crlf) with 2%nat. lia.
    + cbn [map concat]. rewrite <-!app_assoc. apply plain_line_no_crlf.
      by inversion Hf.
Qed.

Lemma write_response_assembled ls body f :
  Forall plain_line ls → ls ≠ [] →
  write_response_with_head_transform (concat (map (λ l, l ++ crlf) ls) ++ crlf ++ body) f =
  f (concat (map (λ l, l ++ crlf) ls) ++ crlf) ++ body.
Proof.
  intros Hf Hne. unfold write_response_with_head_transform. rewrite find_sep_head by done.
  assert (Hlen : (2 ≤ length (concat (map (λ l, l ++ crlf) ls)))%nat).
  { destruct ls as [|l ls]; [done|]. cbn [map concat]. rewrite !length_app.
    change (length crlf) with 2%nat. lia. }
  replace (length (concat (map (λ l, l ++ crlf) ls)) - 2 + 4)%nat
    with (length (concat (map (λ l, l ++ crlf) ls) ++ crlf))
    by (rewrite length_app; change (length crlf) with 2%nat; lia).
  rewrite app_assoc, take_app_length, drop_app_length. done.
Qed.

(** ** The headers of a split response are clean *)

(** A name and a value that print as one plain line. *)
Definition clean_header (kv : bytes * bytes) : Prop :=
  (x0a ∉ kv.1) ∧ (x0a ∉ kv.2) ∧ match kv.1 with [] => True | c :: _ => c ≠ x0d end.

Lemma trim_loop_drop ws fuel s : ∃ n, trim_loop ws fuel s = drop n s.
Proof.
  revert s. induction fuel as [|fuel IH]; intros s; simpl; [by exists 0%nat|].
  destruct (ws s) as [|n]; [by exists 0%nat|].
  destruct (IH (drop (S n) s)) as [m ->]. exists (S n + m)%nat. by rewrite drop_drop.
Qed.

Lemma trim_loop_done fuel s :
  (length s ≤ fuel)%nat → ws_len (trim_loop ws_len fuel s) = 0%nat.
Proof.
  revert s. induction fuel as [|fuel IH]; intros s Hl; simpl.
  - by destruct s; [|simpl in Hl; lia].
  - destruct (ws_len s) as [|n] eqn:E; [done|]. apply IH. rewrite length_drop.
    destruct s; [done|]. simpl in *. lia.
Qed.

Lemma trim_prefix s : ∃ n m, trim s = take n (drop m s) ∧ ws_len (drop m s) = 0%nat.
Proof.
  unfold trim, trim_end. unfold trim_start.
  pose proof (trim_loop_done (length s) s ltac:(lia)) as Hw.
  destruct (trim_loop_drop ws_len (length s) s) as [m Hm]. rewrite Hm in *.
  destruct (trim_loop_drop ws_len_rev (length (drop m s)) (rev (drop m s))) as [n ->].
  exists (length (drop m s) - n)%nat, m. split; [|done].
  rewrite <-(rev_involutive (drop m s)) at 3. rewrite firstn_rev, length_rev.
  f_equal. destruct (decide (n ≤ length (drop m s))%nat).
  - f_equal. lia.
  - rewrite !drop_ge; [done|rewrite length_rev; lia..].
Qed.

Lemma trim_not_in x s : (x ∉ s) → (x ∉ trim s).
Proof.
  destruct (trim_prefix s) as (n & m & -> & _). intros Hx Hin. apply Hx.
  apply elem_of_take in Hin as (i & Hin & _).
  rewrite lookup_drop in Hin. by eapply list_elem_of_lookup_2.
Qed.

Lemma trim_no_cr s : match trim s with [] => True | c :: _ => c ≠ x0d end.
Proof.
  destruct (trim_prefix s) as (n & m & -> & Hw).
  destruct (drop m s) as [|c r]; [by rewrite take_nil|].
  destruct n as [|n]; [done|]. simpl. intros ->. done.
Qed.

Lemma split_on_not_in c s l : l ∈ split_on c s → c ∉ l.
Proof.
  revert l. induction s as [|x s IH]; intros l; simpl.
  { intros ->%list_elem_of_singleton. by intros ?%elem_of_nil. }
  unfold is_byte. case_bool_decide as Hx.
  { intros [->|Hl]%elem_of_cons; [by intros ?%elem_of_nil|by apply IH]. }
  destruct (split_on c s) as [|l1 ls].
  { intros ->%list_elem_of_singleton. by intros ->%list_elem_of_singleton. }
  intros [->|Hl]%elem_of_cons.
  - intros [->|Hc]%elem_of_cons; [done|]. eapply IH; [|exact Hc]. by constructor.
  - apply IH. by right.
Qed.

Lemma trim_end_matches_sub c s x : x ∈ trim_end_matches c s → x ∈ s.
Proof.
  unfold trim_end_matches. set (go := fix go (r : bytes) := _).
  assert (Hgo : ∀ r y, y ∈ go r → y ∈ r).
  { induction r as [|a r IH]; intros y; simpl; [done|].
    destruct (is_byte c a); [intros Hy; right; by apply IH|done]. }
  intros Hx. apply list_elem_of_In, in_rev, list_elem_of_In, Hgo, list_elem_of_In in Hx.
  apply list_elem_of_In. by apply in_rev.
Qed.

Lemma split_once_sub c s k v x : split_once c s = Some (k, v) → (x ∈ k ∨ x ∈ v) → x ∈ s.
Proof.
  unfold split_once. destruct (find_byte _ s) as [i|]; [|done]. intros [= <- <-] [Hx|Hx].
  - apply elem_of_take in Hx as (j & Hj & _). by eapply list_elem_of_lookup_2.
  - apply list_elem_of_lookup in Hx as [j Hj]. rewrite lookup_drop in Hj.
    by eapply list_elem_of_lookup_2.
Qed.

Lemma parse_header_line_clean line hs :
  (x0a ∉ line) → parse_header_line line = Some hs → Forall clean_header hs.
Proof.
  intros Hl. unfold parse_header_line, from_utf8. destruct (utf8_valid line); [|done].
  destruct (trim_end_matches x0d line) as [|c r] eqn:Et; [intros [= <-]; constructor|].
  rewrite <-Et. destruct (split_once x3a _) as [[k v]|] eqn:Es; intros [= <-]; [|constructor].
  constructor; [|constructor].
  assert (Hin : ∀ x, x ∈ k ∨ x ∈ v → x ∈ line).
  { intros x Hx. eapply trim_end_matches_sub, split_once_sub; done. }
  split_and!; simpl; [apply trim_not_in; auto|apply trim_not_in; auto|apply trim_no_cr].
Qed.

Lemma parse_header_lines_clean lines hs :
  Forall (λ l, x0a ∉ l) lines → parse_header_lines lines = Some hs → Forall clean_header hs.
Proof.
  intros Hf. revert hs. induction Hf as [|l lines Hl Hf IH]; intros hs; simpl.
  { intros [= <-]. constructor. }
  destruct (parse_header_line l) as [h|] eqn:E; [|done].
  destruct (parse_header_lines lines) as [hs'|]; [|done]. intros [= <-].
  apply Forall_app. split; [by eapply parse_header_line_clean|by apply IH].
Qed.

Lemma split_response_clean raw code hs body :
  split_response raw = Some (code, hs, body) → Forall clean_header hs.
Proof.
  unfold split_response. destruct (find_sub _ raw) as [i|]; [|done].
  destruct (split_on x0a (take i raw)) as [|l lines] eqn:El; [done|].
  destruct (from_utf8 l); [|done]. destruct (second_word _); [|done].
  destruct (parse_u16 _); [|done]. destruct (parse_header_lines lines) as [hs'|] eqn:Eh; [|done].
  intros [= _ <- _]. eapply parse_header_lines_clean; [|exact Eh].
  apply Forall_forall. intros l' Hl'. apply (split_on_not_in x0a (take i raw)).
  rewrite El. by right.
Qed.

(** ** Assembled heads as lines *)

Definition kept_line_list (hs : Headers) : list bytes :=
  map (λ kv, kv.1 ++ bs ": " ++ kv.2) (List.filter (λ kv, negb (skip_header kv.1)) hs).

Lemma kept_lines_eq hs : kept_lines hs = concat (map (λ l, l ++ crlf) (kept_line_list hs)).
Proof.
  unfold kept_lines, kept_line_list. rewrite map_map. f_equal. apply map_ext.
  intros [k v]. unfold header_line. simpl. by rewrite <-!app_assoc.
Qed.

Lemma kept_line_list_plain hs : Forall clean_header hs → Forall plain_line (kept_line_list hs).
Proof.
  intros Hf. unfold kept_line_list. apply Forall_fmap. apply Forall_forall.
  intros [k v] Hin. apply list_elem_of_In, filter_In in Hin as [Hin _].
  apply list_elem_of_In in Hin. rewrite Forall_forall in Hf. destruct (Hf _ Hin) as (H1 & H2 & H3).
  simpl in *. split.
  - by rewrite elem_of_app, !elem_of_cons; intros [?|[?|[?|?]]].
  - destruct k; [done|exact H3].
Qed.

Lemma digits_plain s : forallb is_ascii_digit s = true → x0a ∉ s.
Proof.
  intros Hf Hin. apply list_elem_of_In in Hin. rewrite forallb_forall in Hf.
  specialize (Hf _ Hin). done.
Qed.

Definition lines_200 (hs : Headers) (n : Z) : list bytes :=
  bs "HTTP/1.1 200 OK" :: kept_line_list hs ++ [bs "Content-Length: " ++ fmt_uint n].

Lemma assemble_200_head_lines hs n :
  assemble_200_head hs n = concat (map (λ l, l ++ crlf) (lines_200 hs n)) ++ crlf.
Proof.
  unfold assemble_200_head, lines_200. rewrite kept_lines_eq. cbn [map concat].
  rewrite map_app, concat_app. cbn [map concat]. rewrite app_nil_r. by rewrite <-!app_assoc.
Qed.

Lemma lines_200_plain hs n : 0 ≤ n → Forall clean_header hs → Forall plain_line (lines_200 hs n).
Proof.
  intros Hn Hf. constructor; [split; [by apply (bool_decide_unpack _)|done]|].
  apply Forall_app. split; [by apply kept_line_list_plain|]. constructor; [|constructor].
  split; [|done]. rewrite elem_of_app. intros [Hc|Hc].
  - revert Hc. by apply (bool_decide_unpack _).
  - by apply (digits_plain _ (fmt_uint_all_digits n Hn)).
Qed.

(** Writing an assembled 200 response transforms exactly its head. *)
Lemma write_full_200 hs body f :
  Forall clean_header hs →
  write_response_with_head_transform (assemble_full_200 hs body) f =
  f (assemble_200_head hs (len body)) ++ body.
Proof.
  intros Hf. unfold assemble_full_200. rewrite assemble_200_head_lines, <-app_assoc.
  apply write_response_assembled; [|done]. apply lines_200_plain; [apply len_nonneg|done].
Qed.
