(* ===== verification/Ranges.v ===== *)
(** * Range-parallel downloads (src/domain_fronter.rs)

    A large GET is probed with a first range, the remaining byte ranges are
    planned lazily, fetched in order and either stitched into a buffer or
    streamed to the client; a client's own mid-file range is resumed the same
    way.  [relay], one round trip through Apps Script, is the environment: an
    arbitrary function of the call and its request.  The writer is the list of
    bytes written so far and does not fail. *)

From Stdlib Require Import Strings.Byte.
From S2P Require Import Prelude RustBytes Http.

Definition RANGE_PARALLEL_CHUNK_BYTES : Z := 256 * 1024.
Definition APPS_SCRIPT_BODY_MAX_BYTES : Z := 40 * 1024 * 1024.
Definition MAX_STREAMED_RANGE_BYTES : Z := 16 * 1024 * 1024 * 1024.
Definition BUFFERED_STITCH_MAX_BYTES : Z := 64 * 1024 * 1024.

(** ** Planning *)

(** One step of the iterator: the next range and the next start. *)
Definition plan_next (start total chunk_size : Z) : option (Z * Z * Z) :=
  if total <=? start then None
  else
    let e := Z.min (sat_sub (sat_add64 start chunk_size) 1) (total - 1) in
    Some (start, e, sat_add64 e 1).

(** The ranges the iterator yields.  Each one is at least one byte long, so
    as many steps as there are bytes left exhaust it. *)
Fixpoint plan_steps (fuel : nat) (start total chunk_size : Z) : list (Z * Z) :=
  match fuel with
  | O => []
  | S fuel' =>
      match plan_next start total chunk_size with
      | None => []
      | Some (s, e, start') => (s, e) :: plan_steps fuel' start' total chunk_size
      end
  end.

Definition plan_remaining_ranges (probe_end total chunk_size : Z) : list (Z * Z) :=
  let start := sat_add64 probe_end 1 in
  plan_steps (Z.to_nat (total - start)) start total chunk_size.

Inductive RangeDispatch := Buffered | Stream | FallbackSingleGet | RejectTooLarge.

Definition dispatch_range_response (total : Z) (streaming_allowed : bool) : RangeDispatch :=
  if streaming_allowed && (MAX_STREAMED_RANGE_BYTES <? total) then RejectTooLarge
  else if streaming_allowed && (APPS_SCRIPT_BODY_MAX_BYTES <? total) then Stream
  else if negb streaming_allowed && (BUFFERED_STITCH_MAX_BYTES <? total) then FallbackSingleGet
  else Buffered.

(** ** Requests *)

Record Req := mk_req { rq_method : bytes; rq_url : bytes; rq_headers : Headers; rq_body : bytes }.

(** Which round trip a request is: the client's own, the probe, the [k]-th
    chunk, or the single GET after a failed stitch. *)
Inductive Call := CPlain | CProbe | CChunk (k : nat) | CFallback.

Definition without_range (hs : Headers) : Headers :=
  List.filter (λ kv, negb (eq_ignore_ascii_case kv.1 (bs "range"))) hs.

Definition range_header (s e : Z) : bytes * bytes :=
  (bs "Range", bs "bytes=" ++ fmt_uint s ++ bs "-" ++ fmt_uint e).

(** Outcome of the writer-based API: what was written, and the error the
    caller sees. *)
Definition Outcome : Type := bytes * result unit bytes.

Definition clean_close : bytes := bs " — closing for clean resume".

Section relay_ranges.
Context (relay : Call → Req → bytes).

Definition chunk_request (url : bytes) (base_headers : Headers) (s e : Z) : Req :=
  mk_req (bs "GET") url (without_range base_headers ++ [range_header s e]) [].

(** [fetch_chunks_stream]: each range with its validated body, in order. *)
Definition fetch_chunks (url : bytes) (base_headers : Headers) (ranges : list (Z * Z)) (total : Z)
    : list (Z * Z * result bytes bytes) :=
  imap (λ k se,
    (se, extract_exact_range_body (relay (CChunk k) (chunk_request url base_headers se.1 se.2))
           se.1 se.2 total)) ranges.

(** [stream_chunks_to_writer] after head and probe body: the chunks up to the
    first invalid one. *)
Fixpoint stream_chunks (fetches : list (Z * Z * result bytes bytes)) : Outcome :=
  match fetches with
  | [] => ([], Ok tt)
  | (_, Ok c) :: fetches' => let '(out, r) := stream_chunks fetches' in (c ++ out, r)
  | (_, Err reason) :: _ => ([], Err (bs "range-parallel-stream chunk failure: " ++ reason))
  end.

Definition stream_chunks_to_writer (head probe_body : bytes)
    (fetches : list (Z * Z * result bytes bytes)) : Outcome :=
  let '(out, r) := stream_chunks fetches in (head ++ probe_body ++ out, r).

Definition stream_range_response_to (probe_headers : Headers) (probe_body : bytes) (total : Z)
    (fetches : list (Z * Z * result bytes bytes)) (transform_head : bytes → bytes) : Outcome :=
  stream_chunks_to_writer (transform_head (assemble_200_head probe_headers total)) probe_body fetches.

(** The stitch of the buffered branch: [None] at the first invalid chunk. *)
Fixpoint stitch (acc : bytes) (fetches : list (Z * Z * result bytes bytes)) : option bytes :=
  match fetches with
  | [] => Some acc
  | (_, Ok c) :: fetches' => stitch (acc ++ c) fetches'
  | (_, Err _) :: _ => None
  end.

Definition forward (transform_head : bytes → bytes) (raw : bytes) : Outcome :=
  (write_response_with_head_transform raw transform_head, Ok tt).

Definition stream_range_from_offset (req : Req) (start chunk : Z) (transform_head : bytes → bytes)
    : Outcome :=
  let base_headers := without_range (rq_headers req) in
  let req_end := wsub64 (wadd64 start chunk) 1 in
  let first := relay CProbe (mk_req (rq_method req) (rq_url req)
    (base_headers ++ [range_header start req_end]) (rq_body req)) in
  match split_response first with
  | None => ([], Err (bs "range-parallel-resume: malformed probe" ++ clean_close))
  | Some (status, resp_headers, resp_body) =>
      if negb (status =? 206) then
        if 400 <=? status then
          ([], Err (bs "range-parallel-resume: probe status " ++ fmt_uint status ++ clean_close))
        else forward transform_head first
      else
        match validate_probe_range_at_offset status resp_headers resp_body start req_end with
        | None => ([], Err (bs "range-parallel-resume: invalid 206" ++ clean_close))
        | Some r =>
            let total := cr_total r in
            if total <=? cr_end r + 1 then forward transform_head first
            else
              let fetches := fetch_chunks (rq_url req) base_headers
                (plan_remaining_ranges (cr_end r) total chunk) total in
              stream_chunks_to_writer
                (transform_head (assemble_206_head resp_headers start total)) resp_body fetches
        end
  end.

Definition too_large_message : bytes :=
  bs "Advertised Content-Range total exceeds relay's streaming ceiling. The origin reported a size larger than the relay is willing to fetch through Apps Script; refusing to spend daily quota on a likely-hostile or buggy origin.".

(** The branch of a client's own [Range] header. *)
Definition client_range (req : Req) (range_val : bytes) (transform_head : bytes → bytes) : Outcome :=
  match parse_range_start range_val with
  | Some start =>
      if 0 <? start then stream_range_from_offset req start RANGE_PARALLEL_CHUNK_BYTES transform_head
      else
        let raw := relay CPlain req in
        let status := match split_response raw with Some (s, _, _) => s | None => 0 end in
        if (400 <=? status) || (status =? 0) then
          ([], Err (bs "range relay status " ++ fmt_uint status ++ clean_close))
        else forward transform_head raw
  | None =>
      let raw := relay CPlain req in
      let status := match split_response raw with Some (s, _, _) => s | None => 0 end in
      if (400 <=? status) || (status =? 0) then
        ([], Err (bs "range relay status " ++ fmt_uint status ++ clean_close))
      else forward transform_head raw
  end.

(** After a valid probe that leaves bytes to fetch. *)
Definition fetch_rest (req : Req) (resp_headers : Headers) (resp_body : bytes) (r : ContentRange)
    (streaming_allowed : bool) (transform_head : bytes → bytes) : Outcome :=
  let total := cr_total r in
  let fetches := fetch_chunks (rq_url req) (rq_headers req)
    (plan_remaining_ranges (cr_end r) total RANGE_PARALLEL_CHUNK_BYTES) total in
  match dispatch_range_response total streaming_allowed with
  | Stream => stream_range_response_to resp_headers resp_body total fetches transform_head
  | FallbackSingleGet => forward transform_head (relay CFallback req)
  | RejectTooLarge => forward transform_head (error_response 502 too_large_message)
  | Buffered =>
      match stitch resp_body fetches with
      | None => forward transform_head (relay CFallback req)
      | Some full =>
          if negb (len full =? total) then forward transform_head (relay CFallback req)
          else forward transform_head (assemble_full_200 resp_headers full)
      end
  end.

Definition do_relay_parallel_range_to (req : Req) (streaming_allowed : bool)
    (transform_head : bytes → bytes) : Outcome :=
  let chunk := RANGE_PARALLEL_CHUNK_BYTES in
  if negb (bool_decide (rq_method req = bs "GET")) || negb (bool_decide (rq_body req = [])) then
    forward transform_head (relay CPlain req)
  else
    match find_header (bs "range") (rq_headers req) with
    | Some range_val => client_range req range_val transform_head
    | None =>
        let first := relay CProbe (mk_req (rq_method req) (rq_url req)
          (rq_headers req ++ [range_header 0 (chunk - 1)]) (rq_body req)) in
        match split_response first with
        | None => forward transform_head first
        | Some (status, resp_headers, resp_body) =>
            if negb (status =? 206) then forward transform_head first
            else
              match validate_probe_range status resp_headers resp_body (chunk - 1) with
              | None => forward transform_head (relay CFallback req)
              | Some r =>
                  if (cr_total r <=? chunk) || (cr_total r <=? cr_end r + 1) then
                    forward transform_head (rewrite_206_to_200 first)
                  else fetch_rest req resp_headers resp_body r streaming_allowed transform_head
              end
        end
    end.

(** The writer-based API and the buffering wrapper. *)
Definition relay_parallel_range_to (req : Req) (transform_head : bytes → bytes) : Outcome :=
  do_relay_parallel_range_to req true transform_head.
Definition relay_parallel_range (req : Req) : bytes :=
  (do_relay_parallel_range_to req false (λ head, head)).1.
End relay_ranges.

(** ** The plan *)

(** [l] covers the bytes from [s] up to [t] without gap or overlap, in ranges
    of at most [chunk] bytes. *)
Fixpoint covers (chunk s t : Z) (l : list (Z * Z)) : Prop :=
  match l with
  | [] => s = t
  | (a, b) :: l' => a = s ∧ a ≤ b < t ∧ b - a + 1 ≤ chunk ∧ covers chunk (b + 1) t l'
  end.

Lemma plan_next_spec start total chunk :
  0 ≤ start < total → total ≤ u64_max → 0 < chunk →
  ∃ e, plan_next start total chunk = Some (start, e, e + 1) ∧ start ≤ e < total ∧
    e - start + 1 ≤ chunk ∧ (e + 1 < total → e = start + chunk - 1).
Proof.
  intros Hs Ht Hc. unfold plan_next, sat_sub, sat_add64.
  replace (total <=? start) with false by lia.
  eexists. split; [do 2 f_equal; lia|]. unfold_widths. lia.
Qed.

Lemma plan_steps_covers fuel start total chunk :
  0 ≤ start ≤ total → total ≤ u64_max → 0 < chunk → total - start ≤ Z.of_nat fuel →
  covers chunk start total (plan_steps fuel start total chunk) ∧
  len (plan_steps fuel start total chunk) = div_ceil (total - start) chunk.
Proof.
  revert start. induction fuel as [|fuel IH]; intros start Hs Ht Hc Hf.
  { simpl. assert (start = total) as -> by lia. split; [done|].
    rewrite len_nil. unfold div_ceil. rewrite Z.sub_diag, Z.div_small; lia. }
  cbn [plan_steps]. destruct (decide (start = total)) as [->|Hne].
  { unfold plan_next. replace (total <=? total) with true by lia. split; [done|].
    rewrite len_nil. unfold div_ceil. rewrite Z.sub_diag, Z.div_small; lia. }
  destruct (plan_next_spec start total chunk) as (e & -> & He & Hlen & Hfull); [lia..|].
  destruct (IH (e + 1)) as [IH1 IH2]; [lia..|]. split.
  { cbn [covers]. split_and!; [done|lia|lia|lia|done]. }
  rewrite len_cons, IH2. unfold div_ceil. destruct (decide (e + 1 < total)).
  - rewrite Hfull by done.
    replace (total - start + chunk - 1) with (total - (start + chunk - 1 + 1) + chunk - 1 + 1 * chunk)
      by lia.
    rewrite Z.div_add by lia. lia.
  - assert (e + 1 = total) as -> by lia. rewrite Z.sub_diag, (Z.div_small (0 + chunk - 1)) by lia.
    apply (Z.div_unique _ _ _ (total - start - 1)); lia.
Qed.

Lemma plan_covers probe_end total chunk :
  0 ≤ probe_end < total → total ≤ u64_max → 0 < chunk →
  covers chunk (probe_end + 1) total (plan_remaining_ranges probe_end total chunk) ∧
  len (plan_remaining_ranges probe_end total chunk) = div_ceil (total - probe_end - 1) chunk.
Proof.
  intros Hp Ht Hc. unfold plan_remaining_ranges.
  replace (sat_add64 probe_end 1) with (probe_end + 1) by (unfold sat_add64; unfold_widths; lia).
  replace (total - probe_end - 1) with (total - (probe_end + 1)) by lia.
  apply plan_steps_covers; lia.
Qed.

(** The lazy plan covers exactly the bytes after the probe: its ranges
    are contiguous, disjoint, inside the file, at most one chunk long, and
    there are [ceil((total - probe_end - 1) / chunk)] of them, the number the
    relay announces. *)
Theorem range_plan_exact probe_end total chunk :
  0 ≤ probe_end < total → total ≤ u64_max → 0 < chunk →
  covers chunk (probe_end + 1) total (plan_remaining_ranges probe_end total chunk) ∧
  len (plan_remaining_ranges probe_end total chunk) = div_ceil (total - probe_end - 1) chunk.
Proof. apply plan_covers. Qed.

Lemma range_plan_exact_witness :
  plan_remaining_ranges 3 13 4 = [(4, 7); (8, 11); (12, 12)] ∧
  len (plan_remaining_ranges 3 13 4) = 3.
Proof.
  split; [by vm_compute|].
  destruct (range_plan_exact 3 13 4) as [_ ->]; [lia|by vm_compute|lia|by vm_compute].
Defined.

(** ** Chunks *)

Lemma extract_exact_len raw s e total b :
  extract_exact_range_body raw s e total = Ok b → len b = e - s + 1.
Proof.
  unfold extract_exact_range_body.
  destruct (split_response raw) as [[[status hs] body]|]; [|done]. case_if; [done|].
  destruct (parse_content_range hs) as [r|]; [|done].
  destruct (_ || _) eqn:E1; [done|]. bool_to_prop.
  destruct (content_range_matches_body r (len body)) eqn:E2; [|done].
  intros [= <-]. unfold content_range_matches_body in E2. bool_to_prop. lia.
Qed.

Section chunks.
Context (relay : Call → Req → bytes) (url : bytes) (hs : Headers) (total : Z).

(** [imap] with its index made explicit, for induction. *)
Definition fetch_from (n : nat) (ranges : list (Z * Z)) : list (Z * Z * result bytes bytes) :=
  imap (λ k se,
    (se, extract_exact_range_body (relay (CChunk (n + k)) (chunk_request url hs se.1 se.2))
           se.1 se.2 total)) ranges.

Lemma fetch_chunks_from ranges : fetch_chunks relay url hs ranges total = fetch_from 0 ranges.
Proof. done. Qed.

Lemma fetch_from_cons n se ranges :
  fetch_from n (se :: ranges) =
  (se, extract_exact_range_body (relay (CChunk n) (chunk_request url hs se.1 se.2)) se.1 se.2 total)
  :: fetch_from (S n) ranges.
Proof.
  unfold fetch_from. rewrite imap_cons, Nat.add_0_r. f_equal. apply imap_ext.
  intros i x _. simpl. by rewrite Nat.add_succ_r.
Qed.

(** Streaming that ends without an error wrote every planned byte. *)
Lemma stream_ok_len chunk n s t ranges out :
  covers chunk s t ranges → stream_chunks (fetch_from n ranges) = (out, Ok tt) →
  len out = t - s.
Proof.
  revert n s out. induction ranges as [|[a b] ranges IH]; intros n s out Hc.
  { simpl in Hc. subst. intros [= <-]. rewrite len_nil. lia. }
  destruct Hc as (-> & Hab & _ & Hc). rewrite fetch_from_cons. cbn [stream_chunks fst snd].
  destruct (extract_exact_range_body _ s b total) as [c|] eqn:Ee; [|done].
  destruct (stream_chunks _) as [out' r] eqn:Es. intros [= <- ->].
  rewrite len_app, (extract_exact_len _ _ _ _ _ Ee), (IH _ _ _ Hc Es). lia.
Qed.

(** The stitch is the accumulator followed by what streaming would write. *)
Lemma stitch_stream acc fetches :
  stitch acc fetches =
  match stream_chunks fetches with (out, Ok _) => Some (acc ++ out) | _ => None end.
Proof.
  revert acc. induction fetches as [|[se [c|e]] fetches IH]; intros acc; cbn [stitch stream_chunks].
  - by rewrite app_nil_r.
  - rewrite IH. destruct (stream_chunks fetches) as [out [u|e]]; [|done]. by rewrite app_assoc.
  - done.
Qed.

(** The bytes [s..=e] of a file. *)
Definition slice (data : bytes) (s e : Z) : bytes := ztake (e - s + 1) (zdrop s data).

(** The origin answers the [k]-th chunk request with exactly that range. *)
Definition honest_chunk (data : bytes) (k : nat) (s e : Z) : Prop :=
  ∃ h, split_response (relay (CChunk k) (chunk_request url hs s e)) = Some (206, h, slice data s e) ∧
       parse_content_range h = Some (mk_range s e total).

Lemma slice_len data s e : 0 ≤ s ≤ e → e < len data → len (slice data s e) = e - s + 1.
Proof.
  intros Hs He. unfold slice. apply len_ztake. rewrite len_zdrop by lia. lia.
Qed.

Lemma slice_zdrop data s e :
  0 ≤ s ≤ e → e < len data → slice data s e ++ zdrop (e + 1) data = zdrop s data.
Proof.
  intros Hs He. unfold slice. rewrite <-(ztake_zdrop (e - s + 1) (zdrop s data)) at 2. f_equal.
  unfold zdrop. rewrite drop_drop. f_equal. lia.
Qed.

Lemma honest_extract data k s e :
  0 ≤ s ≤ e → e < len data → honest_chunk data k s e →
  extract_exact_range_body (relay (CChunk k) (chunk_request url hs s e)) s e total =
  Ok (slice data s e).
Proof.
  intros Hs He (h & Hr & Hp). unfold extract_exact_range_body. rewrite Hr, Hp. cbn [cr_start cr_end cr_total].
  rewrite !Z.eqb_refl. cbn [negb orb]. unfold content_range_matches_body. cbn [cr_start cr_end].
  rewrite (slice_len data s e) by done. rewrite Z.eqb_refl.
  by replace (0 <? e - s + 1) with true by lia.
Qed.

Lemma honest_stream data chunk n s ranges :
  0 ≤ s → total = len data → covers chunk s total ranges →
  (∀ k a b, ranges !! k = Some (a, b) → honest_chunk data (n + k) a b) →
  stream_chunks (fetch_from n ranges) = (zdrop s data, Ok tt).
Proof.
  intros Hs Ht. revert n s Hs. induction ranges as [|[a b] ranges IH]; intros n s Hs Hc Hh.
  { simpl in Hc. subst s. cbn. f_equal. unfold zdrop. rewrite drop_ge; [done|].
    unfold len in *. lia. }
  destruct Hc as (-> & Hab & _ & Hc). rewrite fetch_from_cons. cbn [stream_chunks fst snd].
  pose proof (Hh 0%nat s b eq_refl) as H0. rewrite Nat.add_0_r in H0.
  rewrite (honest_extract data) by (done || lia).
  rewrite (IH (S n) (b + 1)); [|lia|done|].
  - rewrite slice_zdrop by lia. done.
  - intros k a' b' Hk. specialize (Hh (S k) a' b' Hk). by rewrite Nat.add_succ_r in Hh.
Qed.
End chunks.

(** ** Complete downloads *)

Lemma dispatch_streaming total :
  total ≤ MAX_STREAMED_RANGE_BYTES →
  dispatch_range_response total true = Stream ∨ dispatch_range_response total true = Buffered.
Proof.
  intros Ht. unfold dispatch_range_response. cbn [andb negb].
  replace (MAX_STREAMED_RANGE_BYTES <? total) with false by lia.
  case_if; auto.
Qed.

Section downloads.
Context (relay : Call → Req → bytes) (req : Req) (data : bytes) (hs : Headers).

Abbreviation total := (len data).
Abbreviation chunk := RANGE_PARALLEL_CHUNK_BYTES.

Definition probe_request : Req :=
  mk_req (rq_method req) (rq_url req) (rq_headers req ++ [range_header 0 (chunk - 1)]) (rq_body req).

(** The origin holds [data] and answers the probe and every planned range
    with exactly those bytes. *)
Definition honest_origin : Prop :=
  split_response (relay CProbe probe_request) = Some (206, hs, slice data 0 (chunk - 1)) ∧
  parse_content_range hs = Some (mk_range 0 (chunk - 1) total) ∧
  ∀ k s e, plan_remaining_ranges (chunk - 1) total chunk !! k = Some (s, e) →
    honest_chunk relay (rq_url req) (rq_headers req) total data k s e.

Lemma fetch_rest_honest f :
  honest_origin → chunk < total ≤ MAX_STREAMED_RANGE_BYTES →
  fetch_rest relay req hs (slice data 0 (chunk - 1)) (mk_range 0 (chunk - 1) total) true f =
  (f (assemble_200_head hs total) ++ data, Ok tt).
Proof.
  intros (Hprobe & Hcr & Hchunks) Ht.
  pose proof (split_response_clean _ _ _ _ Hprobe) as Hclean.
  assert (Hmax : total ≤ u64_max) by (unfold MAX_STREAMED_RANGE_BYTES in Ht; unfold_widths; lia).
  assert (Hchunk : chunk = 262144) by done.
  destruct (plan_covers (chunk - 1) total chunk) as [Hcov _]; [lia..|].
  replace (chunk - 1 + 1) with chunk in Hcov by lia.
  assert (Hs : stream_chunks (fetch_chunks relay (rq_url req) (rq_headers req)
      (plan_remaining_ranges (chunk - 1) total chunk) total) = (zdrop chunk data, Ok tt)).
  { rewrite fetch_chunks_from. eapply honest_stream; [lia|done|exact Hcov|exact Hchunks]. }
  assert (Hall : slice data 0 (chunk - 1) ++ zdrop chunk data = data).
  { replace chunk with (chunk - 1 + 1) at 2 by lia. rewrite slice_zdrop by lia. done. }
  unfold fetch_rest. cbn [cr_total cr_end].
  destruct (dispatch_streaming total) as [-> | ->]; [lia| |].
  - unfold stream_range_response_to, stream_chunks_to_writer. rewrite Hs. by rewrite Hall.
  - rewrite stitch_stream, Hs, Hall, Z.eqb_refl. cbn [negb]. unfold forward.
    by rewrite write_full_200.
Qed.

Lemma honest_validates :
  honest_origin → chunk < total →
  validate_probe_range 206 hs (slice data 0 (chunk - 1)) (chunk - 1) =
  Some (mk_range 0 (chunk - 1) total).
Proof.
  intros (_ & Hcr & _) Ht. assert (Hchunk : chunk = 262144) by done.
  unfold validate_probe_range. rewrite Hcr. cbn [negb cr_start cr_end cr_total].
  change (206 =? 206) with true. cbn [negb]. change (0 =? 0) with true. cbn [negb orb].
  rewrite Z.ltb_irrefl. unfold content_range_matches_body. cbn [cr_start cr_end].
  rewrite slice_len by lia. rewrite Z.eqb_refl.
  by replace (0 <? chunk - 1 - 0 + 1) with true by lia.
Qed.

(** C6: a large download arrives complete.  For a GET without a range of its
    own and an origin that serves the file's ranges, the client is sent one
    200 head that declares the file's length, followed by the file itself,
    byte for byte, in both the buffered and the streaming branch. *)
Theorem range_download_complete f :
  rq_method req = bs "GET" → rq_body req = [] → find_header (bs "range") (rq_headers req) = None →
  chunk < total ≤ MAX_STREAMED_RANGE_BYTES → honest_origin →
  relay_parallel_range_to relay req f = (f (assemble_200_head hs total) ++ data, Ok tt).
Proof.
  intros Hm Hb Hr Ht Hh. pose proof Hh as (Hprobe & Hcr & _).
  unfold relay_parallel_range_to, do_relay_parallel_range_to.
  rewrite !bool_decide_eq_true_2 by done. cbn [negb orb]. rewrite Hr.
  fold probe_request. rewrite Hprobe. cbn [Z.eqb negb].
  assert (Hchunk : chunk = 262144) by done.
  pose proof (honest_validates Hh ltac:(lia)) as Hv.
  rewrite Hv. cbn [cr_total cr_end].
  replace (total <=? chunk) with false by lia.
  replace (total <=? chunk - 1 + 1) with false by lia. cbn [orb].
  by apply fetch_rest_honest.
Qed.
End downloads.

(** C24: success means complete, whatever the origin does.  After a validated
    probe, if the relay reports success then the client got either the answer
    to a plain GET, or the refusal page, or a body of exactly the declared
    length that starts with the probe: a truncated body is always reported as
    an error. *)
Theorem range_success_not_truncated relay req hs body r streaming f out :
  validate_probe_range 206 hs body (RANGE_PARALLEL_CHUNK_BYTES - 1) = Some r →
  Forall clean_header hs →
  cr_end r + 1 < cr_total r → cr_total r ≤ u64_max →
  fetch_rest relay req hs body r streaming f = (out, Ok tt) →
  out = write_response_with_head_transform (relay CFallback req) f ∨
  out = write_response_with_head_transform (error_response 502 too_large_message) f ∨
  ∃ rest, out = f (assemble_200_head hs (cr_total r)) ++ body ++ rest ∧
    len (body ++ rest) = cr_total r.
Proof.
  intros Hv Hclean Hmore Hmax. assert (Hchunk : RANGE_PARALLEL_CHUNK_BYTES = 262144) by done.
  assert (Hr : cr_start r = 0 ∧ len body = cr_end r + 1 ∧ 0 ≤ cr_end r).
  { revert Hv. unfold validate_probe_range. change (206 =? 206) with true. cbn [negb].
    destruct (parse_content_range hs) as [r'|]; [|done]. case_if; [done|].
    destruct (content_range_matches_body r' (len body) || _) eqn:Em; [|done]. intros [= ->].
    bool_to_prop. unfold content_range_matches_body, probe_range_covers_complete_entity in Em.
    bool_to_prop. unfold sat_add64 in *. unfold_widths. destruct Em; bool_to_prop; lia. }
  destruct Hr as (Hr0 & Hlen & Hpos).
  destruct (plan_covers (cr_end r) (cr_total r) RANGE_PARALLEL_CHUNK_BYTES) as [Hcov _]; [lia..|].
  unfold fetch_rest. destruct (dispatch_range_response _ _).
  - rewrite stitch_stream. destruct (stream_chunks _) as [rest [u|e]] eqn:Es.
    2:{ intros [= <-]. by left. }
    case_if; intros [= <-]; [by left|]. right. right. exists rest. split; [|done].
    rewrite write_full_200 by done. by rewrite E.
  - unfold stream_range_response_to, stream_chunks_to_writer.
    destruct (stream_chunks _) as [rest r'] eqn:Es. intros [= <- ->].
    right. right. exists rest. split; [done|]. rewrite fetch_chunks_from in Es.
    rewrite len_app, Hlen, (stream_ok_len _ _ _ _ _ _ _ _ _ _ Hcov Es). lia.
  - intros [= <-]. by left.
  - intros [= <-]. right. by left.
Qed.

(** ** Resumed downloads *)

Section resume.
Context (relay : Call → Req → bytes) (req : Req) (data : bytes) (hs : Headers) (start : Z).

Abbreviation total := (len data).
Abbreviation chunk := RANGE_PARALLEL_CHUNK_BYTES.

Definition resume_request : Req :=
  mk_req (rq_method req) (rq_url req)
    (without_range (rq_headers req) ++ [range_header start (start + chunk - 1)]) (rq_body req).

Definition honest_resume : Prop :=
  split_response (relay CProbe resume_request) = Some (206, hs, slice data start (start + chunk - 1)) ∧
  parse_content_range hs = Some (mk_range start (start + chunk - 1) total) ∧
  ∀ k s e, plan_remaining_ranges (start + chunk - 1) total chunk !! k = Some (s, e) →
    honest_chunk relay (rq_url req) (without_range (rq_headers req)) total data k s e.

(** A resume sends the file from the requested offset to its very end.
    There is no upper bound on the advertised total on this path, and the end
    of the client's range plays no part: [bytes=N-M] is answered like
    [bytes=N-]. *)
Theorem range_resume_to_end f range_val :
  parse_range_start range_val = Some start → 0 < start → start + chunk < total → total ≤ u64_max →
  honest_resume →
  client_range relay req range_val f = (f (assemble_206_head hs start total) ++ zdrop start data, Ok tt).
Proof.
  intros Hv H0 Hs Hmax (Hprobe & Hcr & Hchunks). assert (Hchunk : chunk = 262144) by done.
  unfold client_range. rewrite Hv. replace (0 <? start) with true by lia.
  unfold stream_range_from_offset.
  assert (Hend : wsub64 (wadd64 start chunk) 1 = start + chunk - 1).
  { unfold wsub64, wadd64. unfold_widths. rewrite (Z.mod_small (start + _)) by lia.
    apply Z.mod_small. lia. }
  rewrite Hend. fold resume_request. rewrite Hprobe. cbn [Z.eqb negb].
  assert (Hval : validate_probe_range_at_offset 206 hs (slice data start (start + chunk - 1))
    start (start + chunk - 1) = Some (mk_range start (start + chunk - 1) total)).
  { unfold validate_probe_range_at_offset. rewrite Hcr. change (206 =? 206) with true.
    cbn [negb cr_start cr_end]. rewrite Z.eqb_refl, Z.ltb_irrefl. cbn [negb orb].
    unfold content_range_matches_body. cbn [cr_start cr_end]. rewrite slice_len by lia.
    rewrite Z.eqb_refl. by replace (0 <? start + chunk - 1 - start + 1) with true by lia. }
  rewrite Hval. cbn [cr_total cr_end]. replace (total <=? start + chunk - 1 + 1) with false by lia.
  destruct (plan_covers (start + chunk - 1) total chunk) as [Hcov _]; [lia..|].
  replace (start + chunk - 1 + 1) with (start + chunk) in Hcov by lia.
  unfold stream_chunks_to_writer. rewrite fetch_chunks_from.
  rewrite (honest_stream relay (rq_url req) (without_range (rq_headers req)) total data chunk 0
    (start + chunk)); [|lia|done|exact Hcov|exact Hchunks].
  do 2 f_equal. rewrite <-(slice_zdrop data start (start + chunk - 1)) by lia.
  do 2 f_equal. lia.
Qed.
End resume.

(** ** A concrete origin

    [origin data] answers a ranged request with the bytes asked for, as an
    HTTP response; its range is read off the call it gets. *)
Definition origin_reply (data : bytes) (s e : Z) : bytes :=
  bs "HTTP/1.1 206 Partial Content" ++ crlf ++
  bs "Content-Range: bytes " ++ fmt_uint s ++ bs "-" ++ fmt_uint e ++ bs "/" ++ fmt_uint (len data) ++
  crlf ++ crlf ++ slice data s e.

Definition origin (data : bytes) (c : Call) (req : Req) : bytes :=
  match find_header (bs "range") (rq_headers req) with
  | Some v =>
      match strip_prefix (bs "bytes=") v with
      | Some se =>
          match split_once x2d se with
          | Some (s, e) =>
              match parse_u64 s, parse_u64 e with
              | Some s, Some e => origin_reply data s (Z.min e (len data - 1))
              | _, _ => []
              end
          | None => []
          end
      | None => []
      end
  | None => bs "HTTP/1.1 200 OK" ++ crlf ++ crlf ++ data
  end.

Definition sample_file (n : Z) : bytes := replicate (Z.to_nat n) x41.
Definition sample_get : Req := mk_req (bs "GET") (bs "http://h/f") [] [].
Definition sample_file_headers (s e total : Z) : Headers :=
  [(bs "Content-Range", bs "bytes " ++ fmt_uint s ++ bs "-" ++ fmt_uint e ++ bs "/" ++ fmt_uint total)].

(** Decide what a response splits into. *)
Definition splits_into (raw : bytes) (hs : Headers) (body : bytes) : bool :=
  match split_response raw with
  | Some (c, hs', body') => (c =? 206) && bool_decide (hs' = hs) && bool_decide (body' = body)
  | None => false
  end.

Lemma splits_into_ok raw hs body :
  splits_into raw hs body = true → split_response raw = Some (206, hs, body).
Proof.
  unfold splits_into. destruct (split_response raw) as [[[c hs'] body']|]; [|done].
  intros H. bool_to_prop. by subst.
Qed.

Lemma sample_file_len n : 0 ≤ n → len (sample_file n) = n.
Proof. intros Hn. unfold sample_file, len. rewrite length_replicate. lia. Qed.

Lemma sample_probe :
  split_response (origin (sample_file 262150) CProbe (probe_request sample_get)) =
  Some (206, sample_file_headers 0 262143 262150,
        slice (sample_file 262150) 0 (RANGE_PARALLEL_CHUNK_BYTES - 1)).
Proof. apply splits_into_ok. vm_compute. reflexivity. Qed.

Lemma sample_chunk :
  split_response (origin (sample_file 262150) (CChunk 0)
    (chunk_request (rq_url sample_get) (rq_headers sample_get) 262144 262149)) =
  Some (206, sample_file_headers 262144 262149 262150, slice (sample_file 262150) 262144 262149).
Proof. apply splits_into_ok. vm_compute. reflexivity. Qed.

Lemma sample_origin_honest :
  honest_origin (origin (sample_file 262150)) sample_get (sample_file 262150)
    (sample_file_headers 0 262143 262150).
Proof.
  unfold honest_origin. rewrite sample_file_len by lia.
  split_and!; [exact sample_probe|vm_compute; reflexivity|].
  assert (Hp : plan_remaining_ranges (RANGE_PARALLEL_CHUNK_BYTES - 1) 262150
    RANGE_PARALLEL_CHUNK_BYTES = [(262144, 262149)]) by (vm_compute; reflexivity).
  rewrite Hp. intros [|k] s e Hk; [|done]. injection Hk as <- <-.
  exists (sample_file_headers 262144 262149 262150).
  split; [exact sample_chunk|vm_compute; reflexivity].
Qed.

Lemma sample_origin_exists :
  ∃ relay data hs, honest_origin relay sample_get data hs ∧ len data = 262150.
Proof.
  exists (origin (sample_file 262150)), (sample_file 262150), (sample_file_headers 0 262143 262150).
  split; [exact sample_origin_honest|by apply sample_file_len].
Qed.

Lemma range_download_complete_witness :
  ∃ relay data hs, len data = 262150 ∧
    relay_parallel_range_to relay sample_get (λ h, h) =
    (assemble_200_head hs (len data) ++ data, Ok tt).
Proof.
  destruct sample_origin_exists as (relay & data & hs & Hh & Hl).
  exists relay, data, hs. split; [exact Hl|].
  apply (range_download_complete relay sample_get data hs (λ h, h));
    [reflexivity|reflexivity|reflexivity| |exact Hh].
  rewrite Hl. unfold RANGE_PARALLEL_CHUNK_BYTES, MAX_STREAMED_RANGE_BYTES. lia.
Defined.

Lemma range_success_not_truncated_witness :
  ∃ relay data hs out,
    fetch_rest relay sample_get hs (slice data 0 (RANGE_PARALLEL_CHUNK_BYTES - 1))
      (mk_range 0 (RANGE_PARALLEL_CHUNK_BYTES - 1) (len data)) true (λ h, h) = (out, Ok tt) ∧
    (out = write_response_with_head_transform (relay CFallback sample_get) (λ h, h) ∨
     out = write_response_with_head_transform (error_response 502 too_large_message) (λ h, h) ∨
     ∃ rest, out = assemble_200_head hs (len data) ++
               slice data 0 (RANGE_PARALLEL_CHUNK_BYTES - 1) ++ rest ∧
       len (slice data 0 (RANGE_PARALLEL_CHUNK_BYTES - 1) ++ rest) = len data).
Proof.
  destruct sample_origin_exists as (relay & data & hs & Hh & Hl).
  assert (Hc : RANGE_PARALLEL_CHUNK_BYTES = 262144) by reflexivity.
  assert (Hm : MAX_STREAMED_RANGE_BYTES = 17179869184) by reflexivity.
  pose proof (fetch_rest_honest relay sample_get data hs (λ h, h) Hh ltac:(lia)) as Hf.
  exists relay, data, hs, (assemble_200_head hs (len data) ++ data). split; [exact Hf|].
  refine (range_success_not_truncated relay sample_get hs _ _ true (λ h, h) _
    (honest_validates relay sample_get data hs Hh ltac:(lia)) _ _ _ Hf).
  - exact (split_response_clean _ _ _ _ (proj1 Hh)).
  - cbn [cr_end cr_total]. lia.
  - cbn [cr_total]. rewrite Hl. unfold_widths. lia.
Defined.

Definition sample_resume : Req :=
  mk_req (bs "GET") (bs "http://h/f") [(bs "Range", bs "bytes=1-9")] [].

Lemma sample_resume_probe :
  split_response (origin (sample_file 262150) CProbe (resume_request sample_resume 1)) =
  Some (206, sample_file_headers 1 262144 262150,
        slice (sample_file 262150) 1 (1 + RANGE_PARALLEL_CHUNK_BYTES - 1)).
Proof. apply splits_into_ok. vm_compute. reflexivity. Qed.

Lemma sample_resume_chunk :
  split_response (origin (sample_file 262150) (CChunk 0)
    (chunk_request (rq_url sample_resume) (without_range (rq_headers sample_resume)) 262145 262149)) =
  Some (206, sample_file_headers 262145 262149 262150, slice (sample_file 262150) 262145 262149).
Proof. apply splits_into_ok. vm_compute. reflexivity. Qed.

Lemma sample_resume_exists :
  ∃ relay data hs, honest_resume relay sample_resume data hs 1 ∧ len data = 262150.
Proof.
  exists (origin (sample_file 262150)), (sample_file 262150), (sample_file_headers 1 262144 262150).
  split; [|by apply sample_file_len].
  unfold honest_resume. rewrite sample_file_len by lia.
  split_and!; [exact sample_resume_probe|vm_compute; reflexivity|].
  assert (Hp : plan_remaining_ranges (1 + RANGE_PARALLEL_CHUNK_BYTES - 1) 262150
    RANGE_PARALLEL_CHUNK_BYTES = [(262145, 262149)]) by (vm_compute; reflexivity).
  rewrite Hp. intros [|k] s e Hk; [|done]. injection Hk as <- <-.
  exists (sample_file_headers 262145 262149 262150).
  split; [exact sample_resume_chunk|vm_compute; reflexivity].
Qed.

(** The client asked for nine bytes and is sent the rest of the file. *)
Lemma range_resume_to_end_witness :
  ∃ relay data hs, len data = 262150 ∧
    client_range relay sample_resume (bs "bytes=1-9") (λ h, h) =
    (assemble_206_head hs 1 (len data) ++ zdrop 1 data, Ok tt) ∧ len (zdrop 1 data) = 262149.
Proof.
  destruct sample_resume_exists as (relay & data & hs & Hh & Hl).
  assert (Hc : RANGE_PARALLEL_CHUNK_BYTES = 262144) by reflexivity.
  exists relay, data, hs. split; [exact Hl|]. split.
  - apply (range_resume_to_end relay sample_resume data hs 1 (λ h, h) (bs "bytes=1-9"));
      [reflexivity|lia|lia|rewrite Hl; unfold_widths; lia|exact Hh].
  - rewrite len_zdrop by lia. lia.
Defined.

(** The buffering wrapper drops the error of the resume path: a client range
    whose probe is malformed yields an empty response. *)
Theorem range_wrapper_drops_errors relay req range_val start :
  rq_method req = bs "GET" → rq_body req = [] →
  find_header (bs "range") (rq_headers req) = Some range_val →
  parse_range_start range_val = Some start → 0 < start →
  start + RANGE_PARALLEL_CHUNK_BYTES ≤ u64_max →
  split_response (relay CProbe (resume_request req start)) = None →
  relay_parallel_range relay req = [].
Proof.
  intros Hm Hb Hr Hv H0 Hmax Hp. assert (Hchunk : RANGE_PARALLEL_CHUNK_BYTES = 262144) by done.
  unfold relay_parallel_range, do_relay_parallel_range_to.
  rewrite !bool_decide_eq_true_2 by done. cbn [negb orb]. rewrite Hr.
  unfold client_range. rewrite Hv. replace (0 <? start) with true by lia.
  unfold stream_range_from_offset.
  replace (wsub64 (wadd64 start RANGE_PARALLEL_CHUNK_BYTES) 1)
    with (start + RANGE_PARALLEL_CHUNK_BYTES - 1).
  - fold (resume_request req start). by rewrite Hp.
  - unfold wsub64, wadd64. unfold_widths. rewrite (Z.mod_small (start + _)) by lia.
    symmetry. apply Z.mod_small. lia.
Qed.
