(* ===== verification/Calendar.v ===== *)
(** * Pacific-time day boundaries (src/domain_fronter.rs)

    The quota counters reset at midnight Pacific time; the fronter computes
    the Pacific date and the countdown with its own calendar arithmetic.  The
    reference is the calendar itself: the date of day [n] is the [n]-th
    successor of 1970-01-01. *)

From S2P Require Import Prelude.

(** ** The code *)

(** [unix_to_ymd_utc] on days: [secs / 86_400] already taken.  The [i64] and
    [u64] arithmetic stays in range for every [u64] number of seconds. *)
Definition civil_from_doe (doe : Z) : Z * Z * Z :=
  let yoe := (doe - doe / 1460 + doe / 36524 - doe / 146096) / 365 in
  let doy := doe - (365 * yoe + yoe / 4 - yoe / 100) in
  let mp := (5 * doy + 2) / 153 in
  let d := doy - (153 * mp + 2) / 5 + 1 in
  let m := if mp <? 10 then mp + 3 else mp - 9 in
  (yoe, m, d).

Definition civil_from_days (days : Z) : Z * Z * Z :=
  let z := days + 719468 in
  let era := Z.quot (if 0 <=? z then z else z - 146096) 146097 in
  let doe := z - era * 146097 in
  let '(yoe, m, d) := civil_from_doe doe in
  let y := yoe + era * 400 in
  ((if m <=? 2 then y + 1 else y), m, d).

Definition unix_to_ymd_utc (secs : Z) : Z * Z * Z := civil_from_days (secs / 86400).

Definition sakamoto_t (m : Z) : Z :=
  nth (Z.to_nat (m - 1)) [0; 3; 2; 5; 0; 3; 5; 1; 4; 6; 2; 4] 0.

Definition nth_sunday_of_month (year month nth : Z) : Z :=
  let y := if month <? 3 then year - 1 else year in
  let dow_of_1st :=
    (y + Z.quot y 4 - Z.quot y 100 + Z.quot y 400 + sakamoto_t month + 1) mod 7 in
  let first_sunday := if dow_of_1st =? 0 then 1 else 8 - dow_of_1st in
  first_sunday + (nth - 1) * 7.

Definition pacific_is_dst (year month day : Z) : bool :=
  if (month <? 3) || (11 <? month) then false
  else if (3 <? month) && (month <? 11) then true
  else if month =? 3 then nth_sunday_of_month year 3 2 <=? day
  else day <? nth_sunday_of_month year 11 1.

Definition unix_to_pt_seconds (utc_secs : Z) : Z :=
  let pst_guess := sat_sub utc_secs (8 * 3600) in
  let '(y, m, d) := unix_to_ymd_utc pst_guess in
  let offset_secs := if pacific_is_dst y m d then 7 * 3600 else 8 * 3600 in
  sat_sub utc_secs offset_secs.

(** [secs] is the clock, 0 when it is before the epoch. *)
Definition seconds_until_pacific_midnight (secs : Z) : Z :=
  let rem := unix_to_pt_seconds secs mod 86400 in
  if rem =? 0 then 86400 else 86400 - rem.

(** ** The reference calendar *)

Definition is_leap (y : Z) : bool :=
  ((y mod 4 =? 0) && negb (y mod 100 =? 0)) || (y mod 400 =? 0).

Definition days_in_month (y m : Z) : Z :=
  if m =? 2 then if is_leap y then 29 else 28
  else if (m =? 4) || (m =? 6) || (m =? 9) || (m =? 11) then 30
  else 31.

Definition next_day (date : Z * Z * Z) : Z * Z * Z :=
  let '(y, m, d) := date in
  if d <? days_in_month y m then (y, m, d + 1)
  else if m =? 12 then (y + 1, 1, 1)
  else (y, m + 1, 1).

(** The date [n] days after the epoch. *)
Fixpoint date_of_day (n : nat) : Z * Z * Z :=
  match n with
  | O => (1970, 1, 1)
  | S n' => next_day (date_of_day n')
  end.

(** Day of the week, 0 for Sunday; the epoch was a Thursday. *)
Definition weekday (n : Z) : Z := (n + 4) mod 7.

(** ** Reduction to one era of 400 years *)

(** The date of day [doe] of an era that starts on 0000-03-01. *)
Definition era_date (doe : Z) : Z * Z * Z :=
  let '(yoe, m, d) := civil_from_doe doe in ((if m <=? 2 then yoe + 1 else yoe), m, d).

Definition shift_years (k : Z) (date : Z * Z * Z) : Z * Z * Z :=
  let '(y, m, d) := date in (y + k, m, d).

Lemma is_leap_period y k : is_leap (y + k * 400) = is_leap y.
Proof.
  unfold is_leap. replace (y + k * 400) with (y + (k * 100) * 4) at 1 by lia.
  rewrite Z.mod_add by lia. replace (y + k * 400) with (y + (k * 4) * 100) at 1 by lia.
  rewrite Z.mod_add by lia. by rewrite Z.mod_add by lia.
Qed.

Lemma next_day_period k date :
  next_day (shift_years (k * 400) date) = shift_years (k * 400) (next_day date).
Proof.
  destruct date as [[y m] d]. simpl. unfold days_in_month. rewrite is_leap_period.
  repeat case_if; simpl; do 2 f_equal; lia.
Qed.

Definition date_eqb (a b : Z * Z * Z) : bool :=
  (a.1.1 =? b.1.1) && (a.1.2 =? b.1.2) && (a.2 =? b.2).

Lemma date_eqb_eq a b : date_eqb a b = true → a = b.
Proof.
  destruct a as [[y m] d], b as [[y' m'] d']. unfold date_eqb. simpl. intros H. bool_to_prop.
  by subst.
Qed.

(** Check a property of every day of an era by computation. *)
Fixpoint all_days (p : Z → bool) (n : nat) (doe : Z) : bool :=
  match n with O => true | S n' => p doe && all_days p n' (doe + 1) end.

Lemma all_days_spec p n doe x :
  all_days p n doe = true → doe ≤ x < doe + Z.of_nat n → p x = true.
Proof.
  revert doe. induction n as [|n IH]; intros doe; [intros _ Hx; lia|]. cbn [all_days].
  intros [Hp Ha]%andb_true_iff Hx. destruct (decide (x = doe)) as [->|Hne]; [done|].
  apply (IH (doe + 1)); [done|lia].
Qed.

(** Day of the era by March-based year and day of the year. *)
Definition year_start (yoe : Z) : Z := 365 * yoe + yoe / 4 - yoe / 100.
Definition year_last (yoe : Z) : Z := if is_leap (yoe + 1) then 365 else 364.

Definition month_day (doy : Z) : Z * Z :=
  let mp := (5 * doy + 2) / 153 in
  ((if mp <? 10 then mp + 3 else mp - 9), doy - (153 * mp + 2) / 5 + 1).

Definition yoe_num (doe : Z) : Z := doe - doe / 1460 + doe / 36524 - doe / 146096.

Lemma yoe_num_mono_step x : 0 ≤ x < 146096 → yoe_num x ≤ yoe_num (x + 1).
Proof.
  intros Hx. destruct (decide (x = 146095)) as [->|Hne]; [by vm_compute|]. unfold yoe_num.
  rewrite (Z.div_small x 146096), (Z.div_small (x + 1) 146096) by lia.
  assert ((x + 1) / 1460 ≤ x / 1460 + 1) by divlia.
  assert (x / 36524 ≤ (x + 1) / 36524) by (apply Z.div_le_mono; lia). lia.
Qed.

Lemma yoe_num_mono (n : nat) x :
  0 ≤ x → x + Z.of_nat n ≤ 146096 → yoe_num x ≤ yoe_num (x + Z.of_nat n).
Proof.
  intros Hx. induction n as [|n IH]; intros Hn; [by rewrite Z.add_0_r|].
  etrans; [apply IH; lia|]. replace (x + Z.of_nat (S n)) with (x + Z.of_nat n + 1) by lia.
  apply yoe_num_mono_step. lia.
Qed.

(** The first and the last day of every year of the era have its number, and
    the next year starts the day after. *)
Definition year_ok (yoe : Z) : bool :=
  (yoe_num (year_start yoe) / 365 =? yoe)
  && (yoe_num (year_start yoe + year_last yoe) / 365 =? yoe)
  && (year_start yoe + year_last yoe <=? 146096)
  && ((yoe =? 399) || (year_start (yoe + 1) =? year_start yoe + year_last yoe + 1)).

Lemma years_ok yoe : 0 ≤ yoe < 400 → year_ok yoe = true.
Proof. intros Hy. apply (all_days_spec year_ok 400 0); [vm_compute; reflexivity|lia]. Qed.

Lemma year_start_nonneg yoe : 0 ≤ yoe → 0 ≤ year_start yoe.
Proof. intros Hy. unfold year_start. divlia. Qed.

Lemma year_last_range yoe : 364 ≤ year_last yoe ≤ 365.
Proof. unfold year_last. case_if; lia. Qed.

Lemma civil_from_doe_year yoe doy :
  0 ≤ yoe < 400 → 0 ≤ doy ≤ year_last yoe →
  civil_from_doe (year_start yoe + doy) = (yoe, (month_day doy).1, (month_day doy).2).
Proof.
  intros Hy Hd. pose proof (years_ok yoe Hy) as Hok. unfold year_ok in Hok. bool_to_prop.
  pose proof (year_start_nonneg yoe ltac:(lia)).
  assert (Hyoe : yoe_num (year_start yoe + doy) / 365 = yoe).
  { pose proof (yoe_num_mono (Z.to_nat doy) (year_start yoe) ltac:(lia) ltac:(lia)) as Hm1.
    pose proof (yoe_num_mono (Z.to_nat (year_last yoe - doy)) (year_start yoe + doy)
      ltac:(lia) ltac:(lia)) as Hm2.
    rewrite Z2Nat.id in Hm1, Hm2 by lia.
    replace (year_start yoe + doy + (year_last yoe - doy)) with (year_start yoe + year_last yoe)
      in Hm2 by lia.
    apply (Z.div_le_mono _ _ 365) in Hm1, Hm2; lia. }
  unfold civil_from_doe, month_day. fold (yoe_num (year_start yoe + doy)). rewrite Hyoe.
  replace (year_start yoe + doy - (365 * yoe + yoe / 4 - yoe / 100)) with doy
    by (unfold year_start; lia). done.
Qed.

Definition march_date (yoe doy : Z) : Z * Z * Z :=
  let '(m, d) := month_day doy in ((if m <=? 2 then yoe + 1 else yoe), m, d).

Lemma era_date_year yoe doy :
  0 ≤ yoe < 400 → 0 ≤ doy ≤ year_last yoe →
  era_date (year_start yoe + doy) = march_date yoe doy.
Proof.
  intros Hy Hd. unfold era_date, march_date. rewrite civil_from_doe_year by done.
  by destruct (month_day doy) as [m d].
Qed.

(** Days of a month by leap year, and the step inside a March-based year. *)
Definition month_len (leap : bool) (m : Z) : Z :=
  if m =? 2 then if leap then 29 else 28
  else if (m =? 4) || (m =? 6) || (m =? 9) || (m =? 11) then 30 else 31.

Definition month_step_ok (leap : bool) (doy : Z) : bool :=
  let '(m, d) := month_day doy in
  let '(m', d') := month_day (doy + 1) in
  (if d <? month_len leap m then (m' =? m) && (d' =? d + 1)
   else if m =? 12 then (m' =? 1) && (d' =? 1)
   else (m' =? m + 1) && (d' =? 1) && negb (m =? 2)).

Lemma month_steps (leap : bool) doy :
  0 ≤ doy < (if leap then 365 else 364) → month_step_ok leap doy = true.
Proof.
  intros Hd. destruct leap.
  - apply (all_days_spec (month_step_ok true) 365 0); [vm_compute; reflexivity|lia].
  - apply (all_days_spec (month_step_ok false) 364 0); [vm_compute; reflexivity|lia].
Qed.

Lemma march_step yoe doy :
  0 ≤ doy < year_last yoe → march_date yoe (doy + 1) = next_day (march_date yoe doy).
Proof.
  intros Hd. unfold year_last in Hd. pose proof (month_steps (is_leap (yoe + 1)) doy Hd) as Hs.
  unfold march_date, month_step_ok, next_day in *.
  destruct (month_day doy) as [m d]. destruct (month_day (doy + 1)) as [m' d'].
  assert (Hml : days_in_month (if m <=? 2 then yoe + 1 else yoe) m = month_len (is_leap (yoe + 1)) m).
  { unfold days_in_month, month_len. destruct (m =? 2) eqn:E; [|done]. bool_to_prop. by subst m. }
  rewrite Hml. destruct (d <? _); [|destruct (m =? 12) eqn:E12]; bool_to_prop; subst.
  - done.
  - done.
  - destruct (m <=? 2) eqn:E2, (m + 1 <=? 2) eqn:E3; bool_to_prop; do 2 f_equal; lia.
Qed.

Lemma march_wrap yoe : march_date (yoe + 1) 0 = next_day (march_date yoe (year_last yoe)).
Proof.
  unfold year_last. destruct (is_leap (yoe + 1)) eqn:E.
  - change (march_date yoe 365) with (yoe + 1, 2, 29). unfold next_day, days_in_month.
    change (2 =? 2) with true. cbv iota. by rewrite E.
  - change (march_date yoe 364) with (yoe + 1, 2, 28). unfold next_day, days_in_month.
    change (2 =? 2) with true. cbv iota. by rewrite E.
Qed.

(** Every day of the era belongs to one of its years. *)
Lemma era_decompose (n : nat) :
  Z.of_nat n < 146097 →
  ∃ yoe doy, 0 ≤ yoe < 400 ∧ 0 ≤ doy ≤ year_last yoe ∧ Z.of_nat n = year_start yoe + doy.
Proof.
  induction n as [|n IH]; intros Hn.
  { exists 0, 0. pose proof (year_last_range 0). split_and!; try lia. by vm_compute. }
  destruct IH as (yoe & doy & Hy & Hd & He); [lia|].
  destruct (decide (doy = year_last yoe)) as [->|Hne].
  - pose proof (years_ok yoe Hy) as Hok. unfold year_ok in Hok. bool_to_prop.
    exists (yoe + 1), 0. pose proof (year_last_range (yoe + 1)).
    destruct (decide (yoe = 399)) as [->|H399].
    + assert (year_start 399 + year_last 399 = 146096) by reflexivity. lia.
    + split_and!; lia.
  - exists yoe, (doy + 1). split_and!; lia.
Qed.

Lemma era_step doe :
  0 ≤ doe < 146096 → era_date (doe + 1) = next_day (era_date doe).
Proof.
  intros Hd. destruct (era_decompose (Z.to_nat doe)) as (yoe & doy & Hy & Hdy & He); [lia|].
  rewrite Z2Nat.id in He by lia. subst doe. rewrite era_date_year by done.
  destruct (decide (doy = year_last yoe)) as [->|Hne].
  - pose proof (years_ok yoe Hy) as Hok. unfold year_ok in Hok. bool_to_prop.
    assert (year_start 399 + year_last 399 = 146096) by reflexivity.
    assert (yoe ≠ 399) by (intros ->; lia).
    replace (year_start yoe + year_last yoe + 1) with (year_start (yoe + 1) + 0) by lia.
    pose proof (year_last_range (yoe + 1)). rewrite era_date_year by lia. apply march_wrap.
  - rewrite <-Z.add_assoc. rewrite era_date_year by lia. apply march_step. lia.
Qed.

Lemma era_wrap : shift_years 400 (era_date 0) = next_day (era_date 146096).
Proof. vm_compute. reflexivity. Qed.

Lemma civil_from_days_era days :
  0 ≤ days →
  civil_from_days days =
  shift_years ((days + 719468) / 146097 * 400) (era_date ((days + 719468) mod 146097)).
Proof.
  intros Hd. unfold civil_from_days, era_date.
  replace (0 <=? days + 719468) with true by lia. rewrite Z.quot_div_nonneg by lia.
  replace (days + 719468 - (days + 719468) / 146097 * 146097) with ((days + 719468) mod 146097)
    by (rewrite Z.mod_eq by lia; lia).
  destruct (civil_from_doe _) as [[yoe m] d]. simpl. case_if; do 2 f_equal; lia.
Qed.

Lemma civil_from_days_step days :
  0 ≤ days → civil_from_days (days + 1) = next_day (civil_from_days days).
Proof.
  intros Hd. rewrite !civil_from_days_era by lia.
  set (z := days + 719468). replace (days + 1 + 719468) with (z + 1) by (unfold z; lia).
  rewrite next_day_period.
  pose proof (Z.mod_pos_bound z 146097 ltac:(lia)) as Hm.
  destruct (decide (z mod 146097 = 146096)) as [He|Hne].
  - assert (H1 : (z + 1) mod 146097 = 0) by divlia.
    assert (H2 : (z + 1) / 146097 = z / 146097 + 1) by divlia.
    rewrite H1, H2, He, <-era_wrap. destruct (era_date 0) as [[y m] d]. simpl. do 2 f_equal; lia.
  - assert (H1 : (z + 1) mod 146097 = z mod 146097 + 1) by divlia.
    assert (H2 : (z + 1) / 146097 = z / 146097) by divlia.
    rewrite H1, H2, era_step by lia. done.
Qed.

Lemma civil_from_days_date (n : nat) : civil_from_days (Z.of_nat n) = date_of_day n.
Proof.
  induction n as [|n IH]; [by vm_compute|]. cbn [date_of_day]. rewrite <-IH.
  rewrite <-civil_from_days_step by lia. f_equal. lia.
Qed.

(** The date arithmetic is the calendar: for every Unix time the date is
    the one reached from 1970-01-01 by that many steps of the Gregorian
    calendar, leap years included. *)
Theorem ymd_is_calendar secs :
  0 ≤ secs → unix_to_ymd_utc secs = date_of_day (Z.to_nat (secs / 86400)).
Proof.
  intros Hs. unfold unix_to_ymd_utc. rewrite <-civil_from_days_date.
  rewrite Z2Nat.id; [done|]. apply Z.div_pos; lia.
Qed.

Lemma ymd_is_calendar_witness :
  unix_to_ymd_utc 1709251199 = (2024, 2, 29) ∧
  unix_to_ymd_utc 1709251199 = date_of_day (Z.to_nat (1709251199 / 86400)).
Proof. split; [by vm_compute|]. apply (ymd_is_calendar 1709251199). lia. Defined.

(** ** Days of the week *)

(** Sakamoto's weekday of the first of a month, before reduction. *)
Definition sakamoto (y m : Z) : Z :=
  let y := if m <? 3 then y - 1 else y in
  y + y / 4 - y / 100 + y / 400 + sakamoto_t m + 1.

Definition dow (date : Z * Z * Z) : Z :=
  let '(y, m, d) := date in (sakamoto y m + (d - 1)) mod 7.

Definition month_ok (date : Z * Z * Z) : Prop := 1 ≤ date.1.2 ≤ 12 ∧ 1970 ≤ date.1.1 ∧ 1 ≤ date.2.

Lemma month_cases m :
  1 ≤ m ≤ 12 →
  m = 1 ∨ m = 2 ∨ m = 3 ∨ m = 4 ∨ m = 5 ∨ m = 6 ∨ m = 7 ∨ m = 8 ∨ m = 9 ∨ m = 10 ∨ m = 11 ∨ m = 12.
Proof. lia. Qed.

(** The first of the next month falls that many days later. *)
Lemma sakamoto_next y m :
  1 ≤ m ≤ 11 → ∃ k, sakamoto y (m + 1) = sakamoto y m + days_in_month y m + 7 * k.
Proof.
  intros Hm. destruct (decide (m = 2)) as [->|Hne].
  - unfold sakamoto, days_in_month. change (2 + 1 <? 3) with false. change (2 <? 3) with true.
    change (2 =? 2) with true. cbv iota zeta.
    change (sakamoto_t (2 + 1)) with 2. change (sakamoto_t 2) with 3. exists (-4).
    unfold is_leap. destruct (y mod 4 =? 0) eqn:E4, (y mod 100 =? 0) eqn:E100,
      (y mod 400 =? 0) eqn:E400; cbn [andb orb negb]; bool_to_prop; divlia.
  - exists ((sakamoto_t (m + 1) - sakamoto_t m - month_len false m) / 7).
    assert (Hd : days_in_month y m = month_len false m).
    { unfold days_in_month, month_len. by replace (m =? 2) with false by lia. }
    assert (Ht : (sakamoto_t (m + 1) - sakamoto_t m - month_len false m) mod 7 = 0).
    { destruct (month_cases m) as [->|[->|[->|[->|[->|[->|[->|[->|[->|[->|[->| ->]]]]]]]]]]];
        try reflexivity; lia. }
    rewrite Hd. unfold sakamoto.
    replace (m + 1 <? 3) with (m <? 3) by (destruct (Z.ltb_spec m 3), (Z.ltb_spec (m + 1) 3); lia).
    apply Z.div_exact in Ht; lia.
Qed.

Lemma sakamoto_next_year y :
  ∃ k, sakamoto (y + 1) 1 = sakamoto y 12 + 31 + 7 * k.
Proof.
  unfold sakamoto. change (12 <? 3) with false. change (1 <? 3) with true. cbv iota zeta.
  change (sakamoto_t 12) with 4. change (sakamoto_t 1) with 0. exists (-5).
  replace (y + 1 - 1) with y by lia. lia.
Qed.

Lemma days_in_month_pos y m : 28 ≤ days_in_month y m ≤ 31.
Proof. unfold days_in_month. repeat case_if; lia. Qed.

Lemma dow_next date :
  month_ok date → date.2 ≤ days_in_month date.1.1 date.1.2 →
  dow (next_day date) = (dow date + 1) mod 7.
Proof.
  destruct date as [[y m] d]. intros (Hm & Hy & Hd) Hle. simpl in *. unfold dow.
  rewrite Zplus_mod_idemp_l. unfold next_day. case_if; [|case_if].
  - f_equal. lia.
  - subst m. destruct (sakamoto_next_year y) as [k ->].
    assert (Hd31 : days_in_month y 12 = 31) by reflexivity.
    replace (sakamoto y 12 + 31 + 7 * k + (1 - 1)) with (sakamoto y 12 + (d - 1) + 1 + k * 7) by lia.
    apply Z.mod_add. lia.
  - destruct (sakamoto_next y m) as [k ->]; [lia|].
    replace (sakamoto y m + days_in_month y m + 7 * k + (1 - 1))
      with (sakamoto y m + (d - 1) + 1 + k * 7) by lia.
    apply Z.mod_add. lia.
Qed.

Lemma next_day_ok date :
  month_ok date → date.2 ≤ days_in_month date.1.1 date.1.2 →
  month_ok (next_day date) ∧ (next_day date).2 ≤ days_in_month (next_day date).1.1 (next_day date).1.2.
Proof.
  destruct date as [[y m] d]. intros (Hm & Hy & Hd) Hle. simpl in *. unfold next_day, month_ok.
  pose proof (days_in_month_pos (y + 1) 1). pose proof (days_in_month_pos y (m + 1)).
  case_if; [|case_if]; simpl; lia.
Qed.

Lemma date_of_day_ok n :
  month_ok (date_of_day n) ∧
  (date_of_day n).2 ≤ days_in_month (date_of_day n).1.1 (date_of_day n).1.2.
Proof.
  induction n as [|n [IH1 IH2]]; [split; [split_and!|]; simpl; try lia; by vm_compute|].
  by apply next_day_ok.
Qed.

Lemma dow_weekday n : dow (date_of_day n) = weekday (Z.of_nat n).
Proof.
  induction n as [|n IH]; [by vm_compute|]. cbn [date_of_day].
  destruct (date_of_day_ok n) as [H1 H2]. rewrite dow_next, IH by done.
  unfold weekday. rewrite Zplus_mod_idemp_l. f_equal. lia.
Qed.

(** The computed day is the [k]-th Sunday. *)
Lemma nth_sunday_weekday n y m k :
  date_of_day n = (y, m, nth_sunday_of_month y m k) → weekday (Z.of_nat n) = 0.
Proof.
  intros Hd. rewrite <-dow_weekday. destruct (date_of_day_ok n) as [(Hm & Hy & _) _].
  rewrite Hd in *. simpl in Hm, Hy. unfold dow, nth_sunday_of_month, sakamoto.
  set (y' := if m <? 3 then y - 1 else y). assert (Hy' : 0 ≤ y') by (unfold y'; case_if; lia).
  rewrite !Z.quot_div_nonneg by lia.
  set (a := y' + y' / 4 - y' / 100 + y' / 400 + sakamoto_t m + 1).
  pose proof (Z.mod_pos_bound a 7 ltac:(lia)) as Ha. case_if; divlia.
Qed.

Lemma nth_sunday_range y m k :
  7 * (k - 1) < nth_sunday_of_month y m k ≤ 7 * k.
Proof.
  unfold nth_sunday_of_month. set (a := _ mod 7).
  pose proof (Z.mod_pos_bound (_ : Z) 7 ltac:(lia) : 0 ≤ a < 7). case_if; lia.
Qed.

(** The flag by month. *)
Lemma dst_by_month y m d :
  1 ≤ m ≤ 12 →
  pacific_is_dst y m d =
  if m =? 3 then nth_sunday_of_month y 3 2 <=? d
  else if m =? 11 then d <? nth_sunday_of_month y 11 1
  else (3 <? m) && (m <? 11).
Proof.
  intros Hm. destruct (month_cases m Hm) as [->|[->|[->|[->|[->|[->|[->|[->|[->|[->|[->| ->]]]]]]]]]]];
    reflexivity.
Qed.

(** Case on every comparison of the flag, then arithmetic. *)
Ltac dst_cases :=
  repeat match goal with
  | H : context [?a =? ?b] |- _ => destruct (Z.eqb_spec a b)
  | H : context [?a <=? ?b] |- _ => destruct (Z.leb_spec a b)
  | H : context [?a <? ?b] |- _ => destruct (Z.ltb_spec a b)
  | |- context [?a =? ?b] => destruct (Z.eqb_spec a b)
  | |- context [?a <=? ?b] => destruct (Z.leb_spec a b)
  | |- context [?a <? ?b] => destruct (Z.ltb_spec a b)
  end; cbn [andb] in *; try congruence; try lia.

Definition dst_on (n : nat) : bool :=
  let '(y, m, d) := date_of_day n in pacific_is_dst y m d.

(** Daylight saving is switched on the right days.  Between two
    consecutive days the flag changes only into a Sunday: on in March, on the
    second Sunday (the 8th to the 14th), off in November, on the first (the
    1st to the 7th). *)
Theorem dst_switches_on_sundays n :
  dst_on n ≠ dst_on (S n) →
  weekday (Z.of_nat (S n)) = 0 ∧
  let '(_, m, d) := date_of_day (S n) in
  (dst_on (S n) = true ∧ m = 3 ∧ 8 ≤ d ≤ 14) ∨ (dst_on (S n) = false ∧ m = 11 ∧ 1 ≤ d ≤ 7).
Proof.
  unfold dst_on. destruct (date_of_day_ok n) as [(Hm & Hy & Hd) Hle].
  destruct (date_of_day_ok (S n)) as [(Hm' & _ & _) _].
  destruct (date_of_day (S n)) as [[y' m'] d'] eqn:E'.
  destruct (date_of_day n) as [[y m] d] eqn:E. simpl in Hm, Hy, Hd, Hle, Hm'. intros Hne.
  assert (Hn : (y', m', d') = next_day (y, m, d)) by (by rewrite <-E', <-E).
  assert (Hs : d' = nth_sunday_of_month y' m' (if m' =? 3 then 2 else 1) →
    weekday (Z.of_nat (S n)) = 0) by (intros ->; by eapply nth_sunday_weekday).
  pose proof (nth_sunday_range y 3 2). pose proof (nth_sunday_range y 11 1).
  pose proof (nth_sunday_range y' 3 2). pose proof (nth_sunday_range y' 11 1).
  pose proof (days_in_month_pos y m).
  assert (Hd' : (y' = y ∧ m' = m ∧ d' = d + 1) ∨ (d' = 1 ∧ 28 ≤ d ∧ (m' = m + 1 ∧ y' = y ∨ m = 12 ∧ m' = 1))).
  { unfold next_day in Hn. revert Hn. case_if; [|case_if]; intros [= -> -> ->]; lia. }
  rewrite !dst_by_month in Hne by lia. rewrite dst_by_month by lia.
  destruct (decide (m' = 3)) as [->|Hm3]; [|destruct (decide (m' = 11)) as [->|Hm11]].
  - assert (Hflag : d' = nth_sunday_of_month y' 3 2).
    { clear Hs. destruct Hd' as [(-> & <- & ->)|(-> & ? & [[? ->]|?])]; [| |lia]; dst_cases. }
    split; [by apply Hs|]. left. dst_cases.
  - assert (Hflag : d' = nth_sunday_of_month y' 11 1).
    { clear Hs. destruct Hd' as [(-> & <- & ->)|(-> & ? & [[? ->]|?])]; [| |lia]; dst_cases. }
    split; [by apply Hs|]. right. dst_cases.
  - exfalso. destruct Hd' as [(-> & -> & ->)|(-> & ? & [[-> ->]|[-> ->]])]; dst_cases.
Qed.

Lemma dst_switches_on_sundays_witness :
  dst_on 65 = false ∧ date_of_day 66 = (1970, 3, 8) ∧ weekday 66 = 0.
Proof.
  split_and!; [by vm_compute|by vm_compute|].
  assert (Hne : dst_on 65 ≠ dst_on 66) by (vm_compute; discriminate).
  exact (proj1 (dst_switches_on_sundays 65 Hne)).
Defined.

(** The countdown to the reset is between one second and one day, and
    that many seconds of Pacific time later it is midnight; with a clock at
    or before the epoch (the fallback for a broken clock) it is a full day,
    not zero. *)
Theorem pacific_countdown secs :
  let r := seconds_until_pacific_midnight secs in
  1 ≤ r ≤ 86400 ∧ (unix_to_pt_seconds secs + r) mod 86400 = 0 ∧
  seconds_until_pacific_midnight 0 = 86400.
Proof.
  intros r. unfold r, seconds_until_pacific_midnight.
  pose proof (Z.mod_pos_bound (unix_to_pt_seconds secs) 86400 ltac:(lia)).
  split_and!; [case_if; lia|case_if; lia| |by vm_compute].
  generalize dependent (unix_to_pt_seconds secs). intros t Ht. case_if; divlia.
Qed.
