(* ===== verification/Routing.v ===== *)
(** * Where a connection goes

    Host matching and the dispatch of tunnelled connections
    (src/proxy_server.rs): the SNI-rewrite suffixes, the [hosts] override, the
    DoH lists, the fronting groups, the passthrough list, and
    [dispatch_tunnel], which tries them in order.  What a peek at the client's
    socket returns and what a connect does are inputs. *)

From Stdlib Require Import Strings.Byte.
From Stdlib Require Import (notations) Strings.String.
From S2P Require Import Prelude RustBytes IpAddr.

(** ** Host matching *)

Definition SNI_REWRITE_SUFFIXES : list bytes := map bs
  ["google.com"; "gstatic.com"; "googleusercontent.com"; "googleapis.com"; "ggpht.com";
   "youtube.com"; "youtu.be"; "youtube-nocookie.com"; "ytimg.com"; "gvt1.com"; "gvt2.com";
   "doubleclick.net"; "googlesyndication.com"; "googleadservices.com"; "google-analytics.com";
   "googletagmanager.com"; "googletagservices.com"; "fonts.googleapis.com"; "blogspot.com";
   "blogger.com"]%string.

Definition YOUTUBE_RELAY_HOSTS : list bytes := map bs
  ["youtube.com"; "youtu.be"; "youtube-nocookie.com"; "youtubei.googleapis.com"]%string.

Definition DEFAULT_DOH_HOSTS : list bytes := map bs
  ["cloudflare-dns.com"; "chrome.cloudflare-dns.com"; "mozilla.cloudflare-dns.com";
   "1dot1dot1dot1.cloudflare-dns.com"; "dns.google"; "dns.google.com"; "dns.quad9.net";
   "dns11.quad9.net"; "dns.adguard-dns.com"; "unfiltered.adguard-dns.com";
   "family.adguard-dns.com"; "dns.nextdns.io"; "doh.opendns.com"; "doh.cleanbrowsing.org";
   "doh.dns.sb"; "dns0.eu"; "dns.alidns.com"; "doh.pub"; "dns.mullvad.net"]%string.

(** [host.to_ascii_lowercase()] then [trim_end_matches('.')], the first two
    lines of every matcher. *)
Definition norm_host (host : bytes) : bytes := trim_end_matches x2e (to_ascii_lowercase host).

(** [entry.trim().trim_end_matches('.').to_ascii_lowercase()]. *)
Definition norm_entry (entry : bytes) : bytes :=
  to_ascii_lowercase (trim_end_matches x2e (trim entry)).

(** [h == s || h.ends_with(&format!(".{}", s))]. *)
Definition same_or_below (h s : bytes) : bool := bool_decide (h = s) || ends_with (x2e :: s) h.

Definition matches_sni_rewrite (host : bytes) (youtube_via_relay : bool) : bool :=
  let h := norm_host host in
  if youtube_via_relay && existsb (same_or_below h) YOUTUBE_RELAY_HOSTS then false
  else existsb (same_or_below h) SNI_REWRITE_SUFFIXES.

(** [parts[i..].join(".")] for [i] from 1. *)
Fixpoint parents (parts : list bytes) : list bytes :=
  match parts with
  | _ :: ((_ :: _) as ps) => join [x2e] ps :: parents ps
  | _ => []
  end.

Fixpoint first_entry (hosts : gmap bytes bytes) (keys : list bytes) : option bytes :=
  match keys with
  | [] => None
  | k :: ks => match hosts !! k with Some ip => Some ip | None => first_entry hosts ks end
  end.

Definition hosts_override (hosts : gmap bytes bytes) (host : bytes) : option bytes :=
  let h := norm_host host in
  match hosts !! h with
  | Some ip => Some ip
  | None => first_entry hosts (parents (split_on x2e h))
  end.

Definition host_matches_doh_entry (h entry : bytes) : bool :=
  let e := norm_entry entry in
  let e := default e (strip_prefix [x2e] e) in
  if bool_decide (e = []) then false else same_or_below h e.

Definition matches_doh_host (host : bytes) (extra : list bytes) : bool :=
  let h := norm_host host in
  if bool_decide (h = []) then false
  else if existsb (host_matches_doh_entry h) DEFAULT_DOH_HOSTS then true
  else existsb (host_matches_doh_entry h) extra.

Record FrontingGroup := mk_group {
  g_name : bytes; g_ip : bytes; g_sni : bytes; g_domains : list bytes }.

(** [server_name] is the parsed [sni] and carries no more information. *)
Record FrontingGroupResolved := mk_resolved {
  r_name : bytes; r_ip : bytes; r_sni : bytes; domains_normalized : list bytes }.

Definition is_dot_anchored_match (host entry : bytes) : bool :=
  if bool_decide (host = entry) then true
  else (len entry <? len host) && ends_with entry host &&
       bool_decide (host !! Z.to_nat (len host - len entry - 1) = Some x2e).

Definition group_matches (h : bytes) (g : FrontingGroupResolved) : bool :=
  existsb (is_dot_anchored_match h) (domains_normalized g).

Definition match_fronting_group (host : bytes) (groups : list FrontingGroupResolved)
    : option FrontingGroupResolved :=
  match groups with
  | [] => None
  | _ => let h := norm_host host in
         if bool_decide (h = []) then None else List.find (group_matches h) groups
  end.

Definition passthrough_entry (h entry : bytes) : bool :=
  let e := norm_entry entry in
  if bool_decide (e = []) then false
  else match strip_prefix [x2e] e with
       | Some suffix => same_or_below h suffix
       | None => bool_decide (h = e)
       end.

Definition matches_passthrough (host : bytes) (list : list bytes) : bool :=
  match list with
  | [] => false
  | _ => existsb (passthrough_entry (norm_host host)) list
  end.

(** ** The proxy's routing context *)

Inductive Mode := AppsScript | Direct | Full.
#[global] Instance Mode_eq_dec : EqDecision Mode.
Proof. solve_decision. Defined.

(** [tls_connector] is left out: it only serves the handshake. *)
Record RewriteCtx := mk_ctx {
  google_ip : bytes; front_domain : bytes; hosts : gmap bytes bytes;
  upstream_socks5 : option bytes; mode : Mode; youtube_via_relay : bool;
  passthrough_hosts : list bytes; block_quic : bool; block_stun : bool;
  bypass_doh : bool; block_doh : bool; bypass_doh_hosts : list bytes;
  fronting_groups : list FrontingGroupResolved }.

Definition should_use_sni_rewrite (hosts : gmap bytes bytes) (host : bytes) (port : Z)
    (youtube_via_relay : bool) : bool :=
  (port =? 443) && (matches_sni_rewrite host youtube_via_relay ||
                    bool_decide (is_Some (hosts_override hosts host))).

Definition looks_like_http (first_bytes : bytes) : bool :=
  existsb (λ m, starts_with (bs m) first_bytes)
    ["GET "; "POST "; "PUT "; "HEAD "; "DELETE "; "PATCH "; "OPTIONS "; "CONNECT "; "TRACE "]%string.

(** The peek at up to eight bytes of the client's socket, bounded by 100 ms. *)
Inductive Peek :=
  | Peeked (first : bytes)
  | PeekError
  | ClientSilent.

Inductive Route :=
  | RawTcp (via : option bytes)
  | Blocked
  | FullTunnel
  | NoMux
  | SniRewrite (group : option FrontingGroupResolved)
  | MitmRelay
  | HttpRelay (scheme : bytes)
  | Dropped.

(** The end of [dispatch_tunnel]: the relay exists and the client's first bytes
    decide; [raw] is the passthrough. *)
Definition dispatch_peeked (port : Z) (raw : Route) (peek : Peek) : Route :=
  match peek with
  | PeekError => Dropped
  | ClientSilent => raw
  | Peeked first =>
      if starts_with [x16] first then MitmRelay
      else if bool_decide (first ≠ []) && looks_like_http first then
        HttpRelay (if port =? 443 then bs "https" else bs "http")
      else raw
  end.

(** [dispatch_tunnel]: what is done with the connection.  [has_fronter] and
    [has_mux] say whether the optional components exist. *)
Definition dispatch_tunnel (host : bytes) (port : Z) (has_fronter has_mux : bool)
    (ctx : RewriteCtx) (peek : Peek) : Route :=
  let raw := RawTcp (upstream_socks5 ctx) in
  if matches_passthrough host (passthrough_hosts ctx) then raw
  else if block_doh ctx && (port =? 443) && matches_doh_host host (bypass_doh_hosts ctx) then Blocked
  else if bypass_doh ctx && (port =? 443) && matches_doh_host host (bypass_doh_hosts ctx) then raw
  else if bool_decide (mode ctx = Full) then (if has_mux then FullTunnel else NoMux)
  else
    match (if port =? 443 then match_fronting_group host (fronting_groups ctx) else None) with
    | Some group => SniRewrite (Some group)
    | None =>
        if should_use_sni_rewrite (hosts ctx) host port (youtube_via_relay ctx) then SniRewrite None
        else if bool_decide (mode ctx = Direct) then raw
        else if negb has_fronter then raw
        else dispatch_peeked port raw peek
    end.

(** ** Connecting *)

Definition looks_like_ip (s : bytes) : bool := bool_decide (is_Some (parse_ip s)).

(** [s.trim_start_matches(c)]. *)
Fixpoint trim_start_matches (c : byte) (s : bytes) : bytes :=
  match s with
  | x :: s' => if is_byte c x then trim_start_matches c s' else s
  | [] => []
  end.

Definition target_host (host : bytes) : bytes :=
  trim_end_matches x5d (trim_start_matches x5b host).

(** One connection attempt: through the proxy (its own timeout is 5 s), or
    direct within a number of milliseconds. *)
Inductive Attempt :=
  | ViaSocks5 (proxy host : bytes) (port : Z)
  | DirectConnect (host : bytes) (port timeout_ms : Z).

(** [plain_tcp_passthrough] up to the copy loop: the attempts made and whether
    one gave a connection; [socks_ok] and [direct_ok] are the outcomes. *)
Definition plain_tcp_passthrough (host : bytes) (port : Z) (upstream : option bytes)
    (socks_ok direct_ok : bool) : list Attempt * bool :=
  let h := target_host host in
  let connect_timeout := if looks_like_ip h then 4000 else 10000 in
  match upstream with
  | Some proxy =>
      if socks_ok then ([ViaSocks5 proxy h port], true)
      else ([ViaSocks5 proxy h port; DirectConnect h port connect_timeout], direct_ok)
  | None => ([DirectConnect h port connect_timeout], direct_ok)
  end.

(** [do_sni_rewrite_tunnel_from_tcp]: the edge that is dialled and the SNI that
    is shown to it; [sni_error] is the error of [ServerName::try_from], if any. *)
Definition sni_rewrite_target (sni_error : bytes → option bytes) (ctx : RewriteCtx) (host : bytes)
    (group : option FrontingGroupResolved) : option (bytes * bytes) :=
  match group with
  | Some g => Some (r_ip g, r_sni g)
  | None =>
      let ip := default (google_ip ctx) (hosts_override (hosts ctx) host) in
      match sni_error (front_domain ctx) with
      | None => Some (ip, front_domain ctx)
      | Some _ => None
      end
  end.

(** [FrontingGroupResolved::from_config]. *)
Definition from_config (sni_error : bytes → option bytes) (g : FrontingGroup)
    : result FrontingGroupResolved bytes :=
  match sni_error (g_sni g) with
  | Some e => Err (bs "invalid sni '" ++ g_sni g ++ bs "': " ++ e)
  | None =>
      Ok (mk_resolved (g_name g) (g_ip g) (g_sni g)
            (List.filter (λ d, negb (bool_decide (d = []))) (map norm_entry (g_domains g))))
  end.

(** ** Domains and their subdomains *)

(** [h] is the domain [d] or a name below it. *)
Definition under (h d : bytes) : Prop := h = d ∨ ∃ p, h = p ++ x2e :: d.

Lemma ends_with_iff p s : ends_with p s = true ↔ ∃ t, s = t ++ p.
Proof.
  unfold ends_with. rewrite starts_with_iff. split.
  - intros [t Ht]. exists (rev t). rewrite <-(rev_involutive s), Ht, rev_app_distr.
    by rewrite rev_involutive.
  - intros [t ->]. exists (rev t). by rewrite rev_app_distr.
Qed.

Lemma same_or_below_iff h d : same_or_below h d = true ↔ under h d.
Proof.
  unfold same_or_below, under. rewrite orb_true_iff, bool_decide_eq_true, ends_with_iff. done.
Qed.

(** The match without allocation is the match it replaces. *)
Lemma dot_anchored_same_or_below h e : is_dot_anchored_match h e = same_or_below h e.
Proof.
  apply eq_iff_eq_true. rewrite same_or_below_iff. unfold is_dot_anchored_match, under.
  case_bool_decide as He; [naive_solver|]. rewrite !andb_true_iff, bool_decide_eq_true, ends_with_iff.
  split.
  - intros [[Hl%Z.ltb_lt [t ->]] Hd]. right. rewrite len_app in *.
    replace (len t + len e - len e - 1) with (len t - 1) in Hd by lia.
    destruct t as [|x t _] using rev_ind; [unfold len in *; simpl in *; lia|].
    rewrite len_app in Hd. change (len [x]) with 1 in Hd.
    replace (Z.to_nat (len t + 1 - 1)) with (length t) in Hd by (unfold len; lia).
    rewrite <-app_assoc, lookup_app_r, Nat.sub_diag in Hd by lia. simplify_eq/=.
    exists t. by rewrite <-app_assoc.
  - intros [->|[p ->]]; [done|]. split_and!.
    + apply Z.ltb_lt. rewrite len_app, len_cons. pose proof (len_nonneg p). lia.
    + exists (p ++ [x2e]). by rewrite <-app_assoc.
    + rewrite len_app, len_cons.
      replace (Z.to_nat (len p + (1 + len e) - len e - 1)) with (length p) by (unfold len; lia).
      by rewrite lookup_app_r, Nat.sub_diag by lia.
Qed.

(** ** The [hosts] override picks the most specific entry *)

Lemma split_on_cons c s : ∃ l ls, split_on c s = l :: ls.
Proof.
  destruct s as [|x s]; simpl; [eauto|]. destruct (is_byte c x); [eauto|].
  destruct (split_on c s); eauto.
Qed.

Lemma join_split_on c s : join [c] (split_on c s) = s.
Proof.
  induction s as [|x s IH]; [done|]. destruct (split_on_cons c s) as (l & ls & E).
  simpl. unfold is_byte at 1. rewrite E in *. case_bool_decide as Hx.
  - subst x. change (c :: join [c] (l :: ls) = c :: s). by rewrite IH.
  - rewrite <-IH. by destruct ls.
Qed.

Lemma parents_step x s :
  parents (split_on x2e (x :: s)) =
    (if is_byte x2e x then [s] else []) ++ parents (split_on x2e s).
Proof.
  simpl. destruct (split_on_cons x2e s) as (l & ls & E). destruct (is_byte x2e x).
  - rewrite <-(join_split_on x2e s) at 2. rewrite E. done.
  - rewrite E. by destruct ls.
Qed.

Lemma elem_of_parents d h : d ∈ parents (split_on x2e h) ↔ ∃ p, h = p ++ x2e :: d.
Proof.
  induction h as [|x s IH].
  - simpl. split; [inversion 1|]. by intros [[] ?].
  - rewrite parents_step, elem_of_app, IH. unfold is_byte. split.
    + case_bool_decide as Hx; intros [Hd|[p ->]].
      * apply list_elem_of_singleton in Hd as ->. exists []. by subst.
      * by exists (x :: p).
      * by apply elem_of_nil in Hd.
      * by exists (x :: p).
    + intros [[|y p] Hp]; simplify_eq/=.
      * left. by constructor.
      * right. by exists p.
Qed.

(** The first key with an entry is the longest one. *)
Definition longest_entry (hosts : gmap bytes bytes) (dom : bytes → Prop) (r : option bytes) : Prop :=
  match r with
  | None => ∀ d, dom d → hosts !! d = None
  | Some ip => ∃ d, dom d ∧ hosts !! d = Some ip ∧
      ∀ d', dom d' → is_Some (hosts !! d') → len d' ≤ len d
  end.

Lemma longest_entry_cons hosts (dom : bytes → Prop) h r :
  (∀ d, dom d → len d < len h) → longest_entry hosts dom r →
  longest_entry hosts (λ d, d = h ∨ dom d)
    (match hosts !! h with Some ip => Some ip | None => r end).
Proof.
  intros Hlen Hr. destruct (hosts !! h) as [ip|] eqn:E; simpl.
  - exists h. split_and!; [by left|done|]. intros d' [->|Hd] _; [done|]. apply Hlen in Hd. lia.
  - destruct r as [ip|]; simpl in *.
    + destruct Hr as (d & Hd & Hip & Hmax). exists d. split_and!; [by right|done|].
      intros d' [->|Hd'] Hs; [|by apply Hmax]. rewrite E in Hs. by destruct Hs.
    + intros d [->|Hd]; [done|by apply Hr].
Qed.

Lemma longest_entry_ext hosts dom dom' r :
  (∀ d, dom d ↔ dom' d) → longest_entry hosts dom r → longest_entry hosts dom' r.
Proof.
  intros Hd. unfold longest_entry. destruct r as [ip|].
  - intros (d & H1 & H2 & H3). exists d. split_and!; [by apply Hd|done|]. intros d' ?%Hd. by apply H3.
  - intros H d ?%Hd. by apply H.
Qed.

Lemma first_entry_longest hosts h :
  longest_entry hosts (λ d, d ∈ parents (split_on x2e h)) (first_entry hosts (parents (split_on x2e h))).
Proof.
  induction h as [|x s IH]; [by inversion 1|]. rewrite parents_step.
  destruct (is_byte x2e x); simpl; [|done].
  eapply longest_entry_ext; [|apply longest_entry_cons, IH].
  - intros d. by rewrite elem_of_cons.
  - intros d [p ->]%elem_of_parents. rewrite len_app, len_cons. pose proof (len_nonneg p). lia.
Qed.

(** The [hosts] override is the entry of the most specific domain.  Among
    the configured names that are the requested host or a parent domain of it,
    the answer is the value of the longest; there is none exactly when no such
    name is configured. *)
Theorem hosts_override_most_specific hosts host :
  longest_entry hosts (under (norm_host host)) (hosts_override hosts host).
Proof.
  unfold hosts_override. eapply longest_entry_ext; [|apply longest_entry_cons, first_entry_longest].
  - intros d. unfold under. rewrite elem_of_parents. naive_solver.
  - intros d [p ->]%elem_of_parents. rewrite len_app, len_cons. pose proof (len_nonneg p). lia.
Qed.

(** ** Host names up to case and trailing dots *)

Definition host_eq (h h' : bytes) : Prop := norm_host h = norm_host h'.

#[global] Instance host_eq_equiv : Equivalence host_eq.
Proof. unfold host_eq. split; [by intros ?|by intros ???|by intros ??? -> ->]. Qed.

#[global] Instance matches_sni_rewrite_proper : Proper (host_eq ==> eq ==> eq) matches_sni_rewrite.
Proof. intros h h' E ? y ->. unfold matches_sni_rewrite. by rewrite E. Qed.

#[global] Instance hosts_override_proper hosts : Proper (host_eq ==> eq) (hosts_override hosts).
Proof. intros h h' E. unfold hosts_override. by rewrite E. Qed.

#[global] Instance matches_doh_host_proper : Proper (host_eq ==> eq ==> eq) matches_doh_host.
Proof. intros h h' E ? x ->. unfold matches_doh_host. by rewrite E. Qed.

#[global] Instance match_fronting_group_proper :
  Proper (host_eq ==> eq ==> eq) match_fronting_group.
Proof. intros h h' E ? gs ->. unfold match_fronting_group. by rewrite E. Qed.

#[global] Instance matches_passthrough_proper : Proper (host_eq ==> eq ==> eq) matches_passthrough.
Proof. intros h h' E ? l ->. unfold matches_passthrough. by rewrite E. Qed.

#[global] Instance should_use_sni_rewrite_proper hosts :
  Proper (host_eq ==> eq ==> eq ==> eq) (should_use_sni_rewrite hosts).
Proof.
  intros h h' E ? p -> ? y ->. unfold should_use_sni_rewrite.
  rewrite (matches_sni_rewrite_proper h h' E y y eq_refl). by rewrite (hosts_override_proper hosts h h' E).
Qed.

Lemma dispatch_host_eq h h' port f m ctx peek :
  host_eq h h' → dispatch_tunnel h port f m ctx peek = dispatch_tunnel h' port f m ctx peek.
Proof.
  intros E. unfold dispatch_tunnel.
  rewrite (matches_passthrough_proper h h' E _ _ eq_refl), (matches_doh_host_proper h h' E _ _ eq_refl),
    (match_fronting_group_proper h h' E _ _ eq_refl).
  by rewrite (should_use_sni_rewrite_proper _ h h' E _ _ eq_refl _ _ eq_refl).
Qed.

Lemma trim_end_matches_idemp c s : trim_end_matches c (trim_end_matches c s) = trim_end_matches c s.
Proof.
  unfold trim_end_matches. rewrite rev_involutive. f_equal.
  induction (rev s) as [|x r IH]; [done|]. simpl. destruct (is_byte c x) eqn:E; [done|]. simpl. by rewrite E.
Qed.

Lemma trim_end_matches_dots s n : trim_end_matches x2e (s ++ repeat x2e n) = trim_end_matches x2e s.
Proof.
  unfold trim_end_matches. f_equal. rewrite rev_app_distr.
  replace (rev (repeat x2e n)) with (repeat x2e n); [by induction n|].
  induction n as [|n IH]; [done|]. simpl. rewrite <-IH. by rewrite repeat_cons.
Qed.

(** A host name, the same in other case, and with trailing dots. *)
Lemma host_eq_spelling h h' n :
  to_ascii_lowercase h = to_ascii_lowercase h' → host_eq h (h' ++ repeat x2e n).
Proof.
  intros E. unfold host_eq, norm_host. rewrite E, to_ascii_lowercase_app.
  replace (to_ascii_lowercase (repeat x2e n)) with (repeat x2e n); [by rewrite trim_end_matches_dots|].
  induction n as [|n IH]; [done|]. simpl. by rewrite <-IH.
Qed.

(** ** Dispatch *)

(** The routes on which the proxy decrypts the client's TLS, and those that
    spend Apps Script quota. *)
Definition decrypts (r : Route) : bool :=
  match r with SniRewrite _ | MitmRelay => true | _ => false end.
Definition uses_relay (r : Route) : bool :=
  match r with MitmRelay | HttpRelay _ | FullTunnel => true | _ => false end.

(** C31: dispatch keeps to what the configuration allows.  A passthrough host is
    never decrypted nor relayed, whatever else matches; a blocked DoH host goes
    nowhere; full mode decrypts nothing; direct mode never uses Apps Script; SNI
    rewriting happens on port 443 only, and a relayed connection means that the
    relay exists.  The decision depends on the host name only up to case and
    trailing dots. *)
Theorem dispatch_confined host port f m ctx peek :
  let r := dispatch_tunnel host port f m ctx peek in
  (matches_passthrough host (passthrough_hosts ctx) = true → r = RawTcp (upstream_socks5 ctx)) ∧
  (matches_passthrough host (passthrough_hosts ctx) = false → block_doh ctx = true → port = 443 →
   matches_doh_host host (bypass_doh_hosts ctx) = true → r = Blocked) ∧
  (mode ctx = Full → decrypts r = false) ∧
  (mode ctx = Direct → uses_relay r = false) ∧
  (∀ g, r = SniRewrite g → port = 443 ∧ mode ctx ≠ Full) ∧
  (uses_relay r = true → if bool_decide (mode ctx = Full) then m = true else f = true) ∧
  (∀ host', host_eq host host' → dispatch_tunnel host' port f m ctx peek = r).
Proof.
  intros r. split; [|split; [|split; [|split; [|split; [|split]]]]].
  7: { intros host' E. symmetry. by apply dispatch_host_eq. }
  all: unfold r, dispatch_tunnel, dispatch_peeked.
  - by intros ->.
  - by intros -> -> -> ->.
  - intros Hm. repeat (case_match || case_bool_decide); simplify_eq/=; done.
  - intros Hm. repeat (case_match || case_bool_decide); simplify_eq/=; congruence.
  - intros g Hg.
    assert (∀ b, should_use_sni_rewrite (hosts ctx) host port b = true → port = 443).
    { intros b. unfold should_use_sni_rewrite. intros [?%Z.eqb_eq _]%andb_true_iff. done. }
    repeat (case_match || case_bool_decide); simplify_eq/=; bool_to_prop; naive_solver.
  - intros Hu. repeat (case_match || case_bool_decide); simplify_eq/=; bool_to_prop; congruence.
Qed.

(** With [youtube_via_relay], the YouTube page and API hosts are not rewritten
    to the Google edge, although [googleapis.com] is on the suffix list; only
    an explicit override or a fronting group still sends them there. *)
Lemma youtube_relay_wins host port f m ctx peek d :
  youtube_via_relay ctx = true → d ∈ YOUTUBE_RELAY_HOSTS → under (norm_host host) d →
  hosts_override (hosts ctx) host = None →
  dispatch_tunnel host port f m ctx peek ≠ SniRewrite None.
Proof.
  intros Hy Hd Hu Ho.
  assert (Hs : should_use_sni_rewrite (hosts ctx) host port true = false).
  { unfold should_use_sni_rewrite, matches_sni_rewrite. rewrite Ho.
    replace (existsb (same_or_below (norm_host host)) YOUTUBE_RELAY_HOSTS) with true.
    - apply andb_false_r.
    - symmetry. apply existsb_exists. exists d. by rewrite <-list_elem_of_In, same_or_below_iff. }
  unfold dispatch_tunnel, dispatch_peeked. rewrite Hy, Hs. repeat case_match; congruence.
Qed.

Definition demo_ctx (m : Mode) : RewriteCtx :=
  mk_ctx (bs "216.239.38.120") (bs "www.google.com") {[bs "api.example.org" := bs "10.0.0.7"]} None m
    true [bs ".internal.example"; bs "bank.example"] true true true false []
    [mk_resolved (bs "vercel") (bs "76.76.21.21") (bs "react.dev") [bs "vercel.com"]].

Definition demo_route (m : Mode) (host : bytes) (port : Z) : Route :=
  dispatch_tunnel host port true true (demo_ctx m) (Peeked [x16; x03; x01]).

Example routes :
  demo_route AppsScript (bs "A.Internal.Example.") 443 = RawTcp None ∧
  demo_route AppsScript (bs "xbank.example") 443 = MitmRelay ∧
  demo_route AppsScript (bs "www.google.com") 443 = SniRewrite None ∧
  demo_route AppsScript (bs "www.google.com") 80 = MitmRelay ∧
  demo_route AppsScript (bs "YouTubei.googleapis.com") 443 = MitmRelay ∧
  decrypts (demo_route AppsScript (bs "app.vercel.com") 443) = true ∧
  demo_route AppsScript (bs "v2.api.example.org") 443 = SniRewrite None ∧
  demo_route AppsScript (bs "dns.google") 443 = RawTcp None ∧
  demo_route Full (bs "app.vercel.com") 443 = FullTunnel ∧
  demo_route Direct (bs "example.org") 443 = RawTcp None.
Proof. by vm_compute. Qed.

(** A leading dot in a fronting group's entry is kept, so the entry matches no
    ordinary host; the DoH list, said to match the same way, drops the dot. *)
Example fronting_leading_dot :
  let g := {| g_name := bs "v"; g_ip := bs "1.2.3.4"; g_sni := bs "react.dev";
              g_domains := [bs ".vercel.com"] |} in
  (∃ r, from_config (λ _, None) g = Ok r ∧ match_fronting_group (bs "app.vercel.com") [r] = None) ∧
  host_matches_doh_entry (bs "app.vercel.com") (bs ".vercel.com") = true.
Proof. split; [eexists; split|]; by vm_compute. Qed.
