(* ===== verification/Socks.v ===== *)
(** * SOCKS5 (src/proxy_server.rs)

    The handshake the proxy answers ([handle_socks5_client]), the one it speaks
    to an upstream proxy ([socks5_connect_via]) and the UDP datagram format.  A
    stream is the bytes the peer sends before it closes: [read_exact] does not
    depend on how they are cut. *)

From Stdlib Require Import Strings.Byte.
From S2P Require Import Prelude RustBytes IpAddr Udpgw MuxState.

(** [read_exact] of [n] bytes; [None] is [UnexpectedEof]. *)
Definition read_exact (n : Z) (s : bytes) : option (bytes * bytes) :=
  if len s <? n then None else Some (ztake n s, zdrop n s).

(** A reply with a zeroed bound address. *)
Definition socks_reply (rep : byte) : bytes :=
  [x05; rep; x00; x01; x00; x00; x00; x00; x00; x00].

(** [write_socks5_reply]. *)
Definition write_socks5_reply (rep : byte) (addr : option SocketAddr) : bytes :=
  [x05; rep; x00] ++
  match addr with
  | Some (SockV4 ip port) => x01 :: ip ++ u16_to_be port
  | Some (SockV6 ip port) => x04 :: ip ++ u16_to_be port
  | None => x01 :: [x00; x00; x00; x00] ++ u16_to_be 0
  end.

(** ** The server side *)

(** How the handler ends: the client hung up in the middle of a message, the
    handler closed the connection, it went on with a UDP association, or it
    dispatched a connection whose first bytes are [rest]. *)
Inductive SocksOutcome :=
  | UnexpectedEof
  | Closed
  | UdpAssociate
  | Dispatch (host : bytes) (port : Z) (rest : bytes).

(** The address of a request; [None] for end of file, [Some None] for an
    unknown type. *)
Definition read_socks_host (atyp : byte) (s : bytes) : option (option bytes * bytes) :=
  match atyp with
  | x01 => let? (ip, s) := read_exact 4 s in Some (Some (fmt_ipv4 ip), s)
  | x03 => let? (l, s) := read_exact 1 s in
           let? (name, s) := read_exact (byte_val (hd x00 l)) s in
           Some (Some (from_utf8_lossy name), s)
  | x04 => let? (ip, s) := read_exact 16 s in Some (Some (fmt_ipv6 ip), s)
  | _ => Some (None, s)
  end.

(** The connect request once its address is known; [unreachable] is the
    multiplexer's negative cache when there is a multiplexer. *)
Definition socks_connect (now : Z) (block_stun : bool) (unreachable : option UnreachableCache)
    (host : bytes) (port : Z) (rest : bytes) : bytes * SocksOutcome * option UnreachableCache :=
  let '(refused, unreachable) :=
    match unreachable with
    | Some c => let '(b, c) := is_unreachable now host port c in (b, Some c)
    | None => (false, None)
    end in
  if refused then (socks_reply x04, Closed, unreachable)
  else if block_stun && bool_decide (port ∈ [3478; 5349; 19302]) then (socks_reply x05, Closed, unreachable)
  else (socks_reply x00, Dispatch host port rest, unreachable).

(** The bytes written, how it ends, and the cache afterwards. *)
Definition handle_socks5_client (now : Z) (block_stun : bool) (unreachable : option UnreachableCache)
    (input : bytes) : bytes * SocksOutcome * option UnreachableCache :=
  match read_exact 2 input with
  | None => ([], UnexpectedEof, unreachable)
  | Some (hdr, s) =>
  if negb (starts_with [x05] hdr) then ([], Closed, unreachable) else
  match read_exact (byte_val (nth 1 hdr x00)) s with
  | None => ([], UnexpectedEof, unreachable)
  | Some (methods, s) =>
  if negb (bool_decide (x00 ∈ methods)) then ([x05; xff], Closed, unreachable) else
  match read_exact 4 s with
  | None => ([x05; x00], UnexpectedEof, unreachable)
  | Some (req, s) =>
  if negb (starts_with [x05] req) then ([x05; x00], Closed, unreachable) else
  let cmd := nth 1 req x00 in
  if negb (bool_decide (cmd = x01)) && negb (bool_decide (cmd = x03)) then
    ([x05; x00] ++ socks_reply x07, Closed, unreachable) else
  match read_socks_host (nth 3 req x00) s with
  | None => ([x05; x00], UnexpectedEof, unreachable)
  | Some (None, _) => ([x05; x00] ++ socks_reply x08, Closed, unreachable)
  | Some (Some host, s) =>
  match read_exact 2 s with
  | None => ([x05; x00], UnexpectedEof, unreachable)
  | Some (port_buf, rest) =>
  let port := u16_from_be (nth 0 port_buf x00) (nth 1 port_buf x00) in
  if bool_decide (cmd = x03) then ([x05; x00], UdpAssociate, unreachable)
  else
    let '(out, r, c) := socks_connect now block_stun unreachable host port rest in
    ([x05; x00] ++ out, r, c)
  end end end end end.

(** ** The client side *)

Inductive ConnectError := GreetRejected | HostTooLong | ConnectRejected | BadAtyp | ConnectEof.

Definition socks_greeting : bytes := [x05; x01; x00].

Definition socks_request (host : bytes) (port : Z) : option bytes :=
  let? addr :=
    match parse_ipv4 host with
    | Some v4 => Some (x01 :: v4)
    | None =>
        match parse_ipv6 host with
        | Some v6 => Some (x04 :: v6)
        | None => if 255 <? len host then None else Some (x03 :: byte_of (len host) :: host)
        end
    end in
  Some ([x05; x01; x00] ++ addr ++ u16_to_be port).

(** Skipping the bound address of a reply. *)
Definition skip_bound (atyp : byte) (s : bytes) : result bytes ConnectError :=
  let skip n s := match read_exact n s with Some (_, s) => Ok s | None => Err ConnectEof end in
  match atyp with
  | x01 => skip 6 s
  | x04 => skip 18 s
  | x03 => match read_exact 1 s with
           | Some (l, s) => skip (byte_val (hd x00 l) + 2) s
           | None => Err ConnectEof
           end
  | _ => Err BadAtyp
  end.

(** [socks5_connect_via] after the TCP connect: what it writes, and the rest
    of the peer's bytes, which belong to the connection, or an error. *)
Definition socks5_connect_via (host : bytes) (port : Z) (replies : bytes)
    : bytes * result bytes ConnectError :=
  match read_exact 2 replies with
  | None => (socks_greeting, Err ConnectEof)
  | Some (reply, s) =>
  if negb (bool_decide (reply = [x05; x00])) then (socks_greeting, Err GreetRejected) else
  match socks_request host port with
  | None => (socks_greeting, Err HostTooLong)
  | Some req =>
  let out := socks_greeting ++ req in
  match read_exact 4 s with
  | None => (out, Err ConnectEof)
  | Some (head, s) =>
  if negb (starts_with [x05; x00] head) then (out, Err ConnectRejected)
  else (out, skip_bound (nth 3 head x00) s)
  end end end.

(** ** UDP datagrams *)

Record SocksUdpTarget := mk_target { t_host : bytes; t_port : Z; t_atyp : byte; t_addr : bytes }.

#[global] Instance SocksUdpTarget_eq_dec : EqDecision SocksUdpTarget.
Proof. solve_decision. Defined.
#[global] Program Instance SocksUdpTarget_countable : Countable SocksUdpTarget :=
  inj_countable' (λ t, (t_host t, t_port t, t_atyp t, t_addr t))
    (λ x, let '(h, p, a, d) := x in mk_target h p a d) _.
Next Obligation. by intros []. Qed.

(** The address block: the printed host, the raw address and what follows. *)
Definition udp_address (atyp : byte) (s : bytes) : option (bytes * bytes * bytes) :=
  match atyp with
  | x01 => if len s <? 4 + 2 then None else Some (fmt_ipv4 (ztake 4 s), ztake 4 s, zdrop 4 s)
  | x03 =>
      match s with
      | [] => None
      | l :: s =>
          let n := byte_val l in
          if (n =? 0) || (len s <? n + 2) then None
          else let? host := from_utf8 (ztake n s) in Some (host, ztake n s, zdrop n s)
      end
  | x04 => if len s <? 16 + 2 then None else Some (fmt_ipv6 (ztake 16 s), ztake 16 s, zdrop 16 s)
  | _ => None
  end.

(** The target and the offset of the payload. *)
Definition parse_socks5_udp_packet_offsets (buf : bytes) : option (SocksUdpTarget * Z) :=
  match buf with
  | b0 :: b1 :: b2 :: atyp :: s =>
      if negb (bool_decide ([b0; b1; b2] = [x00; x00; x00])) then None else
      let? (host, addr, s) := udp_address atyp s in
      match s with
      | hi :: lo :: payload =>
          Some (mk_target host (u16_from_be hi lo) atyp addr, len buf - len payload)
      | _ => None
      end
  | _ => None
  end.

Definition parse_socks5_udp_packet (buf : bytes) : option (SocksUdpTarget * bytes) :=
  let? (target, off) := parse_socks5_udp_packet_offsets buf in Some (target, zdrop off buf).

Definition build_socks5_udp_packet (target : SocksUdpTarget) (payload : bytes) : bytes :=
  [x00; x00; x00; t_atyp target] ++
  match t_atyp target with
  | x03 => byte_of (len (t_addr target)) :: t_addr target
  | _ => t_addr target
  end ++ u16_to_be (t_port target) ++ payload.

(** ** The two sides understand each other *)

Lemma read_exact_app n a s : len a = n → read_exact n (a ++ s) = Some (a, s).
Proof.
  intros <-. unfold read_exact. rewrite len_app. pose proof (len_nonneg s).
  replace (_ <? _) with false by lia. by rewrite ztake_app_len, zdrop_app_len.
Qed.

(** The host a server sees of a request: literals come out in canonical form. *)
Definition canonical_host (host : bytes) : bytes :=
  match parse_ipv4 host with
  | Some v4 => fmt_ipv4 v4
  | None => match parse_ipv6 host with Some v6 => fmt_ipv6 v6 | None => host end
  end.

Lemma read_request_address host addr s :
  utf8_valid host = true →
  match parse_ipv4 host with
  | Some v4 => Some (x01 :: v4)
  | None =>
      match parse_ipv6 host with
      | Some v6 => Some (x04 :: v6)
      | None => if 255 <? len host then None else Some (x03 :: byte_of (len host) :: host)
      end
  end = Some addr →
  ∃ atyp body, addr = atyp :: body ∧
    read_socks_host atyp (body ++ s) = Some (Some (canonical_host host), s).
Proof.
  intros Hu. unfold canonical_host.
  destruct (parse_ipv4 host) as [v4|] eqn:E4;
    [|destruct (parse_ipv6 host) as [v6|] eqn:E6; [|case_if; [done|]]]; intros [= <-];
    eexists _, _; (split; [done|]); cbn [read_socks_host].
  - apply parse_ipv4_length in E4. by rewrite read_exact_app by (unfold len; by rewrite E4).
  - apply parse_ipv6_length in E6. by rewrite read_exact_app by (unfold len; by rewrite E6).
  - change (read_exact 1 ((byte_of (len host) :: host) ++ s))
      with (read_exact 1 ([byte_of (len host)] ++ (host ++ s))).
    rewrite read_exact_app by done. simpl hd. rewrite byte_val_of.
    pose proof (len_nonneg host). rewrite Z.mod_small by lia.
    rewrite read_exact_app by done. by rewrite from_utf8_lossy_valid.
Qed.

(** A SOCKS5 connect through the proxy's own server works.  The bytes
    [socks5_connect_via] sends make [handle_socks5_client] dispatch the same
    host (an address literal in canonical form) and port, with the
    connection's first bytes untouched, and its two replies make the client
    accept and leave the server's first bytes untouched. *)
Theorem socks_connect_handshake now host port req up down :
  utf8_valid host = true → is_u16 port → socks_request host port = Some req →
  let replies := [x05; x00] ++ socks_reply x00 in
  handle_socks5_client now false None (socks_greeting ++ req ++ up) =
    (replies, Dispatch (canonical_host host) port up, None) ∧
  socks5_connect_via host port (replies ++ down) = (socks_greeting ++ req, Ok down).
Proof.
  intros Hu Hp Hreq replies. split.
  - unfold socks_request in Hreq.
    destruct (match parse_ipv4 host with Some _ => _ | None => _ end) as [addr|] eqn:Ea; [|done].
    apply (read_request_address host addr (u16_to_be port ++ up) Hu) in Ea as (atyp & body & -> & Ea).
    simplify_eq. unfold handle_socks5_client.
    change (socks_greeting ++ ?r) with ([x05; x01] ++ [x00] ++ r).
    rewrite read_exact_app by done. cbn [starts_with nth]. simpl negb.
    rewrite (read_exact_app _ [x00]) by done.
    replace (([x05; x01; x00] ++ (atyp :: body) ++ u16_to_be port) ++ up)
      with ([x05; x01; x00; atyp] ++ body ++ u16_to_be port ++ up) by (simpl; by rewrite <-app_assoc).
    simpl negb. rewrite (read_exact_app _ [x05; x01; x00; atyp]) by done. simpl negb. simpl nth.
    rewrite Ea, read_exact_app by done. simpl. by rewrite u16_be_roundtrip.
  - unfold socks5_connect_via, replies. rewrite <-app_assoc, read_exact_app by done.
    rewrite bool_decide_true by done. simpl negb. rewrite Hreq.
    change (socks_reply x00 ++ down) with ([x05; x00; x00; x01] ++ repeat x00 6 ++ down).
    rewrite (read_exact_app _ [x05; x00; x00; x01]) by done. simpl negb. cbn [nth skip_bound].
    by rewrite read_exact_app.
Qed.

(** ** UDP datagrams: the parser inverts the builder *)

(** The targets the parser produces. *)
Definition target_wf (t : SocksUdpTarget) : Prop :=
  is_u16 (t_port t) ∧
  match t_atyp t with
  | x01 => len (t_addr t) = 4 ∧ t_host t = fmt_ipv4 (t_addr t)
  | x03 => 1 ≤ len (t_addr t) ≤ 255 ∧ utf8_valid (t_addr t) = true ∧ t_host t = t_addr t
  | x04 => len (t_addr t) = 16 ∧ t_host t = fmt_ipv6 (t_addr t)
  | _ => False
  end.

(** The address block of a well-formed target. *)
Definition addr_block (t : SocksUdpTarget) : bytes :=
  match t_atyp t with x03 => byte_of (len (t_addr t)) :: t_addr t | _ => t_addr t end.

Lemma u16_be_bytes hi lo : u16_to_be (u16_from_be hi lo) = [hi; lo].
Proof.
  unfold u16_to_be, u16_from_be. pose proof (byte_val_range hi). pose proof (byte_val_range lo).
  assert ((byte_val hi * 256 + byte_val lo) / 256 = byte_val hi) as -> by divlia.
  rewrite byte_of_val. do 2 f_equal. apply (inj byte_val). rewrite byte_val_of. divlia.
Qed.

Lemma build_eq t payload :
  build_socks5_udp_packet t payload =
    [x00; x00; x00; t_atyp t] ++ addr_block t ++ u16_to_be (t_port t) ++ payload.
Proof. done. Qed.

Lemma udp_address_block t s :
  target_wf t → 2 ≤ len s → udp_address (t_atyp t) (addr_block t ++ s) = Some (t_host t, t_addr t, s).
Proof.
  destruct t as [host port atyp addr]. unfold target_wf, addr_block. cbn [t_atyp t_addr t_host t_port].
  intros [_ H] Hs. destruct atyp; try done; cbn [udp_address app].
  - destruct H as [Hl ->]. rewrite len_app. if_false. rewrite ztake_app_eq, zdrop_app_eq by done. done.
  - destruct H as (Hl & Hu & ->). rewrite byte_val_of, Z.mod_small by lia.
    replace ((len addr =? 0) || _) with false
      by (symmetry; apply orb_false_iff; rewrite len_app; split; lia).
    rewrite ztake_app_eq, zdrop_app_eq by done. unfold from_utf8. by rewrite Hu.
  - destruct H as [Hl ->]. rewrite len_app. if_false. rewrite ztake_app_eq, zdrop_app_eq by done. done.
Qed.

(** What the address parser accepts. *)
Lemma udp_address_inv atyp s host addr rest port :
  udp_address atyp s = Some (host, addr, rest) → is_u16 port →
  let t := mk_target host port atyp addr in target_wf t ∧ s = addr_block t ++ rest.
Proof.
  unfold target_wf, addr_block. cbn [t_atyp t_addr t_host t_port].
  destruct atyp; try done; cbn [udp_address].
  - case_if; [done|]. intros [=]; subst. intros Hp. rewrite ztake_zdrop, len_ztake by lia. done.
  - destruct s as [|l s]; [done|]. case_if; [done|]. unfold from_utf8.
    destruct (utf8_valid _) eqn:Eu; [|done]. intros [=]; subst. intros Hp.
    pose proof (byte_val_range l). rewrite len_ztake by lia. split.
    + split; [done|]. split; [lia|]. done.
    + by rewrite byte_of_val, <-app_comm_cons, ztake_zdrop.
  - case_if; [done|]. intros [=]; subst. intros Hp. rewrite ztake_zdrop, len_ztake by lia. done.
Qed.

Lemma socks5_udp_packet_parses t payload :
  target_wf t → parse_socks5_udp_packet (build_socks5_udp_packet t payload) = Some (t, payload).
Proof.
  intros Hwf. unfold parse_socks5_udp_packet. rewrite build_eq.
  assert (parse_socks5_udp_packet_offsets
    ([x00; x00; x00; t_atyp t] ++ addr_block t ++ u16_to_be (t_port t) ++ payload) =
    Some (t, len ([x00; x00; x00; t_atyp t] ++ addr_block t ++ u16_to_be (t_port t)))) as ->.
  { cbn [app parse_socks5_udp_packet_offsets].
    rewrite udp_address_block by (rewrite ?len_app; unfold len; simpl; lia || done).
    unfold u16_to_be. cbn [app]. rewrite u16_be_roundtrip by apply Hwf. destruct t; cbn [t_port].
    f_equal. f_equal. unfold len. simpl. rewrite !length_app. simpl. lia. }
  f_equal. f_equal. rewrite !app_assoc. by rewrite zdrop_app_len.
Qed.

Lemma socks5_udp_packet_inv buf t off :
  parse_socks5_udp_packet_offsets buf = Some (t, off) →
  target_wf t ∧ buf = build_socks5_udp_packet t (zdrop off buf).
Proof.
  unfold parse_socks5_udp_packet_offsets.
  destruct buf as [|b0 [|b1 [|b2 [|atyp s]]]]; try done.
  case_bool_decide as Hb; simplify_eq/=; [|done].
  destruct (udp_address atyp s) as [[[host addr] [|hi [|lo rest]]]|] eqn:Ea; try done.
  intros [=]; subst.
  apply (udp_address_inv _ _ _ _ _ (u16_from_be hi lo)) in Ea as [Hwf ->]; [|apply u16_from_be_range].
  split; [done|]. rewrite build_eq. cbn [t_atyp t_port]. rewrite u16_be_bytes.
  change (?a :: ?b :: ?c :: ?d :: ?e) with ([a; b; c; d] ++ e). f_equal. f_equal.
  change (hi :: lo :: ?r) with ([hi; lo] ++ r). f_equal.
  symmetry. rewrite !app_assoc. apply zdrop_app_eq. rewrite !len_app. lia.
Qed.

(** SOCKS5 datagrams parse back.  A datagram parses to a target and a
    payload exactly when it is the datagram built from them, for the targets
    of the three address types; so a reply framed for a target is understood
    by a client that framed the request the same way, and nothing else is
    accepted. *)
Theorem socks5_udp_packet_roundtrip buf t payload :
  parse_socks5_udp_packet buf = Some (t, payload) ↔
  target_wf t ∧ buf = build_socks5_udp_packet t payload.
Proof.
  split; [|intros [? ->]; by apply socks5_udp_packet_parses].
  unfold parse_socks5_udp_packet.
  destruct (parse_socks5_udp_packet_offsets buf) as [[t' off]|] eqn:E; [|done].
  intros [=]; subst. by apply socks5_udp_packet_inv.
Qed.

Lemma socks_connect_handshake_witness :
  handle_socks5_client 0 false None
    (socks_greeting ++ ([x05; x01; x00; x03; x0b] ++ bs "example.org" ++ [x01; xbb]) ++ bs "hi") =
    ([x05; x00] ++ socks_reply x00, Dispatch (bs "example.org") 443 (bs "hi"), None).
Proof.
  by apply (socks_connect_handshake 0 (bs "example.org") 443
    ([x05; x01; x00; x03; x0b] ++ bs "example.org" ++ [x01; xbb]) (bs "hi") []).
Defined.
