(* ===== verification/UdpRelay.v ===== *)
(** * UDP associations (src/proxy_server.rs)

    [UdpRelayState], the dispatch loop of [handle_socks5_udp_associate] and the
    per-target tasks of [udp_session_task].  The loop and the tasks interleave:
    a step is what one of them does between two awaits, so the lookup, the
    eviction, the reply of the multiplexer and the insertion are separate steps
    of the loop.  Datagrams and the multiplexer's replies are inputs. *)

From Stdlib Require Import Strings.Byte.
From S2P Require Import Prelude RustBytes Base64 IpAddr Udpgw NodeHandlers TunnelLoop Socks.

Definition UDP_UPLINK_QUEUE : Z := 64.
Definition UDP_INITIAL_POLL_DELAY : Z := 500.
Definition UDP_MAX_POLL_DELAY : Z := 30000.
Definition MAX_UDP_SESSIONS_PER_ASSOCIATE : Z := 256.
Definition MAX_UDP_PAYLOAD_BYTES : Z := 9 * 1024.

(** ** The session table *)

(** The sending half of a task's queue is the task's number. *)
Record UdpRelaySession := mk_session { s_sid : bytes; s_uplink : nat }.

Record UdpRelayState := mk_relay {
  sessions : gmap SocksUdpTarget UdpRelaySession;
  order : list SocksUdpTarget }.

Definition relay_new : UdpRelayState := mk_relay ∅ [].

Definition get_uplink (target : SocksUdpTarget) (r : UdpRelayState) : option nat :=
  s_uplink <$> sessions r !! target.

Definition relay_insert (target : SocksUdpTarget) (s : UdpRelaySession) (r : UdpRelayState)
    : UdpRelayState :=
  mk_relay (<[target := s]> (sessions r)) (order r ++ [target]).

(** [order.remove(position(target))]: the first occurrence. *)
Fixpoint remove_first (t : SocksUdpTarget) (l : list SocksUdpTarget) : list SocksUdpTarget :=
  match l with
  | [] => []
  | x :: l' => if bool_decide (x = t) then l' else x :: remove_first t l'
  end.

Definition relay_remove (target : SocksUdpTarget) (r : UdpRelayState) : UdpRelayState :=
  mk_relay (delete target (sessions r)) (remove_first target (order r)).

Fixpoint evict_loop (cap : Z) (m : gmap SocksUdpTarget UdpRelaySession) (l : list SocksUdpTarget)
    : UdpRelayState * list SocksUdpTarget :=
  if Z.of_nat (size m) <? cap then (mk_relay m l, [])
  else
    match l with
    | [] => (mk_relay m [], [])
    | victim :: l' =>
        match m !! victim with
        | Some _ => let '(r, evicted) := evict_loop cap (delete victim m) l' in (r, victim :: evicted)
        | None => evict_loop cap m l'
        end
    end.

Definition evict_until_under (cap : Z) (r : UdpRelayState) : UdpRelayState * list SocksUdpTarget :=
  evict_loop cap (sessions r) (order r).

Definition live_sids (r : UdpRelayState) : list bytes := map (λ kv, s_sid kv.2) (map_to_list (sessions r)).

(** ** The association *)

(** A task is running, waiting for a reply of the multiplexer, about to close
    its session, about to remove itself from the table, or gone. *)
Inductive TaskPhase := Running | Awaiting | Closing | Cleaning | Gone.
#[global] Instance TaskPhase_eq_dec : EqDecision TaskPhase.
Proof. solve_decision. Defined.

Record Task := mk_task {
  k_sid : bytes; k_target : SocksUdpTarget; k_peer : SocketAddr;
  k_queue : list bytes; k_backoff : Z; k_phase : TaskPhase }.

Definition task_at (p : TaskPhase) (k : Task) : Task :=
  mk_task (k_sid k) (k_target k) (k_peer k) (k_queue k) (k_backoff k) p.

(** Where the dispatch loop is: at its select, before the eviction, waiting for
    the open, before the insertion, or past the loop. *)
Inductive LoopPhase :=
  | Idle
  | Evicting (t : SocksUdpTarget) (peer : SocketAddr) (payload : bytes)
  | Opening (t : SocksUdpTarget) (peer : SocketAddr)
  | Inserting (t : SocksUdpTarget) (sid : bytes) (tid : nat)
  | Ended.

(** What is handed to the multiplexer. *)
Inductive UdpOp :=
  | UdpOpen (host : bytes) (port : Z) (payload : bytes)
  | UdpData (sid : bytes) (payload : bytes)
  | UdpClose (sid : bytes).

Record Assoc := mk_assoc {
  relay : UdpRelayState;
  tasks : gmap nat Task;
  next_tid : nat;
  phase : LoopPhase;
  client_addr : option SocketAddr;
  foreign_ip_drops : Z; oversized_dropped : Z; sessions_evicted : Z;
  to_client : list (SocketAddr * bytes);
  to_mux : list UdpOp }.

Definition assoc_new : Assoc := mk_assoc relay_new ∅ 0 Idle None 0 0 0 [] [].

Definition with_phase (p : LoopPhase) (a : Assoc) : Assoc :=
  mk_assoc (relay a) (tasks a) (next_tid a) p (client_addr a) (foreign_ip_drops a)
    (oversized_dropped a) (sessions_evicted a) (to_client a) (to_mux a).
Definition with_relay (r : UdpRelayState) (a : Assoc) : Assoc :=
  mk_assoc r (tasks a) (next_tid a) (phase a) (client_addr a) (foreign_ip_drops a)
    (oversized_dropped a) (sessions_evicted a) (to_client a) (to_mux a).
Definition with_tasks (m : gmap nat Task) (a : Assoc) : Assoc :=
  mk_assoc (relay a) m (next_tid a) (phase a) (client_addr a) (foreign_ip_drops a)
    (oversized_dropped a) (sessions_evicted a) (to_client a) (to_mux a).
Definition lock_client (peer : SocketAddr) (a : Assoc) : Assoc :=
  mk_assoc (relay a) (tasks a) (next_tid a) (phase a) (Some peer) (foreign_ip_drops a)
    (oversized_dropped a) (sessions_evicted a) (to_client a) (to_mux a).
Definition count_drops (foreign oversized evicted : Z) (a : Assoc) : Assoc :=
  mk_assoc (relay a) (tasks a) (next_tid a) (phase a) (client_addr a)
    (wadd64 (foreign_ip_drops a) foreign) (wadd64 (oversized_dropped a) oversized)
    (wadd64 (sessions_evicted a) evicted) (to_client a) (to_mux a).
Definition send_client (ps : list (SocketAddr * bytes)) (a : Assoc) : Assoc :=
  mk_assoc (relay a) (tasks a) (next_tid a) (phase a) (client_addr a) (foreign_ip_drops a)
    (oversized_dropped a) (sessions_evicted a) (to_client a ++ ps) (to_mux a).
Definition send_mux (ops : list UdpOp) (a : Assoc) : Assoc :=
  mk_assoc (relay a) (tasks a) (next_tid a) (phase a) (client_addr a) (foreign_ip_drops a)
    (oversized_dropped a) (sessions_evicted a) (to_client a) (to_mux a ++ ops).

Section association.
Context `{!Base64}.

(** The datagrams [send_udp_response_packets] sends. *)
Definition send_udp_response_packets (client : SocketAddr) (target : SocksUdpTarget)
    (resp : TunnelResponse) : list (SocketAddr * bytes) :=
  match decode_udp_packets resp with
  | Err _ => []
  | Ok packets => map (λ p, (client, build_socks5_udp_packet target p)) packets
  end.

Definition sock_ip (a : SocketAddr) : IpAddr :=
  match a with SockV4 ip _ => IpV4 ip | SockV6 ip _ => IpV6 ip end.

(** [uplink.try_send(payload)]: nothing happens when the queue is full or its
    receiver is gone. *)
Definition try_send (tid : nat) (payload : bytes) (a : Assoc) : Assoc :=
  match tasks a !! tid with
  | Some k =>
      if bool_decide (k_phase k ∈ [Running; Awaiting; Closing]) && (len (k_queue k) <? UDP_UPLINK_QUEUE)
      then with_tasks (<[tid := mk_task (k_sid k) (k_target k) (k_peer k) (k_queue k ++ [payload])
                                  (k_backoff k) (k_phase k)]> (tasks a)) a
      else a
  | None => a
  end.

(** One datagram received by the relay socket. *)
Definition on_datagram (block_quic : bool) (client_peer_ip : IpAddr) (peer : SocketAddr)
    (buf : bytes) (a : Assoc) : Assoc :=
  if negb (bool_decide (sock_ip peer = client_peer_ip)) then count_drops 1 0 0 a
  else
    match parse_socks5_udp_packet_offsets buf with
    | None => a
    | Some (target, payload_off) =>
        let payload := zdrop payload_off buf in
        if block_quic && (t_port target =? 443) then a
        else if bool_decide (is_Some (client_addr a) ∧ client_addr a ≠ Some peer) then a
        else
          let a := lock_client peer a in
          if MAX_UDP_PAYLOAD_BYTES <? len payload then count_drops 0 1 0 a
          else
            match get_uplink target (relay a) with
            | Some tid => try_send tid payload a
            | None => with_phase (Evicting target peer payload) a
            end
    end.

(** The eviction, then [mux.udp_open] is called. *)
Definition on_evict (target : SocksUdpTarget) (peer : SocketAddr) (payload : bytes) (a : Assoc) : Assoc :=
  let '(r, evicted) := evict_until_under MAX_UDP_SESSIONS_PER_ASSOCIATE (relay a) in
  with_phase (Opening target peer)
    (send_mux [UdpOpen (t_host target) (t_port target) payload]
      (count_drops 0 0 (len evicted) (with_relay r a))).

(** The multiplexer's answer to the open; the task is spawned here. *)
Definition on_opened (target : SocksUdpTarget) (peer : SocketAddr) (reply : result TunnelResponse bytes)
    (a : Assoc) : Assoc :=
  match reply with
  | Err _ => with_phase Idle a
  | Ok resp =>
      match r_e resp, r_sid resp with
      | Some _, _ | None, None => with_phase Idle a
      | None, Some sid =>
          let a := send_client (send_udp_response_packets peer target resp) a in
          if default false (r_eof resp) then with_phase Idle a
          else
            let tid := next_tid a in
            with_phase (Inserting target sid tid)
              (mk_assoc (relay a)
                 (<[tid := mk_task sid target peer [] UDP_INITIAL_POLL_DELAY Running]> (tasks a))
                 (S tid) (phase a) (client_addr a) (foreign_ip_drops a) (oversized_dropped a)
                 (sessions_evicted a) (to_client a) (to_mux a))
      end
  end.

Definition on_insert (target : SocksUdpTarget) (sid : bytes) (tid : nat) (a : Assoc) : Assoc :=
  with_phase Idle (with_relay (relay_insert target (mk_session sid tid) (relay a)) a).

(** The control connection ended, or the relay socket failed: the live sessions
    are closed, the table cleared and every task aborted. *)
Definition teardown (a : Assoc) : Assoc :=
  with_phase Ended
    (send_mux (map UdpClose (live_sids (relay a)))
      (with_tasks (task_at Gone <$> tasks a) (with_relay relay_new a))).

(** *** One task *)

(** The sending half of a task's queue exists: in the table, or in the loop's
    hands before the insertion. *)
Definition sender_open (tid : nat) (a : Assoc) : bool :=
  existsb (λ kv, bool_decide (s_uplink kv.2 = tid)) (map_to_list (sessions (relay a))) ||
  match phase a with Inserting _ _ tid' => bool_decide (tid' = tid) | _ => false end.

(** [uplink_rx.recv()] gives the next datagram. *)
Definition task_uplink (tid : nat) (k : Task) (payload : bytes) (q : list bytes) (a : Assoc) : Assoc :=
  send_mux [UdpData (k_sid k) payload]
    (with_tasks (<[tid := mk_task (k_sid k) (k_target k) (k_peer k) q UDP_INITIAL_POLL_DELAY Awaiting]>
       (tasks a)) a).

(** The sleep ended first. *)
Definition task_poll (tid : nat) (k : Task) (a : Assoc) : Assoc :=
  send_mux [UdpData (k_sid k) []] (with_tasks (<[tid := task_at Awaiting k]> (tasks a)) a).

Definition task_reply (tid : nat) (k : Task) (reply : result TunnelResponse bytes) (a : Assoc) : Assoc :=
  match reply with
  | Err _ => with_tasks (<[tid := task_at Closing k]> (tasks a)) a
  | Ok resp =>
      if bool_decide (is_Some (r_e resp)) || default false (r_eof resp) then
        with_tasks (<[tid := task_at Closing k]> (tasks a)) a
      else if bool_decide (default [] (r_pkts resp) ≠ []) then
        with_tasks (<[tid := mk_task (k_sid k) (k_target k) (k_peer k) (k_queue k)
                               UDP_INITIAL_POLL_DELAY Running]> (tasks a))
          (send_client (send_udp_response_packets (k_peer k) (k_target k) resp) a)
      else
        with_tasks (<[tid := mk_task (k_sid k) (k_target k) (k_peer k) (k_queue k)
                               (Z.min (k_backoff k * 2) UDP_MAX_POLL_DELAY) Running]> (tasks a)) a
  end.

Definition task_hangup (tid : nat) (k : Task) (a : Assoc) : Assoc :=
  with_tasks (<[tid := task_at Closing k]> (tasks a)) a.
Definition task_close (tid : nat) (k : Task) (a : Assoc) : Assoc :=
  send_mux [UdpClose (k_sid k)] (with_tasks (<[tid := task_at Cleaning k]> (tasks a)) a).
Definition task_clean (tid : nat) (k : Task) (a : Assoc) : Assoc :=
  with_tasks (<[tid := task_at Gone k]> (tasks a)) (with_relay (relay_remove (k_target k) (relay a)) a).

(** *** The interleaving *)

Inductive Event :=
  | Datagram (peer : SocketAddr) (buf : bytes)
  | Evict
  | Opened (reply : result TunnelResponse bytes)
  | Insert
  | Teardown
  | TaskRecv (tid : nat)
  | TaskPoll (tid : nat)
  | TaskReply (tid : nat) (reply : result TunnelResponse bytes)
  | TaskClose (tid : nat)
  | TaskClean (tid : nat).

(** One event, [None] when it cannot happen in the state. *)
Definition assoc_step (block_quic : bool) (client_peer_ip : IpAddr) (e : Event) (a : Assoc) : option Assoc :=
  match e, phase a with
  | Datagram peer buf, Idle => Some (on_datagram block_quic client_peer_ip peer buf a)
  | Evict, Evicting t peer payload => Some (on_evict t peer payload a)
  | Opened reply, Opening t peer => Some (on_opened t peer reply a)
  | Insert, Inserting t sid tid => Some (on_insert t sid tid a)
  | Teardown, Idle => Some (teardown a)
  | TaskRecv tid, _ =>
      match tasks a !! tid with
      | Some k =>
          if bool_decide (k_phase k = Running) then
            match k_queue k with
            | payload :: q => Some (task_uplink tid k payload q a)
            | [] => if sender_open tid a then None else Some (task_hangup tid k a)
            end
          else None
      | None => None
      end
  | TaskPoll tid, _ =>
      match tasks a !! tid with
      | Some k =>
          if bool_decide (k_phase k = Running ∧ k_queue k = []) && sender_open tid a
          then Some (task_poll tid k a) else None
      | None => None
      end
  | TaskReply tid reply, _ =>
      match tasks a !! tid with
      | Some k => if bool_decide (k_phase k = Awaiting) then Some (task_reply tid k reply a) else None
      | None => None
      end
  | TaskClose tid, _ =>
      match tasks a !! tid with
      | Some k => if bool_decide (k_phase k = Closing) then Some (task_close tid k a) else None
      | None => None
      end
  | TaskClean tid, _ =>
      match tasks a !! tid with
      | Some k => if bool_decide (k_phase k = Cleaning) then Some (task_clean tid k a) else None
      | None => None
      end
  | _, _ => None
  end.

Fixpoint assoc_run (block_quic : bool) (ip : IpAddr) (es : list Event) (a : Assoc) : option Assoc :=
  match es with
  | [] => Some a
  | e :: es' => let? a' := assoc_step block_quic ip e a in assoc_run block_quic ip es' a'
  end.

(** The states an association can reach. *)
Inductive reachable (block_quic : bool) (ip : IpAddr) : Assoc → Prop :=
  | reach_start : reachable block_quic ip assoc_new
  | reach_step a e a' :
      reachable block_quic ip a → assoc_step block_quic ip e a = Some a' → reachable block_quic ip a'.

(** Whether an association is opened at all. *)
Definition udp_associate_reply (full_mode has_mux : bool) (bound : SocketAddr) : bytes :=
  if negb full_mode then write_socks5_reply x07 None
  else if negb has_mux then write_socks5_reply x01 None
  else write_socks5_reply x00 (Some bound).
End association.

(** ** The session table *)

(** The insertion log and the map hold the same targets, without repetition. *)
Definition table_ok (r : UdpRelayState) : Prop :=
  NoDup (order r) ∧ ∀ t, t ∈ order r ↔ is_Some (sessions r !! t).

Definition table_size (r : UdpRelayState) : Z := Z.of_nat (size (sessions r)).

Lemma table_ok_new : table_ok relay_new.
Proof. split; [constructor|]. intros t. simpl. rewrite lookup_empty, elem_of_nil, is_Some_alt. done. Qed.

Lemma table_ok_insert t s r : sessions r !! t = None → table_ok r → table_ok (relay_insert t s r).
Proof.
  intros Hn [Hd Hs]. split; simpl.
  - apply NoDup_app. split_and!; [done| |apply NoDup_singleton].
    intros t' Ht' ->%list_elem_of_singleton. apply Hs in Ht'. rewrite Hn in Ht'. by destruct Ht'.
  - intros t'. rewrite elem_of_app, list_elem_of_singleton, Hs, lookup_insert_is_Some.
    destruct (decide (t = t')); naive_solver.
Qed.

Lemma table_size_insert t s r :
  sessions r !! t = None → table_size (relay_insert t s r) = table_size r + 1.
Proof. intros Hn. unfold table_size. simpl. rewrite map_size_insert_None by done. lia. Qed.

Lemma remove_first_spec t l : NoDup l →
  NoDup (remove_first t l) ∧ ∀ t', t' ∈ remove_first t l ↔ t' ∈ l ∧ t' ≠ t.
Proof.
  induction 1 as [|x l Hx Hl [IH1 IH2]]; simpl.
  { split; [constructor|]. intros t'. rewrite elem_of_nil. naive_solver. }
  case_bool_decide as Ht.
  - subst. split; [done|]. intros t'. rewrite elem_of_cons. naive_solver.
  - split; [apply NoDup_cons; split; [rewrite IH2; by intros [? _]|done]|].
    intros t'. rewrite !elem_of_cons, IH2. naive_solver.
Qed.

Lemma table_ok_remove t r : table_ok r → table_ok (relay_remove t r).
Proof.
  intros [Hd Hs]. destruct (remove_first_spec t (order r) Hd) as [H1 H2].
  split; [done|]. intros t'. simpl. rewrite H2, Hs, lookup_delete_is_Some. naive_solver.
Qed.

Lemma table_size_remove t r : table_size (relay_remove t r) ≤ table_size r.
Proof.
  unfold table_size. simpl. rewrite map_size_delete. destruct (sessions r !! t); simpl; lia.
Qed.

Lemma evict_loop_ok cap m l : 0 < cap → table_ok (mk_relay m l) →
  let r := (evict_loop cap m l).1 in
  table_ok r ∧ table_size r < cap ∧ table_size r ≤ Z.of_nat (size m) ∧
  (∀ t s, sessions r !! t = Some s → m !! t = Some s).
Proof.
  intros Hcap. revert m. induction l as [|v l IH]; intros m [Hd Hs]; cbn [evict_loop]; case_if;
    try (simpl; split_and!; [done|unfold table_size; simpl; lia|unfold table_size; simpl; lia|done]).
  - simpl in Hs. assert (m = ∅) as ->.
    { apply map_eq. intros t. rewrite lookup_empty. apply eq_None_not_Some. rewrite <-Hs. apply not_elem_of_nil. }
    rewrite map_size_empty in E. lia.
  - destruct (proj1 (Hs v)) as [s Hv]; [by constructor|]. cbn [sessions] in Hv. rewrite Hv.
    assert (Hok : table_ok (mk_relay (delete v m) l)).
    { apply NoDup_cons in Hd as [Hnv Hd]. split; [done|]. intros t. simpl in *.
      rewrite lookup_delete_is_Some, <-Hs, elem_of_cons. naive_solver. }
    specialize (IH (delete v m) Hok). destruct (evict_loop cap (delete v m) l) as [r ev]. simpl in *.
    destruct IH as (H1 & H2 & H3 & H4). rewrite map_size_delete, Hv in H3. split_and!; [done|done|lia|].
    intros t s' Ht. apply H4, lookup_delete_Some in Ht. naive_solver.
Qed.

Lemma evict_until_under_ok r : table_ok r →
  let r' := (evict_until_under MAX_UDP_SESSIONS_PER_ASSOCIATE r).1 in
  table_ok r' ∧ table_size r' < MAX_UDP_SESSIONS_PER_ASSOCIATE ∧
  (∀ t s, sessions r' !! t = Some s → sessions r !! t = Some s).
Proof.
  intros Hok. destruct r as [m l].
  destruct (evict_loop_ok MAX_UDP_SESSIONS_PER_ASSOCIATE m l) as (H1 & H2 & _ & H3); done.
Qed.

Lemma evict_shrinks_None r t : table_ok r → sessions r !! t = None →
  sessions (evict_until_under MAX_UDP_SESSIONS_PER_ASSOCIATE r).1 !! t = None.
Proof.
  intros Hok Hn. destruct (evict_until_under_ok r Hok) as (_ & _ & H).
  apply eq_None_not_Some. intros [s Hs%H]. congruence.
Qed.

(** ** What holds in every reachable state *)

Section invariants.
Context `{!Base64}.
Context (block_quic : bool) (client_ip : IpAddr).

Definition target_allowed (t : SocksUdpTarget) : Prop :=
  target_wf t ∧ (block_quic = true → t_port t ≠ 443).

Definition phase_ok (a : Assoc) : Prop :=
  match phase a with
  | Idle | Ended => True
  | Evicting t peer payload =>
      sessions (relay a) !! t = None ∧ client_addr a = Some peer ∧ target_allowed t ∧
      len payload ≤ MAX_UDP_PAYLOAD_BYTES
  | Opening t peer =>
      sessions (relay a) !! t = None ∧ table_size (relay a) < MAX_UDP_SESSIONS_PER_ASSOCIATE ∧
      client_addr a = Some peer ∧ target_allowed t
  | Inserting t sid tid =>
      sessions (relay a) !! t = None ∧ table_size (relay a) < MAX_UDP_SESSIONS_PER_ASSOCIATE ∧
      ∃ k, tasks a !! tid = Some k ∧ k_sid k = sid ∧ k_target k = t
  end.

Definition task_ok (a : Assoc) (tid : nat) (k : Task) : Prop :=
  (tid < next_tid a)%nat ∧ len (k_queue k) ≤ UDP_UPLINK_QUEUE ∧
  Forall (λ p, len p ≤ MAX_UDP_PAYLOAD_BYTES) (k_queue k) ∧
  UDP_INITIAL_POLL_DELAY ≤ k_backoff k ≤ UDP_MAX_POLL_DELAY ∧
  client_addr a = Some (k_peer k) ∧ target_wf (k_target k).

Definition entry_ok (ts : gmap nat Task) (t : SocksUdpTarget) (s : UdpRelaySession) : Prop :=
  ∃ k, ts !! s_uplink s = Some k ∧ k_sid k = s_sid s ∧ k_target k = t.

Definition op_ok (o : UdpOp) : Prop :=
  match o with
  | UdpOpen _ port payload => len payload ≤ MAX_UDP_PAYLOAD_BYTES ∧ (block_quic = true → port ≠ 443)
  | UdpData _ payload => len payload ≤ MAX_UDP_PAYLOAD_BYTES
  | UdpClose _ => True
  end.

(** A datagram to the client goes to the locked address and parses. *)
Definition sent_ok (a : Assoc) (d : SocketAddr * bytes) : Prop :=
  client_addr a = Some d.1 ∧ is_Some (parse_socks5_udp_packet d.2).

Record assoc_inv (a : Assoc) : Prop := mk_assoc_inv {
  ai_table : table_ok (relay a);
  ai_size : table_size (relay a) ≤ MAX_UDP_SESSIONS_PER_ASSOCIATE;
  ai_phase : phase_ok a;
  ai_tasks : ∀ tid k, tasks a !! tid = Some k → task_ok a tid k;
  ai_entries : ∀ t s, sessions (relay a) !! t = Some s → entry_ok (tasks a) t s;
  ai_ip : ∀ p, client_addr a = Some p → sock_ip p = client_ip;
  ai_sent : Forall (sent_ok a) (to_client a);
  ai_ops : Forall op_ok (to_mux a) }.

(** Replacing a task by one with the same session and target. *)
Lemma entry_ok_update ts tid k k' t s :
  ts !! tid = Some k → k_sid k' = k_sid k → k_target k' = k_target k →
  entry_ok ts t s → entry_ok (<[tid := k']> ts) t s.
Proof.
  intros Hk Hs Ht (k0 & H1 & H2 & H3). destruct (decide (tid = s_uplink s)) as [->|Hne].
  - exists k'. rewrite lookup_insert_eq. split_and!; congruence.
  - exists k0. by rewrite lookup_insert_ne.
Qed.

(** A step of a task that changes neither the table nor the loop. *)
Lemma inv_update_task a tid k k' :
  tasks a !! tid = Some k → k_sid k' = k_sid k → k_target k' = k_target k →
  task_ok a tid k' → assoc_inv a → assoc_inv (with_tasks (<[tid := k']> (tasks a)) a).
Proof.
  intros Hk Hs Ht Hok [H1 H2 H3 H4 H5 H6 H7 H8]. split; try done.
  - unfold phase_ok in *. simpl. destruct (phase a) as [| | |t sid tid'|]; try done.
    destruct H3 as (P1 & P2 & k0 & P3 & P4 & P5). split_and!; [done|done|].
    destruct (decide (tid = tid')) as [->|Hne].
    + exists k'. rewrite lookup_insert_eq. split_and!; congruence.
    + exists k0. by rewrite lookup_insert_ne.
  - intros tid' k0. simpl. rewrite lookup_insert_Some. intros [[<- <-]|[_ Hk0]]; [done|].
    by apply H4 in Hk0.
  - intros t s Hts. simpl in *. eapply entry_ok_update; eauto.
Qed.

Lemma inv_send_mux ops a : Forall op_ok ops → assoc_inv a → assoc_inv (send_mux ops a).
Proof. intros Ho []. split; try done. simpl. by apply Forall_app. Qed.

Lemma inv_send_client ps a : Forall (sent_ok a) ps → assoc_inv a → assoc_inv (send_client ps a).
Proof. intros Ho []. split; try done. simpl. by apply Forall_app. Qed.

Lemma response_packets_ok a peer t resp :
  client_addr a = Some peer → target_wf t →
  Forall (sent_ok a) (send_udp_response_packets peer t resp).
Proof.
  intros Hp Ht. unfold send_udp_response_packets. destruct (decode_udp_packets resp) as [ps|]; [|done].
  apply Forall_map, Forall_true. intros p. split; [done|]. exists (t, p).
  by apply socks5_udp_packet_parses.
Qed.

Lemma inv_try_send tid payload a :
  len payload ≤ MAX_UDP_PAYLOAD_BYTES → assoc_inv a → assoc_inv (try_send tid payload a).
Proof.
  intros Hl Hinv. unfold try_send. destruct (tasks a !! tid) as [k|] eqn:Hk; [|done].
  case_if; [|done]. eapply inv_update_task; eauto.
  destruct (ai_tasks a Hinv tid k Hk) as (T1 & T2 & T3 & T4 & T5 & T6). split_and!; try done; try apply T4.
  - simpl. rewrite len_app. change (len [payload]) with 1. lia.
  - simpl. apply Forall_app. by repeat constructor.
Qed.

Lemma inv_with_idle a : assoc_inv a → assoc_inv (with_phase Idle a).
Proof. by intros []. Qed.

Lemma inv_count f o e a : assoc_inv a → assoc_inv (count_drops f o e a).
Proof. by intros []. Qed.

Lemma inv_lock peer a : (client_addr a = None ∨ client_addr a = Some peer) → phase a = Idle →
  sock_ip peer = client_ip → assoc_inv a → assoc_inv (lock_client peer a).
Proof.
  intros Hc Hph Hip [H1 H2 H3 H4 H5 H6 H7 H8]. split; try done.
  - unfold phase_ok. simpl. by rewrite Hph.
  - intros tid k Hk. apply H4 in Hk as (T1 & T2 & T3 & T4 & T5 & T6). split_and!; try done; try apply T4.
    simpl. destruct Hc; congruence.
  - intros p [= <-]. done.
  - simpl. eapply Forall_impl; [exact H7|]. intros d [Hd Hp]. split; [|done].
    simpl. destruct Hc; congruence.
Qed.

Lemma inv_datagram peer buf a : phase a = Idle → assoc_inv a →
  assoc_inv (on_datagram block_quic client_ip peer buf a).
Proof.
  intros Hph Hinv. unfold on_datagram. case_bool_decide as Hip; simpl; [|by apply inv_count].
  destruct (parse_socks5_udp_packet_offsets buf) as [[t off]|] eqn:Ep; [|done].
  destruct (block_quic && (t_port t =? 443)) eqn:Eq; [done|]. case_bool_decide as Hc; [done|].
  assert (Hl : assoc_inv (lock_client peer a)).
  { apply inv_lock; try done. destruct (client_addr a) as [p|]; [|by left]. right.
    destruct (decide (p = peer)) as [->|]; [done|]. destruct Hc. split; [done|congruence]. }
  case_if; [by apply inv_count|]. unfold get_uplink. cbn [relay lock_client].
  destruct (sessions (relay a) !! t) eqn:Es; cbn [fmap option_fmap option_map]; [by apply inv_try_send|].
  destruct Hl as [H1 H2 H3 H4 H5 H6 H7 H8]. split; try done.
  unfold phase_ok. simpl in *. split_and!; [done|done| |done].
  apply socks5_udp_packet_inv in Ep as [Hwf _]. split; [done|]. intros Hq. destruct Eq as [Eq|Eq]; [congruence|lia].
Qed.

Lemma inv_evict t peer payload a : phase a = Evicting t peer payload → assoc_inv a →
  assoc_inv (on_evict t peer payload a).
Proof.
  intros Hph [H1 H2 H3 H4 H5 H6 H7 H8]. unfold phase_ok in H3. rewrite Hph in H3.
  destruct H3 as (P1 & P2 & P3 & P4).
  pose proof (evict_until_under_ok (relay a) H1) as (E1 & E2 & E3).
  pose proof (evict_shrinks_None (relay a) t H1 P1) as E4. unfold on_evict.
  destruct (evict_until_under _ _) as [r ev]. cbn [fst] in *. split; simpl; try done.
  - lia.
  - intros t' s Hs. by apply H5, E3.
  - apply Forall_app. split; [done|]. repeat constructor; [done|]. apply P3.
Qed.

Lemma inv_opened t peer reply a : phase a = Opening t peer → assoc_inv a →
  assoc_inv (on_opened t peer reply a).
Proof.
  intros Hph Hinv. pose proof (ai_phase a Hinv) as Hp. unfold phase_ok in Hp. rewrite Hph in Hp.
  destruct Hp as (P1 & P2 & P3 & P4). unfold on_opened. destruct reply as [resp|]; [|by apply inv_with_idle].
  destruct (r_e resp); [by apply inv_with_idle|].
  destruct (r_sid resp) as [sid|]; [|by apply inv_with_idle].
  pose proof (inv_send_client _ a (response_packets_ok a peer t resp P3 (proj1 P4)) Hinv) as Hi.
  destruct (default false (r_eof resp)); [by apply inv_with_idle|].
  destruct Hi as [H1 H2 H3 H4 H5 H6 H7 H8]. split; simpl in *; try done.
  - unfold phase_ok. simpl. split_and!; [done|done|]. eexists. by rewrite lookup_insert_eq.
  - intros tid k. rewrite lookup_insert_Some. intros [[<- <-]|[_ Hk]].
    + split_and!; simpl; try done; [lia|apply P4].
    + apply H4 in Hk as (T1 & T2). split; [|done]. simpl in *. lia.
  - intros t' s Hs. apply H5 in Hs as (k & K1 & K2 & K3). exists k. split_and!; [|done|done].
    rewrite lookup_insert_ne; [done|]. apply H4 in K1 as [K1 _]. simpl in K1. lia.
Qed.

Lemma inv_insert t sid tid a : phase a = Inserting t sid tid → assoc_inv a →
  assoc_inv (on_insert t sid tid a).
Proof.
  intros Hph [H1 H2 H3 H4 H5 H6 H7 H8]. unfold phase_ok in H3. rewrite Hph in H3.
  destruct H3 as (P1 & P2 & P3). split; try done.
  - by apply table_ok_insert.
  - change (table_size (relay_insert t (mk_session sid tid) (relay a)) ≤ MAX_UDP_SESSIONS_PER_ASSOCIATE).
    rewrite table_size_insert by done. lia.
  - intros t' s. simpl. rewrite lookup_insert_Some. intros [[<- <-]|[_ Hs]]; [done|by apply H5].
Qed.

Lemma inv_teardown a : assoc_inv a → assoc_inv (teardown a).
Proof.
  intros [H1 H2 H3 H4 H5 H6 H7 H8]. split; simpl; try done.
  - apply table_ok_new.
  - intros tid k. rewrite lookup_fmap. destruct (tasks a !! tid) as [k0|] eqn:Hk; [|done].
    intros [= <-]. by apply H4 in Hk.
  - apply Forall_app. split; [done|]. apply Forall_map, Forall_true. done.
Qed.

Lemma inv_remove t a : assoc_inv a → assoc_inv (with_relay (relay_remove t (relay a)) a).
Proof.
  intros [H1 H2 H3 H4 H5 H6 H7 H8]. pose proof (table_size_remove t (relay a)) as Hsz.
  assert (Hn : ∀ t', sessions (relay a) !! t' = None → delete t (sessions (relay a)) !! t' = None).
  { intros t' Ht'. rewrite lookup_delete_None. by right. }
  split; try done.
  - by apply table_ok_remove.
  - simpl. lia.
  - unfold phase_ok in *. simpl. destruct (phase a); try done.
    + destruct H3 as (P1 & P2). split; [by apply Hn|done].
    + destruct H3 as (P1 & P2 & P3). split_and!; [by apply Hn|lia|apply P3|apply P3].
    + destruct H3 as (P1 & P2 & P3). split_and!; [by apply Hn|lia|done].
  - intros t' s. simpl. rewrite lookup_delete_Some. intros [_ Hs]. by apply H5.
Qed.

(** The steps of a task, from what holds of it. *)
Lemma inv_task_step tid k a e a' : assoc_inv a → tasks a !! tid = Some k →
  e ∈ [TaskRecv tid; TaskPoll tid; TaskClose tid; TaskClean tid] ∨ (∃ r, e = TaskReply tid r) →
  assoc_step block_quic client_ip e a = Some a' → assoc_inv a'.
Proof.
  intros Hinv Hk He Hst. pose proof (ai_tasks a Hinv tid k Hk) as (T1 & T2 & T3 & T4 & T5 & T6).
  assert (Hat : ∀ p, assoc_inv (with_tasks (<[tid := task_at p k]> (tasks a)) a)).
  { intros p. by eapply inv_update_task. }
  assert (Hup : ∀ q b p, len q ≤ UDP_UPLINK_QUEUE → Forall (λ x, len x ≤ MAX_UDP_PAYLOAD_BYTES) q →
    UDP_INITIAL_POLL_DELAY ≤ b ≤ UDP_MAX_POLL_DELAY → ∀ a0, assoc_inv a0 → tasks a0 = tasks a →
    next_tid a0 = next_tid a → client_addr a0 = client_addr a →
    assoc_inv (with_tasks (<[tid := mk_task (k_sid k) (k_target k) (k_peer k) q b p]> (tasks a)) a0)).
  { intros q b p Hq Hf Hb a0 Hi E1 E2 E3. rewrite <-E1. eapply inv_update_task; [by rewrite E1|done|done| |done].
    unfold task_ok. by rewrite E2, E3. }
  unfold assoc_step in Hst. destruct He as [He|[r ->]].
  - rewrite !elem_of_cons, elem_of_nil in He. destruct He as [->|[->|[->|[->|[]]]]]; rewrite Hk in Hst.
    + destruct (bool_decide (k_phase k = Running)); [|done]. destruct (k_queue k) as [|p q] eqn:Eq.
      * destruct (sender_open tid a); [done|]. simplify_eq. apply Hat.
      * simplify_eq. apply Forall_cons in T3 as [T3 T3']. apply inv_send_mux; [by repeat constructor|].
        apply Hup; try done. rewrite len_cons in T2. lia.
    + destruct (_ && _); [|done]. simplify_eq. apply inv_send_mux; [|apply Hat]. by repeat constructor.
    + case_bool_decide; [|done]. simplify_eq. apply inv_send_mux; [by repeat constructor|apply Hat].
    + case_bool_decide; [|done]. simplify_eq. unfold task_clean.
      eapply (inv_update_task (with_relay _ a)); [exact Hk|done|done|done|]. by apply inv_remove.
  - rewrite Hk in Hst. case_bool_decide; [|done]. simplify_eq. unfold task_reply.
    destruct r as [resp|]; [|apply Hat]. case_if; [apply Hat|]. case_bool_decide.
    + apply Hup; try done. apply inv_send_client; [|done]. by apply response_packets_ok.
    + apply Hup; try done. unfold UDP_INITIAL_POLL_DELAY, UDP_MAX_POLL_DELAY in *. lia.
Qed.

Lemma assoc_step_inv e a a' :
  assoc_inv a → assoc_step block_quic client_ip e a = Some a' → assoc_inv a'.
Proof.
  intros Hinv Hst.
  assert (Htask : ∀ tid, e ∈ [TaskRecv tid; TaskPoll tid; TaskClose tid; TaskClean tid] ∨
    (∃ r, e = TaskReply tid r) → assoc_inv a').
  { intros tid He. destruct (tasks a !! tid) as [k|] eqn:Hk; [by eapply inv_task_step|].
    exfalso. unfold assoc_step in Hst. destruct He as [He|[r ->]]; [|by rewrite Hk in Hst].
    rewrite !elem_of_cons, elem_of_nil in He. by destruct He as [->|[->|[->|[->|[]]]]]; rewrite Hk in Hst. }
  destruct e; try (apply (Htask tid); set_solver);
    unfold assoc_step in Hst; destruct (phase a) eqn:Hph; try done; simplify_eq.
  - by apply inv_datagram.
  - by apply inv_evict.
  - by apply inv_opened.
  - by apply inv_insert.
  - by apply inv_teardown.
Qed.

Lemma reachable_inv a : reachable block_quic client_ip a → assoc_inv a.
Proof.
  induction 1 as [|a e a' _ IH Hst]; [|by eapply assoc_step_inv].
  split; try done. apply table_ok_new.
Qed.
End invariants.

Section theorems.
Context `{!Base64}.

(** An association stays bounded and its table consistent.  In every
    interleaving of the loop and the tasks, the insertion log and the session
    map hold the same targets once each, at most 256 of them; every entry
    belongs to the task that serves its target under its session id; no queue
    holds more than 64 datagrams, and a poll waits between half a second and
    thirty seconds. *)
Theorem udp_associate_bounded block_quic ip a :
  reachable block_quic ip a →
  table_ok (relay a) ∧ table_size (relay a) ≤ MAX_UDP_SESSIONS_PER_ASSOCIATE ∧
  (∀ t s, sessions (relay a) !! t = Some s →
     ∃ k, tasks a !! s_uplink s = Some k ∧ k_sid k = s_sid s ∧ k_target k = t) ∧
  (∀ tid k, tasks a !! tid = Some k →
     len (k_queue k) ≤ UDP_UPLINK_QUEUE ∧ 500 ≤ k_backoff k ≤ 30000).
Proof.
  intros [H1 H2 H3 H4 H5 H6 H7 H8]%reachable_inv. split_and!; [done|done|done|].
  intros tid k Hk. apply H4 in Hk as (T1 & T2 & T3 & T4 & T5). by split.
Qed.

(** An association serves its client only.  Whatever datagrams arrive from
    whatever addresses: everything sent back goes to a single address of the
    control connection's host and is a well-formed SOCKS5 datagram; nothing
    larger than 9 KiB reaches the multiplexer, and with [block_quic] no session
    to port 443 is opened. *)
Theorem udp_associate_confined block_quic ip a :
  reachable block_quic ip a →
  Forall (λ d, client_addr a = Some d.1 ∧ sock_ip d.1 = ip ∧ is_Some (parse_socks5_udp_packet d.2))
    (to_client a) ∧
  Forall (op_ok block_quic) (to_mux a).
Proof.
  intros [H1 H2 H3 H4 H5 H6 H7 H8]%reachable_inv. split; [|done].
  eapply Forall_impl; [exact H7|]. intros d [Hd Hp]. split_and!; [done|by apply H6|done].
Qed.

(** ** Opening a session *)

Definition open_ok (sid : bytes) : result TunnelResponse bytes :=
  Ok (mk_resp (Some sid) None None None None None None).

Lemma size_order r : table_ok r → size (sessions r) = length (order r).
Proof.
  intros [Hd Hs]. rewrite <-size_dom.
  assert (dom (sessions r) ≡ list_to_set (order r)) as ->.
  { intros t. by rewrite elem_of_dom, elem_of_list_to_set, Hs. }
  by apply size_list_to_set.
Qed.

(** From the select, a datagram for a target without a session opens one. *)
Lemma open_target block_quic ip peer t sid a :
  reachable block_quic ip a → phase a = Idle → sock_ip peer = ip →
  client_addr a = None ∨ client_addr a = Some peer →
  target_wf t → t_port t ≠ 443 → sessions (relay a) !! t = None →
  ∃ a', reachable block_quic ip a' ∧ phase a' = Idle ∧ client_addr a' = Some peer ∧
    relay a' = relay_insert t (mk_session sid (next_tid a))
                 (evict_until_under MAX_UDP_SESSIONS_PER_ASSOCIATE (relay a)).1 ∧
    tasks a' = <[next_tid a := mk_task sid t peer [] UDP_INITIAL_POLL_DELAY Running]> (tasks a) ∧
    next_tid a' = S (next_tid a) ∧ to_mux a' = to_mux a ++ [UdpOpen (t_host t) (t_port t) []].
Proof.
  intros Hr Hph Hip Hc Hwf Hport Hn.
  pose proof (socks5_udp_packet_parses t [] Hwf) as Hp. unfold parse_socks5_udp_packet in Hp.
  set (buf := build_socks5_udp_packet t []) in *.
  destruct (parse_socks5_udp_packet_offsets buf) as [[t' off]|] eqn:Eo; [|done].
  injection Hp as -> Hpay.
  assert (S1 : assoc_step block_quic ip (Datagram peer buf) a =
    Some (with_phase (Evicting t peer []) (lock_client peer a))).
  { unfold assoc_step. rewrite Hph. unfold on_datagram. rewrite bool_decide_true by done. simpl negb.
    rewrite Eo, Hpay. cbn iota. replace (t_port t =? 443) with false by lia. rewrite andb_false_r.
    rewrite bool_decide_false by (intros [[p Hp] Hne]; destruct Hc; congruence).
    change (MAX_UDP_PAYLOAD_BYTES <? len []) with false. unfold get_uplink. simpl relay. by rewrite Hn. }
  set (a1 := with_phase _ _) in S1.
  assert (S2 : assoc_step block_quic ip Evict a1 = Some (on_evict t peer [] a1)) by done.
  set (a2 := on_evict t peer [] a1) in S2.
  assert (S3 : assoc_step block_quic ip (Opened (open_ok sid)) a2 = Some (on_opened t peer (open_ok sid) a2)).
  { unfold a2, on_evict. by destruct (evict_until_under _ _). }
  set (a3 := on_opened t peer (open_ok sid) a2) in S3.
  assert (S4 : assoc_step block_quic ip Insert a3 = Some (on_insert t sid (next_tid a) a3)).
  { unfold a3, a2, on_evict. by destruct (evict_until_under _ _). }
  exists (on_insert t sid (next_tid a) a3). split.
  { eapply reach_step; [|exact S4]. eapply reach_step; [|exact S3]. eapply reach_step; [|exact S2].
    by eapply reach_step. }
  unfold a3, a2, on_evict. simpl relay. destruct (evict_until_under _ (relay a)) as [r ev] eqn:Ee. simpl.
  by split_and!.
Qed.

(** ** A cleanup that comes too late *)

Definition demo_ip : IpAddr := IpV4 [x7f; x00; x00; x01].
Definition demo_peer : SocketAddr := SockV4 [x7f; x00; x00; x01] 5000.

(** Distinct targets, and the session ids they are given. *)
Definition nth_sid (i : nat) : bytes := u16_to_be (Z.of_nat i).
Definition nth_target (i : nat) : SocksUdpTarget :=
  let addr := [x0a; x00] ++ nth_sid i in mk_target (fmt_ipv4 addr) 53 x01 addr.

Lemma nth_target_wf i : target_wf (nth_target i).
Proof. split; [done|]. by split. Qed.

Lemma nth_sid_inj i j : (i < 1000)%nat → (j < 1000)%nat → nth_sid i = nth_sid j → i = j.
Proof.
  unfold nth_sid, u16_to_be. intros Hi Hj [= H1 H2].
  pose proof (u16_be_roundtrip (Z.of_nat i)) as Ri. pose proof (u16_be_roundtrip (Z.of_nat j)) as Rj.
  rewrite H1, H2 in Ri. rewrite Rj in Ri by (unfold is_u16; zlia). specialize (Ri ltac:(zlia)). lia.
Qed.

Lemma nth_target_inj i j : (i < 1000)%nat → (j < 1000)%nat → nth_target i = nth_target j → i = j.
Proof. intros Hi Hj Ht. apply (f_equal t_addr) in Ht. simpl in Ht. apply nth_sid_inj; [done..|congruence]. Qed.

Definition nth_task (i : nat) : Task :=
  mk_task (nth_sid i) (nth_target i) demo_peer [] UDP_INITIAL_POLL_DELAY Running.

(** [n] sessions are open, in order, each with its running task. *)
Record filled (n : nat) (a : Assoc) : Prop := mk_filled {
  f_reach : reachable true demo_ip a;
  f_idle : phase a = Idle;
  f_client : client_addr a = None ∨ client_addr a = Some demo_peer;
  f_order : order (relay a) = map nth_target (seq 0 n);
  f_tasks : ∀ i, tasks a !! i = if (i <? n)%nat then Some (nth_task i) else None;
  f_next : next_tid a = n;
  f_noclose : ∀ sid, UdpClose sid ∉ to_mux a }.

Lemma not_in_table n a i : filled n a → (n ≤ i < 1000)%nat → sessions (relay a) !! nth_target i = None.
Proof.
  intros Hf Hi. apply eq_None_not_Some. destruct (ai_table _ _ _ (reachable_inv _ _ _ (f_reach _ _ Hf))) as [_ <-].
  rewrite (f_order _ _ Hf). intros (j & Hj & Hin%elem_of_seq)%list_elem_of_fmap.
  apply nth_target_inj in Hj; lia.
Qed.

Lemma fill n : (n ≤ 256)%nat → ∃ a, filled n a.
Proof.
  induction n as [|n IH]; intros Hn.
  { exists assoc_new. split; try done; [constructor|by left|set_solver]. }
  destruct IH as [a Hf]; [lia|]. pose proof (ai_table _ _ _ (reachable_inv _ _ _ (f_reach _ _ Hf))) as Ht.
  destruct (open_target true demo_ip demo_peer (nth_target n) (nth_sid n) a) as (a' & A1 & A2 & A3 & A4 & A5 & A6 & A7);
    try apply Hf; try done; [by eapply not_in_table; [done|lia]|].
  exists a'. rewrite (f_next _ _ Hf) in *.
  assert (Hev : evict_until_under MAX_UDP_SESSIONS_PER_ASSOCIATE (relay a) = (relay a, [])).
  { destruct (relay a) as [m l] eqn:Er. unfold evict_until_under. simpl.
    assert (Hs : size m = n).
    { pose proof (size_order _ Ht) as Hs. pose proof (f_order _ _ Hf) as Ho. rewrite Er in *. simpl in *.
      by rewrite Hs, Ho, length_map, length_seq. }
    destruct l; simpl; rewrite Hs; by replace (Z.of_nat n <? _) with true
      by (symmetry; apply Z.ltb_lt; unfold MAX_UDP_SESSIONS_PER_ASSOCIATE; lia). }
  rewrite Hev in A4. split; try done; [by right| | |].
  - rewrite A4, seq_S, map_app. cbn [fst relay_insert order]. by rewrite (f_order _ _ Hf).
  - intros i. rewrite A5. destruct (decide (i = n)) as [->|Hne].
    + rewrite lookup_insert_eq. by rewrite (proj2 (Nat.ltb_lt n (S n))) by lia.
    + rewrite lookup_insert_ne, (f_tasks _ _ Hf) by done.
      destruct (Nat.ltb_spec i n), (Nat.ltb_spec i (S n)); lia || done.
  - intros sid. rewrite A7, elem_of_app. intros [Hin|Hin]; [by eapply f_noclose|set_solver].
Qed.

(** A full table evicts its oldest entry. *)
Lemma evict_first r t l : table_ok r → order r = t :: l →
  Z.of_nat (size (sessions r)) = MAX_UDP_SESSIONS_PER_ASSOCIATE →
  sessions (evict_until_under MAX_UDP_SESSIONS_PER_ASSOCIATE r).1 !! t = None.
Proof.
  destruct r as [m o]. cbn [order sessions]. intros Ht -> Hs. unfold evict_until_under. cbn [sessions order evict_loop].
  rewrite Hs, Z.ltb_irrefl.
  destruct (proj1 (proj2 Ht t)) as [s0 Hs0]; [simpl; by constructor|]. cbn [sessions] in Hs0. rewrite Hs0.
  assert (Hok : table_ok (mk_relay (delete t m) l)).
  { pose proof (table_ok_remove t _ Ht) as Hr. unfold relay_remove in Hr. cbn [order sessions remove_first] in Hr.
    by rewrite bool_decide_true in Hr. }
  destruct (evict_loop_ok MAX_UDP_SESSIONS_PER_ASSOCIATE _ _ ltac:(done) Hok) as (_ & _ & _ & Hsub).
  destruct (evict_loop _ (delete t m) l) as [r ev]. cbn [fst] in *.
  apply eq_None_not_Some. intros [s Hr%Hsub]. by rewrite lookup_delete_eq in Hr.
Qed.

(** The 257th target evicts the first one, whose task goes on running. *)
Lemma first_evicted : ∃ a, reachable true demo_ip a ∧ phase a = Idle ∧ client_addr a = Some demo_peer ∧
  sessions (relay a) !! nth_target 0 = None ∧ next_tid a = 257%nat ∧
  (∀ i, tasks a !! i = if (i <? 257)%nat then Some (nth_task i) else None) ∧
  (∀ sid, UdpClose sid ∉ to_mux a).
Proof.
  destruct (fill 256) as [a Hf]; [lia|].
  pose proof (ai_table _ _ _ (reachable_inv _ _ _ (f_reach _ _ Hf))) as Ht.
  destruct (open_target true demo_ip demo_peer (nth_target 256) (nth_sid 256) a)
    as (a' & A1 & A2 & A3 & A4 & A5 & A6 & A7);
    try apply Hf; try done; [by eapply not_in_table; [done|lia]|].
  exists a'. rewrite (f_next _ _ Hf) in *.
  assert (Hne : nth_target 0 ≠ nth_target 256) by (intros H0%nth_target_inj; lia).
  split_and!; try done.
  - rewrite A4. cbn [relay_insert sessions]. rewrite lookup_insert_ne by done.
    apply (evict_first _ _ (map nth_target (seq 1 255)) Ht (f_order _ _ Hf)).
    rewrite (size_order _ Ht), (f_order _ _ Hf), length_map, length_seq. reflexivity.
  - intros i. rewrite A5. destruct (decide (i = 256)%nat) as [->|Hi]; [by rewrite lookup_insert_eq|].
    rewrite lookup_insert_ne, (f_tasks _ _ Hf) by congruence.
    destruct (Nat.ltb_spec i 256), (Nat.ltb_spec i 257); lia || done.
  - intros sid. rewrite A7, elem_of_app. intros [Hin|Hin]; [by eapply f_noclose|set_solver].
Qed.

(** No entry of the table holds the queue of an evicted task. *)
Lemma sender_closed block_quic ip a tid k :
  reachable block_quic ip a → phase a = Idle → tasks a !! tid = Some k →
  (∀ s, sessions (relay a) !! k_target k = Some s → s_uplink s ≠ tid) → sender_open tid a = false.
Proof.
  intros Hr Hph Hk Hs. unfold sender_open. rewrite Hph, orb_false_r.
  apply not_true_iff_false. rewrite existsb_exists. intros ([t s] & Hin & Hu%bool_decide_eq_true). simpl in Hu.
  apply list_elem_of_In, elem_of_map_to_list in Hin. pose proof Hin as Hin'.
  apply (ai_entries _ _ _ (reachable_inv _ _ _ Hr)) in Hin as (k0 & H0 & _ & <-).
  rewrite Hu, Hk in H0. simplify_eq. by eapply Hs.
Qed.

(** An evicted session's task can remove its successor.  There is an
    execution in which a target is evicted, opened again, and the task of the
    evicted session then removes the new session's entry from the table while
    the new task is running: the queue of the new session is closed and its
    next datagram has to open a third session. *)
Theorem udp_stale_cleanup : ∃ a a' old new t s k,
  reachable true demo_ip a ∧ assoc_step true demo_ip (TaskClean old) a = Some a' ∧ old ≠ new ∧
  sessions (relay a) !! t = Some s ∧ s_uplink s = new ∧
  tasks a' !! new = Some k ∧ k_phase k = Running ∧ k_target k = t ∧
  sessions (relay a') !! t = None ∧ sender_open new a' = false.
Proof.
  destruct first_evicted as (a & Hr & Hi & Hc & Hn & Hx & Ht & _).
  destruct (open_target true demo_ip demo_peer (nth_target 0) (nth_sid 257) a)
    as (a1 & A1 & A2 & A3 & A4 & A5 & A6 & A7); try done; [by right|]. rewrite Hx in *.
  assert (Hs1 : sessions (relay a1) !! nth_target 0 = Some (mk_session (nth_sid 257) 257)).
  { rewrite A4. simpl. by rewrite lookup_insert_eq. }
  assert (Hk1 : tasks a1 !! 0%nat = Some (nth_task 0)) by (by rewrite A5, lookup_insert_ne, Ht).
  assert (Hso : sender_open 0 a1 = false).
  { eapply sender_closed; [done|done|exact Hk1|]. intros s. simpl. rewrite Hs1. by intros [= <-]. }
  set (a2 := task_hangup 0 (nth_task 0) a1). set (a3 := task_close 0 (task_at Closing (nth_task 0)) a2).
  assert (R2 : reachable true demo_ip a2).
  { apply (reach_step _ _ a1 (TaskRecv 0)); [done|]. unfold assoc_step. by rewrite Hk1, Hso. }
  assert (Hk2 : tasks a2 !! 0%nat = Some (task_at Closing (nth_task 0))) by (simpl; by rewrite lookup_insert_eq).
  assert (R3 : reachable true demo_ip a3).
  { apply (reach_step _ _ a2 (TaskClose 0)); [done|]. unfold assoc_step. by rewrite Hk2. }
  assert (Hk3 : tasks a3 !! 0%nat = Some (task_at Cleaning (nth_task 0))) by (simpl; by rewrite lookup_insert_eq).
  set (a4 := task_clean 0 (task_at Cleaning (nth_task 0)) a3).
  assert (S4 : assoc_step true demo_ip (TaskClean 0) a3 = Some a4).
  { unfold assoc_step. by rewrite Hk3. }
  assert (Hk4 : tasks a4 !! 257%nat = Some (mk_task (nth_sid 257) (nth_target 0) demo_peer [] 500 Running)).
  { simpl. rewrite !lookup_insert_ne by done. by rewrite A5, lookup_insert_eq. }
  assert (Hn4 : sessions (relay a4) !! nth_target 0 = None) by (simpl; by rewrite lookup_delete_eq).
  eexists a3, a4, 0%nat, 257%nat, (nth_target 0), (mk_session (nth_sid 257) 257), _.
  split_and!; [done|exact S4|done|done|done|exact Hk4|done|done|exact Hn4|].
  eapply sender_closed; [by eapply reach_step|done|exact Hk4|]. intros s. simpl k_target. by rewrite Hn4.
Qed.

(** The teardown closes what is in the table; the node's session of an evicted
    task that is still running is closed by nobody. *)
Lemma udp_teardown_leaks_evicted : ∃ a a' tid k,
  reachable true demo_ip a ∧ assoc_step true demo_ip Teardown a = Some a' ∧
  tasks a !! tid = Some k ∧ k_phase k = Running ∧
  (∀ t s, sessions (relay a) !! t = Some s → UdpClose (s_sid s) ∈ to_mux a') ∧
  tasks a' !! tid = Some (task_at Gone k) ∧ UdpClose (k_sid k) ∉ to_mux a'.
Proof.
  destruct first_evicted as (a & Hr & Hi & Hc & Hn & Hx & Ht & Hm).
  exists a, (teardown a), 0%nat, (nth_task 0). split_and!; try done.
  - unfold assoc_step. by rewrite Hi.
  - intros t s Hs. simpl. apply elem_of_app. right. apply list_elem_of_fmap. exists (s_sid s). split; [done|].
    unfold live_sids. apply list_elem_of_fmap. exists (t, s). by rewrite elem_of_map_to_list.
  - simpl. by rewrite lookup_fmap, Ht.
  - simpl. rewrite elem_of_app. intros [Hin|Hin]; [by eapply Hm|].
    apply list_elem_of_fmap in Hin as (sid & [= <-] & Hin). unfold live_sids in Hin.
    apply list_elem_of_fmap in Hin as ([t s] & Hsid & Hin). apply elem_of_map_to_list in Hin. simpl in Hsid.
    pose proof Hin as Hin'. apply (ai_entries _ _ _ (reachable_inv _ _ _ Hr)) in Hin as (k & Hk & Hks & Hkt).
    rewrite Ht in Hk. destruct (Nat.ltb_spec (s_uplink s) 257); [|done]. simplify_eq. simpl in *.
    rewrite <-Hks in Hsid. apply nth_sid_inj in Hsid; [|lia|lia]. rewrite <-Hsid in Hin'. congruence.
Qed.
End theorems.

(** ** Witnesses *)

Lemma run_reachable `{!Base64} bq ip es a a' :
  reachable bq ip a → assoc_run bq ip es a = Some a' → reachable bq ip a'.
Proof.
  revert a. induction es as [|e es IH]; intros a Hr; simpl; [by intros [= <-]|].
  destruct (assoc_step bq ip e a) as [a1|] eqn:E; [|done]. apply IH. by eapply reach_step.
Qed.

(** A stranger's datagram, a query that opens a session, and its answer. *)
Definition demo_events : list Event :=
  let query := build_socks5_udp_packet (nth_target 7) (bs "query") in
  let answer := mk_resp None None (Some [std_encode (bs "answer")]) None None None None in
  [Datagram (SockV4 [x0a; x00; x00; x09] 99) query;
   Datagram demo_peer query; Evict; Opened (open_ok (bs "s1")); Insert;
   Datagram demo_peer query; TaskRecv 0; TaskReply 0 (Ok answer)].

Definition demo_assoc : Assoc :=
  default assoc_new (assoc_run (H := std_base64) true demo_ip demo_events assoc_new).

Lemma demo_reachable : reachable (H := std_base64) true demo_ip demo_assoc.
Proof.
  unfold demo_assoc. destruct (assoc_run _ _ _ _) as [a|] eqn:E; [|constructor].
  eapply run_reachable; [constructor|exact E].
Qed.

Lemma udp_associate_bounded_witness :
  order (relay demo_assoc) = [nth_target 7] ∧ table_ok (relay demo_assoc).
Proof.
  split; [vm_compute; reflexivity|].
  exact (proj1 (udp_associate_bounded (H := std_base64) true demo_ip demo_assoc demo_reachable)).
Defined.

Lemma udp_associate_confined_witness :
  map snd (to_client demo_assoc) = [build_socks5_udp_packet (nth_target 7) (bs "answer")] ∧
  Forall (op_ok true) (to_mux demo_assoc).
Proof.
  split; [vm_compute; reflexivity|].
  exact (proj2 (udp_associate_confined (H := std_base64) true demo_ip demo_assoc demo_reachable)).
Defined.
