(* ===== verification/ProxyHttp.v ===== *)
(** * HTTP at the proxy's edge (src/proxy_server.rs)

    Reading a request from a client's stream: the head, the body by
    [Content-Length] or in chunks, and what is made of them.  A stream is the
    list of what each [read] returns; when it runs out the stream has ended
    ([failed] says whether cleanly or with an I/O error).  An empty element is
    an end of file as well, as it is for the code. *)

From Stdlib Require Import Strings.Byte.
From S2P Require Import Prelude RustBytes IpAddr MuxState Http Ranges Routing.

Inductive IoError :=
  | Io
  | UnexpectedEof (msg : bytes)
  | InvalidData (msg : bytes)
  | Panic.

Definition MAX_HEADER_BYTES : Z := 64 * 1024.

(** ** Strings *)

(** [s.split("\r\n")]; never empty. *)
Fixpoint split_crlf (s : bytes) : list bytes :=
  match s with
  | [] => [[]]
  | x :: s' =>
      match s' with
      | y :: s'' =>
          if bool_decide (x = x0d ∧ y = x0a) then [] :: split_crlf s''
          else match split_crlf s' with l :: ls => (x :: l) :: ls | [] => [[x]] end
      | [] => [[x]]
      end
  end.

(** [s.rsplit_once(c)]. *)
Definition rsplit_once (c : byte) (s : bytes) : option (bytes * bytes) :=
  match find_byte (is_byte c) (rev s) with
  | Some i => Some (rev (drop (S i) (rev s)), rev (take i (rev s)))
  | None => None
  end.

(** [usize::from_str_radix(s, 16)]: an optional [+], at least one hexadecimal
    digit, nothing else, no overflow. *)
Fixpoint parse_hex_digits (s : bytes) (acc : Z) : option Z :=
  match s with
  | [] => Some acc
  | c :: s' =>
      let? d := to_digit 16 c in
      let acc := acc * 16 + d in
      if u64_max <? acc then None else parse_hex_digits s' acc
  end.

Definition parse_hex (s : bytes) : option Z :=
  let digits := default s (strip_prefix [x2b] s) in
  match digits with [] => None | _ => parse_hex_digits digits 0 end.

(** [v.split(',').any(|part| part.trim().eq_ignore_ascii_case(token))]. *)
Definition has_token (token v : bytes) : bool :=
  existsb (λ part, eq_ignore_ascii_case (trim part) token) (split_on x2c v).

(** ** The request head *)

Definition find_headers_end (buf : bytes) : option nat :=
  let? p := find_sub header_sep buf in Some (p + 4)%nat.

Inductive HeadReadResult :=
  | Got (head leftover : bytes)
  | Closed
  | Oversized.

Definition is_valid_http_method (m : bytes) : bool :=
  bool_decide (m ∈ [bs "GET"; bs "POST"; bs "PUT"; bs "DELETE"; bs "HEAD"; bs "OPTIONS"; bs "PATCH";
                    bs "TRACE"; bs "CONNECT"]).

Record RequestHead := mk_head {
  rh_method : bytes; rh_target : bytes; rh_version : bytes; rh_headers : Headers }.

(** [first.splitn(3, ' ')] as method, target and version. *)
Definition request_line (first : bytes) : option (bytes * bytes * bytes) :=
  let? (method, rest) := split_once x20 first in
  Some (match split_once x20 rest with
        | Some (target, version) => (method, target, version)
        | None => (method, rest, bs "HTTP/1.1")
        end).

Fixpoint request_headers (lines : list bytes) : Headers :=
  match lines with
  | [] => []
  | l :: ls =>
      match l with
      | [] => []
      | _ => match split_once x3a l with
             | Some (k, v) => (trim k, trim v) :: request_headers ls
             | None => request_headers ls
             end
      end
  end.

(** [parse_request_head] once the bytes are known to be UTF-8. *)
Definition parse_head_str (s : bytes) : option RequestHead :=
  match split_crlf s with
  | [] => None
  | first :: lines =>
      let? (method, target, version) := request_line first in
      if negb (is_valid_http_method method) then None
      else Some (mk_head method target version (request_headers lines))
  end.

Definition parse_request_head (head : bytes) : option RequestHead :=
  let? s := from_utf8 head in parse_head_str s.

Definition header_value (headers : Headers) (name : bytes) : option bytes := find_header name headers.

Definition parse_host_port (target : bytes) : bytes * Z :=
  match rsplit_once x3a target with
  | Some (h, p) => (h, default 443 (parse_u16 p))
  | None => (target, 443)
  end.

Definition split_authority (authority : bytes) (default_port : Z) : bytes * Z :=
  let colons := len (List.filter (is_byte x3a) authority) in
  if (1 <? colons) && negb (starts_with [x5b] authority) then (authority, default_port)
  else
    match rsplit_once x3a authority with
    | Some (h, p) =>
        match parse_u16 p with Some port => (h, port) | None => (authority, default_port) end
    | None => (authority, default_port)
    end.

Definition resolve_plain_http_target (target : bytes) (headers : Headers) : option (bytes * Z * bytes) :=
  let absolute (rest : bytes) (default_port : Z) :=
    let '(authority, path) :=
      match find_byte (is_byte x2f) rest with
      | Some i => (take i rest, drop i rest)
      | None => (rest, bs "/")
      end in
    match authority with
    | [] => None
    | _ => let '(host, port) := split_authority authority default_port in Some (host, port, path)
    end in
  match strip_prefix (bs "http://") target with
  | Some r => absolute r 80
  | None =>
      match strip_prefix (bs "https://") target with
      | Some r => absolute r 443
      | None =>
          if starts_with (bs "/") target then
            let? host_header := find_header (bs "host") headers in
            let '(host, port) := split_authority host_header 80 in
            Some (host, port, target)
          else None
      end
  end.

(** ** CORS headers *)

Definition cors_lines (origin : bytes) : bytes :=
  bs "Access-Control-Allow-Origin: " ++ origin ++ crlf ++
  bs "Access-Control-Allow-Credentials: true" ++ crlf ++
  bs "Access-Control-Allow-Methods: GET, POST, PUT, DELETE, PATCH, OPTIONS, HEAD" ++ crlf ++
  bs "Access-Control-Allow-Headers: *" ++ crlf ++
  bs "Access-Control-Expose-Headers: *" ++ crlf ++
  bs "Vary: Origin" ++ crlf.

Definition is_cors_line (line : bytes) : bool := starts_with (bs "access-control-") (to_ascii_lowercase line).

Definition inject_cors_into_head (head_with_terminator origin : bytes) : option bytes :=
  let head := default head_with_terminator (strip_suffix header_sep head_with_terminator) in
  let? head_str := from_utf8 head in
  match split_crlf head_str with
  | [] => None
  | status :: lines =>
      Some (status ++ crlf ++
            concat (map (λ l, l ++ crlf) (List.filter (λ l, negb (is_cors_line l)) lines)) ++
            cors_lines origin ++ crlf)
  end.

Definition inject_cors_response_headers (response origin : bytes) : bytes :=
  match find_sub header_sep response with
  | None => response
  | Some idx =>
      match inject_cors_into_head (take (idx + 4) response) origin with
      | Some head => head ++ drop (idx + 4) response
      | None => response
      end
  end.

Definition expects_100_continue (headers : Headers) : bool :=
  match header_value headers (bs "expect") with
  | Some v => has_token (bs "100-continue") v
  | None => false
  end.

(** ** Reading *)

Section reading.
Context (failed : bool).

(** [read] at the end of the stream: zero bytes, or the error. *)
Definition at_eof {A} (eof : result A IoError) : result A IoError := if failed then Err Io else eof.

Fixpoint read_head_loop (reads : list bytes) (buf : bytes) : result (HeadReadResult * list bytes) IoError :=
  let eof := match buf with [] => Ok (Closed, []) | _ => Err (UnexpectedEof (bs "EOF mid-header")) end in
  match reads with
  | [] => at_eof eof
  | [] :: _ => eof
  | chunk :: reads' =>
      let buf := buf ++ chunk in
      match find_headers_end buf with
      | Some pos => Ok (Got (take pos buf) (drop pos buf), reads')
      | None => if MAX_HEADER_BYTES <? len buf then Ok (Oversized, reads') else read_head_loop reads' buf
      end
  end.

Definition read_http_head (reads : list bytes) : result (HeadReadResult * list bytes) IoError :=
  read_head_loop reads [].

(** The same loop over any stream. *)
Definition read_http_head_io (reads : list bytes) : result (HeadReadResult * list bytes) IoError :=
  read_head_loop reads [].

Definition chunked_eof : IoError := UnexpectedEof (bs "EOF in chunked body").

(** The line, and the buffer and stream after it. *)
Fixpoint read_crlf_line (reads : list bytes) (buf : bytes) : result (bytes * bytes * list bytes) IoError :=
  match find_sub crlf buf with
  | Some idx => Ok (take idx buf, drop (idx + 2) buf, reads)
  | None =>
      match reads with
      | [] => at_eof (Err chunked_eof)
      | [] :: _ => Err chunked_eof
      | chunk :: reads' => read_crlf_line reads' (buf ++ chunk)
      end
  end.

Fixpoint fill_buffer (reads : list bytes) (buf : bytes) (want : Z) : result (bytes * list bytes) IoError :=
  if want <=? len buf then Ok (buf, reads)
  else
    match reads with
    | [] => at_eof (Err chunked_eof)
    | [] :: _ => Err chunked_eof
    | chunk :: reads' => fill_buffer reads' (buf ++ chunk) want
    end.

(** [&buf[a..b]]: panics unless [a <= b <= buf.len()]. *)
Definition slice_checked (buf : bytes) (a b : Z) : result bytes IoError :=
  if (a <=? b) && (b <=? len buf) then Ok (ztake (b - a) (zdrop a buf)) else Err Panic.

(** The bytes that are still to be processed, a bound for the loops below. *)
Definition pending (reads : list bytes) (buf : bytes) : nat := length (buf ++ concat reads).

Fixpoint read_trailers (fuel : nat) (reads : list bytes) (buf out : bytes)
    : option (result (bytes * bytes * list bytes) IoError) :=
  match fuel with
  | O => None
  | S fuel' =>
      match read_crlf_line reads buf with
      | Err e => Some (Err e)
      | Ok (trailer, buf, reads) =>
          match trailer with [] => Some (Ok (out, buf, reads)) | _ => read_trailers fuel' reads buf out end
      end
  end.

(** One chunk-size line. *)
Definition chunk_size (line : bytes) : result Z IoError :=
  match from_utf8 line with
  | None => Err (InvalidData (bs "non-utf8 chunk size line"))
  | Some s =>
      let line_str := trim s in
      match parse_hex (split_first x3b line_str) with
      | None => Err (InvalidData (bs "bad chunk size '" ++ line_str ++ bs "'"))
      | Some size => Ok size
      end
  end.

(** The body, and the buffer and stream after it; [None] when the fuel is too
    small for the loop. *)
Fixpoint chunked_loop (fuel : nat) (reads : list bytes) (buf out : bytes)
    : option (result (bytes * bytes * list bytes) IoError) :=
  match fuel with
  | O => None
  | S fuel' =>
      match read_crlf_line reads buf with
      | Err e => Some (Err e)
      | Ok ([], buf, reads) => chunked_loop fuel' reads buf out
      | Ok (line, buf, reads) =>
          match chunk_size line with
          | Err e => Some (Err e)
          | Ok size =>
              if size =? 0 then read_trailers fuel' reads buf out
              else
                let size2 := wadd64 size 2 in
                match fill_buffer reads buf size2 with
                | Err e => Some (Err e)
                | Ok (buf, reads) =>
                    match slice_checked buf size size2 with
                    | Err e => Some (Err e)
                    | Ok ending =>
                        if negb (bool_decide (ending = crlf)) then
                          Some (Err (InvalidData (bs "chunk missing trailing CRLF")))
                        else chunked_loop fuel' reads (zdrop size2 buf) (out ++ ztake size buf)
                    end
                end
          end
      end
  end.

Definition read_chunked_request_body (reads : list bytes) (buf : bytes)
    : option (result (bytes * bytes * list bytes) IoError) :=
  chunked_loop (S (pending reads buf)) reads buf [].

(** The loop of [read_body] with a length. *)
Fixpoint read_counted (reads : list bytes) (body : bytes) (content_length : Z)
    : result (bytes * list bytes) IoError :=
  if content_length <=? len body then Ok (body, reads)
  else
    match reads with
    | [] => at_eof (Err (UnexpectedEof (bs "EOF mid-body")))
    | [] :: _ => Err (UnexpectedEof (bs "EOF mid-body"))
    | chunk :: reads' =>
        let need := content_length - len body in
        read_counted reads' (body ++ ztake (Z.min (len chunk) need) chunk) content_length
    end.

(** [Vec::with_capacity] panics above [isize::MAX]. *)
Definition isize_max : Z := 2 ^ 63 - 1.

(** What is written first (the interim response), then the body and the rest of
    the stream.  [read_body] gives nothing back of [leftover]. *)
Definition read_body (reads : list bytes) (leftover : bytes) (headers : Headers)
    : bytes * option (result (bytes * list bytes) IoError) :=
  let transfer_encoding := header_value headers (bs "transfer-encoding") in
  let is_chunked := match transfer_encoding with Some v => has_token (bs "chunked") v | None => false end in
  let content_length := header_value headers (bs "content-length") in
  match content_length, (let? v := content_length in parse_u64 v) with
  | Some v, None => ([], Some (Err (InvalidData (bs "invalid Content-Length: " ++ v))))
  | _, length =>
      if bool_decide (is_Some transfer_encoding) && negb is_chunked then
        ([], Some (Err (InvalidData (bs "unsupported Transfer-Encoding: " ++ default [] transfer_encoding))))
      else if is_chunked && bool_decide (is_Some length) then
        ([], Some (Err (InvalidData
          (bs "both Transfer-Encoding: chunked and Content-Length are present"))))
      else
        let interim :=
          if expects_100_continue headers && (is_chunked || bool_decide (is_Some length))
          then bs "HTTP/1.1 100 Continue" ++ header_sep else [] in
        if is_chunked then
          (interim, match read_chunked_request_body reads leftover with
                    | Some (Ok (body, _, reads)) => Some (Ok (body, reads))
                    | Some (Err e) => Some (Err e)
                    | None => None
                    end)
        else
          match length with
          | None => (interim, Some (Ok ([], reads)))
          | Some n =>
              if isize_max <? n then (interim, Some (Err Panic))
              else (interim, Some (read_counted reads (ztake (Z.min (len leftover) n) leftover) n))
          end
  end.
End reading.

(** ** Requests on a decrypted or plain stream *)

Definition too_large_431 : bytes :=
  bs "HTTP/1.1 431 Request Header Fields Too Large" ++ crlf ++ bs "Connection: close" ++ crlf ++
  bs "Content-Length: 0" ++ header_sep.

(** x.com's GraphQL requests lose what follows the variables. *)
Definition fix_path (host path : bytes) : bytes :=
  let host_lower := to_ascii_lowercase host in
  let is_x_com := same_or_below host_lower (bs "x.com") || same_or_below host_lower (bs "twitter.com") in
  if is_x_com && starts_with (bs "/i/api/graphql/") path && contains path (bs "?variables=") then
    match split_once x26 path with Some (short, _) => short | None => path end
  else path.

Definition request_url (scheme host : bytes) (port : Z) (path : bytes) : bytes :=
  let default_port := if bool_decide (scheme = bs "https") then 443 else 80 in
  if port =? default_port then scheme ++ bs "://" ++ host ++ path
  else scheme ++ bs "://" ++ host ++ bs ":" ++ fmt_uint port ++ path.

Definition preflight_response (headers : Headers) : bytes :=
  let origin := default (bs "*") (header_value headers (bs "origin")) in
  let acrm := default (bs "GET, POST, PUT, DELETE, PATCH, OPTIONS, HEAD")
                (header_value headers (bs "access-control-request-method")) in
  let acrh := default (bs "*") (header_value headers (bs "access-control-request-headers")) in
  bs "HTTP/1.1 204 No Content" ++ crlf ++
  bs "Access-Control-Allow-Origin: " ++ origin ++ crlf ++
  bs "Access-Control-Allow-Methods: " ++ acrm ++ crlf ++
  bs "Access-Control-Allow-Headers: " ++ acrh ++ crlf ++
  bs "Access-Control-Allow-Credentials: true" ++ crlf ++
  bs "Access-Control-Max-Age: 86400" ++ crlf ++
  bs "Vary: Origin, Access-Control-Request-Method, Access-Control-Request-Headers" ++ crlf ++
  bs "Content-Length: 0" ++ crlf ++ crlf.

Definition connection_close (headers : Headers) : bool :=
  existsb (λ kv, eq_ignore_ascii_case kv.1 (bs "connection") && eq_ignore_ascii_case kv.2 (bs "close")) headers.

(** What a handler has written, what is left of the stream, and how it ended:
    [Ok true] to go on with the connection; [None] is never reached. *)
Record Handled := mk_handled {
  h_out : bytes; h_reads : list bytes; h_result : option (result bool IoError) }.

Definition handled_error (out : bytes) (e : IoError) : Handled := mk_handled out [] (Some (Err e)).

Section handlers.
Context (relay : Call → Req → bytes) (failed : bool).

(** The range-parallel path for a GET without a body, the plain relay for the
    rest; [cors] is the request's origin on the MITM path. *)
Definition relay_and_write (method url : bytes) (headers : Headers) (body : bytes) (cors : option bytes)
    : bytes * result unit IoError :=
  let req := mk_req method url headers body in
  if eq_ignore_ascii_case method (bs "GET") && bool_decide (body = []) then
    let transform_head head :=
      match cors with
      | Some origin => default head (inject_cors_into_head head origin)
      | None => head
      end in
    let '(out, r) := relay_parallel_range_to relay req transform_head in
    (out, match r with Ok _ => Ok tt | Err _ => Err Io end)
  else
    let response := relay CPlain req in
    (match cors with
     | Some origin => inject_cors_response_headers response origin
     | None => response
     end, Ok tt).

Definition handle_mitm_request (host : bytes) (port : Z) (scheme : bytes) (reads : list bytes) : Handled :=
  match read_http_head_io failed reads with
  | Err e => handled_error [] e
  | Ok (Closed, reads) => mk_handled [] reads (Some (Ok false))
  | Ok (Oversized, reads) => mk_handled too_large_431 reads (Some (Ok false))
  | Ok (Got head leftover, reads) =>
      match parse_request_head head with
      | None => mk_handled [] reads (Some (Ok false))
      | Some rh =>
          let headers := rh_headers rh in
          let '(interim, r) := read_body failed reads leftover headers in
          match r with
          | None => mk_handled interim reads None
          | Some (Err e) => handled_error interim e
          | Some (Ok (body, reads)) =>
              let url := request_url scheme host port (fix_path host (rh_target rh)) in
              if eq_ignore_ascii_case (rh_method rh) (bs "OPTIONS") then
                mk_handled (interim ++ preflight_response headers) reads
                  (Some (Ok (negb (connection_close headers))))
              else
                let '(out, r) := relay_and_write (rh_method rh) url headers body
                                   (header_value headers (bs "origin")) in
                match r with
                | Err e => handled_error (interim ++ out) e
                | Ok _ => mk_handled (interim ++ out) reads (Some (Ok (negb (connection_close headers))))
                end
          end
      end
  end.

(** The keep-alive loop of [run_mitm_then_relay] and [relay_http_stream_raw]:
    everything written until the connection ends. *)
Fixpoint keepalive_loop (fuel : nat) (host : bytes) (port : Z) (scheme : bytes) (reads : list bytes)
    : option bytes :=
  match fuel with
  | O => None
  | S fuel' =>
      let h := handle_mitm_request host port scheme reads in
      match h_result h with
      | None => None
      | Some (Ok true) => let? rest := keepalive_loop fuel' host port scheme (h_reads h) in Some (h_out h ++ rest)
      | Some (Ok false) | Some (Err _) => Some (h_out h)
      end
  end.

Definition relay_http_stream_raw (host : bytes) (port : Z) (scheme : bytes) (reads : list bytes) : option bytes :=
  keepalive_loop (S (length reads)) host port scheme reads.

(** The host a certificate is minted for and requests are sent to. *)
Definition effective_host (sni : option bytes) (host : bytes) : bytes :=
  match sni with
  | Some s => if negb (looks_like_ip s) && negb (bool_decide (s = [])) then s else host
  | None => host
  end.

(** [do_plain_http]. *)
Definition plain_url (rh : RequestHead) : bytes :=
  if starts_with (bs "http://") (rh_target rh) || starts_with (bs "https://") (rh_target rh) then rh_target rh
  else bs "http://" ++ default [] (find_header (bs "host") (rh_headers rh)) ++ rh_target rh.

Definition do_plain_http (head leftover : bytes) (reads : list bytes)
    : bytes * option (result unit IoError) :=
  match parse_request_head head with
  | None => ([], Some (Err (InvalidData (bs "bad request"))))
  | Some rh =>
      let '(interim, r) := read_body failed reads leftover (rh_headers rh) in
      match r with
      | None => (interim, None)
      | Some (Err e) => (interim, Some (Err e))
      | Some (Ok (body, _)) =>
          let '(out, r) := relay_and_write (rh_method rh) (plain_url rh) (rh_headers rh) body None in
          (interim ++ out, Some r)
      end
  end.
End handlers.

(** ** Direct-mode requests *)

Definition is_hop_header (k : bytes) : bool :=
  bool_decide (to_ascii_lowercase k ∈ [bs "proxy-connection"; bs "connection"; bs "keep-alive"]).

Definition rewritten_head (rh : RequestHead) (path : bytes) : bytes :=
  rh_method rh ++ bs " " ++ path ++ bs " " ++ rh_version rh ++ crlf ++
  concat (map header_line (List.filter (λ kv, negb (is_hop_header kv.1)) (rh_headers rh))) ++
  bs "Connection: close" ++ header_sep.

(** [do_plain_http_passthrough]: where it connects and what it sends first. *)
Definition do_plain_http_passthrough (head leftover : bytes) (upstream : option bytes)
    (socks_ok direct_ok : bool) : option (list Attempt * option bytes) :=
  let? rh := parse_request_head head in
  let? (host, port, path) := resolve_plain_http_target (rh_target rh) (rh_headers rh) in
  let '(attempts, ok) := plain_tcp_passthrough host port upstream socks_ok direct_ok in
  Some (attempts, if ok then Some (rewritten_head rh path ++ leftover) else None).

(** ** The HTTP listener *)

Inductive HttpOutcome :=
  | HttpDone
  | HttpTunnel (host : bytes) (port : Z)
  | HttpPlain (head leftover : bytes) (reads : list bytes).

(** [handle_http_client] up to the tunnel or the plain request; the bytes
    [leftover] after a [CONNECT] head are not used. *)
Definition handle_http_client (failed : bool) (now : Z) (unreachable : option UnreachableCache)
    (reads : list bytes) : bytes * result HttpOutcome IoError * option UnreachableCache :=
  match read_http_head failed reads with
  | Err e => ([], Err e, unreachable)
  | Ok (Closed, _) => ([], Ok HttpDone, unreachable)
  | Ok (Oversized, _) => (too_large_431, Ok HttpDone, unreachable)
  | Ok (Got head leftover, reads) =>
      match parse_request_head head with
      | None => ([], Err (InvalidData (bs "bad request")), unreachable)
      | Some rh =>
          if eq_ignore_ascii_case (rh_method rh) (bs "CONNECT") then
            let '(host, port) := parse_host_port (rh_target rh) in
            let '(refused, unreachable) :=
              match unreachable with
              | Some c => let '(b, c) := is_unreachable now host port c in (b, Some c)
              | None => (false, None)
              end in
            if refused then
              (bs "HTTP/1.1 502 Bad Gateway" ++ crlf ++ bs "Content-Length: 0" ++ crlf ++
               bs "Connection: close" ++ header_sep, Ok HttpDone, unreachable)
            else
              (bs "HTTP/1.1 200 Connection Established" ++ header_sep, Ok (HttpTunnel host port), unreachable)
          else ([], Ok (HttpPlain head leftover reads), unreachable)
      end
  end.

(** [accept_backoff]: the counter and the sleep in milliseconds. *)
Definition accept_backoff (raw_os_error : option Z) (count : Z) : Z * Z :=
  let count := sat_add64 count 1 in
  if bool_decide (raw_os_error = Some 24 ∨ raw_os_error = Some 23)
  then (count, Z.min (50 * Z.min count 40) 2000)
  else (count, 5).

(** ** Searching a growing buffer *)

Lemma starts_with_app_le p a b :
  (length p ≤ length a)%nat → starts_with p (a ++ b) = starts_with p a.
Proof.
  revert a. induction p as [|x p IH]; intros a Hl; [done|].
  destruct a as [|y a]; simpl in *; [lia|]. by rewrite IH by lia.
Qed.

(** An occurrence stays the first one when more bytes arrive. *)
Lemma find_sub_grow p a b i : find_sub p a = Some i → find_sub p (a ++ b) = Some i.
Proof.
  revert i. induction a as [|x a IH]; intros i Hi.
  - destruct p; [|done]. simpl in Hi. injection Hi as <-. by destruct b.
  - pose proof (find_sub_le _ _ _ Hi) as Hl. simpl in Hi.
    change ((x :: a) ++ b) with (x :: (a ++ b)). cbn [find_sub].
    change (x :: a ++ b) with ((x :: a) ++ b). rewrite starts_with_app_le by lia.
    destruct (starts_with p (x :: a)); [done|].
    destruct (find_sub p a) as [j|]; [|done]. by rewrite (IH j eq_refl).
Qed.

(** An occurrence that lies within the first part is found there. *)
Lemma find_sub_within p a b i :
  find_sub p (a ++ b) = Some i → (i + length p ≤ length a)%nat → find_sub p a = Some i.
Proof.
  revert i. induction a as [|x a IH]; intros i Hi Hl.
  - simpl in *. destruct p; [|simpl in Hl; lia]. destruct i; [done|simpl in Hl; lia].
  - change ((x :: a) ++ b) with (x :: (a ++ b)) in Hi. cbn [find_sub] in *.
    change (x :: a ++ b) with ((x :: a) ++ b) in Hi. simpl in Hl. rewrite starts_with_app_le in Hi by (simpl; lia).
    destruct (starts_with p (x :: a)); [done|].
    destruct (find_sub p (a ++ b)) as [j|]; [|done]. injection Hi as <-. by rewrite (IH j eq_refl) by lia.
Qed.

(** A line without line feeds ends at the first CRLF. *)
Lemma find_crlf_line l s : x0a ∉ l → find_sub crlf (l ++ crlf ++ s) = Some (length l).
Proof.
  induction l as [|x l IH]; intros Hl; [done|].
  apply not_elem_of_cons in Hl as [Hx Hl]. change ((x :: l) ++ crlf ++ s) with (x :: (l ++ crlf ++ s)).
  cbn [find_sub]. rewrite IH by done.
  replace (starts_with crlf (x :: l ++ crlf ++ s)) with false; [done|]. symmetry.
  simpl. destruct (bool_decide (x0d = x)); [|done]. simpl.
  destruct l as [|y l]; [done|]. simpl. apply not_elem_of_cons in Hl as [Hy _].
  by rewrite bool_decide_false.
Qed.

(** ** The readers do not depend on how the stream is cut *)

Section reader_lemmas.
Context (failed : bool).

Lemma read_crlf_line_spec reads buf i :
  Forall (λ c, c ≠ []) reads → find_sub crlf (buf ++ concat reads) = Some i →
  ∃ buf' reads', read_crlf_line failed reads buf = Ok (take i (buf ++ concat reads), buf', reads') ∧
    buf' ++ concat reads' = drop (i + 2) (buf ++ concat reads) ∧ Forall (λ c, c ≠ []) reads'.
Proof.
  revert buf. induction reads as [|c reads IH]; intros buf Hne Hi; cbn [read_crlf_line].
  - rewrite app_nil_r in *. rewrite Hi. eexists _, []. split; [done|]. split; [apply app_nil_r|done].
  - destruct (find_sub crlf buf) as [j|] eqn:Ej.
    + rewrite (find_sub_grow _ _ _ _ Ej) in Hi. injection Hi as <-.
      pose proof (find_sub_le _ _ _ Ej) as Hl. simpl length in Hl.
      eexists _, _. rewrite take_app_le, drop_app_le by lia. done.
    + apply Forall_cons in Hne as [Hc Hne]. destruct c as [|x c]; [done|].
      change (concat ((x :: c) :: reads)) with ((x :: c) ++ concat reads) in *.
      rewrite app_assoc in *. by apply IH.
Qed.

Lemma fill_buffer_spec reads buf want :
  Forall (λ c, c ≠ []) reads → want ≤ len (buf ++ concat reads) →
  ∃ buf' reads', fill_buffer failed reads buf want = Ok (buf', reads') ∧ want ≤ len buf' ∧
    buf' ++ concat reads' = buf ++ concat reads ∧ Forall (λ c, c ≠ []) reads'.
Proof.
  revert buf. induction reads as [|c reads IH]; intros buf Hne Hw; cbn [fill_buffer].
  - simpl in Hw. rewrite app_nil_r in Hw. if_true. eauto 10.
  - case_if; [eauto 10|]. apply Forall_cons in Hne as [Hc Hne]. destruct c as [|x c]; [done|].
    destruct (IH (buf ++ x :: c) Hne) as (b & r & H1 & H2 & H3 & H4).
    { simpl in *. by rewrite <-app_assoc. }
    exists b, r. split_and!; [done|done| |done]. rewrite H3. simpl. by rewrite <-app_assoc.
Qed.

(** What the readers leave behind is shorter. *)
Lemma read_crlf_line_pending reads buf line buf' reads' :
  read_crlf_line failed reads buf = Ok (line, buf', reads') →
  (pending reads' buf' + 2 ≤ pending reads buf)%nat.
Proof.
  unfold pending. revert buf. induction reads as [|c reads IH]; intros buf; cbn [read_crlf_line];
    destruct (find_sub crlf buf) as [j|] eqn:Ej.
  1, 3: intros [=]; subst; pose proof (find_sub_le _ _ _ Ej); simpl in *;
    rewrite !length_app, length_drop; lia.
  - unfold at_eof. by destruct failed.
  - destruct c as [|x c]; [done|]. intros H%IH. simpl. by rewrite <-app_assoc in H.
Qed.

Lemma fill_buffer_pending reads buf want buf' reads' :
  fill_buffer failed reads buf want = Ok (buf', reads') →
  pending reads' buf' = pending reads buf ∧ want ≤ len buf'.
Proof.
  unfold pending. revert buf. induction reads as [|c reads IH]; intros buf; cbn [fill_buffer]; case_if.
  1, 3: intros [=]; by subst.
  - unfold at_eof. by destruct failed.
  - destruct c as [|x c]; [done|]. intros [H1 H2]%IH. split; [|done].
    rewrite H1. simpl. by rewrite <-app_assoc.
Qed.

Lemma read_trailers_terminates fuel reads buf out :
  (pending reads buf < fuel)%nat → is_Some (read_trailers failed fuel reads buf out).
Proof.
  revert reads buf. induction fuel as [|fuel IH]; intros reads buf Hf; [lia|]. cbn [read_trailers].
  destruct (read_crlf_line failed reads buf) as [[[line buf'] reads']|e] eqn:E; [|by eexists].
  apply read_crlf_line_pending in E. destruct line; [by eexists|]. apply IH. lia.
Qed.

Lemma chunked_loop_terminates fuel reads buf out :
  (pending reads buf < fuel)%nat → is_Some (chunked_loop failed fuel reads buf out).
Proof.
  revert reads buf out. induction fuel as [|fuel IH]; intros reads buf out Hf; [lia|]. cbn [chunked_loop].
  destruct (read_crlf_line failed reads buf) as [[[line buf'] reads']|e] eqn:E; [|by eexists].
  apply read_crlf_line_pending in E. destruct line as [|x line]; [apply IH; lia|].
  destruct (chunk_size (x :: line)) as [size|]; [|by eexists].
  case_if; [apply read_trailers_terminates; lia|].
  destruct (fill_buffer failed reads' buf' (wadd64 size 2)) as [[b r]|] eqn:Ef; [|by eexists].
  apply fill_buffer_pending in Ef as [Ef _].
  destruct (slice_checked b size _) as [ending|]; [|by eexists].
  case_if; [by eexists|]. apply IH. unfold pending in *. unfold zdrop.
  rewrite !length_app, length_drop in *. lia.
Qed.

Lemma read_chunked_total reads buf : read_chunked_request_body failed reads buf ≠ None.
Proof.
  intros H. unfold read_chunked_request_body in H.
  destruct (chunked_loop_terminates (S (pending reads buf)) reads buf []) as [r Hr]; [lia|]. congruence.
Qed.

Lemma read_body_terminates reads leftover headers : (read_body failed reads leftover headers).2 ≠ None.
Proof.
  unfold read_body.
  repeat match goal with |- context [match ?x with _ => _ end] => destruct x eqn:? end; simpl; try done.
  all: exfalso; by eapply read_chunked_total.
Qed.

Lemma read_head_shorter reads buf r reads' :
  read_head_loop failed reads buf = Ok (r, reads') → r ≠ Closed → (length reads' < length reads)%nat.
Proof.
  revert buf. induction reads as [|c reads IH]; intros buf; cbn [read_head_loop].
  - unfold at_eof. destruct failed, buf; intros [=]; by subst.
  - destruct c as [|x c]; [destruct buf; intros [=]; by subst|].
    destruct (find_headers_end (buf ++ x :: c)); [intros [=]; subst; simpl; lia|].
    case_if; [intros [=]; subst; simpl; lia|]. intros H Hr. apply IH in H; [simpl; lia|done].
Qed.

Lemma read_counted_shorter reads body n body' reads' :
  read_counted failed reads body n = Ok (body', reads') → (length reads' ≤ length reads)%nat.
Proof.
  revert body. induction reads as [|c reads IH]; intros body; cbn [read_counted]; case_if.
  1, 3: intros [=]; by subst.
  - unfold at_eof. by destruct failed.
  - destruct c as [|x c]; [done|]. intros H%IH. simpl. lia.
Qed.

Lemma read_crlf_line_shorter reads buf line buf' reads' :
  read_crlf_line failed reads buf = Ok (line, buf', reads') → (length reads' ≤ length reads)%nat.
Proof.
  revert buf. induction reads as [|c reads IH]; intros buf; cbn [read_crlf_line];
    destruct (find_sub crlf buf); try (intros [=]; by subst).
  - unfold at_eof. by destruct failed.
  - destruct c as [|x c]; [done|]. intros H%IH. simpl. lia.
Qed.

Lemma fill_buffer_shorter reads buf want buf' reads' :
  fill_buffer failed reads buf want = Ok (buf', reads') → (length reads' ≤ length reads)%nat.
Proof.
  revert buf. induction reads as [|c reads IH]; intros buf; cbn [fill_buffer]; case_if.
  1, 3: intros [=]; by subst.
  - unfold at_eof. by destruct failed.
  - destruct c as [|x c]; [done|]. intros H%IH. simpl. lia.
Qed.

Lemma read_trailers_shorter fuel reads buf out r buf' reads' :
  read_trailers failed fuel reads buf out = Some (Ok (r, buf', reads')) → (length reads' ≤ length reads)%nat.
Proof.
  revert reads buf. induction fuel as [|fuel IH]; intros reads buf; cbn [read_trailers]; [done|].
  destruct (read_crlf_line failed reads buf) as [[[line b] rs]|e] eqn:E; [|done].
  apply read_crlf_line_shorter in E. destruct line; [intros [=]; by subst|]. intros H%IH. lia.
Qed.

Lemma chunked_loop_shorter fuel reads buf out r buf' reads' :
  chunked_loop failed fuel reads buf out = Some (Ok (r, buf', reads')) → (length reads' ≤ length reads)%nat.
Proof.
  revert reads buf out. induction fuel as [|fuel IH]; intros reads buf out; cbn [chunked_loop]; [done|].
  destruct (read_crlf_line failed reads buf) as [[[line b] rs]|e] eqn:E; [|done].
  apply read_crlf_line_shorter in E. destruct line as [|x line]; [intros H%IH; lia|].
  destruct (chunk_size (x :: line)) as [size|]; [|done].
  case_if; [intros H%read_trailers_shorter; lia|].
  destruct (fill_buffer failed rs b (wadd64 size 2)) as [[b' rs']|] eqn:Ef; [|done].
  apply fill_buffer_shorter in Ef. destruct (slice_checked b' size _); [|done].
  case_if; [done|]. intros H%IH. lia.
Qed.

Lemma read_body_shorter reads leftover headers interim body reads' :
  read_body failed reads leftover headers = (interim, Some (Ok (body, reads'))) →
  (length reads' ≤ length reads)%nat.
Proof.
  unfold read_body. repeat case_match; intros [=]; subst; try done; try (by eapply read_counted_shorter);
    by eapply chunked_loop_shorter.
Qed.
End reader_lemmas.

(** C32: a connection of requests ends.  Whatever a client sends (any bytes, cut
    in any way, ending cleanly or not), the keep-alive loop answers finitely
    many requests and stops: every turn that goes on has consumed a read, and
    the readers of heads, bodies and chunks always return. *)
Theorem keepalive_terminates relay failed host port scheme reads :
  is_Some (relay_http_stream_raw relay failed host port scheme reads).
Proof.
  unfold relay_http_stream_raw.
  enough (∀ fuel, (length reads < fuel)%nat → is_Some (keepalive_loop relay failed fuel host port scheme reads))
    by eauto.
  intros fuel. revert reads. induction fuel as [|fuel IH]; intros reads Hf; [lia|]. cbn [keepalive_loop].
  destruct (h_result _) as [[[] |]|] eqn:Hr; try by eexists.
  - destruct (IH (h_reads (handle_mitm_request relay failed host port scheme reads))) as [rest ->]; [|by eexists].
    revert Hr. unfold handle_mitm_request, read_http_head_io.
    destruct (read_head_loop failed reads []) as [[[head leftover| |] reads1]|] eqn:Eh; try done.
    apply read_head_shorter in Eh; [|done]. destruct (parse_request_head head) as [rh|]; [|done].
    destruct (read_body _ _ _ _) as [interim [[[body reads2]|]|]] eqn:Eb; try done.
    apply read_body_shorter in Eb. case_if; [simpl; lia|].
    destruct (relay_and_write _ _ _ _ _ _) as [out [u|e]]; [simpl; lia|done].
  - exfalso. revert Hr. unfold handle_mitm_request, read_http_head_io.
    destruct (read_head_loop failed reads []) as [[[head leftover| |] reads1]|]; try done.
    destruct (parse_request_head head) as [rh|]; [|done].
    pose proof (read_body_terminates failed reads1 leftover (rh_headers rh)) as Ht.
    destruct (read_body _ _ _ _) as [interim [[[body reads2]|]|]]; try done. case_if; [done|].
    by destruct (relay_and_write _ _ _ _ _ _) as [out [u|e]].
Qed.

(** A head is found however the stream is cut.  If the bytes of the stream
    contain a complete head within 64 KiB, then the reader returns exactly it,
    and what was read beyond it followed by what is still unread is the rest of
    the stream. *)
Theorem read_http_head_segmentation failed reads pos :
  let s := concat reads in
  Forall (λ c, c ≠ []) reads → find_headers_end s = Some pos → Z.of_nat pos ≤ MAX_HEADER_BYTES →
  ∃ leftover reads', read_http_head failed reads = Ok (Got (take pos s) leftover, reads') ∧
    leftover ++ concat reads' = drop pos s.
Proof.
  intros s Hne Hp Hmax. subst s. unfold read_http_head.
  change (concat reads) with ([] ++ concat reads) in *.
  assert (Hbuf : find_headers_end [] = None) by done. revert Hbuf Hp. generalize (@nil byte) as buf.
  unfold find_headers_end. induction reads as [|c reads IH]; intros buf Hbuf Hp.
  { simpl in Hp. rewrite app_nil_r in Hp. by rewrite Hbuf in Hp. }
  apply Forall_cons in Hne as [Hc Hne]. cbn [read_head_loop]. destruct c as [|x c]; [done|].
  change (concat ((x :: c) :: reads)) with ((x :: c) ++ concat reads) in *.
  set (ch := x :: c) in *. rewrite app_assoc in *. unfold find_headers_end.
  destruct (find_sub header_sep (buf ++ ch)) as [i|] eqn:Ei.
  - rewrite (find_sub_grow _ _ _ _ Ei) in Hp. injection Hp as <-.
    pose proof (find_sub_le _ _ _ Ei) as Hl. simpl length in Hl.
    eexists _, _. rewrite (take_app_le (buf ++ ch)), (drop_app_le (buf ++ ch)) by lia. done.
  - assert (Hlen : len (buf ++ ch) ≤ MAX_HEADER_BYTES).
    { apply Z.le_ngt. intros Hgt.
      destruct (find_sub header_sep ((buf ++ ch) ++ concat reads)) as [i|] eqn:Ej; [|done].
      injection Hp as <-. pose proof (find_sub_within _ _ _ _ Ej) as Hw.
      rewrite Hw in Ei; [done|]. simpl length. unfold len in Hgt. lia. }
    replace (MAX_HEADER_BYTES <? len (buf ++ ch)) with false by lia.
    apply IH; [done| |done]. by rewrite Ei.
Qed.

(** ** Chunked bodies *)

(** One chunk as a size line and its data; the size line may have any form
    [chunk_size] accepts. *)
Definition chunk_ok (ld : bytes * bytes) : Prop :=
  ld.1 ≠ [] ∧ (x0a ∉ ld.1) ∧ chunk_size ld.1 = Ok (len ld.2) ∧ ld.2 ≠ [] ∧ len ld.2 + 2 < u64_mod.

Definition chunk_bytes (ld : bytes * bytes) : bytes := ld.1 ++ crlf ++ ld.2 ++ crlf.

Definition line_ok (l : bytes) : Prop := l ≠ [] ∧ x0a ∉ l.

Definition chunked_body (chunks : list (bytes * bytes)) (last : bytes) (trailers : list bytes) : bytes :=
  concat (map chunk_bytes chunks) ++ last ++ crlf ++ concat (map (λ l, l ++ crlf) trailers) ++ crlf.

Section chunked.
Context (failed : bool).

Lemma app_eq_len_prefix (a b c d : bytes) : a ++ b = c ++ d → len c ≤ len a → ∃ t, a = c ++ t.
Proof.
  intros E Hl. exists (drop (length c) a). rewrite <-(take_drop (length c) a) at 1. f_equal.
  apply (f_equal (take (length c))) in E. rewrite take_app_length, take_app_le in E; [done|]. unfold len in Hl. lia.
Qed.

Lemma read_line_of reads buf l s :
  Forall (λ c, c ≠ []) reads → buf ++ concat reads = l ++ crlf ++ s → x0a ∉ l →
  ∃ buf' reads', read_crlf_line failed reads buf = Ok (l, buf', reads') ∧
    buf' ++ concat reads' = s ∧ Forall (λ c, c ≠ []) reads'.
Proof.
  intros Hne E Hl. pose proof (find_crlf_line l s Hl) as Hf. rewrite <-E in Hf.
  destruct (read_crlf_line_spec failed reads buf _ Hne Hf) as (b & r & H1 & H2 & H3).
  rewrite E in H1, H2. rewrite take_app_length in H1. exists b, r. split_and!; [done| |done].
  rewrite H2, app_assoc. rewrite drop_app_length'; [done|]. rewrite length_app. simpl. lia.
Qed.

Lemma read_trailers_of fuel reads buf out trailers s :
  Forall (λ c, c ≠ []) reads → Forall line_ok trailers →
  buf ++ concat reads = concat (map (λ l, l ++ crlf) trailers) ++ crlf ++ s →
  (length trailers < fuel)%nat →
  ∃ buf' reads', read_trailers failed fuel reads buf out = Some (Ok (out, buf', reads')) ∧
    buf' ++ concat reads' = s.
Proof.
  revert reads buf fuel. induction trailers as [|l ls IH]; intros reads buf fuel Hne Hok E Hf;
    (destruct fuel as [|fuel]; [simpl in Hf; lia|]); cbn [read_trailers].
  - destruct (read_line_of reads buf [] s Hne E) as (b & r & -> & Hs & _); [apply not_elem_of_nil|]. eauto.
  - apply Forall_cons in Hok as [[Hl1 Hl2] Hok]. change (concat (map (λ l, l ++ crlf) (l :: ls))) with ((l ++ crlf) ++ concat (map (λ l, l ++ crlf) ls)) in E.
    rewrite <-!app_assoc in E.
    destruct (read_line_of _ _ _ _ Hne E Hl2) as (b & r & -> & Hs & Hr). destruct l; [done|].
    apply IH; [done..|simpl in Hf; lia].
Qed.

Lemma chunked_loop_of fuel reads buf out chunks last trailers s :
  Forall (λ c, c ≠ []) reads → Forall chunk_ok chunks → Forall line_ok trailers →
  line_ok last → chunk_size last = Ok 0 →
  buf ++ concat reads = chunked_body chunks last trailers ++ s →
  (length chunks + length trailers + 1 < fuel)%nat →
  ∃ buf' reads', chunked_loop failed fuel reads buf out =
    Some (Ok (out ++ concat (map snd chunks), buf', reads')) ∧ buf' ++ concat reads' = s.
Proof.
  intros Hne Hc Ht [Hl1 Hl2] Hsz. unfold chunked_body. revert reads buf fuel out Hne.
  induction chunks as [|[l d] cs IH]; intros reads buf fuel out Hne E Hf;
    (destruct fuel as [|fuel]; [simpl in Hf; lia|]); cbn [chunked_loop].
  - change (concat (map chunk_bytes [])) with (@nil byte) in E. rewrite app_nil_l, <-!app_assoc in E.
    destruct (read_line_of _ _ _ _ Hne E Hl2) as (b & r & -> & Hs & Hr). destruct last; [done|].
    rewrite Hsz. simpl (0 =? 0). cbn iota. rewrite app_nil_r.
    eapply read_trailers_of; [done|done|exact Hs|simpl in Hf; lia].
  - apply Forall_cons in Hc as [(H1 & H2 & H3 & H4 & H5) Hc]. simpl in H1, H2, H3, H4, H5.
    change (concat (map chunk_bytes ((l, d) :: cs))) with ((l ++ crlf ++ d ++ crlf) ++ concat (map chunk_bytes cs)) in E.
    rewrite <-!app_assoc in E.
    destruct (read_line_of _ _ _ _ Hne E H2) as (b & r & -> & Hs & Hr).
    destruct l as [|x l]; [done|]. rewrite H3. pose proof (len_pos d H4).
    replace (len d =? 0) with false by lia.
    assert (wadd64 (len d) 2 = len d + 2) as -> by (unfold wadd64; rewrite Z.mod_small; lia).
    destruct (fill_buffer_spec failed r b (len d + 2) Hr) as (b' & r' & -> & Hw & Hs' & Hr').
    { rewrite Hs, !len_app. change (len crlf) with 2. pose proof (len_nonneg (concat (map chunk_bytes cs))).
      unfold len. lia. }
    rewrite Hs in Hs'.
    assert (Hb : ∃ t, b' = d ++ crlf ++ t).
    { rewrite app_assoc in Hs'. destruct (app_eq_len_prefix _ _ _ _ Hs') as [t Hpre].
      - rewrite len_app. change (len crlf) with 2. lia.
      - exists t. by rewrite Hpre, <-app_assoc. }
    destruct Hb as [t ->]. unfold slice_checked.
    rewrite !len_app in *. change (len crlf) with 2 in *. pose proof (len_nonneg t).
    replace ((len d <=? len d + 2) && (len d + 2 <=? len d + (2 + len t))) with true
      by (symmetry; apply andb_true_iff; split; lia).
    rewrite zdrop_app_len. replace (len d + 2 - len d) with 2 by lia.
    rewrite (ztake_app_eq 2 crlf) by done. rewrite bool_decide_true by done. cbn [negb].
    assert (zdrop (len d + 2) (d ++ crlf ++ t) = t) as ->.
    { rewrite app_assoc. apply zdrop_app_eq. by rewrite len_app. }
    rewrite ztake_app_len.
    destruct (IH Hc r' t fuel (out ++ d) Hr') as (b2 & r2 & -> & Hs2).
    + rewrite <-!app_assoc in Hs'. apply app_inv_head, app_inv_head in Hs'. rewrite Hs'. by rewrite <-!app_assoc.
    + simpl in Hf. lia.
    + exists b2, r2. split; [|done]. simpl. by rewrite <-app_assoc.
Qed.
End chunked.

Lemma concat_map_length {A} (f : A → bytes) l :
  (∀ x, 1 ≤ length (f x))%nat → (length l ≤ length (concat (map f l)))%nat.
Proof.
  intros Hf. induction l as [|x l IH]; simpl; [lia|]. rewrite length_app. specialize (Hf x). lia.
Qed.

(** A chunked body is decoded however it is cut.  For any chunks, with any
    size lines the format allows and any trailers, and any division of the
    stream into reads (some of it already read with the head), the reader
    returns the concatenated chunk data and leaves exactly the bytes after the
    body. *)
Theorem chunked_body_decoded failed reads leftover chunks last trailers rest :
  Forall (λ c, c ≠ []) reads → Forall chunk_ok chunks → Forall line_ok trailers →
  line_ok last → chunk_size last = Ok 0 →
  leftover ++ concat reads = chunked_body chunks last trailers ++ rest →
  ∃ buf reads', read_chunked_request_body failed reads leftover =
    Some (Ok (concat (map snd chunks), buf, reads')) ∧ buf ++ concat reads' = rest.
Proof.
  intros Hne Hc Ht Hl Hs E. unfold read_chunked_request_body.
  eapply (chunked_loop_of failed _ _ _ [] chunks last trailers rest); try done.
  unfold pending. rewrite E. unfold chunked_body. rewrite !length_app. simpl length.
  pose proof (concat_map_length chunk_bytes chunks) as H1.
  pose proof (concat_map_length (λ l, l ++ crlf) trailers) as H2.
  assert (H3 : ∀ x, (1 ≤ length (chunk_bytes x))%nat).
  { intros x. unfold chunk_bytes. rewrite !length_app. simpl. lia. }
  assert (H4 : ∀ x : bytes, (1 ≤ length (x ++ crlf))%nat) by (intros x; rewrite length_app; simpl; lia).
  specialize (H1 H3). specialize (H2 H4). destruct Hl as [Hl _]. destruct last; [done|]. simpl. lia.
Qed.

(** A chunk size close to [usize::MAX] overflows [size + 2]: the slice after it
    panics as soon as one more byte has arrived. *)
Lemma chunk_size_overflow_panics failed b reads :
  read_chunked_request_body failed reads (bs "ffffffffffffffff" ++ crlf ++ [b]) = Some (Err Panic) ∧
  read_chunked_request_body failed reads (bs "FFFFFFFFFFFFFFFE;x=y" ++ crlf ++ [b]) = Some (Err Panic).
Proof. split; by destruct reads; vm_compute. Qed.

(** So does a [Content-Length] above [isize::MAX]. *)
Lemma content_length_panics failed reads leftover :
  read_body failed reads leftover [(bs "Content-Length", bs "9223372036854775808")] = ([], Some (Err Panic)).
Proof. by vm_compute. Qed.

(** ** What follows a request in the same read is lost *)

Lemma find_headers_end_grow a b pos : find_headers_end a = Some pos → find_headers_end (a ++ b) = Some pos.
Proof.
  unfold find_headers_end. destruct (find_sub header_sep a) as [i|] eqn:E; [|done].
  intros [= <-]. by rewrite (find_sub_grow _ _ _ _ E).
Qed.

Lemma read_head_one failed head extra reads :
  find_headers_end head = Some (length head) →
  read_http_head_io failed ((head ++ extra) :: reads) = Ok (Got head extra, reads).
Proof.
  intros Hh. unfold read_http_head_io. cbn [read_head_loop]. destruct (head ++ extra) as [|x l] eqn:E.
  { apply app_eq_nil in E as [-> _]. done. }
  rewrite <-E. simpl app. rewrite (find_headers_end_grow head extra _ Hh).
  by rewrite take_app_length, drop_app_length.
Qed.

Lemma read_body_none failed reads leftover headers :
  header_value headers (bs "transfer-encoding") = None →
  header_value headers (bs "content-length") = None →
  read_body failed reads leftover headers = ([], Some (Ok ([], reads))).
Proof. intros H1 H2. unfold read_body. rewrite H1, H2. simpl. by rewrite andb_false_r. Qed.

(** A pipelined request is lost.  When the read that completes a request
    head also holds further bytes and the request has no body, those bytes are
    dropped: the handler's answer, the decision to keep the connection and what
    it will read next are the same whatever they were, so a second request sent
    along with the first is never answered. *)
Theorem pipelined_request_dropped relay failed host port scheme head rh extra reads :
  find_headers_end head = Some (length head) → parse_request_head head = Some rh →
  header_value (rh_headers rh) (bs "transfer-encoding") = None →
  header_value (rh_headers rh) (bs "content-length") = None →
  handle_mitm_request relay failed host port scheme ((head ++ extra) :: reads) =
  handle_mitm_request relay failed host port scheme (head :: reads).
Proof.
  intros Hh Hp Ht Hc. unfold handle_mitm_request.
  rewrite read_head_one by done. rewrite <-(app_nil_r head) at 2. rewrite read_head_one by done.
  by rewrite Hp, !read_body_none.
Qed.

Definition demo_get : bytes :=
  bs "GET /a HTTP/1.1" ++ crlf ++ bs "Host: h" ++ header_sep.

(** Two requests in one read, and in two reads. *)
Lemma pipelined_request_dropped_witness :
  let relay (_ : Call) (r : Req) := bs "<" ++ rq_url r ++ bs ">" in
  relay_http_stream_raw relay false (bs "h") 80 (bs "http") [demo_get; demo_get] = Some (bs "<http://h/a><http://h/a>") ∧
  handle_mitm_request relay false (bs "h") 80 (bs "http") [demo_get ++ demo_get] =
    mk_handled (bs "<http://h/a>") [] (Some (Ok true)).
Proof.
  intros relay. split; [by vm_compute|].
  rewrite (pipelined_request_dropped relay false (bs "h") 80 (bs "http") demo_get
    (mk_head (bs "GET") (bs "/a") (bs "HTTP/1.1") [(bs "Host", bs "h")]) demo_get []); by vm_compute.
Defined.

(** A size with an extension, and a trailer, cut in the middle of a line. *)
Definition demo_chunked : bytes :=
  chunked_body [(bs "5;q=1", bs "hello"); (bs "6", bs " world")] (bs "0") [bs "X-T: 1"].

Lemma no_lf (l : bytes) : forallb (λ x, negb (is_byte x0a x)) l = true → x0a ∉ l.
Proof.
  intros H Hin%list_elem_of_In. rewrite forallb_forall in H. apply H in Hin. by vm_compute in Hin.
Qed.

Lemma demo_chunks_ok : Forall chunk_ok [(bs "5;q=1", bs "hello"); (bs "6", bs " world")].
Proof. repeat constructor; try done; by apply no_lf. Qed.

Lemma chunked_body_decoded_witness :
  ∃ buf reads', read_chunked_request_body false [zdrop 9 demo_chunked ++ bs "GET"] (ztake 9 demo_chunked) =
    Some (Ok (bs "hello world", buf, reads')) ∧ buf ++ concat reads' = bs "GET".
Proof.
  apply (chunked_body_decoded false [zdrop 9 demo_chunked ++ bs "GET"] (ztake 9 demo_chunked)
    [(bs "5;q=1", bs "hello"); (bs "6", bs " world")] (bs "0") [bs "X-T: 1"] (bs "GET") );
    [by repeat constructor|exact demo_chunks_ok| | |reflexivity|reflexivity].
  - repeat constructor; [done|by apply no_lf].
  - split; [done|by apply no_lf].
Defined.

Lemma read_http_head_segmentation_witness :
  ∃ leftover reads', read_http_head false [ztake 20 demo_get; zdrop 20 demo_get ++ bs "body"] =
    Ok (Got demo_get leftover, reads') ∧ leftover ++ concat reads' = bs "body".
Proof.
  apply (read_http_head_segmentation false [ztake 20 demo_get; zdrop 20 demo_get ++ bs "body"] 28);
    [by repeat constructor|by vm_compute|by vm_compute].
Defined.
