(* ===== verification/ProxyHeads.v ===== *)
(** * Rewritten heads (src/proxy_server.rs)

    What a reader of HTTP heads sees of the heads the proxy rewrites: the
    request of direct mode and the response with CORS headers. *)

From Stdlib Require Import Strings.Byte.
From S2P Require Import Prelude RustBytes IpAddr Http Routing ProxyHttp.

(** ** Lines *)

(** No CRLF inside; single CR and LF bytes are allowed. *)
Definition no_crlf (l : bytes) : Prop := ∀ a b, l ≠ a ++ crlf ++ b.

Lemma no_crlf_mid a l b : no_crlf (a ++ l ++ b) → no_crlf l.
Proof. intros H x y ->. apply (H (a ++ x) (y ++ b)). by rewrite <-!app_assoc. Qed.

Lemma no_crlf_tail x l : no_crlf (x :: l) → no_crlf l.
Proof. intros H. apply (no_crlf_mid [x] l []). by rewrite app_nil_r. Qed.

Lemma no_crlf_cons x l :
  no_crlf (x :: l) ↔ no_crlf l ∧ ¬ (x = x0d ∧ ∃ l', l = x0a :: l').
Proof.
  split.
  - intros H. split; [by eapply no_crlf_tail|]. intros [-> [l' ->]]. by apply (H [] l').
  - intros [H1 H2] a b E. destruct a as [|y a]; simplify_eq/=; [apply H2; eauto|]. by apply (H1 a b).
Qed.

Lemma no_crlf_no_lf l : x0a ∉ l → no_crlf l.
Proof. intros H a b ->. apply H. rewrite !elem_of_app. right. left. by apply list_elem_of_In; right; left. Qed.

(** Two pieces joined by one that neither starts with LF nor ends with CR. *)
Lemma no_crlf_app a b :
  no_crlf a → no_crlf b → (∀ b', b ≠ x0a :: b') → no_crlf (a ++ b).
Proof.
  intros Ha Hb Hh. induction a as [|x a IH]; [done|]. simpl.
  apply no_crlf_cons in Ha as [Ha Hx]. apply no_crlf_cons. split; [by apply IH|].
  intros [-> [l' El]]. destruct a as [|y a]; simpl in El; [by eapply Hh|].
  simplify_eq. apply Hx. eauto.
Qed.

Lemma split_crlf_step x y s :
  split_crlf (x :: y :: s) =
    if bool_decide (x = x0d ∧ y = x0a) then [] :: split_crlf s
    else match split_crlf (y :: s) with l :: ls => (x :: l) :: ls | [] => [[x]] end.
Proof. done. Qed.

Lemma split_crlf_cons s : ∃ l ls, split_crlf s = l :: ls.
Proof.
  destruct s as [|x [|y s]]; [simpl; eauto..|]. rewrite split_crlf_step.
  case_bool_decide; [eauto|]. destruct (split_crlf (y :: s)); eauto.
Qed.

(** The first line is empty or starts with the first byte. *)
Lemma split_crlf_head y s l ls : split_crlf (y :: s) = l :: ls → l = [] ∨ ∃ l', l = y :: l'.
Proof.
  destruct s as [|z s]; [intros [= <- <-]; eauto|]. rewrite split_crlf_step.
  case_bool_decide; [intros [= <- <-]; by left|].
  destruct (split_crlf (z :: s)); intros [= <- <-]; eauto.
Qed.

Lemma split_crlf_line l s : no_crlf l → split_crlf (l ++ crlf ++ s) = l :: split_crlf s.
Proof.
  induction l as [|x l IH]; intros Hl; [done|].
  apply no_crlf_cons in Hl as [Hl Hx]. specialize (IH Hl).
  change ((x :: l) ++ crlf ++ s) with (x :: (l ++ crlf ++ s)).
  destruct (l ++ crlf ++ s) as [|y t] eqn:Et; [by destruct l|].
  rewrite split_crlf_step, bool_decide_false; [by rewrite IH|].
  intros [-> ->]. destruct l as [|z l]; simplify_eq/=. apply Hx. eauto.
Qed.

Lemma split_crlf_no_crlf s l : l ∈ split_crlf s → no_crlf l.
Proof.
  revert l. induction s as [s IH] using (induction_ltof1 _ length). unfold ltof in IH.
  intros l. destruct s as [|x [|y s]].
  - intros ->%list_elem_of_singleton. by intros [] ?.
  - simpl. intros ->%list_elem_of_singleton. by intros [|? []] ?.
  - rewrite split_crlf_step. case_bool_decide as Hxy.
    + rewrite elem_of_cons. intros [->|Hl]; [by intros [] ?|]. apply (IH s); [simpl; lia|done].
    + destruct (split_crlf_cons (y :: s)) as (l0 & ls & E). rewrite E.
      assert (Hin : ∀ k, k ∈ l0 :: ls → no_crlf k).
      { intros k Hk. apply (IH (y :: s)); [simpl; lia|]. by rewrite E. }
      rewrite elem_of_cons. intros [->|Hl]; [|apply Hin; by right].
      apply no_crlf_cons. split; [apply Hin; by left|]. intros [-> [l' ->]].
      apply split_crlf_head in E as [|[l'' ?]]; simplify_eq. by apply Hxy.
Qed.

(** ** Trimming *)

Lemma ws_len_app a b : ws_len a ≠ 0%nat → ws_len (a ++ b) = ws_len a.
Proof.
  destruct a as [|x [|y [|z a]]]; [done|..]; destruct x; try done; destruct y; try done; by destruct z.
Qed.

Lemma trim_loop_fix ws fuel s : ws s = 0%nat → trim_loop ws fuel s = s.
Proof. intros H. destruct fuel; simpl; [done|by rewrite H]. Qed.

Lemma trim_loop_done_rev fuel s : (length s ≤ fuel)%nat → ws_len_rev (trim_loop ws_len_rev fuel s) = 0%nat.
Proof.
  revert s. induction fuel as [|fuel IH]; intros s Hl; simpl.
  - by destruct s; [|simpl in Hl; lia].
  - destruct (ws_len_rev s) as [|n] eqn:E; [done|]. apply IH. rewrite length_drop.
    destruct s; [done|]. simpl in *. lia.
Qed.

Lemma ws_len_trim s : ws_len (trim s) = 0%nat.
Proof.
  destruct (trim_prefix s) as (n & m & -> & Hw).
  destruct (decide (ws_len (take n (drop m s)) = 0%nat)) as [|Hne]; [done|]. exfalso. apply Hne.
  rewrite <-(ws_len_app _ (drop n (drop m s)) Hne). by rewrite take_drop.
Qed.

Lemma trim_idemp s : trim (trim s) = trim s.
Proof.
  assert (Hs : trim_start (trim s) = trim s) by (apply trim_loop_fix, ws_len_trim).
  unfold trim at 1. rewrite Hs. unfold trim_end at 1. rewrite trim_loop_fix; [apply rev_involutive|].
  unfold trim, trim_end. rewrite rev_involutive. apply trim_loop_done_rev. by rewrite length_rev.
Qed.

Lemma trim_space v : trim (x20 :: v) = trim v.
Proof. done. Qed.

Lemma trim_mid s : ∃ a b, s = a ++ trim s ++ b.
Proof.
  destruct (trim_prefix s) as (n & m & E & _). exists (take m s), (drop n (drop m s)).
  by rewrite E, take_drop, take_drop.
Qed.

(** ** What is parsed of a head *)

(** The pieces of a split line. *)
Lemma split_once_pieces c s k v : split_once c s = Some (k, v) → s = k ++ c :: v ∧ c ∉ k.
Proof.
  unfold split_once. destruct (find_byte (is_byte c) s) as [i|] eqn:E; [|done]. intros [= <- <-].
  revert i E. induction s as [|x s IH]; intros i; simpl; [done|]. unfold is_byte at 1. case_bool_decide as Hx.
  - intros [= <-]. simpl. subst. split; [done|apply not_elem_of_nil].
  - destruct (find_byte (is_byte c) s) as [j|]; [|done]. intros [= <-].
    destruct (IH j eq_refl) as [H1 H2]. simpl. split; [by f_equal|]. rewrite not_elem_of_cons. by split.
Qed.

Lemma split_once_join c k v : c ∉ k → split_once c (k ++ c :: v) = Some (k, v).
Proof.
  intros Hk. apply split_once_app. induction k as [|x k IH]; [done|]. simpl.
  apply not_elem_of_cons in Hk as [Hx Hk]. unfold is_byte at 1. rewrite bool_decide_false by done.
  by rewrite IH.
Qed.

Definition field_line (kv : bytes * bytes) : bytes := kv.1 ++ bs ": " ++ kv.2.

(** A field as the parser yields it: trimmed, no colon in the name, one line. *)
Definition field_ok (kv : bytes * bytes) : Prop :=
  (x3a ∉ kv.1) ∧ trim kv.1 = kv.1 ∧ trim kv.2 = kv.2 ∧ no_crlf kv.1 ∧ no_crlf kv.2.

Lemma trim_sub x s : x ∈ trim s → x ∈ s.
Proof. destruct (trim_mid s) as (a & b & E). intros H. rewrite E, !elem_of_app. auto. Qed.

Lemma trim_no_crlf s : no_crlf s → no_crlf (trim s).
Proof. destruct (trim_mid s) as (a & b & E). rewrite E at 1. apply no_crlf_mid. Qed.

Lemma request_headers_ok lines : Forall no_crlf lines → Forall field_ok (request_headers lines).
Proof.
  induction 1 as [|l ls Hl Hls IH]; simpl; [done|]. destruct l as [|x l]; [done|].
  destruct (split_once x3a (x :: l)) as [[k v]|] eqn:E; [|done]. constructor; [|done].
  apply split_once_pieces in E as [E Hk]. rewrite E in Hl. split_and!; simpl.
  - intros ?%trim_sub. done.
  - apply trim_idemp.
  - apply trim_idemp.
  - apply trim_no_crlf. by apply (no_crlf_mid [] k (x3a :: v)).
  - apply trim_no_crlf. apply (no_crlf_mid (k ++ [x3a]) v []). by rewrite app_nil_r, <-app_assoc.
Qed.

Lemma field_line_no_crlf kv : field_ok kv → no_crlf (field_line kv).
Proof.
  intros (_ & _ & _ & H1 & H2). unfold field_line. apply no_crlf_app; [done| |done].
  simpl. rewrite !no_crlf_cons. split_and!; [done|naive_solver..].
Qed.

Lemma request_headers_field kv ls :
  field_ok kv → request_headers (field_line kv :: ls) = kv :: request_headers ls.
Proof.
  destruct kv as [k v]. intros (H1 & H2 & H3 & _). unfold field_line. simpl in *.
  destruct (k ++ x3a :: x20 :: v) as [|x l] eqn:E; [by destruct k|]. rewrite <-E.
  rewrite split_once_join by done. by rewrite H2, trim_space, H3.
Qed.

Lemma request_headers_fields hs ls :
  Forall field_ok hs → request_headers (map field_line hs ++ ls) = hs ++ request_headers ls.
Proof.
  induction 1 as [|kv hs Hk Hh IH]; [done|]. change (map field_line (kv :: hs) ++ ls)
    with (field_line kv :: (map field_line hs ++ ls)). by rewrite request_headers_field, IH.
Qed.

Lemma split_crlf_fields hs s :
  Forall field_ok hs → split_crlf (concat (map header_line hs) ++ s) = map field_line hs ++ split_crlf s.
Proof.
  induction 1 as [|kv hs Hk Hh IH]; [done|].
  change (concat (map header_line (kv :: hs))) with (header_line kv ++ concat (map header_line hs)).
  assert (header_line kv = field_line kv ++ crlf) as -> by (unfold header_line, field_line; by rewrite <-!app_assoc).
  rewrite <-!app_assoc, split_crlf_line by (by apply field_line_no_crlf). simpl. by rewrite IH.
Qed.

(** ** The request of direct mode *)

Lemma request_line_pieces first m t v :
  request_line first = Some (m, t, v) → no_crlf first → (x20 ∉ t) ∧ no_crlf t ∧ no_crlf v.
Proof.
  unfold request_line. destruct (split_once x20 first) as [[m' rest]|] eqn:E1; [|done].
  apply split_once_pieces in E1 as [-> _]. intros H Hn.
  assert (Hr : no_crlf rest).
  { apply (no_crlf_mid (m' ++ [x20]) rest []). by rewrite app_nil_r, <-app_assoc. }
  destruct (split_once x20 rest) as [[t' v']|] eqn:E2; simplify_eq.
  - apply split_once_pieces in E2 as [-> Ht]. split_and!; [done| |].
    + by apply (no_crlf_mid [] t (x20 :: v)).
    + apply (no_crlf_mid (t ++ [x20]) v []). by rewrite app_nil_r, <-app_assoc.
  - split_and!; [|done|by apply no_crlf_no_lf, no_lf].
    unfold split_once in E2. destruct (find_byte (is_byte x20) t) eqn:Ef; [done|]. clear -Ef.
    induction t as [|x t IH]; [apply not_elem_of_nil|]. simpl in Ef. unfold is_byte in Ef at 1.
    case_bool_decide; [done|]. destruct (find_byte _ t); [done|]. apply not_elem_of_cons. auto.
Qed.

(** The path of a resolved target is a piece of it, or a slash. *)
Lemma resolved_path target headers host port path :
  resolve_plain_http_target target headers = Some (host, port, path) →
  path = bs "/" ∨ ∃ a, target = a ++ path.
Proof.
  unfold resolve_plain_http_target.
  assert (Habs : ∀ pre rest dp,
    strip_prefix pre target = Some rest →
    (let '(authority, path') := match find_byte (is_byte x2f) rest with
      | Some i => (take i rest, drop i rest) | None => (rest, bs "/") end in
     match authority with
     | [] => None
     | _ => let '(host, port) := split_authority authority dp in Some (host, port, path')
     end) = Some (host, port, path) → path = bs "/" ∨ ∃ a, target = a ++ path).
  { intros pre rest dp Hpre. unfold strip_prefix in Hpre. destruct (starts_with pre target) eqn:Es; [|done].
    apply starts_with_iff in Es as [t ->]. rewrite drop_app_length in Hpre. injection Hpre as ->.
    destruct (find_byte (is_byte x2f) rest) as [i|].
    - destruct (take i rest) eqn:Et; [done|]. destruct (split_authority _ _). intros [= <- <- <-].
      right. exists (pre ++ take i rest). by rewrite <-app_assoc, take_drop.
    - destruct rest; [done|]. destruct (split_authority _ _). intros [= <- <- <-]. by left. }
  destruct (strip_prefix (bs "http://") target) eqn:E1; [by apply (Habs (bs "http://"))|].
  destruct (strip_prefix (bs "https://") target) eqn:E2; [by apply (Habs (bs "https://"))|].
  destruct (starts_with (bs "/") target); [|done]. destruct (find_header _ _); [|done].
  destruct (split_authority _ _). intros [= <- <- <-]. right. by exists [].
Qed.

Lemma valid_method_clean m : is_valid_http_method m = true → (x20 ∉ m) ∧ no_crlf m.
Proof.
  unfold is_valid_http_method. rewrite bool_decide_eq_true, !elem_of_cons, elem_of_nil. intros H.
  split; [|apply no_crlf_no_lf]; by (destruct_or!; try done; subst;
    repeat (apply not_elem_of_cons; split; [done|]); apply not_elem_of_nil).
Qed.

Lemma parsed_head_clean s rh : parse_head_str s = Some rh →
  is_valid_http_method (rh_method rh) = true ∧ (x20 ∉ rh_target rh) ∧ no_crlf (rh_target rh) ∧
  no_crlf (rh_version rh) ∧ Forall field_ok (rh_headers rh).
Proof.
  unfold parse_head_str. pose proof (split_crlf_no_crlf s) as Hl. destruct (split_crlf s) as [|first lines]; [done|].
  destruct (request_line first) as [[[m t] v]|] eqn:E; [|done].
  destruct (is_valid_http_method m) eqn:Em; [|done]. intros [= <-]. simpl.
  apply request_line_pieces in E as (H1 & H2 & H3); [|apply Hl; by left]. split_and!; try done.
  apply request_headers_ok, Forall_forall. intros l Hin. apply Hl. by right.
Qed.

(** The request sent in direct mode is the client's.  A server that reads
    the rewritten head finds the client's method and version, the path of the
    resolved target, the client's fields in order without the hop-by-hop ones,
    and [Connection: close]; no field can smuggle in another line. *)
Theorem passthrough_request_faithful s rh host port path :
  parse_head_str s = Some rh →
  resolve_plain_http_target (rh_target rh) (rh_headers rh) = Some (host, port, path) →
  parse_head_str (rewritten_head rh path) =
    Some (mk_head (rh_method rh) path (rh_version rh)
      (List.filter (λ kv, negb (is_hop_header kv.1)) (rh_headers rh) ++ [(bs "Connection", bs "close")])).
Proof.
  intros Hp Hr. apply parsed_head_clean in Hp as (Hm & Ht1 & Ht2 & Hv & Hf).
  destruct (valid_method_clean _ Hm) as [Hm1 Hm2].
  assert (Hpath : (x20 ∉ path) ∧ no_crlf path).
  { apply resolved_path in Hr as [->|[a Ea]].
    - split; [|apply no_crlf_no_lf, no_lf]; [|done]. by apply not_elem_of_cons; split; [|apply not_elem_of_nil].
    - rewrite Ea in *. split; [by intros ?; apply Ht1, elem_of_app; right|].
      apply (no_crlf_mid a path []). by rewrite app_nil_r. }
  destruct Hpath as [Hp1 Hp2]. unfold parse_head_str, rewritten_head.
  set (kept := List.filter _ _).
  assert (Hk : Forall field_ok kept).
  { apply Forall_forall. intros kv Hin%list_elem_of_In%filter_In. destruct Hin as [Hin _].
    rewrite Forall_forall in Hf. by apply Hf, list_elem_of_In. }
  replace (rh_method rh ++ bs " " ++ path ++ bs " " ++ rh_version rh ++ crlf ++
      concat (map header_line kept) ++ bs "Connection: close" ++ header_sep)
    with ((rh_method rh ++ x20 :: path ++ x20 :: rh_version rh) ++ crlf ++
      concat (map header_line (kept ++ [(bs "Connection", bs "close")])) ++ crlf).
  2: { rewrite map_app, concat_app, <-!app_assoc. f_equal. simpl. by rewrite <-!app_assoc. }
  rewrite split_crlf_line.
  2: { apply no_crlf_app; [done| |done]. apply no_crlf_cons. split; [|naive_solver].
       apply no_crlf_app; [done| |done]. apply no_crlf_cons. split; [done|naive_solver]. }
  assert (Hk' : Forall field_ok (kept ++ [(bs "Connection", bs "close")])).
  { apply Forall_app. split; [done|]. repeat constructor; try done; try (by apply no_crlf_no_lf, no_lf).
    by repeat (apply not_elem_of_cons; split; [done|]); apply not_elem_of_nil. }
  rewrite split_crlf_fields by done. unfold request_line.
  rewrite split_once_join by done. rewrite split_once_join by done. rewrite Hm. cbn [negb].
  rewrite request_headers_fields by done. by rewrite app_nil_r.
Qed.

(** ** CORS *)

Definition cors_line_list (origin : bytes) : list bytes :=
  [bs "Access-Control-Allow-Origin: " ++ origin; bs "Access-Control-Allow-Credentials: true";
   bs "Access-Control-Allow-Methods: GET, POST, PUT, DELETE, PATCH, OPTIONS, HEAD";
   bs "Access-Control-Allow-Headers: *"; bs "Access-Control-Expose-Headers: *"; bs "Vary: Origin"].

Lemma split_crlf_lines ls s :
  Forall no_crlf ls → split_crlf (concat (map (λ l, l ++ crlf) ls) ++ s) = ls ++ split_crlf s.
Proof.
  induction 1 as [|l ls Hl Hls IH]; [done|].
  change (concat (map (λ l, l ++ crlf) (l :: ls))) with ((l ++ crlf) ++ concat (map (λ l, l ++ crlf) ls)).
  rewrite <-!app_assoc, split_crlf_line by done. simpl. by rewrite IH.
Qed.

Lemma strip_suffix_app p s : strip_suffix p (s ++ p) = Some s.
Proof.
  unfold strip_suffix, ends_with. rewrite rev_app_distr, starts_with_app, length_app.
  replace (length s + length p - length p)%nat with (length s) by lia. by rewrite take_app_length.
Qed.

(** CORS headers are replaced, not mixed, and the body is untouched.  For a
    response whose head is text: the new head has the status line, the head's
    lines without its [Access-Control-*] ones, and the proxy's; so the only such
    lines are the proxy's, and the allowed origin is the request's; the bytes
    after the head are the same. *)
Theorem cors_headers_replaced response origin head body status lines :
  find_sub header_sep response = Some (length head) → response = head ++ header_sep ++ body →
  utf8_valid head = true → split_crlf head = status :: lines → no_crlf origin →
  ∃ head', inject_cors_response_headers response origin = head' ++ body ∧
    split_crlf head' =
      status :: List.filter (λ l, negb (is_cors_line l)) lines ++ cors_line_list origin ++ [[]; []] ∧
    List.filter is_cors_line (tail (split_crlf head')) = take 5 (cors_line_list origin).
Proof.
  intros Hf Hr Hu Hs Ho. unfold inject_cors_response_headers. rewrite Hf, Hr.
  replace (length head + 4)%nat with (length (head ++ header_sep)) by (rewrite length_app; simpl; lia).
  rewrite app_assoc, take_app_length, drop_app_length.
  unfold inject_cors_into_head. rewrite strip_suffix_app. simpl default. unfold from_utf8. rewrite Hu, Hs.
  eexists. split; [done|].
  assert (Hl : Forall no_crlf (status :: lines)).
  { apply Forall_forall. intros l Hin. apply (split_crlf_no_crlf head). by rewrite Hs. }
  apply Forall_cons in Hl as [H1 H2].
  assert (Hsplit : split_crlf (status ++ crlf ++
      concat (map (λ l, l ++ crlf) (List.filter (λ l, negb (is_cors_line l)) lines)) ++
      cors_lines origin ++ crlf) =
    status :: List.filter (λ l, negb (is_cors_line l)) lines ++ cors_line_list origin ++ [[]; []]).
  { rewrite split_crlf_line by done. f_equal. rewrite split_crlf_lines.
    2: { apply Forall_forall. intros l Hin%list_elem_of_In%filter_In. rewrite Forall_forall in H2.
         apply H2, list_elem_of_In, Hin. }
    f_equal. replace (cors_lines origin) with (concat (map (λ l, l ++ crlf) (cors_line_list origin))).
    2: { unfold cors_lines, cors_line_list. simpl. by rewrite <-!app_assoc. }
    rewrite split_crlf_lines; [done|]. repeat constructor; try (by apply no_crlf_no_lf, no_lf).
    change (bs "Access-Control-Allow-Origin: " ++ origin)
      with (bs "Access-Control-Allow-Origin:" ++ x20 :: origin).
    apply no_crlf_app; [by apply no_crlf_no_lf, no_lf| |done]. apply no_crlf_cons. split; [done|naive_solver]. }
  rewrite Hsplit. split; [done|]. simpl tail. rewrite List.filter_app.
  assert (List.filter is_cors_line (List.filter (λ l, negb (is_cors_line l)) lines) = []) as ->.
  { clear. induction lines as [|l ls IH]; [done|]. simpl. destruct (is_cors_line l) eqn:E; simpl; [done|]. by rewrite E. }
  done.
Qed.

(** ** Witnesses *)

Definition demo_request : bytes :=
  bs "GET http://h.example:8080/p?q HTTP/1.1" ++ crlf ++ bs "Host: h.example" ++ crlf ++
  bs "Proxy-Connection:  keep-alive" ++ crlf ++ bs "X: a:b" ++ header_sep.

Definition demo_head : RequestHead :=
  mk_head (bs "GET") (bs "http://h.example:8080/p?q") (bs "HTTP/1.1")
    [(bs "Host", bs "h.example"); (bs "Proxy-Connection", bs "keep-alive"); (bs "X", bs "a:b")].

Lemma passthrough_request_faithful_witness :
  parse_head_str (rewritten_head demo_head (bs "/p?q")) =
    Some (mk_head (bs "GET") (bs "/p?q") (bs "HTTP/1.1")
      [(bs "Host", bs "h.example"); (bs "X", bs "a:b"); (bs "Connection", bs "close")]).
Proof.
  apply (passthrough_request_faithful demo_request demo_head (bs "h.example") 8080 (bs "/p?q")); reflexivity.
Defined.

Definition demo_response_head : bytes :=
  bs "HTTP/1.1 200 OK" ++ crlf ++ bs "ACCESS-Control-Allow-Origin: *" ++ crlf ++ bs "A: 1".

Lemma cors_headers_replaced_witness :
  ∃ head', inject_cors_response_headers (demo_response_head ++ header_sep ++ bs "body") (bs "https://o") =
      head' ++ bs "body" ∧
    List.filter is_cors_line (tail (split_crlf head')) = take 5 (cors_line_list (bs "https://o")).
Proof.
  destruct (cors_headers_replaced (demo_response_head ++ header_sep ++ bs "body") (bs "https://o")
    demo_response_head (bs "body") (bs "HTTP/1.1 200 OK") [bs "ACCESS-Control-Allow-Origin: *"; bs "A: 1"])
    as (head' & H1 & _ & H3); [reflexivity..|by apply no_crlf_no_lf, no_lf|].
  by exists head'.
Defined.
