(* ===== verification/RelayWire.v ===== *)
(** * Reading the edge's responses (src/domain_fronter.rs)

    The relay's error type, and [read_http_response] with its loops: the head
    under a deadline, a body by [Content-Length], in chunks, or until the
    connection closes.  A connection is the list of what the coming reads
    find; a read with a smaller buffer takes the front of an item and leaves
    the rest. *)

From Stdlib Require Import Strings.Byte.
From S2P Require Import Prelude RustBytes Http ProxyHttp ProxyHeads.

(** ** Errors *)

(** A message stands for the library error it displays. *)
Inductive FronterError :=
  | EIo (msg : bytes)
  | ETls (msg : bytes)
  | EDns (msg : bytes)
  | EBadResponse (msg : bytes)
  | ERelay (msg : bytes)
  | ETimeout
  | EJson (msg : bytes)
  | ENonRetryable (inner : FronterError).

(** [Display], transparent for the wrapper. *)
Fixpoint display (e : FronterError) : bytes :=
  match e with
  | EIo m => bs "io: " ++ m
  | ETls m => bs "tls: " ++ m
  | EDns m => bs "invalid dns name: " ++ m
  | EBadResponse m => bs "bad response: " ++ m
  | ERelay m => bs "relay error: " ++ m
  | ETimeout => bs "timeout"
  | EJson m => bs "json: " ++ m
  | ENonRetryable inner => display inner
  end.

Definition is_retryable (e : FronterError) : bool :=
  match e with ENonRetryable _ => false | _ => true end.

Definition into_inner (e : FronterError) : FronterError :=
  match e with ENonRetryable inner => inner | other => other end.

(** What a computation of the relay comes to: a value, an error, a panic of
    the task, or a loop that the fuel of its model did not cover. *)
Inductive run (A : Type) : Type :=
  | Ret (a : A)
  | Throw (e : FronterError)
  | Panicked
  | OutOfFuel.
Arguments Ret {A} _.
Arguments Throw {A} _.
Arguments Panicked {A}.
Arguments OutOfFuel {A}.

Definition rbind {A B} (m : run A) (k : A → run B) : run B :=
  match m with
  | Ret a => k a
  | Throw e => Throw e
  | Panicked => Panicked
  | OutOfFuel => OutOfFuel
  end.

Notation "'let*' x := e 'in' k" := (rbind e (λ y, match y with x => k end))
  (at level 10, x pattern, e at level 100, k at level 200) : gvpn_scope.

(** [Option::ok_or] and [Result::map_err]. *)
Definition ok_or {A} (o : option A) (e : FronterError) : run A :=
  match o with Some a => Ret a | None => Throw e end.

(** ** The connection *)

Inductive ReadEvent :=
  | Data (b : bytes)          (** bytes; none of them is the end of the stream *)
  | TlsEof (msg : bytes)      (** closed without close_notify: [UnexpectedEof] *)
  | IoFail (msg : bytes)
  | Stall.                    (** nothing before the read's deadline *)

Definition Stream : Type := list ReadEvent.

(** [stream.read(&mut tmp[..n])]; past the last event the stream has ended. *)
Definition sread (n : Z) (s : Stream) : ReadEvent * Stream :=
  match s with
  | [] => (Data [], [])
  | Data b :: s' => if len b <=? n then (Data b, s') else (Data (ztake n b), Data (zdrop n b) :: s')
  | ev :: s' => (ev, s')
  end.

(** A read under a timeout whose errors are all passed on. *)
Definition read_strict (n : Z) (s : Stream) : run (bytes * Stream) :=
  match sread n s with
  | (Data b, s') => Ret (b, s')
  | (TlsEof m, _) => Throw (EIo m)
  | (IoFail m, _) => Throw (EIo m)
  | (Stall, _) => Throw ETimeout
  end.

(** The same with an ungraceful close read as an end of stream. *)
Definition read_tolerant (n : Z) (s : Stream) : run (bytes * Stream) :=
  match sread n s with
  | (Data b, s') => Ret (b, s')
  | (TlsEof _, s') => Ret ([], s')
  | (IoFail m, _) => Throw (EIo m)
  | (Stall, _) => Throw ETimeout
  end.

Definition event_size (ev : ReadEvent) : nat := match ev with Data b => S (length b) | _ => 1%nat end.

(** A bound for the loops: every read makes it smaller. *)
Definition stream_size (s : Stream) : nat := sum_list_with event_size s.

(** ** The head *)

Definition find_double_crlf (buf : bytes) : option nat := find_sub header_sep buf.

Fixpoint header_loop (fuel : nat) (s : Stream) (buf : bytes) : run (nat * bytes * Stream) :=
  match fuel with
  | O => OutOfFuel
  | S fuel' =>
      let* (b, s) := read_strict 8192 s in
      match b with
      | [] => Throw (EBadResponse (bs "connection closed before headers"))
      | _ =>
          let buf := buf ++ b in
          match find_double_crlf buf with
          | Some pos => Ret (pos, buf, s)
          | None =>
              if 1024 * 1024 <? len buf then Throw (EBadResponse (bs "headers too large"))
              else header_loop fuel' s buf
          end
      end
  end.

(** The front of [s] up to the first whitespace character. *)
Fixpoint word (s : bytes) : bytes :=
  match s with
  | [] => []
  | c :: s' => match ws_len s with O => c :: word s' | _ => [] end
  end.

(** The second item of [line.split_whitespace()]. *)
Definition second_item (line : bytes) : option bytes :=
  let s := trim_start line in
  let code := word (trim_start (drop (length (word s)) s)) in
  match code with [] => None | _ => Some code end.

Definition parse_status_line (line : bytes) : run Z :=
  let* code := ok_or (second_item line) (EBadResponse (bs "bad status line: " ++ line)) in
  ok_or (parse_u16 code) (EBadResponse (bs "bad status code: " ++ code)).

(** The lines that have a colon, as trimmed name and value. *)
Fixpoint response_headers (lines : list bytes) : Headers :=
  match lines with
  | [] => []
  | l :: ls =>
      match split_once x3a l with
      | Some (k, v) => (trim k, trim v) :: response_headers ls
      | None => response_headers ls
      end
  end.

Definition header_get (headers : Headers) (name : bytes) : option bytes := find_header name headers.

(** ** Bodies *)

(** [while body.len() < cl]. *)
Fixpoint counted_loop (fuel : nat) (s : Stream) (body : bytes) (cl : Z) : run (bytes * Stream) :=
  if len body <? cl then
    match fuel with
    | O => OutOfFuel
    | S fuel' =>
        let* (b, s) := read_tolerant (Z.min (cl - len body) 8192) s in
        match b with
        | [] => Throw (EBadResponse (bs "connection closed before full response body"))
        | _ => counted_loop fuel' s (body ++ b) cl
        end
    end
  else Ret (body, s).

(** Without framing: until a close, a short silence or an ungraceful close. *)
Fixpoint until_close (fuel : nat) (s : Stream) (body : bytes) : run (bytes * Stream) :=
  match fuel with
  | O => OutOfFuel
  | S fuel' =>
      match sread 8192 s with
      | (Data [], s) => Ret (body, s)
      | (Data b, s) => until_close fuel' s (body ++ b)
      | (TlsEof _, s) => Ret (body, s)
      | (IoFail m, _) => Throw (EIo m)
      | (Stall, s) => Ret (body, s)
      end
  end.

Definition mid_chunk : FronterError := EBadResponse (bs "connection closed mid-chunked response").

(** The next line of [buf] and the stream. *)
Fixpoint read_crlf_line (fuel : nat) (s : Stream) (buf : bytes) : run (bytes * bytes * Stream) :=
  match find_sub crlf buf with
  | Some idx => Ret (take idx buf, drop (idx + 2) buf, s)
  | None =>
      match fuel with
      | O => OutOfFuel
      | S fuel' =>
          let* (b, s) := read_strict 16384 s in
          match b with [] => Throw mid_chunk | _ => read_crlf_line fuel' s (buf ++ b) end
      end
  end.

(** [while buf.len() < size + 2]. *)
Fixpoint fill_chunk (fuel : nat) (s : Stream) (buf : bytes) (want : Z) : run (bytes * Stream) :=
  if len buf <? want then
    match fuel with
    | O => OutOfFuel
    | S fuel' =>
        let* (b, s) := read_tolerant 16384 s in
        match b with [] => Throw mid_chunk | _ => fill_chunk fuel' s (buf ++ b) want end
    end
  else Ret (buf, s).

(** The lines after the last chunk, up to an empty one. *)
Fixpoint skip_trailers (fuel : nat) (s : Stream) (buf out : bytes) : run (bytes * Stream) :=
  match fuel with
  | O => OutOfFuel
  | S fuel' =>
      let* (line, buf, s) := read_crlf_line (S (stream_size s)) s buf in
      match line with [] => Ret (out, s) | _ => skip_trailers fuel' s buf out end
  end.

(** [&buf[a..b]]. *)
Definition slice (buf : bytes) (a b : Z) : run bytes :=
  if (a <=? b) && (b <=? len buf) then Ret (ztake (b - a) (zdrop a buf)) else Panicked.

Fixpoint chunks_loop (fuel : nat) (s : Stream) (buf out : bytes) : run (bytes * Stream) :=
  match fuel with
  | O => OutOfFuel
  | S fuel' =>
      let* (line, buf, s) := read_crlf_line (S (stream_size s)) s buf in
      let* line := ok_or (from_utf8 line) (EBadResponse (bs "bad chunk size")) in
      match trim line with
      | [] => chunks_loop fuel' s buf out
      | size_line =>
          let* size := ok_or (parse_hex (split_first x3b size_line))
                         (EBadResponse (bs "bad chunk size '" ++ size_line ++ bs "'")) in
          if size =? 0 then skip_trailers fuel' s buf out
          else
            let size2 := wadd64 size 2 in
            let* (buf, s) := fill_chunk (S (stream_size s)) s buf size2 in
            let* ending := slice buf size size2 in
            if bool_decide (ending = crlf) then chunks_loop fuel' s (zdrop size2 buf) (out ++ ztake size buf)
            else Throw (EBadResponse (bs "chunk missing trailing CRLF"))
      end
  end.

(** What is left to process, a bound for the loop over the chunks. *)
Definition unread (s : Stream) (buf : bytes) : nat := (length buf + stream_size s)%nat.

Definition read_chunked (s : Stream) (buf : bytes) : run (bytes * Stream) :=
  chunks_loop (S (unread s buf)) s buf [].

(** ** The response *)

Section response.
(** flate2's decoder. *)
Context (decode_gzip : bytes → option bytes).

(** The body by the framing the headers announce. *)
Definition read_response_body (headers : Headers) (body : bytes) (s : Stream) : run (bytes * Stream) :=
  let content_length := let? v := header_get headers (bs "content-length") in parse_u64 v in
  let te := default [] (header_get headers (bs "transfer-encoding")) in
  if contains (to_ascii_lowercase te) (bs "chunked") then read_chunked s body
  else match content_length with
       | Some cl => counted_loop (S (stream_size s)) s body cl
       | None => until_close (S (stream_size s)) s body
       end.

Definition gunzip (headers : Headers) (body : bytes) : bytes :=
  match header_get headers (bs "content-encoding") with
  | Some enc => if eq_ignore_ascii_case enc (bs "gzip") then default body (decode_gzip body) else body
  | None => body
  end.

Definition read_http_response (s : Stream) : run (Z * Headers * bytes * Stream) :=
  let* (header_end, buf, s) := header_loop (S (stream_size s)) s [] in
  let* head := ok_or (from_utf8 (take header_end buf)) (EBadResponse (bs "non-utf8 headers")) in
  let '(status_line, lines) := match split_crlf head with l :: ls => (l, ls) | [] => ([], []) end in
  let* status := parse_status_line status_line in
  let headers := response_headers lines in
  let* (body, s) := read_response_body headers (drop (header_end + 4) buf) s in
  Ret (status, headers, gunzip headers body, s).
End response.

(** ** Reads make progress *)

Lemma sread_shrinks n s b s' :
  0 < n → sread n s = (Data b, s') → b ≠ [] → (stream_size s' + length b ≤ stream_size s)%nat ∧ s ≠ [].
Proof.
  intros Hn. destruct s as [|ev s]; cbn [sread]; [intros [=]; by subst|].
  unfold stream_size in *. destruct ev as [d|m|m|]; [|done..]. case_if; intros [=] Hb; subst; simpl; (split; [|done]).
  - lia.
  - unfold ztake, zdrop in *. rewrite length_take, length_drop. lia.
Qed.

Lemma sread_shrinks_event n s ev s' : sread n s = (ev, s') → (stream_size s' ≤ stream_size s)%nat.
Proof.
  destruct s as [|e s]; cbn [sread]; [intros [=]; subst; simpl; lia|].
  destruct e as [d|m|m|]; [|intros [=]; subst; unfold stream_size; simpl; lia..].
  case_if; intros [=]; subst; unfold stream_size; simpl; [lia|].
  unfold zdrop. rewrite length_drop. lia.
Qed.

Lemma read_strict_shrinks n s b s' :
  0 < n → read_strict n s = Ret (b, s') → b ≠ [] → (stream_size s' + length b ≤ stream_size s ∧ stream_size s' < stream_size s)%nat.
Proof.
  unfold read_strict. intros Hn. destruct (sread n s) as [[] ?] eqn:E; intros [=] Hb; subst.
  destruct (sread_shrinks _ _ _ _ Hn E Hb). destruct b; [done|]. simpl in *. lia.
Qed.

Lemma read_tolerant_shrinks n s b s' :
  0 < n → read_tolerant n s = Ret (b, s') → b ≠ [] → (stream_size s' + length b ≤ stream_size s ∧ stream_size s' < stream_size s)%nat.
Proof.
  unfold read_tolerant. intros Hn. destruct (sread n s) as [[] ?] eqn:E; intros [=] Hb; subst; [|done].
  destruct (sread_shrinks _ _ _ _ Hn E Hb). destruct b; [done|]. simpl in *. lia.
Qed.

Lemma read_strict_fuel n s : read_strict n s ≠ OutOfFuel.
Proof. unfold read_strict. by destruct (sread n s) as [[] ?]. Qed.

Lemma read_tolerant_fuel n s : read_tolerant n s ≠ OutOfFuel.
Proof. unfold read_tolerant. by destruct (sread n s) as [[] ?]. Qed.

(** One turn of a loop that reads: the read's result and its size. *)
Ltac read_turn :=
  match goal with
  | |- context [rbind (read_strict ?n ?s) _] =>
      let E := fresh "E" in
      destruct (read_strict n s) as [[[|? ?] ?]| | |] eqn:E; cbn [rbind]; try done;
      [try (apply read_strict_shrinks in E; [|lia|done])..|by apply read_strict_fuel in E]
  | |- context [rbind (read_tolerant ?n ?s) _] =>
      let E := fresh "E" in
      destruct (read_tolerant n s) as [[[|? ?] ?]| | |] eqn:E; cbn [rbind]; try done;
      [try (apply read_tolerant_shrinks in E; [|lia|done])..|by apply read_tolerant_fuel in E]
  end.

Lemma header_loop_total fuel s buf : (stream_size s < fuel)%nat → header_loop fuel s buf ≠ OutOfFuel.
Proof.
  revert s buf. induction fuel as [|fuel IH]; intros s buf Hf; [lia|]. cbn [header_loop].
  read_turn. destruct (find_double_crlf _); [done|]. case_if; [done|]. apply IH. lia.
Qed.

Lemma counted_loop_total fuel s body cl : (stream_size s < fuel)%nat → counted_loop fuel s body cl ≠ OutOfFuel.
Proof.
  revert s body. induction fuel as [|fuel IH]; intros s body Hf; [lia|]. cbn [counted_loop].
  case_if; [|done]. read_turn. apply IH. lia.
Qed.

Lemma until_close_total fuel s body : (stream_size s < fuel)%nat → until_close fuel s body ≠ OutOfFuel.
Proof.
  revert s body. induction fuel as [|fuel IH]; intros s body Hf; [lia|]. cbn [until_close].
  destruct (sread 8192 s) as [[b|m|m|] s'] eqn:E; try done. destruct b as [|x b]; [done|].
  apply sread_shrinks in E; [|lia|done]. apply IH. simpl in E. lia.
Qed.

Lemma read_crlf_line_fuel fuel s buf : (stream_size s < fuel)%nat → read_crlf_line fuel s buf ≠ OutOfFuel.
Proof.
  revert s buf. induction fuel as [|fuel IH]; intros s buf Hf; [lia|]. cbn [read_crlf_line].
  destruct (find_sub crlf buf); [done|]. read_turn. apply IH. lia.
Qed.

Lemma read_crlf_line_unread fuel s buf line buf' s' :
  read_crlf_line fuel s buf = Ret (line, buf', s') → (unread s' buf' + 2 ≤ unread s buf)%nat.
Proof.
  unfold unread. revert s buf. induction fuel as [|fuel IH]; intros s buf; cbn [read_crlf_line];
    destruct (find_sub crlf buf) as [j|] eqn:Ej; try done.
  1, 2: intros [=]; subst; pose proof (find_sub_le _ _ _ Ej); simpl in *; rewrite length_drop; lia.
  destruct (read_strict 16384 s) as [[[|x b] s1]| | |] eqn:E; cbn [rbind]; try done.
  apply read_strict_shrinks in E; [|lia|done]. intros H%IH. rewrite length_app in H. lia.
Qed.

Lemma fill_chunk_fuel fuel s buf want : (stream_size s < fuel)%nat → fill_chunk fuel s buf want ≠ OutOfFuel.
Proof.
  revert s buf. induction fuel as [|fuel IH]; intros s buf Hf; [lia|]. cbn [fill_chunk].
  case_if; [|done]. read_turn. apply IH. lia.
Qed.

Lemma fill_chunk_unread fuel s buf want buf' s' :
  fill_chunk fuel s buf want = Ret (buf', s') → (unread s' buf' ≤ unread s buf)%nat.
Proof.
  unfold unread. revert s buf. induction fuel as [|fuel IH]; intros s buf; cbn [fill_chunk]; case_if; try done.
  1, 3: intros [=]; by subst.
  destruct (read_tolerant 16384 s) as [[[|x b] s1]| | |] eqn:Er; cbn [rbind]; try done.
  apply read_tolerant_shrinks in Er; [|lia|done]. intros H%IH. rewrite length_app in H. lia.
Qed.

Lemma skip_trailers_total fuel s buf out : (unread s buf < fuel)%nat → skip_trailers fuel s buf out ≠ OutOfFuel.
Proof.
  revert s buf. induction fuel as [|fuel IH]; intros s buf Hf; [lia|]. cbn [skip_trailers].
  destruct (read_crlf_line _ s buf) as [[[line b] s1]| | |] eqn:E; cbn [rbind]; try done.
  - apply read_crlf_line_unread in E. destruct line; [done|]. apply IH. lia.
  - apply read_crlf_line_fuel in E; [done|lia].
Qed.

Lemma chunks_loop_total fuel s buf out : (unread s buf < fuel)%nat → chunks_loop fuel s buf out ≠ OutOfFuel.
Proof.
  revert s buf out. induction fuel as [|fuel IH]; intros s buf out Hf; [lia|]. cbn [chunks_loop].
  destruct (read_crlf_line _ s buf) as [[[line b] s1]| | |] eqn:E; cbn [rbind]; try done.
  2: { apply read_crlf_line_fuel in E; [done|lia]. }
  apply read_crlf_line_unread in E. destruct (from_utf8 line); cbn [ok_or rbind]; [|done].
  destruct (trim _) as [|c cs]; [apply IH; lia|].
  destruct (parse_hex _) as [size|]; cbn [ok_or rbind]; [|done].
  case_if; [apply skip_trailers_total; lia|].
  destruct (fill_chunk _ s1 b _) as [[b' s2]| | |] eqn:Ef; cbn [rbind]; try done.
  2: { apply fill_chunk_fuel in Ef; [done|lia]. }
  apply fill_chunk_unread in Ef. unfold slice. case_if; cbn [rbind]; [|done].
  case_if; [|done]. apply IH. unfold unread in *. unfold zdrop. rewrite length_drop. lia.
Qed.

(** The reader terminates on every stream: no loop needs more turns than the
    stream has bytes and events. *)
Lemma read_http_response_total gz s : read_http_response gz s ≠ OutOfFuel.
Proof.
  unfold read_http_response.
  destruct (header_loop _ s []) as [[[pos buf] s1]| | |] eqn:E; cbn [rbind]; try done.
  2: { apply header_loop_total in E; [done|lia]. }
  destruct (from_utf8 _) as [head|]; cbn [ok_or rbind]; [|done].
  destruct (split_crlf head) as [|l ls]; unfold parse_status_line.
  all: destruct (second_item _); cbn [ok_or rbind]; [|done]; destruct (parse_u16 _); cbn [ok_or rbind]; [|done].
  all: destruct (read_response_body _ _ _) as [[]| | |] eqn:Eb; cbn [rbind]; try done.
  all: exfalso; revert Eb; unfold read_response_body, read_chunked.
  all: case_if; [apply chunks_loop_total; lia|].
  all: destruct (let? v := _ in _); [apply counted_loop_total|apply until_close_total]; lia.
Qed.

(** ** A response is read the same however it arrives *)

(** The bytes [w] arrive in non-empty pieces; the events [rest] follow. *)
Definition arrives (s : Stream) (w : bytes) (rest : Stream) : Prop :=
  ∃ parts, s = (Data <$> parts) ++ rest ∧ Forall (λ c, c ≠ []) parts ∧ concat parts = w.

Lemma arrives_nil s rest : arrives s [] rest → s = rest.
Proof.
  intros ([|c parts] & -> & Hne & Hw); [done|]. apply Forall_cons in Hne as [Hc _]. by destruct c.
Qed.

Lemma arrives_read n s w rest :
  0 < n → arrives s w rest → w ≠ [] →
  ∃ b s' w', sread n s = (Data b, s') ∧ b ≠ [] ∧ len b ≤ n ∧ w = b ++ w' ∧ arrives s' w' rest ∧
    (stream_size s' < stream_size s)%nat.
Proof.
  intros Hn (parts & -> & Hne & <-) Hw. destruct parts as [|c parts]; [done|].
  apply Forall_cons in Hne as [Hc Hne]. cbn [fmap list_fmap app sread concat].
  destruct (len c <=? n) eqn:E; bool_to_prop.
  - exists c, ((Data <$> parts) ++ rest), (concat parts). split_and!; try done.
    + by exists parts.
    + unfold stream_size. simpl. lia.
  - exists (ztake n c), (Data (zdrop n c) :: (Data <$> parts) ++ rest), (zdrop n c ++ concat parts).
    split_and!.
    + done.
    + intros H%(f_equal len). rewrite len_ztake, len_nil in H by lia. lia.
    + rewrite len_ztake; lia.
    + by rewrite app_assoc, ztake_zdrop.
    + exists (zdrop n c :: parts). split_and!; [done| |done]. constructor; [|done].
      intros H%(f_equal len). rewrite len_zdrop, len_nil in H by lia. lia.
    + unfold stream_size, zdrop, len in *. simpl. rewrite length_drop. lia.
Qed.

Lemma arrives_strict n s w rest :
  0 < n → arrives s w rest → w ≠ [] →
  ∃ b s' w', read_strict n s = Ret (b, s') ∧ read_tolerant n s = Ret (b, s') ∧ b ≠ [] ∧ len b ≤ n ∧
    w = b ++ w' ∧ arrives s' w' rest ∧ (stream_size s' < stream_size s)%nat.
Proof.
  intros Hn Ha Hw. destruct (arrives_read n s w rest Hn Ha Hw) as (b & s' & w' & E & H).
  exists b, s', w'. unfold read_strict, read_tolerant. by rewrite E.
Qed.

Lemma header_loop_of fuel s w rest buf pos :
  (stream_size s < fuel)%nat → arrives s w rest →
  find_sub header_sep (buf ++ w) = Some pos → find_sub header_sep buf = None →
  Z.of_nat pos + 4 ≤ 1024 * 1024 →
  ∃ buf' s' w', header_loop fuel s buf = Ret (pos, buf', s') ∧ buf' ++ w' = buf ++ w ∧
    arrives s' w' rest ∧ (pos + 4 ≤ length buf')%nat.
Proof.
  revert s w buf. induction fuel as [|fuel IH]; intros s w buf Hf Ha Hp Hn Hl; [lia|]. cbn [header_loop].
  destruct (arrives_strict 8192 s w rest) as (b & s' & w' & -> & _ & Hb & _ & -> & Ha' & Hs); [done|done| |].
  { intros ->. rewrite app_nil_r in Hp. congruence. }
  cbn [rbind]. destruct b as [|x b]; [done|]. set (b' := x :: b) in *. unfold find_double_crlf. rewrite app_assoc in *.
  destruct (find_sub header_sep (buf ++ b')) as [i|] eqn:E.
  - rewrite (find_sub_grow _ _ _ _ E) in Hp. injection Hp as ->.
    exists (buf ++ b'), s', w'. split_and!; try done. by apply find_sub_le in E.
  - assert (len (buf ++ b') < Z.of_nat pos + 4) as Hlen.
    { destruct (decide (pos + 4 ≤ length (buf ++ b'))%nat) as [Hle|Hle]; [|unfold len; lia].
      apply (find_sub_within header_sep) in Hp; [congruence|done]. }
    if_false. by apply IH; [lia|..].
Qed.

Lemma counted_loop_of fuel s w rest body :
  (stream_size s < fuel)%nat → arrives s w rest →
  counted_loop fuel s body (len (body ++ w)) = Ret (body ++ w, rest).
Proof.
  revert s w body. induction fuel as [|fuel IH]; intros s w body Hf Ha; [lia|]. cbn [counted_loop].
  destruct (decide (w = [])) as [->|Hw].
  - rewrite app_nil_r. if_false. by rewrite (arrives_nil _ _ Ha).
  - pose proof (len_pos w Hw). rewrite len_app. if_true.
    destruct (arrives_strict (Z.min (len body + len w - len body) 8192) s w rest)
      as (b & s' & w' & _ & -> & Hb & _ & -> & Ha' & Hs); [lia|done..|].
    cbn [rbind]. destruct b as [|x b]; [done|]. rewrite <-len_app, app_assoc. apply IH; [lia|done].
Qed.

Lemma crlf_line_of fuel s w rest buf l t :
  (stream_size s < fuel)%nat → arrives s w rest → buf ++ w = l ++ crlf ++ t → x0a ∉ l →
  ∃ buf' s' w', read_crlf_line fuel s buf = Ret (l, buf', s') ∧ buf' ++ w' = t ∧ arrives s' w' rest.
Proof.
  intros Hf Ha E Hl. pose proof (find_crlf_line l t Hl) as Hp. rewrite <-E in Hp.
  revert s w buf Hf Ha E Hp. induction fuel as [|fuel IH]; intros s w buf Hf Ha E Hp; [lia|].
  cbn [read_crlf_line]. destruct (find_sub crlf buf) as [i|] eqn:Ei.
  - pose proof (find_sub_le _ _ _ Ei) as Hle. change (length crlf) with 2%nat in Hle.
    rewrite (find_sub_grow _ _ _ _ Ei) in Hp. injection Hp as ->.
    exists (drop (length l + 2) buf), s, w. split_and!; [|..|done].
    + do 3 f_equal. apply (f_equal (take (length l))) in E. rewrite take_app_length, take_app_le in E by lia. done.
    + apply (f_equal (drop (length l + 2))) in E. rewrite drop_app_le in E by lia. rewrite E, app_assoc.
      apply drop_app_length'. by rewrite length_app.
  - destruct (arrives_strict 16384 s w rest) as (b & s' & w' & -> & _ & Hb & _ & -> & Ha' & Hs); [done|done| |].
    { intros ->. rewrite app_nil_r in Hp. congruence. }
    cbn [rbind]. destruct b as [|x b]; [done|]. rewrite app_assoc in E, Hp. by apply (IH s' w'); [lia|..].
Qed.

Lemma fill_chunk_of fuel s w rest buf want :
  (stream_size s < fuel)%nat → arrives s w rest → want ≤ len (buf ++ w) →
  ∃ buf' s' w', fill_chunk fuel s buf want = Ret (buf', s') ∧ buf' ++ w' = buf ++ w ∧ want ≤ len buf' ∧
    arrives s' w' rest.
Proof.
  revert s w buf. induction fuel as [|fuel IH]; intros s w buf Hf Ha Hw; [lia|]. cbn [fill_chunk].
  case_if; [|eauto 10].
  destruct (arrives_strict 16384 s w rest) as (b & s' & w' & _ & -> & Hb & _ & -> & Ha' & Hs); [done|done| |].
  { intros ->. rewrite app_nil_r in Hw. lia. }
  cbn [rbind]. destruct b as [|x b]; [done|]. rewrite app_assoc in *. apply IH; [lia|done..].
Qed.

Lemma skip_trailers_of fuel s w rest buf out trailers :
  arrives s w rest → Forall line_ok trailers →
  buf ++ w = concat (map (λ l, l ++ crlf) trailers) ++ crlf → (length trailers < fuel)%nat →
  skip_trailers fuel s buf out = Ret (out, rest).
Proof.
  revert s w buf fuel. induction trailers as [|l ls IH]; intros s w buf fuel Ha Hok E Hf;
    (destruct fuel as [|fuel]; [simpl in Hf; lia|]); cbn [skip_trailers].
  - destruct (crlf_line_of (S (stream_size s)) s w rest buf [] []) as (b & s' & w' & -> & Hs & Ha');
      [lia|done|by rewrite E|apply not_elem_of_nil|].
    cbn [rbind]. apply app_eq_nil in Hs as [-> ->]. by rewrite (arrives_nil _ _ Ha').
  - apply Forall_cons in Hok as [[Hl1 Hl2] Hok].
    change (concat (map (λ l, l ++ crlf) (l :: ls))) with ((l ++ crlf) ++ concat (map (λ l, l ++ crlf) ls)) in E.
    rewrite <-!app_assoc in E.
    destruct (crlf_line_of (S (stream_size s)) s w rest buf _ _ ltac:(lia) Ha E Hl2) as (b & s' & w' & -> & Hs & Ha').
    cbn [rbind]. destruct l; [done|]. eapply IH; [exact Ha'|done..|simpl in Hf; lia].
Qed.

(** A size line, as the edge's reader takes it apart. *)
Lemma chunk_size_parts line n :
  chunk_size line = Ok n → ∃ c cs, from_utf8 line = Some line ∧ trim line = c :: cs ∧
    parse_hex (split_first x3b (c :: cs)) = Some n.
Proof.
  unfold chunk_size, from_utf8. destruct (utf8_valid line); [|done].
  destruct (trim line) as [|c cs]; [done|]. destruct (parse_hex _) eqn:E; [|done]. intros [=]; subst. eauto.
Qed.

Lemma chunks_loop_of fuel s w rest buf out chunks last trailers :
  arrives s w rest → Forall chunk_ok chunks → Forall line_ok trailers → line_ok last → chunk_size last = Ok 0 →
  buf ++ w = chunked_body chunks last trailers → (length chunks + length trailers + 1 < fuel)%nat →
  chunks_loop fuel s buf out = Ret (out ++ concat (map snd chunks), rest).
Proof.
  intros Ha Hc Ht [Hl1 Hl2] Hsz. unfold chunked_body. revert s w buf fuel out Ha.
  induction chunks as [|[l d] cs IH]; intros s w buf fuel out Ha E Hf;
    (destruct fuel as [|fuel]; [simpl in Hf; lia|]); cbn [chunks_loop].
  - change (concat (map chunk_bytes [])) with (@nil byte) in E. rewrite app_nil_l in E.
    destruct (crlf_line_of (S (stream_size s)) s w rest buf _ _ ltac:(lia) Ha E Hl2) as (b & s' & w' & -> & Hs & Ha').
    destruct (chunk_size_parts _ _ Hsz) as (c & t & Hu & Htr & Hp).
    cbn [rbind]. rewrite Hu. cbn [ok_or rbind]. rewrite Htr, Hp. cbn [ok_or rbind]. simpl (0 =? 0). cbn iota.
    rewrite app_nil_r. eapply skip_trailers_of; [done..|simpl in Hf; lia].
  - apply Forall_cons in Hc as [(H1 & H2 & H3 & H4 & H5) Hc]. simpl in H1, H2, H3, H4, H5.
    change (concat (map chunk_bytes ((l, d) :: cs))) with ((l ++ crlf ++ d ++ crlf) ++ concat (map chunk_bytes cs)) in E.
    rewrite <-!app_assoc in E.
    destruct (crlf_line_of (S (stream_size s)) s w rest buf _ _ ltac:(lia) Ha E H2) as (b & s' & w' & -> & Hs & Ha').
    destruct (chunk_size_parts _ _ H3) as (c & t & Hu & Htr & Hp).
    cbn [rbind]. rewrite Hu. cbn [ok_or rbind]. rewrite Htr, Hp. cbn [ok_or rbind].
    pose proof (len_pos d H4). if_false.
    assert (wadd64 (len d) 2 = len d + 2) as -> by (unfold wadd64; rewrite Z.mod_small; lia).
    destruct (fill_chunk_of (S (stream_size s')) s' w' rest b (len d + 2)) as (b2 & s2 & w2 & -> & Hs2 & Hw & Ha2); [lia|done| |].
    { rewrite Hs, !len_app. change (len crlf) with 2. pose proof (len_nonneg (concat (map chunk_bytes cs))). unfold len. lia. }
    cbn [rbind]. rewrite Hs, app_assoc in Hs2.
    destruct (app_eq_len_prefix _ _ _ _ Hs2) as [u Hpre]; [rewrite len_app; change (len crlf) with 2; lia|].
    subst b2. rewrite <-!app_assoc in Hs2. apply app_inv_head, app_inv_head in Hs2.
    unfold slice. rewrite <-app_assoc in *. rewrite !len_app in *. change (len crlf) with 2 in *. pose proof (len_nonneg u).
    replace ((len d <=? len d + 2) && (len d + 2 <=? len d + (2 + len u))) with true
      by (symmetry; apply andb_true_iff; split; lia).
    cbn [rbind]. rewrite zdrop_app_len. replace (len d + 2 - len d) with 2 by lia.
    rewrite (ztake_app_eq 2 crlf) by done. rewrite bool_decide_true by done.
    rewrite (app_assoc d crlf u), (zdrop_app_eq _ (d ++ crlf)) by (by rewrite len_app).
    rewrite <-app_assoc, ztake_app_len.
    rewrite (IH Hc s2 w2 u fuel (out ++ d) Ha2); [|done|simpl in Hf; lia].
    simpl. by rewrite <-app_assoc.
Qed.

(** How a body travels under the headers that announce it. *)
Inductive framed (headers : Headers) : bytes → bytes → Prop :=
  | framed_counted body :
      contains (to_ascii_lowercase (default [] (header_get headers (bs "transfer-encoding")))) (bs "chunked") = false →
      (let? v := header_get headers (bs "content-length") in parse_u64 v) = Some (len body) →
      framed headers body body
  | framed_chunked chunks last trailers :
      contains (to_ascii_lowercase (default [] (header_get headers (bs "transfer-encoding")))) (bs "chunked") = true →
      Forall chunk_ok chunks → Forall line_ok trailers → line_ok last → chunk_size last = Ok 0 →
      framed headers (concat (map snd chunks)) (chunked_body chunks last trailers).

Lemma chunked_body_turns chunks last trailers :
  last ≠ [] → (length chunks + length trailers + 1 < S (length (chunked_body chunks last trailers)))%nat.
Proof.
  intros Hl. unfold chunked_body. rewrite !length_app.
  pose proof (concat_map_length chunk_bytes chunks) as H1.
  pose proof (concat_map_length (λ l, l ++ crlf) trailers) as H2.
  assert (H3 : ∀ x, (1 ≤ length (chunk_bytes x))%nat) by (intros x; unfold chunk_bytes; rewrite !length_app; simpl; lia).
  assert (H4 : ∀ x : bytes, (1 ≤ length (x ++ crlf))%nat) by (intros x; rewrite length_app; simpl; lia).
  specialize (H1 H3). specialize (H2 H4). destruct last; [done|]. simpl. lia.
Qed.

Lemma arrives_size s w rest : arrives s w rest → (length w ≤ stream_size s)%nat.
Proof.
  intros (parts & -> & _ & <-). induction parts as [|c parts IH]; unfold stream_size in *; simpl; [lia|].
  rewrite length_app. unfold fmap in IH. lia.
Qed.

Lemma read_body_of headers body wire buf s w rest :
  framed headers body wire → buf ++ w = wire → arrives s w rest →
  read_response_body headers buf s = Ret (body, rest).
Proof.
  intros [b Hch Hcl|chunks last trailers Hch Hc Ht Hl Hs] E Ha.
  - unfold read_response_body. rewrite Hch, Hcl. subst. apply counted_loop_of; [lia|done].
  - unfold read_response_body. rewrite Hch. unfold read_chunked.
    apply (chunks_loop_of _ _ _ _ _ [] chunks last trailers Ha); try done.
    destruct Hl as [Hl _]. pose proof (chunked_body_turns chunks last trailers Hl).
    pose proof (arrives_size _ _ _ Ha). unfold unread. rewrite <-E, length_app in H. lia.
Qed.

Lemma read_http_response_of gz head status_line lines status body wire s rest :
  find_sub header_sep (head ++ header_sep ++ wire) = Some (length head) → len head + 4 ≤ 1024 * 1024 →
  utf8_valid head = true → split_crlf head = status_line :: lines → parse_status_line status_line = Ret status →
  framed (response_headers lines) body wire →
  arrives s (head ++ header_sep ++ wire) rest →
  read_http_response gz s =
    Ret (status, response_headers lines, gunzip gz (response_headers lines) body, rest).
Proof.
  intros Hp Hlen Hu Hsp Hst Hfr Ha. unfold read_http_response.
  destruct (header_loop_of (S (stream_size s)) s (head ++ header_sep ++ wire) rest [] (length head)) as (buf & s1 & w1 & -> & Hb & Ha1 & Hle);
    [lia|exact Ha|done|done|unfold len in Hlen; lia|].
  cbn [rbind]. rewrite app_nil_l in Hb.
  assert (take (length head) buf = head) as ->.
  { apply (f_equal (take (length head))) in Hb. rewrite take_app_length, take_app_le in Hb by lia. done. }
  unfold from_utf8. rewrite Hu. cbn [ok_or rbind]. rewrite Hsp, Hst. cbn [rbind].
  rewrite (read_body_of _ body wire _ _ w1 rest Hfr); [done| |done].
  apply (f_equal (drop (length head + 4))) in Hb. rewrite drop_app_le in Hb by lia. rewrite Hb, app_assoc.
  apply drop_app_length'. by rewrite length_app.
Qed.

(** C33: a response of the edge is read the same however it is cut.  Whatever
    pieces its head and its body arrive in, by [Content-Length] or in chunks
    with any extensions and trailers, the reader returns the announced status,
    the header fields and exactly the body (decompressed when it is labelled
    gzip), and leaves what follows on the connection untouched. *)
Theorem relay_response_read gz head status_line lines status body wire s rest :
  find_sub header_sep (head ++ header_sep ++ wire) = Some (length head) → len head + 4 ≤ 1024 * 1024 →
  utf8_valid head = true → split_crlf head = status_line :: lines → parse_status_line status_line = Ret status →
  framed (response_headers lines) body wire →
  arrives s (head ++ header_sep ++ wire) rest →
  read_http_response gz s =
    Ret (status, response_headers lines, gunzip gz (response_headers lines) body, rest).
Proof. apply read_http_response_of. Qed.

Definition demo_edge_head : bytes :=
  bs "HTTP/1.1 200 OK" ++ crlf ++ bs "Content-Type: text/plain" ++ crlf ++ bs "Transfer-Encoding: chunked".

Lemma relay_response_read_witness :
  read_http_response (λ b, Some b)
    (Data <$> [take 20 demo_edge_head; drop 20 demo_edge_head ++ header_sep ++ bs "5;q=1" ++ crlf ++ bs "he";
               bs "llo" ++ crlf ++ bs "6" ++ crlf ++ bs " world" ++ [x0d];
               [x0a] ++ bs "0" ++ crlf ++ bs "X-T: 1" ++ crlf ++ crlf]) =
  Ret (200, [(bs "Content-Type", bs "text/plain"); (bs "Transfer-Encoding", bs "chunked")], bs "hello world", []).
Proof.
  apply (relay_response_read (λ b, Some b) demo_edge_head (bs "HTTP/1.1 200 OK")
           [bs "Content-Type: text/plain"; bs "Transfer-Encoding: chunked"] 200 (bs "hello world")
           (chunked_body [(bs "5;q=1", bs "hello"); (bs "6", bs " world")] (bs "0") [bs "X-T: 1"])
           _ []); try (by vm_compute).
  - apply (framed_chunked _ [(bs "5;q=1", bs "hello"); (bs "6", bs " world")] (bs "0") [bs "X-T: 1"]);
      [by vm_compute|apply demo_chunks_ok| | |by vm_compute].
    + repeat constructor; [done|by apply no_lf].
    + split; [done|by apply no_lf].
  - eexists. split; [symmetry; apply app_nil_r|]. split; [|by vm_compute].
    repeat (constructor; [done|]). constructor.
Defined.
