(* ===== verification/RelayJson.v ===== *)
(** * The relay's envelopes (src/domain_fronter.rs)

    What travels between the client and Apps Script: the JSON requests with
    their filtered headers, the JSON responses and the HTTP responses rebuilt
    from them, the exit node's envelope, the tolerant readers around them.
    The JSON library and zstd are external crates: the class [RelayFormats];
    strings are their UTF-8 bytes. *)

From Stdlib Require Import Strings.Byte.
From S2P Require Import Prelude RustBytes IpAddr Base64 NodeHandlers Http ProxyHttp ProxyHeads RelayWire.

(** ** JSON values *)

(** [serde_json::Number]; a float is its printed text. *)
Inductive Number := PosInt (n : Z) | NegInt (n : Z) | Float (text : bytes).

(** [serde_json::Value]; an object lists its map in iteration order. *)
#[warnings="-register-all"] Inductive Value :=
  | Null
  | Bool (b : bool)
  | Num (n : Number)
  | Str (s : bytes)
  | Array (items : list Value)
  | Object (fields : list (bytes * Value)).

(** The order of [String] keys. *)
Fixpoint bytes_compare (a b : bytes) : comparison :=
  match a, b with
  | [], [] => Eq
  | [], _ => Lt
  | _, [] => Gt
  | x :: a', y :: b' => match byte_val x ?= byte_val y with Eq => bytes_compare a' b' | c => c end
  end.

(** [Map::insert] on the ordered map. *)
Fixpoint map_insert (k : bytes) (v : Value) (m : list (bytes * Value)) : list (bytes * Value) :=
  match m with
  | [] => [(k, v)]
  | (k', v') :: m' =>
      match bytes_compare k k' with
      | Lt => (k, v) :: m
      | Eq => (k, v) :: m'
      | Gt => (k', v') :: map_insert k v m'
      end
  end.

Fixpoint map_get (k : bytes) (m : list (bytes * Value)) : option Value :=
  match m with
  | [] => None
  | (k', v) :: m' => if bool_decide (k = k') then Some v else map_get k m'
  end.

Definition value_get (v : Value) (k : bytes) : option Value :=
  match v with Object m => map_get k m | _ => None end.
Definition as_str (v : Value) : option bytes := match v with Str s => Some s | _ => None end.
Definition as_u64 (v : Value) : option Z := match v with Num (PosInt n) => Some n | _ => None end.
Definition as_object (v : Value) : option (list (bytes * Value)) :=
  match v with Object m => Some m | _ => None end.

Definition fmt_number (n : Number) : bytes :=
  match n with PosInt n => fmt_uint n | NegInt n => x2d :: fmt_uint (- n) | Float t => t end.

Definition value_to_header_str (v : Value) : option bytes :=
  match v with
  | Str s => Some s
  | Num n => Some (fmt_number n)
  | Bool b => Some (if b then bs "true" else bs "false")
  | _ => None
  end.

(** ** The structures on the wire *)

Record RelayRequest := mk_relay_request {
  q_k : bytes; q_m : bytes; q_u : bytes;
  q_h : option (list (bytes * Value)); q_b : option bytes; q_ct : option bytes; q_r : bool }.

Record RelayResponse := mk_relay_response {
  rr_s : option Z; rr_h : option (list (bytes * Value)); rr_b : option bytes; rr_e : option bytes }.

(** [BatchTunnelResponse]; [TunnelResponse] is the one of [NodeHandlers]. *)
Record BatchTunnelResponse := mk_batch_response {
  bt_r : list TunnelResponse; bt_e : option bytes; bt_zr : option bytes; bt_zc : option Z }.

(** serde_json and zstd; an error is its message. *)
Class RelayFormats := {
  value_of_json : bytes → result Value bytes;
  json_of_value : Value → bytes;
  json_of_request : RelayRequest → bytes;
  relay_response_of_json : bytes → result RelayResponse bytes;
  tunnel_response_of_json : bytes → result TunnelResponse bytes;
  batch_response_of_json : bytes → result BatchTunnelResponse bytes;
  responses_of_json : bytes → result (list TunnelResponse) bytes;
  zr_decode_all : bytes → result bytes bytes
}.

(** ** Requests *)

Definition SKIP_FORWARDED : list bytes :=
  [bs "host"; bs "connection"; bs "content-length"; bs "transfer-encoding"; bs "proxy-connection";
   bs "proxy-authorization"; bs "x-forwarded-for"; bs "x-forwarded-host"; bs "x-forwarded-proto";
   bs "x-forwarded-port"; bs "x-forwarded-server"; bs "x-forwarded-ssl"; bs "forwarded"; bs "via";
   bs "x-real-ip"; bs "x-client-ip"; bs "x-originating-ip"; bs "true-client-ip"; bs "cf-connecting-ip";
   bs "fastly-client-ip"; bs "x-cluster-client-ip"; bs "client-ip"].

Definition brotli_token (part : bytes) : bool :=
  let tok := to_ascii_lowercase (trim (split_first x3b part)) in
  bool_decide (tok = bs "br") || bool_decide (tok = bs "zstd").

Definition strip_brotli_from_accept_encoding (value : bytes) : bytes :=
  join (bs ", ") (List.filter (λ p, negb (brotli_token p)) (map trim (split_on x2c value))).

Definition forward_field (kv : bytes * bytes) : option (bytes * bytes) :=
  let lk := to_ascii_lowercase kv.1 in
  if bool_decide (lk ∈ SKIP_FORWARDED) then None
  else if bool_decide (lk = bs "accept-encoding") then
    match strip_brotli_from_accept_encoding kv.2 with [] => None | cleaned => Some (kv.1, cleaned) end
  else Some kv.

Definition filter_forwarded_headers (headers : Headers) : Headers := omap forward_field headers.

Definition header_map (filtered : Headers) : option (list (bytes * Value)) :=
  match filtered with
  | [] => None
  | _ => Some (foldl (λ m kv, map_insert kv.1 (Str kv.2) m) [] filtered)
  end.

(** [serde_json::to_value(&req)]: the present fields as an object. *)
Definition request_value (r : RelayRequest) : list (bytes * Value) :=
  let add {A} (k : bytes) (f : A → Value) (o : option A) m :=
    match o with Some v => map_insert k (f v) m | None => m end in
  map_insert (bs "r") (Bool (q_r r))
    (add (bs "ct") Str (q_ct r)
       (add (bs "b") Str (q_b r)
          (add (bs "h") Object (q_h r)
             (map_insert (bs "u") (Str (q_u r))
                (map_insert (bs "m") (Str (q_m r)) (map_insert (bs "k") (Str (q_k r)) [])))))).

Section requests.
Context `{!Base64} `{!RelayFormats}.

(** [add_random_pad]: the random bytes drawn, none of them when the length
    came out 0. *)
Definition add_random_pad (pad : bytes) (m : list (bytes * Value)) : list (bytes * Value) :=
  match pad with [] => m | _ => map_insert (bs "_pad") (Str (b64_encode pad)) m end.

Definition relay_request (key method url : bytes) (headers : Headers) (body : bytes) (r : bool) : RelayRequest :=
  mk_relay_request key method url (header_map (filter_forwarded_headers headers))
    (match body with [] => None | _ => Some (b64_encode body) end)
    (match body with [] => None | _ => find_header (bs "content-type") headers end) r.

(** [pad] is [None] when padding is disabled. *)
Definition build_payload_json (auth_key : bytes) (pad : option bytes) (method url : bytes) (headers : Headers)
    (body : bytes) : bytes :=
  let m := request_value (relay_request auth_key method url headers body true) in
  json_of_value (Object (match pad with Some p => add_random_pad p m | None => m end)).

Definition build_exit_node_inner_payload (psk method url : bytes) (headers : Headers) (body : bytes) : bytes :=
  json_of_request (relay_request psk method url headers body false).

Definition build_tunnel_payload (auth_key : bytes) (pad : option bytes) (op : bytes) (host : option bytes)
    (port : option Z) (sid data : option bytes) : bytes :=
  let add {A} (k : bytes) (f : A → Value) (o : option A) m :=
    match o with Some v => map_insert k (f v) m | None => m end in
  let m := map_insert (bs "t") (Str op) (map_insert (bs "k") (Str auth_key) []) in
  let m := add (bs "h") Str host m in
  let m := add (bs "p") (λ p, Num (PosInt p)) port m in
  let m := add (bs "sid") Str sid m in
  let m := add (bs "d") Str data m in
  json_of_value (Object (match pad with Some p => add_random_pad p m | None => m end)).
End requests.

(** ** Responses *)

Definition SKIP_RESPONSE : list bytes :=
  [bs "transfer-encoding"; bs "connection"; bs "keep-alive"; bs "content-length"; bs "content-encoding"].

Definition NOISE_RESPONSE_HEADERS : list bytes :=
  [bs "report-to"; bs "reporting-endpoints"; bs "nel"; bs "alt-svc"; bs "server-timing"; bs "origin-trial";
   bs "cf-ray"; bs "cf-cache-status"; bs "x-amzn-requestid"; bs "x-amzn-trace-id"; bs "x-request-id";
   bs "x-correlation-id"].

(** The header fields a response's map stands for. *)
Definition header_fields (strip_noise : bool) (hmap : list (bytes * Value)) : Headers :=
  flat_map (λ '(k, v),
    let lk := to_ascii_lowercase k in
    if bool_decide (lk ∈ SKIP_RESPONSE) then []
    else if strip_noise && bool_decide (lk ∈ NOISE_RESPONSE_HEADERS) then []
    else
      let items := match v with Array arr => arr | other => [other] end in
      omap (λ item, match value_to_header_str item with Some s => Some (k, s) | None => None end) items) hmap.

Definition rebuild_response (status : Z) (reason : bytes) (fields : Headers) (body : bytes) : bytes :=
  bs "HTTP/1.1 " ++ fmt_uint status ++ bs " " ++ reason ++ crlf ++
  concat (map header_line fields) ++
  bs "Content-Length: " ++ fmt_uint (len body) ++ crlf ++ crlf ++ body.

(** The UTF-8 bytes of the character [v]. *)
Definition char_bytes (v : Z) : bytes :=
  if v <? 128 then [byte_of v]
  else if v <? 2048 then [byte_of (192 + v / 64); byte_of (128 + v mod 64)]
  else if v <? 65536 then [byte_of (224 + v / 4096); byte_of (128 + v / 64 mod 64); byte_of (128 + v mod 64)]
  else [byte_of (240 + v / 262144); byte_of (128 + v / 4096 mod 64); byte_of (128 + v / 64 mod 64);
        byte_of (128 + v mod 64)].

(** [char::from_u32]. *)
Definition char_from_u32 (v : Z) : option Z :=
  if ((55296 <=? v) && (v <=? 57343)) || (1114111 <? v) then None else Some v.

(** The one-letter escapes. *)
Definition simple_escape (esc : byte) : option byte :=
  match esc with
  | x5c => Some x5c
  | x22 => Some x22
  | x27 => Some x27
  | x2f => Some x2f
  | x6e => Some x0a
  | x72 => Some x0d
  | x74 => Some x09
  | x62 => Some x08
  | x66 => Some x0c
  | _ => None
  end.

Fixpoint decode_js_string_escapes (s : bytes) : option bytes :=
  match s with
  | [] => Some []
  | c :: s1 =>
      if negb (is_byte x5c c) then
        let? out := decode_js_string_escapes s1 in Some (char_bytes (byte_val c) ++ out)
      else
        match s1 with
        | [] => None
        | esc :: s2 =>
            if is_byte x78 esc then
              match s2 with
              | a :: b :: s3 =>
                  let? hex := from_utf8 [a; b] in
                  let? v := parse_hex hex in
                  let? out := decode_js_string_escapes s3 in Some (char_bytes v ++ out)
              | _ => None
              end
            else if is_byte x75 esc then
              match s2 with
              | a :: b :: c' :: d :: s3 =>
                  let? hex := from_utf8 [a; b; c'; d] in
                  let? v := parse_hex hex in
                  let? ch := char_from_u32 v in
                  let? out := decode_js_string_escapes s3 in Some (char_bytes ch ++ out)
              | _ => None
              end
            else
              let? e := simple_escape esc in
              let? out := decode_js_string_escapes s2 in Some (e :: out)
        end
  end.

(** The front of a string up to its [n]th character. *)
Fixpoint take_chars (n : nat) (s : bytes) : bytes :=
  match n, s with
  | S n', _ :: _ => match utf8_step s with inl w => take w s ++ take_chars n' (drop w s) | inr _ => [] end
  | _, _ => []
  end.

(** [&s[..n]]: panics inside a character. *)
Definition str_prefix (n : nat) (s : bytes) : run bytes :=
  match drop n s with
  | c :: _ => if is_cont c then Panicked else Ret (take n s)
  | [] => Ret (take n s)
  end.

(** What is before and after the first occurrence of [p]. *)
Definition split_sub (p s : bytes) : option (bytes * bytes) :=
  let? i := find_sub p s in Some (take i s, drop (i + length p) s).

(** [text.rfind(c)]. *)
Definition rfind_byte (c : byte) (s : bytes) : option nat :=
  let? i := find_byte (is_byte c) (rev s) in Some (length s - 1 - i)%nat.

Definition quoted (prefix text : bytes) : FronterError := EBadResponse (prefix ++ take_chars 200 text).

(** From the first opening brace to the last closing one. *)
Definition braces (text : bytes) (no_start no_end crossed : FronterError) : run bytes :=
  let* start := ok_or (find_byte (is_byte x7b) text) no_start in
  let* finish := ok_or (rfind_byte x7d text) no_end in
  if (finish <? start)%nat then Throw crossed else Ret (take (S finish - start) (drop start text)).

Section responses.
Context `{!Base64} `{!RelayFormats}.

Definition extract_apps_script_user_html (text : bytes) : option bytes :=
  let? (_, from) := split_sub (bs "goog.script.init(" ++ [x22]) text in
  let? (encoded, _) := split_sub ([x22] ++ bs ", " ++ [x22; x22] ++ bs ", undefined") from in
  let? decoded := decode_js_string_escapes encoded in
  match value_of_json decoded with
  | Ok outer => let? u := value_get outer (bs "userHtml") in as_str u
  | Err _ => None
  end.

(** The response in the body: as it is, inside the page Apps Script wraps
    around HTML output, or between the outermost braces. *)
Definition read_envelope (text : bytes) : run RelayResponse :=
  match relay_response_of_json text with
  | Ok v => Ret v
  | Err _ =>
      match extract_apps_script_user_html text with
      | Some unwrapped =>
          match relay_response_of_json unwrapped with
          | Ok v => Ret v
          | Err _ =>
              let* shown := str_prefix (Nat.min (length unwrapped) 200) unwrapped in
              Throw (EBadResponse (bs "no json in apps_script user_html: " ++ shown))
          end
      | None =>
          let* span := braces text (quoted (bs "no json in: ") text) (quoted (bs "no json end in: ") text)
                         (quoted (bs "no valid json object in: ") text) in
          match relay_response_of_json span with Ok v => Ret v | Err e => Throw (EJson e) end
      end
  end.

Definition parse_relay_json (body : bytes) (strip_noise : bool) : run bytes :=
  let* text := ok_or (from_utf8 body) (EBadResponse (bs "non-utf8 json")) in
  let text := trim text in
  match text with
  | [] => Throw (EBadResponse (bs "empty relay body"))
  | _ =>
      let* data := read_envelope text in
      match rr_e data with
      | Some e => Throw (ERelay e)
      | None =>
          let status := default 200 (rr_s data) in
          let* resp_body :=
            match rr_b data with
            | Some b => match b64_decode b with
                        | Ok d => Ret d
                        | Err e => Throw (EBadResponse (bs "bad relay body base64: " ++ e))
                        end
            | None => Ret []
            end in
          Ret (rebuild_response status (status_text status) (header_fields strip_noise (default [] (rr_h data)))
                 resp_body)
      end
  end.

Definition status_reason (status : Z) : bytes :=
  if status =? 200 then bs "OK" else if status =? 201 then bs "Created" else if status =? 204 then bs "No Content"
  else if status =? 301 then bs "Moved Permanently" else if status =? 302 then bs "Found"
  else if status =? 303 then bs "See Other" else if status =? 304 then bs "Not Modified"
  else if status =? 307 then bs "Temporary Redirect" else if status =? 308 then bs "Permanent Redirect"
  else if status =? 400 then bs "Bad Request" else if status =? 401 then bs "Unauthorized"
  else if status =? 403 then bs "Forbidden" else if status =? 404 then bs "Not Found"
  else if status =? 405 then bs "Method Not Allowed" else if status =? 408 then bs "Request Timeout"
  else if status =? 429 then bs "Too Many Requests" else if status =? 500 then bs "Internal Server Error"
  else if status =? 502 then bs "Bad Gateway" else if status =? 503 then bs "Service Unavailable"
  else if status =? 504 then bs "Gateway Timeout" else bs "Status".

(** The header fields of the exit node's object: the textual ones. *)
Definition exit_fields (headers_obj : list (bytes * Value)) : Headers :=
  omap (λ '(k, v), if bool_decide (to_ascii_lowercase k ∈ SKIP_RESPONSE) then None
                   else match as_str v with Some s => Some (k, s) | None => None end) headers_obj.

Definition parse_exit_node_response (body : bytes) : run bytes :=
  let json_start := match find_sub header_sep body with Some i => (i + 4)%nat | None => 0%nat end in
  let json_bytes := drop json_start body in
  match value_of_json json_bytes with
  | Err e => Throw (ERelay (bs "exit-node response not valid JSON (" ++ e ++ bs "): " ++
                            from_utf8_lossy (take (Nat.min (length json_bytes) 200) json_bytes)))
  | Ok v =>
      match (let? x := value_get v (bs "e") in as_str x) with
      | Some err_msg => Throw (ERelay (bs "exit node refused or errored: " ++ err_msg))
      | None =>
          let status := match (let? x := value_get v (bs "s") in as_u64 x) with
                        | Some n => n mod u16_mod | None => 502 end in
          let body_b64 := default [] (let? x := value_get v (bs "b") in as_str x) in
          let* body_bytes :=
            match body_b64 with
            | [] => Ret []
            | _ => match b64_decode body_b64 with
                   | Ok d => Ret d
                   | Err e => Throw (ERelay (bs "exit-node body base64 decode failed: " ++ e))
                   end
            end in
          let fields := exit_fields (default [] (let? x := value_get v (bs "h") in as_object x)) in
          Ret (rebuild_response status (status_reason status) fields body_bytes)
      end
  end.

(** ** The tunnel's responses *)

Definition tunnel_json (label : bytes) (resp_body : bytes) : run bytes :=
  let* text := ok_or (from_utf8 resp_body) (EBadResponse (bs "non-utf8 " ++ label)) in
  let text := trim text in
  if starts_with [x7b] text then Ret text
  else braces text (quoted (bs "no json in " ++ label ++ bs ": ") text)
         (EBadResponse (bs "no json end in " ++ label)) (quoted (bs "no valid json object in: ") text).

Definition parse_tunnel_response (resp_body : bytes) : run TunnelResponse :=
  let* json := tunnel_json (bs "tunnel response") resp_body in
  match tunnel_response_of_json json with Ok r => Ret r | Err e => Throw (EJson e) end.

(** The responses in place of their compressed form; one that cannot be read
    leaves the list as it was. *)
Definition expand_zr (resp : BatchTunnelResponse) : BatchTunnelResponse :=
  match bt_zr resp with
  | None => resp
  | Some zr_b64 =>
      let r := match b64_decode zr_b64 with
               | Err _ => bt_r resp
               | Ok compressed =>
                   match zr_decode_all compressed with
                   | Err _ => bt_r resp
                   | Ok decompressed =>
                       match responses_of_json decompressed with Ok r => r | Err _ => bt_r resp end
                   end
               end in
      mk_batch_response r (bt_e resp) None (bt_zc resp)
  end.

(** The response and whether compressed batches are enabled after it. *)
Definition parse_batch_response (zstd_enabled : bool) (resp_body : bytes) : run (BatchTunnelResponse * bool) :=
  let* json := tunnel_json (bs "batch response") resp_body in
  match batch_response_of_json json with
  | Err e => Throw (EJson e)
  | Ok resp => Ret (expand_zr resp, zstd_enabled || bool_decide (is_Some (bt_zc resp)))
  end.
End responses.

(** ** Well-formed text *)

Lemma utf8_step_app a b n : utf8_step a = inl n → utf8_step (a ++ b) = inl n.
Proof.
  unfold utf8_step. destruct a as [|b0 a]; [done|]. simpl.
  case_if; [done|]. case_if; [done|]. destruct a as [|b1 a]; [done|]. simpl.
  case_if; [done|]. case_if; [done|]. destruct a as [|b2 a]; [done|]. simpl.
  case_if; [done|]. case_if; [done|]. by destruct a as [|b3 a].
Qed.

Lemma utf8_step_width s n : utf8_step s = inl n → (1 ≤ n ≤ length s)%nat.
Proof. intros H. pose proof (utf8_step_bounds s) as Hb. rewrite H in Hb. destruct s; [done|]. by apply Hb. Qed.

Lemma utf8_valid_loop_mono f g s :
  utf8_valid_loop f s = true → (f ≤ g)%nat → utf8_valid_loop g s = true.
Proof.
  revert g s. induction f as [|f IH]; intros g s Hv Hle; (destruct s as [|c s]; [by destruct g|]); [done|].
  destruct g as [|g]; [lia|]. cbn [utf8_valid_loop] in *. destruct (utf8_step (c :: s)); [|done].
  apply IH; [done|lia].
Qed.

Lemma utf8_valid_app a b : utf8_valid a = true → utf8_valid b = true → utf8_valid (a ++ b) = true.
Proof.
  intros Ha Hb. unfold utf8_valid in *. rewrite length_app. revert Ha. generalize (length a) as f. intros f.
  revert a. induction f as [|f IH]; intros a Ha; (destruct a as [|c a];
    [rewrite app_nil_l; apply (utf8_valid_loop_mono (length b)); [done|lia]|]); [done|].
  cbn [utf8_valid_loop Nat.add] in Ha |- *. destruct (utf8_step (c :: a)) as [n|] eqn:E; [|done].
  change ((c :: a) ++ b) with ((c :: a) ++ b). rewrite (utf8_step_app _ b _ E).
  pose proof (utf8_step_width _ _ E). rewrite drop_app_le by lia. by apply IH.
Qed.

Definition printable (b : byte) : bool := (32 <=? byte_val b) && (byte_val b <=? 126).

Lemma utf8_printable s : forallb printable s = true → utf8_valid s = true.
Proof.
  unfold utf8_valid. induction s as [|c s IH]; [done|]. simpl. intros H. bool_to_prop.
  unfold printable in *. bool_to_prop. assert (Hw : utf8_width c = 1) by (unfold utf8_width; by if_true).
  rewrite Hw. simpl. by apply IH.
Qed.

Lemma printable_not_in x s : printable x = false → forallb printable s = true → x ∉ s.
Proof. intros Hx Hs Hin%list_elem_of_In. rewrite forallb_forall in Hs. specialize (Hs _ Hin). congruence. Qed.

Lemma digit_printable b : is_ascii_digit b = true → printable b = true.
Proof. unfold is_ascii_digit, printable. intros. bool_to_prop. lia. Qed.

Lemma digits_printable s : forallb is_ascii_digit s = true → forallb printable s = true.
Proof. rewrite !forallb_forall. intros H x Hx. by apply digit_printable, H. Qed.

Lemma status_text_printable code : forallb printable (status_text code) = true.
Proof. unfold status_text. destruct code as [|p|p]; try done. repeat (destruct p as [p|p|]; try done). Qed.

(** ** Trimmed text stays as it is *)

Lemma ws_len_printable c s : printable c = true → c ≠ x20 → ws_len (c :: s) = 0%nat.
Proof. by destruct c. Qed.

Lemma ws_len2_last b2 b1 : printable b1 = true → ws_len [b2; b1] ≠ 2%nat.
Proof. intros H1 H. destruct b2; try done; by destruct b1. Qed.

Lemma ws_len3_last b3 b2 b1 : printable b1 = true → ws_len [b3; b2; b1] ≠ 3%nat.
Proof. intros H1 H. destruct b3; try done; destruct b2; try done; by destruct b1. Qed.

Lemma ws_len_rev_printable c r : printable c = true → c ≠ x20 → ws_len_rev (c :: r) = 0%nat.
Proof.
  intros Hp Hs. assert (H : ws_len_rev (c :: r) = match r with
    | b2 :: r' => if bool_decide (ws_len [b2; c] = 2%nat) then 2
                  else match r' with b3 :: _ => if bool_decide (ws_len [b3; b2; c] = 3%nat) then 3 else 0 | [] => 0 end
    | [] => 0 end%nat) by (by destruct c).
  rewrite H. destruct r as [|b2 r]; [done|]. rewrite bool_decide_false by (by apply ws_len2_last).
  destruct r as [|b3 r]; [done|]. by rewrite bool_decide_false by (by apply ws_len3_last).
Qed.

Lemma trim_id s :
  ws_len s = 0%nat → ws_len_rev (rev s) = 0%nat → trim s = s.
Proof.
  intros H1 H2. unfold trim, trim_start. rewrite trim_loop_fix by done. unfold trim_end.
  rewrite trim_loop_fix by done. apply rev_involutive.
Qed.

Lemma digits_trim s : forallb is_ascii_digit s = true → trim s = s.
Proof.
  intros Hd. assert (Hx : ∀ c, c ∈ s → printable c = true ∧ c ≠ x20).
  { intros c Hc%list_elem_of_In. rewrite forallb_forall in Hd. specialize (Hd _ Hc).
    split; [by apply digit_printable|]. by intros ->. }
  apply trim_id.
  - destruct s as [|c s]; [done|]. destruct (Hx c) as [H1 H2]; [left|]. by apply ws_len_printable.
  - destruct (rev s) as [|c r] eqn:E; [done|]. destruct (Hx c) as [H1 H2].
    { apply list_elem_of_In, in_rev. rewrite E. by left. }
    by apply ws_len_rev_printable.
Qed.

Lemma trimmed_end s : trim s = s → ws_len_rev (rev s) = 0%nat.
Proof.
  intros <-. unfold trim, trim_end. rewrite rev_involutive. apply trim_loop_done_rev. by rewrite length_rev.
Qed.

Lemma trim_end_matches_cr s c t : rev s = c :: t → c ≠ x0d → trim_end_matches x0d s = s.
Proof.
  intros E Hc. unfold trim_end_matches. rewrite E. unfold is_byte. rewrite bool_decide_false by done.
  rewrite <-E. apply rev_involutive.
Qed.

Lemma trim_end_matches_snoc s : trim_end_matches x0d (s ++ [x0d]) = trim_end_matches x0d s.
Proof. unfold trim_end_matches. by rewrite rev_app_distr. Qed.

(** ** Reading back a rebuilt response *)

(** A field that prints as one line and is read back as it was. *)
Definition response_field (kv : bytes * bytes) : Prop :=
  (x0a ∉ kv.1) ∧ (x0a ∉ kv.2) ∧ (x3a ∉ kv.1) ∧ kv.1 ≠ [] ∧ trim kv.1 = kv.1 ∧ trim kv.2 = kv.2 ∧
  utf8_valid kv.1 = true ∧ utf8_valid kv.2 = true.

Lemma field_line_last kv : response_field kv → ∃ c t, rev (field_line kv) = c :: t ∧ c ≠ x0d.
Proof.
  intros (_ & _ & _ & _ & _ & Hv & _ & _). destruct kv as [k v]. simpl in *. unfold field_line. simpl.
  destruct (rev v) as [|c t] eqn:E.
  - assert (v = []) as -> by (rewrite <-(rev_involutive v), E; done). rewrite rev_app_distr. by eexists _, _.
  - change (k ++ x3a :: x20 :: v) with (k ++ [x3a; x20] ++ v). rewrite !rev_app_distr, E. eexists c, _. split; [done|]. intros ->.
    apply trimmed_end in Hv. by rewrite E in Hv.
Qed.

Lemma parse_field_line kv cr :
  response_field kv → cr = [] ∨ cr = [x0d] → parse_header_line (field_line kv ++ cr) = Some [kv].
Proof.
  intros Hf Hcr. destruct (field_line_last kv Hf) as (c & t & Hl & Hc).
  assert (Htr : trim_end_matches x0d (field_line kv ++ cr) = field_line kv).
  { destruct Hcr as [-> | ->]; [rewrite app_nil_r|rewrite trim_end_matches_snoc]; by eapply trim_end_matches_cr. }
  destruct Hf as (_ & _ & Hcol & Hne & Hk & Hv & Huk & Huv). destruct kv as [k v]. simpl in *.
  unfold parse_header_line, from_utf8.
  assert (Hu : utf8_valid (field_line (k, v) ++ cr) = true).
  { unfold field_line. simpl. repeat apply utf8_valid_app; try done. by destruct Hcr as [-> | ->]. }
  rewrite Hu, Htr. unfold field_line. cbn [fst snd].
  change (k ++ bs ": " ++ v) with (k ++ x3a :: (x20 :: v)). rewrite split_once_join by done.
  rewrite trim_space, Hk, Hv. by destruct k.
Qed.

Lemma response_field_plain kv : response_field kv → plain_line (field_line kv).
Proof.
  intros (H1 & H2 & _ & Hne & Hk & _ & _ & _). destruct kv as [k v]. simpl in *. split.
  - unfold field_line. simpl. by rewrite elem_of_app, !elem_of_cons; intros [?|[?|[?|?]]].
  - unfold field_line. simpl. destruct k as [|c k]; [done|]. simpl. intros ->.
    pose proof (ws_len_trim (x0d :: k)) as Hw. by rewrite Hk in Hw.
Qed.

Lemma split_on_line c l s : c ∉ l → split_on c (l ++ c :: s) = l :: split_on c s.
Proof.
  induction l as [|x l IH]; intros Hl; simpl.
  - unfold is_byte. by rewrite bool_decide_true.
  - apply not_elem_of_cons in Hl as [Hx Hl]. unfold is_byte at 1. rewrite bool_decide_false by done. by rewrite IH.
Qed.

Lemma split_on_none c l : c ∉ l → split_on c l = [l].
Proof.
  induction l as [|x l IH]; intros Hl; [done|]. simpl. apply not_elem_of_cons in Hl as [Hx Hl].
  unfold is_byte at 1. rewrite bool_decide_false by done. by rewrite IH.
Qed.

Lemma split_on_lines ls last :
  Forall (λ l, x0a ∉ l) ls → x0a ∉ last →
  split_on x0a (concat (map (λ l, l ++ crlf) ls) ++ last) = map (λ l, l ++ [x0d]) ls ++ [last].
Proof.
  intros Hf Hl. induction Hf as [|l ls Hx Hf IH]; [by apply split_on_none|].
  change (concat (map (λ l, l ++ crlf) (l :: ls)) ++ last)
    with (((l ++ crlf) ++ concat (map (λ l, l ++ crlf) ls)) ++ last).
  rewrite <-!app_assoc. change (crlf ++ ?x) with ([x0d] ++ x0a :: x).
  rewrite (app_assoc l [x0d]), split_on_line; [by rewrite IH|].
  rewrite elem_of_app, list_elem_of_singleton. by intros [?|?].
Qed.

Lemma parse_header_lines_app a b ha hb :
  parse_header_lines a = Some ha → parse_header_lines b = Some hb → parse_header_lines (a ++ b) = Some (ha ++ hb).
Proof.
  revert ha. induction a as [|l a IH]; intros ha; simpl; [by intros [= <-] ->|].
  destruct (parse_header_line l); [|done]. destruct (parse_header_lines a) as [h'|]; [|done].
  intros [= <-] Hb. rewrite (IH h') by done. by rewrite app_assoc.
Qed.

Lemma parse_header_lines_fields fs :
  Forall response_field fs → parse_header_lines (map (λ l, l ++ [x0d]) (map field_line fs)) = Some fs.
Proof.
  intros Hf. induction Hf as [|kv fs Hkv Hf IH]; [done|]. simpl. rewrite parse_field_line by auto.
  by rewrite IH.
Qed.

(** A response assembled from a status line and header fields, of which the
    last is [f], splits into them. *)
Lemma split_response_of status_line w code fs f body :
  plain_line status_line → utf8_valid (status_line ++ [x0d]) = true → trim_end_matches x0d status_line = status_line →
  second_word status_line = Some w → parse_u16 w = Some code →
  Forall response_field (fs ++ [f]) →
  split_response (concat (map (λ l, l ++ crlf) (status_line :: map field_line (fs ++ [f]))) ++ crlf ++ body) =
  Some (code, fs ++ [f], body).
Proof.
  intros Hp Hu Htr Hw Hc Hfs. unfold split_response.
  assert (Hpl : Forall plain_line (status_line :: map field_line (fs ++ [f]))).
  { constructor; [done|]. apply Forall_fmap. eapply Forall_impl; [exact Hfs|]. apply response_field_plain. }
  rewrite find_sep_head by done.
  set (front := status_line :: map field_line fs).
  assert (Hfr : status_line :: map field_line (fs ++ [f]) = front ++ [field_line f])
    by (unfold front; by rewrite map_app).
  assert (Hls : concat (map (λ l, l ++ crlf) (status_line :: map field_line (fs ++ [f]))) =
                concat (map (λ l, l ++ crlf) front) ++ field_line f ++ crlf).
  { rewrite Hfr, map_app, concat_app. cbn [map concat]. by rewrite app_nil_r. }
  rewrite Hls. set (head := concat (map (λ l, l ++ crlf) front) ++ field_line f).
  assert (Hlen : (length (concat (map (λ l, l ++ crlf) front) ++ field_line f ++ crlf) - 2)%nat = length head).
  { unfold head. rewrite !length_app. change (length crlf) with 2%nat. lia. }
  rewrite Hlen.
  assert (Hraw : (concat (map (λ l, l ++ crlf) front) ++ field_line f ++ crlf) ++ crlf ++ body =
                 head ++ header_sep ++ body) by (unfold head; by rewrite <-!app_assoc).
  rewrite Hraw, take_app_length, app_assoc, drop_app_length' by (by rewrite length_app).
  assert (Hnl : Forall (λ l, x0a ∉ l) front ∧ x0a ∉ field_line f).
  { rewrite Hfr, Forall_app in Hpl. destruct Hpl as [H1 H2].
    split; [eapply Forall_impl; [exact H1|by intros ? []]|]. apply Forall_cons in H2 as [[H2 _] _]. done. }
  unfold head. rewrite split_on_lines by apply Hnl. unfold front. cbn [map app]. change ((?a :: ?b) ++ ?c) with (a :: (b ++ c)). cbn iota. unfold from_utf8 at 1. rewrite Hu.
  rewrite trim_end_matches_snoc, Htr, Hw, Hc. apply Forall_app in Hfs as [Hfs Hf]. apply Forall_cons in Hf as [Hf _].
  rewrite (parse_header_lines_app _ [field_line f] fs [f]); [done|by apply parse_header_lines_fields|].
  simpl. rewrite <-(app_nil_r (field_line f)), parse_field_line by auto. done.
Qed.

Definition content_length_field (n : Z) : bytes * bytes := (bs "Content-Length", fmt_uint n).

Lemma content_length_ok n : 0 ≤ n → response_field (content_length_field n).
Proof.
  intros Hn. pose proof (fmt_uint_all_digits n Hn) as Hd.
  unfold response_field, content_length_field. cbn [fst snd]. split_and!.
  - by apply (bool_decide_unpack _).
  - by apply digits_plain.
  - by apply (bool_decide_unpack _).
  - done.
  - by vm_compute.
  - by apply digits_trim.
  - by vm_compute.
  - by apply utf8_printable, digits_printable.
Qed.

Lemma printable_line_end s c : forallb printable (c :: s) = true → trim_end_matches x0d (c :: s) = c :: s.
Proof.
  intros Hp. destruct (rev (c :: s)) as [|x t] eqn:E.
  - apply (f_equal (@rev byte)) in E. by rewrite rev_involutive in E.
  - apply (trim_end_matches_cr _ x t E). intros ->. apply (printable_not_in x0d (c :: s)); [done|done|].
    apply list_elem_of_In, in_rev. rewrite E. by left.
Qed.

Lemma parse_u16_fmt n : 0 ≤ n < u16_mod → parse_u16 (fmt_uint n) = Some n.
Proof.
  intros Hn. destruct (fmt_uint_cons n) as (c & s & E & Hc); [lia|].
  assert (Hp : parse_u16 (fmt_uint n) = parse_digits (u16_mod - 1) (fmt_uint n) 0).
  { rewrite E. unfold parse_u16, parse_uint. by destruct c. }
  rewrite Hp. unfold fmt_uint. rewrite parse_fmt_digits; [done| |lia].
  split; [lia|]. eapply Z.lt_trans; [apply Hn|]. vm_compute. reflexivity.
Qed.

Definition status_line_of (status : Z) (reason : bytes) : bytes :=
  bs "HTTP/1.1 " ++ fmt_uint status ++ bs " " ++ reason.

Lemma status_line_printable status reason :
  0 ≤ status → forallb printable reason = true → forallb printable (status_line_of status reason) = true.
Proof.
  intros Hs Hr. unfold status_line_of. rewrite !forallb_app, Hr.
  by rewrite (digits_printable _ (fmt_uint_all_digits _ Hs)).
Qed.

Lemma status_line_word status reason :
  0 ≤ status → second_word (status_line_of status reason) = Some (fmt_uint status).
Proof.
  intros Hs. unfold second_word, status_line_of.
  change (bs "HTTP/1.1 " ++ ?x) with (bs "HTTP/1.1" ++ x20 :: x). rewrite split_once_join by (by apply (bool_decide_unpack _)).
  unfold split_first. change (fmt_uint status ++ bs " " ++ reason) with (fmt_uint status ++ x20 :: reason).
  assert (Hn : x20 ∉ fmt_uint status).
  { intros Hin%list_elem_of_In. pose proof (fmt_uint_all_digits status Hs) as Hd. rewrite forallb_forall in Hd.
    by specialize (Hd _ Hin). }
  pose proof (split_once_join x20 _ reason Hn) as Hj. unfold split_once in Hj.
  destruct (find_byte _ _) as [i|]; [|done]. by injection Hj as -> _.
Qed.

(** What the relay rebuilds splits into the status, the fields with the
    length, and the body. *)
Lemma rebuild_split status reason fields body :
  0 ≤ status < u16_mod → forallb printable reason = true → Forall response_field fields →
  split_response (rebuild_response status reason fields body) =
  Some (status, fields ++ [content_length_field (len body)], body).
Proof.
  intros Hs Hr Hf.
  assert (E : rebuild_response status reason fields body =
    concat (map (λ l, l ++ crlf) (status_line_of status reason ::
      map field_line (fields ++ [content_length_field (len body)]))) ++ crlf ++ body).
  { unfold rebuild_response, status_line_of. cbn [map concat]. rewrite !map_app, concat_app, map_map.
    cbn [map concat]. rewrite app_nil_r. unfold field_line, content_length_field. cbn [fst snd].
    rewrite <-!app_assoc. do 6 f_equal. f_equal. apply map_ext. intros [k v]. unfold header_line. simpl fst. simpl snd.
    by rewrite <-!app_assoc. }
  rewrite E. pose proof (status_line_printable status reason ltac:(lia) Hr) as Hp.
  apply (split_response_of _ (fmt_uint status) status).
  - split; [by eapply printable_not_in|done].
  - apply utf8_valid_app; [by apply utf8_printable|done].
  - unfold status_line_of in *. by apply printable_line_end.
  - apply status_line_word. lia.
  - by apply parse_u16_fmt.
  - apply Forall_app. split; [done|]. constructor; [|constructor]. apply content_length_ok, len_nonneg.
Qed.

Section rebuilt.
Context `{!Base64} `{!RelayFormats}.

(** C34: the response a browser gets is the one Apps Script reported, as long as
    the reported fields are well-formed.  The body is UTF-8, an envelope is found
    in it (as it is, inside the page Apps Script wraps around it, or between
    braces), it reports no error and its body decodes; and each of its fields
    that is kept is a [response_field]: a name that is not empty and has no colon,
    name and value trimmed and without a line feed.  Then the relay returns a
    response that splits into the reported status, the reported fields without
    the connection-level (and, if asked, the noise) ones, a [Content-Length] that
    is the length of the decoded body, and that body.  The code does not enforce
    the condition on the fields: [header_value_splits]. *)
Theorem relay_json_rebuilt body strip text data d :
  utf8_valid body = true → trim body = text → text ≠ [] → read_envelope text = Ret data → rr_e data = None →
  match rr_b data with Some b => b64_decode b = Ok d | None => d = [] end →
  0 ≤ default 200 (rr_s data) < u16_mod →
  Forall response_field (header_fields strip (default [] (rr_h data))) →
  ∃ out, parse_relay_json body strip = Ret out ∧
    split_response out = Some (default 200 (rr_s data),
      header_fields strip (default [] (rr_h data)) ++ [content_length_field (len d)], d).
Proof.
  intros Hu Ht Hne He Hn Hb Hs Hf. unfold parse_relay_json, from_utf8. rewrite Hu. cbn [ok_or rbind].
  rewrite Ht. destruct text as [|c t]; [done|]. rewrite He. cbn [rbind]. rewrite Hn.
  eexists. split; [|apply rebuild_split; [done|apply status_text_printable|done]].
  destruct (rr_b data); [by rewrite Hb|by subst].
Qed.

(** The page's text is cut at byte 200 for the error message: when that is
    inside a character the task panics. *)
Lemma user_html_panics body strip text unwrapped c t err1 err2 :
  utf8_valid body = true → trim body = text → text ≠ [] →
  relay_response_of_json text = Err err1 → extract_apps_script_user_html text = Some unwrapped →
  relay_response_of_json unwrapped = Err err2 → drop 200 unwrapped = c :: t → is_cont c = true →
  parse_relay_json body strip = Panicked.
Proof.
  intros Hu Ht Hne H1 Hx H2 Hd Hc. unfold parse_relay_json, from_utf8. rewrite Hu. cbn [ok_or rbind].
  rewrite Ht. destruct text as [|y text]; [done|]. unfold read_envelope. rewrite H1, Hx, H2.
  assert (Hl : (200 < length unwrapped)%nat).
  { destruct (decide (length unwrapped ≤ 200)%nat) as [Hle|]; [|lia]. by rewrite drop_ge in Hd. }
  unfold str_prefix. rewrite Nat.min_r, Hd, Hc by lia. done.
Qed.
End rebuilt.

(** ** The header fields of a request *)

Lemma bytes_compare_eq a b : bytes_compare a b = Eq ↔ a = b.
Proof.
  revert b. induction a as [|x a IH]; intros [|y b]; simpl; try done.
  destruct (Z.compare_spec (byte_val x) (byte_val y)) as [E|E|E].
  - apply (inj byte_val) in E as ->. rewrite IH. split; [by intros ->|by intros [=]].
  - split; [done|]. intros [= -> _]. lia.
  - split; [done|]. intros [= -> _]. lia.
Qed.

Lemma map_get_insert k v k' m :
  map_get k' (map_insert k v m) = if bool_decide (k' = k) then Some v else map_get k' m.
Proof.
  induction m as [|[k0 v0] m IH]; simpl; [done|].
  destruct (bytes_compare k k0) eqn:E; simpl.
  - apply bytes_compare_eq in E as <-. by repeat case_bool_decide.
  - done.
  - rewrite IH. repeat case_bool_decide; try done. subst k0.
    subst k'. assert (bytes_compare k k = Eq) by (by apply bytes_compare_eq). congruence.
Qed.

(** The value of the last field named [k]. *)
Definition last_value (k : bytes) (fs : Headers) : option bytes :=
  foldl (λ acc kv, if bool_decide (k = kv.1) then Some kv.2 else acc) None fs.

Lemma header_map_get k fs : map_get k (default [] (header_map fs)) = Str <$> last_value k fs.
Proof.
  assert (H : ∀ m acc, map_get k m = Str <$> acc →
    map_get k (foldl (λ m kv, map_insert kv.1 (Str kv.2) m) m fs) =
    Str <$> foldl (λ acc kv, if bool_decide (k = kv.1) then Some kv.2 else acc) acc fs).
  { induction fs as [|[k' v] fs IH]; intros m acc Hm; [done|]. simpl. apply IH.
    rewrite map_get_insert, Hm. by case_bool_decide. }
  destruct fs as [|kv fs]; [done|]. by apply (H [] None).
Qed.

Lemma forward_field_name kv kv' :
  forward_field kv = Some kv' → kv'.1 = kv.1 ∧ to_ascii_lowercase kv.1 ∉ SKIP_FORWARDED.
Proof.
  unfold forward_field. case_bool_decide; [done|]. case_bool_decide; [|by intros [= <-]].
  destruct (strip_brotli_from_accept_encoding kv.2); [done|]. by intros [= <-].
Qed.

Lemma last_value_forwarded k fs acc :
  foldl (λ acc kv, if bool_decide (k = kv.1) then Some kv.2 else acc) acc (filter_forwarded_headers fs) =
  if bool_decide (to_ascii_lowercase k ∈ SKIP_FORWARDED) then acc
  else foldl (λ acc kv, if bool_decide (k = kv.1) then
                          match forward_field kv with Some kv' => Some kv'.2 | None => acc end
                        else acc) acc fs.
Proof.
  unfold filter_forwarded_headers. revert acc.
  induction fs as [|kv fs IH]; intros acc; [by simpl; case_bool_decide|]. simpl.
  destruct (forward_field kv) as [kv'|] eqn:E.
  - apply forward_field_name in E as [E1 E2]. simpl. rewrite IH, E1. case_bool_decide; [|done].
    rewrite bool_decide_false; [done|]. by intros ->.
  - rewrite IH. case_bool_decide; [done|]. f_equal. by case_bool_decide.
Qed.

(** The headers that frame a message, and those by which a proxy or an
    extension in front of the program would reveal the client's address. *)
Definition FRAMING : list bytes :=
  [bs "host"; bs "connection"; bs "content-length"; bs "transfer-encoding"; bs "proxy-connection";
   bs "proxy-authorization"].
Definition IDENTITY_REVEALING : list bytes :=
  [bs "x-forwarded-for"; bs "x-real-ip"; bs "forwarded"; bs "via"; bs "cf-connecting-ip";
   bs "true-client-ip"; bs "x-client-ip"; bs "fastly-client-ip"; bs "x-cluster-client-ip";
   bs "client-ip"; bs "x-originating-ip"; bs "x-forwarded-host"; bs "x-forwarded-proto";
   bs "x-forwarded-port"; bs "x-forwarded-server"; bs "x-forwarded-ssl"].

Lemma skip_forwarded_lists k : k ∈ SKIP_FORWARDED ↔ k ∈ FRAMING ++ IDENTITY_REVEALING.
Proof. unfold SKIP_FORWARDED, FRAMING, IDENTITY_REVEALING. set_solver. Qed.

(** *** Accept-Encoding *)

(** The content codings an [Accept-Encoding] value offers, in order. *)
Definition coding (part : bytes) : bytes := to_ascii_lowercase (trim (split_first x3b part)).
Definition offered_codings (value : bytes) : list bytes := map coding (split_on x2c value).
Definition undecodable (c : bytes) : bool := bool_decide (c ∈ [bs "br"; bs "zstd"]).

Lemma brotli_token_coding p : brotli_token p = undecodable (coding p).
Proof.
  unfold brotli_token, undecodable, coding. cbv zeta. generalize (to_ascii_lowercase (trim (split_first x3b p))).
  intros t. rewrite <-bool_decide_or. apply bool_decide_ext.
  by rewrite !elem_of_cons, elem_of_nil, (right_id False or).
Qed.

Lemma trim_loop_split c ws fuel s :
  (∀ s, c ∉ take (ws s) s) → ∃ w, s = w ++ trim_loop ws fuel s ∧ c ∉ w.
Proof.
  intros Hws. revert s. induction fuel as [|fuel IH]; intros s; simpl; [by exists []; split; [|apply not_elem_of_nil]|].
  destruct (ws s) as [|n] eqn:E; [by exists []; split; [|apply not_elem_of_nil]|].
  destruct (IH (drop (S n) s)) as (w & Hw & Hc).
  exists (take (S n) s ++ w). rewrite <-app_assoc, <-Hw, take_drop. split; [done|].
  rewrite elem_of_app. intros [Hin|Hin]; [|done]. apply (Hws s). by rewrite E.
Qed.

Lemma none_is_byte c s : forallb (λ x, negb (is_byte c x)) s = true → c ∉ s.
Proof.
  intros H Hin. rewrite forallb_forall in H. apply list_elem_of_In, H in Hin.
  unfold is_byte in Hin. by rewrite bool_decide_true in Hin.
Qed.

(** The first character, when it is whitespace. *)
Lemma ws_len_inv s :
  ws_len s ≠ 0%nat → ∃ w r, s = w ++ r ∧ length w = ws_len s ∧ ws_len w = ws_len s ∧ x3b ∉ w.
Proof.
  intros Hs. exists (take (ws_len s) s), (drop (ws_len s) s). split; [by rewrite take_drop|].
  enough (H : length (take (ws_len s) s) = ws_len s ∧ ws_len (take (ws_len s) s) = ws_len s ∧
    forallb (λ x, negb (is_byte x3b x)) (take (ws_len s) s) = true).
  { destruct H as (H1 & H2 & H3). split_and!; [done..|]. by apply none_is_byte. }
  destruct s as [|x s]; [done|]. destruct x; try done; destruct s as [|y s]; try done; destruct y; try done;
    destruct s as [|z s]; try done; by destruct z.
Qed.

(** No whitespace character has a semicolon among its bytes. *)
Lemma ws_no_semicolon s : x3b ∉ take (ws_len s) s.
Proof.
  destruct (decide (ws_len s = 0%nat)) as [->|Hs]; [apply not_elem_of_nil|].
  destruct (ws_len_inv s Hs) as (w & r & -> & <- & _ & Hc). by rewrite take_app_length.
Qed.

Lemma ws_rev_no_semicolon s : x3b ∉ take (ws_len_rev s) s.
Proof.
  assert (Hrev : ∀ n r, ws_len r = n → length r = n → x3b ∉ rev r).
  { intros n r Hn Hl Hin. apply (ws_no_semicolon r). rewrite Hn, <-Hl, firstn_all.
    by apply list_elem_of_In, in_rev, list_elem_of_In. }
  destruct s as [|b1 s]; [apply not_elem_of_nil|].
  destruct (decide (ws_len [b1] = 1%nat)) as [H1|H1].
  { assert (ws_len_rev (b1 :: s) = 1%nat) as -> by (by destruct b1). simpl. by apply (Hrev 1%nat [b1]). }
  destruct s as [|b2 s].
  { assert (ws_len_rev [b1] = 0%nat) as -> by (by destruct b1). apply not_elem_of_nil. }
  assert (ws_len_rev (b1 :: b2 :: s) = (if bool_decide (ws_len [b2; b1] = 2%nat) then 2
      else match s with
           | b3 :: _ => if bool_decide (ws_len [b3; b2; b1] = 3%nat) then 3 else 0
           | [] => 0
           end)%nat) as -> by (by destruct b1).
  case_bool_decide as H2; [by apply (Hrev 2%nat [b2; b1])|].
  destruct s as [|b3 s]; [apply not_elem_of_nil|].
  case_bool_decide as H3; [by apply (Hrev 3%nat [b3; b2; b1])|apply not_elem_of_nil].
Qed.

Lemma trim_loop_enough ws n m s :
  (length s ≤ n)%nat → (length s ≤ m)%nat → trim_loop ws n s = trim_loop ws m s.
Proof.
  revert m s. induction n as [|n IH]; intros m s Hn Hm.
  { destruct s; [|simpl in Hn; lia]. symmetry. destruct m as [|m]; [done|]. simpl.
    destruct (ws []) as [|k] eqn:E; [done|]. clear Hn. simpl.
    induction m as [|m IHm]; [done|]. simpl. rewrite E. apply IHm. simpl. lia. }
  destruct m as [|m].
  { destruct s; [|simpl in Hm; lia]. simpl. destruct (ws []) as [|k] eqn:E; [done|].
    change (drop (S k) []) with (@nil byte). rewrite (IH 0%nat []) by (simpl; lia). done. }
  simpl. destruct (ws s) as [|k]; [done|]. apply IH; rewrite length_drop; lia.
Qed.

Lemma trim_ws_front w s n : ws_len (w ++ s) = n → length w = n → trim (w ++ s) = trim s.
Proof.
  intros Hn Hl. destruct n as [|n]; [by destruct w|]. unfold trim. f_equal. unfold trim_start.
  destruct w as [|b w]; [done|]. injection Hl as Hl.
  change (length ((b :: w) ++ s)) with (S (length (w ++ s))). cbn [trim_loop]. rewrite Hn.
  change (drop (S n) ((b :: w) ++ s)) with (drop n (w ++ s)). rewrite <-Hl, drop_app_length.
  apply trim_loop_enough; rewrite ?length_app; lia.
Qed.

Lemma split_first_cons c b s : b ≠ c → split_first c (b :: s) = b :: split_first c s.
Proof.
  intros Hb. unfold split_first. simpl. unfold is_byte at 1. rewrite bool_decide_false by done.
  by destruct (find_byte (is_byte c) s).
Qed.

Lemma split_first_app_l c a s : c ∉ a → split_first c (a ++ s) = a ++ split_first c s.
Proof.
  induction a as [|b a IH]; intros Ha; [done|]. apply not_elem_of_cons in Ha as [Hb Ha].
  simpl. rewrite split_first_cons by done. by rewrite IH.
Qed.

Lemma split_first_in c a s : c ∈ a → split_first c (a ++ s) = split_first c a.
Proof.
  induction a as [|b a IH]; intros Ha; [by apply elem_of_nil in Ha|].
  destruct (decide (b = c)) as [->|Hb].
  - unfold split_first. simpl. unfold is_byte. by rewrite bool_decide_true.
  - simpl. rewrite !split_first_cons by done. rewrite IH; [done|]. set_solver.
Qed.

Lemma split_first_absent c a : c ∉ a → split_first c a = a.
Proof. intros Ha. rewrite <-(app_nil_r a) at 1. rewrite split_first_app_l by done. by rewrite app_nil_r. Qed.

(** A parameter list is cut off the same way before and after trimming. *)
Lemma coding_trim_start fuel s :
  trim (split_first x3b (trim_loop ws_len fuel s)) = trim (split_first x3b s).
Proof.
  revert s. induction fuel as [|fuel IH]; intros s; [done|]. simpl.
  destruct (ws_len s) as [|n] eqn:E; [done|]. rewrite IH.
  destruct (ws_len_inv s ltac:(lia)) as (w & r & -> & Hl & Hw & Hc).
  rewrite E in Hl, Hw. rewrite <-Hl, drop_app_length, split_first_app_l by done. symmetry.
  apply (trim_ws_front _ _ (S n)); [|done]. rewrite ws_len_app; lia.
Qed.

Lemma coding_trim p : coding (trim p) = coding p.
Proof.
  unfold coding. f_equal. rewrite <-(coding_trim_start (length p) p). fold (trim_start p).
  assert (Hw : ws_len (trim_start p) = 0%nat) by (by apply trim_loop_done).
  set (u := trim_start p) in *. change (trim p) with (trim_end u).
  assert (Hu : trim_end u = trim u) by (unfold trim; f_equal; unfold trim_start; by rewrite trim_loop_fix).
  destruct (trim_loop_split x3b ws_len_rev (length u) (rev u) ws_rev_no_semicolon) as (w & Hrev & Hc).
  assert (Hsplit : u = trim_end u ++ rev w).
  { unfold trim_end. rewrite <-rev_app_distr, <-Hrev. by rewrite rev_involutive. }
  assert (Hr : x3b ∉ rev w) by (rewrite list_elem_of_In, <-in_rev, <-list_elem_of_In; done).
  destruct (decide (x3b ∈ trim_end u)) as [Hin|Hin].
  - rewrite Hsplit at 2. by rewrite split_first_in.
  - rewrite (split_first_absent _ (trim_end u)) by done. rewrite (split_first_absent _ u).
    + by rewrite Hu, trim_idemp.
    + rewrite Hsplit, elem_of_app. tauto.
Qed.

Lemma coding_space p : coding (x20 :: p) = coding p.
Proof. unfold coding. by rewrite split_first_cons, trim_space. Qed.

Lemma split_on_join_comma p ps :
  Forall (λ p, x2c ∉ p) (p :: ps) → split_on x2c (join (bs ", ") (p :: ps)) = p :: map (cons x20) ps.
Proof.
  revert p. induction ps as [|q ps IH]; intros p H; apply Forall_cons in H as [Hp Hps].
  - simpl. by apply split_on_none.
  - change (join (bs ", ") (p :: q :: ps)) with (p ++ x2c :: x20 :: join (bs ", ") (q :: ps)).
    rewrite split_on_line by done. f_equal. cbn [split_on]. unfold is_byte at 1.
    rewrite bool_decide_false by done. by rewrite IH.
Qed.

Lemma filter_map_comm {A B} (f : B → bool) (g : A → B) l :
  List.filter f (map g l) = map g (List.filter (λ a, f (g a)) l).
Proof. induction l as [|a l IH]; [done|]. simpl. rewrite IH. by destruct (f (g a)). Qed.

(** What is left of an [Accept-Encoding] value offers the codings it offered,
    without br and zstd. *)
Lemma strip_brotli_codings v :
  strip_brotli_from_accept_encoding v ≠ [] →
  offered_codings (strip_brotli_from_accept_encoding v) =
  List.filter (λ c, negb (undecodable c)) (offered_codings v).
Proof.
  unfold strip_brotli_from_accept_encoding, offered_codings.
  set (kept := List.filter _ _). intros Hne.
  assert (Hk : map coding kept = List.filter (λ c, negb (undecodable c)) (map coding (split_on x2c v))).
  { unfold kept. rewrite !filter_map_comm, map_map. rewrite (map_ext _ coding coding_trim). f_equal.
    apply List.filter_ext. intros p. by rewrite brotli_token_coding, coding_trim. }
  assert (Hc : Forall (λ p, x2c ∉ p) kept).
  { apply Forall_forall. intros p Hp. apply list_elem_of_In, filter_In in Hp as [Hp _].
    apply in_map_iff in Hp as (q & <- & Hq). apply trim_not_in. apply (split_on_not_in _ v).
    by apply list_elem_of_In. }
  destruct kept as [|p ps]; [done|]. rewrite split_on_join_comma by done. simpl. rewrite map_map.
  rewrite (map_ext _ coding coding_space). done.
Qed.

(** The rewritten value; [None] when nothing is left of it. *)
Definition decodable_encodings (v : bytes) : option bytes :=
  match strip_brotli_from_accept_encoding v with [] => None | cleaned => Some cleaned end.

Lemma accept_encoding_codings v v' :
  decodable_encodings v = Some v' →
  offered_codings v' = List.filter (λ c, negb (undecodable c)) (offered_codings v).
Proof.
  unfold decodable_encodings. pose proof (strip_brotli_codings v) as H.
  destruct (strip_brotli_from_accept_encoding v); [done|]. intros [= <-]. by apply H.
Qed.

Lemma accept_encoding_passes : bs "accept-encoding" ∉ SKIP_FORWARDED.
Proof. apply (bool_decide_unpack _). vm_compute. exact I. Qed.

Lemma accept_encoding_last k headers acc :
  to_ascii_lowercase k = bs "accept-encoding" →
  foldl (λ acc kv, if bool_decide (k = kv.1) then
                     match forward_field kv with Some kv' => Some kv'.2 | None => acc end
                   else acc) acc headers =
  foldl (λ acc kv, if bool_decide (k = kv.1) then Some kv.2 else acc) acc
    (omap (λ kv, (kv.1,.) <$> decodable_encodings kv.2) headers).
Proof.
  intros Ha. set (keep := λ kv : bytes * bytes, (kv.1,.) <$> decodable_encodings kv.2).
  assert (Hk : ∀ k v, keep (k, v) = (k,.) <$> decodable_encodings v) by done. clearbody keep.
  revert acc. induction headers as [|[k' v] hs IH]; intros acc; [done|].
  change (omap keep ((k', v) :: hs)) with
    (match keep (k', v) with Some kv => kv :: omap keep hs | None => omap keep hs end).
  cbn [foldl]. rewrite IH, Hk. cbn [fst snd]. destruct (decide (k = k')) as [->|Hne].
  - rewrite bool_decide_true by done. unfold forward_field. cbn [fst snd]. rewrite Ha.
    rewrite bool_decide_false by (apply accept_encoding_passes). rewrite bool_decide_true by done.
    unfold decodable_encodings. destruct (strip_brotli_from_accept_encoding v); cbn; [done|].
    by rewrite bool_decide_true.
  - rewrite bool_decide_false by done. destruct (decodable_encodings v); cbn; [|done].
    by rewrite bool_decide_false.
Qed.

Lemma plain_field_last k headers acc :
  to_ascii_lowercase k ∉ SKIP_FORWARDED → to_ascii_lowercase k ≠ bs "accept-encoding" →
  foldl (λ acc kv, if bool_decide (k = kv.1) then
                     match forward_field kv with Some kv' => Some kv'.2 | None => acc end
                   else acc) acc headers =
  foldl (λ acc kv, if bool_decide (k = kv.1) then Some kv.2 else acc) acc headers.
Proof.
  intros Hs Ha. revert acc. induction headers as [|[k' v] hs IH]; intros acc; [done|]. simpl. rewrite IH. f_equal.
  case_bool_decide; [|done]. subst k'. unfold forward_field. simpl.
  by rewrite (bool_decide_false _ Hs), (bool_decide_false _ Ha).
Qed.

(** C15: which fields of a request reach the envelope sent to Apps Script, for
    every name [k].  None of the 6 names of [FRAMING] and the 16 of
    [IDENTITY_REVEALING], under any capitalisation.  Of [Accept-Encoding], in
    the spelling [k], the last value that still offers something once [br] and
    [zstd] are taken out of it, and that value offers exactly the other codings
    of the client's, in order.  Every other name has the last value the client
    sent under it.  (Hop-by-hop fields outside [FRAMING] are such other names:
    [hop_by_hop_forwarded].) *)
Theorem payload_headers `{!Base64} key method url headers body r k :
  let sent := map_get k (default [] (q_h (relay_request key method url headers body r))) in
  let lk := to_ascii_lowercase k in
  (lk ∈ FRAMING ++ IDENTITY_REVEALING → sent = None) ∧
  (lk = bs "accept-encoding" →
   sent = Str <$> last_value k (omap (λ kv, (kv.1,.) <$> decodable_encodings kv.2) headers) ∧
   ∀ v v', decodable_encodings v = Some v' →
     offered_codings v' = List.filter (λ c, negb (undecodable c)) (offered_codings v)) ∧
  (lk ∉ FRAMING ++ IDENTITY_REVEALING → lk ≠ bs "accept-encoding" → sent = Str <$> last_value k headers).
Proof.
  intros sent lk. rewrite <-skip_forwarded_lists.
  unfold sent, relay_request. simpl. rewrite header_map_get. unfold last_value. rewrite last_value_forwarded.
  fold lk. split_and!.
  - intros Hs. by rewrite bool_decide_true.
  - intros Ha. rewrite bool_decide_false by (rewrite Ha; apply accept_encoding_passes).
    split; [|by intros v v' E; apply accept_encoding_codings]. by rewrite accept_encoding_last.
  - intros Hs Ha. rewrite bool_decide_false by done. f_equal. by apply plain_field_last.
Qed.

Definition browser_headers : Headers :=
  [(bs "Host", bs "a"); (bs "X-Forwarded-For", bs "203.0.113.42"); (bs "Accept-Encoding", bs "gzip, deflate, br;q=1, zstd");
   (bs "Keep-Alive", bs "timeout=5"); (bs "TE", bs "trailers"); (bs "Cookie", bs "a=1"); (bs "Cookie", bs "b=2")].

Lemma payload_headers_witness :
  let h := default [] (q_h (relay_request (H := std_base64) (bs "k") (bs "GET") (bs "http://a/") browser_headers [] true)) in
  map_get (bs "X-Forwarded-For") h = None ∧ map_get (bs "Cookie") h = Some (Str (bs "b=2")) ∧
  map_get (bs "Accept-Encoding") h = Some (Str (bs "gzip, deflate")).
Proof.
  pose proof (λ k, payload_headers (H := std_base64) (bs "k") (bs "GET") (bs "http://a/") browser_headers [] true k) as H.
  split_and!.
  - apply (proj1 (H (bs "X-Forwarded-For"))). apply (bool_decide_unpack _). vm_compute. exact I.
  - apply (proj2 (proj2 (H (bs "Cookie")))); apply (bool_decide_unpack _); vm_compute; exact I.
  - apply (proj1 (proj1 (proj2 (H (bs "Accept-Encoding"))) eq_refl)).
Defined.

(** The other hop-by-hop fields of a request are passed on, though the comment
    on the list says that none must be. *)
Example hop_by_hop_forwarded :
  filter_forwarded_headers [(bs "Keep-Alive", bs "timeout=5"); (bs "TE", bs "trailers"); (bs "Trailer", bs "Expires");
                            (bs "Upgrade", bs "websocket")] =
  [(bs "Keep-Alive", bs "timeout=5"); (bs "TE", bs "trailers"); (bs "Trailer", bs "Expires"); (bs "Upgrade", bs "websocket")].
Proof. vm_compute. reflexivity. Qed.

(** ** Escaped page text *)

(** The literals that stand for a text: plain ASCII characters, byte escapes
    below 128, character escapes. *)
Inductive js_literal : bytes → bytes → Prop :=
  | js_nil : js_literal [] []
  | js_plain c s e : byte_val c < 128 → c ≠ x5c → js_literal s e → js_literal (c :: s) (c :: e)
  | js_hex v a b s e : parse_hex [a; b] = Some v → js_literal s e →
      js_literal (char_bytes v ++ s) (x5c :: x78 :: a :: b :: e)
  | js_unicode v a b c d s e : parse_hex [a; b; c; d] = Some v → char_from_u32 v = Some v → js_literal s e →
      js_literal (char_bytes v ++ s) (x5c :: x75 :: a :: b :: c :: d :: e)
  | js_simple c esc s e : simple_escape esc = Some c → js_literal s e → js_literal (c :: s) (x5c :: esc :: e).

Lemma hex_digit_ascii c d : to_digit 16 c = Some d → byte_val c < 128.
Proof.
  unfold to_digit. destruct (is_ascii_digit c) eqn:E1; [|destruct (is_ascii_lower c) eqn:E2;
    [|destruct (is_ascii_upper c) eqn:E3; [|done]]];
    unfold is_ascii_digit, is_ascii_lower, is_ascii_upper in *; bool_to_prop; intros _; lia.
Qed.

Lemma hex_ascii s v : parse_hex s = Some v → Forall (λ c, byte_val c < 128) s.
Proof.
  assert (Hd : ∀ s acc v, parse_hex_digits s acc = Some v → Forall (λ c, byte_val c < 128) s).
  { clear. induction s as [|c s IH]; intros acc v; [constructor|]. simpl.
    destruct (to_digit 16 c) eqn:E; [|done]. case_if; [done|]. intros H%IH. constructor; [|done].
    by eapply hex_digit_ascii. }
  unfold parse_hex, strip_prefix. destruct (starts_with [x2b] s) eqn:E.
  - apply starts_with_iff in E as [t ->]. simpl. destruct t; [done|]. intros H%Hd. by constructor.
  - simpl. destruct s; [done|]. apply Hd.
Qed.

(** The decoder undoes every such literal. *)
Lemma decode_js_literal s e : js_literal s e → decode_js_string_escapes e = Some s.
Proof.
  induction 1 as [|c s e Hc Hb _ IH|v a b s e Hv _ IH|v a b c d s e Hv Hch _ IH|c esc s e He _ IH]; [done|..].
  - cbn [decode_js_string_escapes]. unfold is_byte. rewrite bool_decide_false by done. cbn [negb]. rewrite IH.
    unfold char_bytes. if_true. by rewrite byte_of_val.
  - cbn [decode_js_string_escapes]. unfold is_byte. rewrite !bool_decide_true by done. cbn [negb].
    unfold from_utf8. rewrite (ascii_utf8 _ (hex_ascii _ _ Hv)), Hv. by rewrite IH.
  - cbn [decode_js_string_escapes]. unfold is_byte. rewrite bool_decide_true by done. cbn [negb].
    change (bool_decide (x75 = x78)) with false. change (bool_decide (x75 = x75)) with true. cbn iota.
    unfold from_utf8. rewrite (ascii_utf8 _ (hex_ascii _ _ Hv)), Hv, Hch. by rewrite IH.
  - cbn [decode_js_string_escapes]. unfold is_byte. rewrite bool_decide_true by done. cbn [negb].
    rewrite (bool_decide_false (esc = x78)), (bool_decide_false (esc = x75)) by (by intros ->).
    by rewrite He, IH.
Qed.

(** Text outside ASCII that is not escaped is decoded as Latin-1: the two
    bytes of an accented letter become two characters. *)
Lemma decode_js_plain_utf8_garbled :
  decode_js_string_escapes (char_bytes 233) = Some (char_bytes 195 ++ char_bytes 169).
Proof. reflexivity. Qed.

(** ** Examples *)

(** A library that knows one envelope, [{}]. *)
Definition toy_relay_formats (data : RelayResponse) (outer : Value) : RelayFormats := {|
  value_of_json _ := Ok outer;
  json_of_value _ := bs "{}";
  json_of_request _ := bs "{}";
  relay_response_of_json s := if bool_decide (s = bs "{}") then Ok data else Err (bs "expected value");
  tunnel_response_of_json _ := Err (bs "expected value");
  batch_response_of_json _ := Err (bs "expected value");
  responses_of_json _ := Err (bs "expected value");
  zr_decode_all b := Ok b |}.

Definition demo_envelope : RelayResponse :=
  mk_relay_response (Some 404)
    (Some [(bs "Alt-Svc", Str (bs "h3")); (bs "Content-Encoding", Str (bs "gzip"));
           (bs "Set-Cookie", Array [Str (bs "a=1"); Null; Str (bs "b=2")]); (bs "X-N", Num (PosInt 7))])
    (Some (bs "aGVsbG8=")) None.

Lemma demo_fields_ok :
  Forall response_field [(bs "Set-Cookie", bs "a=1"); (bs "Set-Cookie", bs "b=2"); (bs "X-N", bs "7")].
Proof.
  repeat constructor; cbn [fst snd]; try done; by apply (bool_decide_unpack _).
Qed.

Lemma relay_json_rebuilt_witness :
  ∃ out, parse_relay_json (H := std_base64) (H0 := toy_relay_formats demo_envelope Null) (bs "<html>{}</html>") true = Ret out ∧
    split_response out = Some (404,
      [(bs "Set-Cookie", bs "a=1"); (bs "Set-Cookie", bs "b=2"); (bs "X-N", bs "7"); (bs "Content-Length", bs "5")],
      bs "hello").
Proof.
  apply (relay_json_rebuilt (H := std_base64) (H0 := toy_relay_formats demo_envelope Null)
           (bs "<html>{}</html>") true (bs "<html>{}</html>") demo_envelope (bs "hello")); try by vm_compute.
  apply demo_fields_ok.
Defined.

Definition crlf_envelope : RelayResponse :=
  mk_relay_response (Some 200) (Some [(bs "X-A", Str (bs "1" ++ crlf ++ bs "Set-Cookie: evil=1"))]) None None.

(** A value is written as it is: with a line break in it the browser reads a
    field that the envelope does not have. *)
Example header_value_splits :
  match parse_relay_json (H := std_base64) (H0 := toy_relay_formats crlf_envelope Null) (bs "{}") true with
  | Ret out => split_response out
  | _ => None
  end = Some (200, [(bs "X-A", bs "1"); (bs "Set-Cookie", bs "evil=1"); (bs "Content-Length", bs "0")], []).
Proof. vm_compute. reflexivity. Qed.
