(* ===== verification/RelayUrl.v ===== *)
(** * URLs, names and messages of the relay (src/domain_fronter.rs)

    The pure helpers around a relayed request: which host a URL names, which
    hosts the exit node serves, the rewriting of GraphQL URLs, redirect
    targets, the pool of SNI names, and what an error message says of quota. *)

From Stdlib Require Import Strings.Byte.
From S2P Require Import Prelude RustBytes Http ProxyHttp RelayWire Calendar.

(** ** URLs *)

(** [url.split_once("://")], the part after it, or all of the URL. *)
Definition after_scheme (url : bytes) : bytes :=
  match find_sub (bs "://") url with Some i => drop (i + 3) url | None => url end.

Definition extract_host (url : bytes) : option bytes :=
  let authority := split_first x2f (after_scheme url) in
  let authority := match rsplit_once x40 authority with Some (_, a) => a | None => authority end in
  let host := match strip_prefix [x5b] authority with
              | Some stripped => match split_once x5d stripped with Some (h, _) => h | None => stripped end
              | None => split_first x3a authority
              end in
  match host with [] => None | _ => Some (to_ascii_lowercase host) end.

(** The exit node's settings, as [DomainFronter::new] normalises them. *)
Record ExitNode := mk_exit { exit_enabled : bool; exit_url : bytes; exit_psk : bytes; exit_full : bool;
                             exit_hosts : list bytes }.

(** [s.trim_start_matches(c)]. *)
Fixpoint trim_start_matches (c : byte) (s : bytes) : bytes :=
  match s with x :: s' => if is_byte c x then trim_start_matches c s' else s | [] => [] end.

Definition exit_node_of_config (enabled : bool) (relay_url psk mode : bytes) (hosts : list bytes) : ExitNode :=
  mk_exit (enabled && negb (bool_decide (relay_url = [])) && negb (bool_decide (psk = [])))
    (trim_end_matches x2f relay_url) psk (bool_decide (to_ascii_lowercase mode = bs "full"))
    (List.filter (λ h, negb (bool_decide (h = [])))
       (map (λ h, to_ascii_lowercase (trim_start_matches x2e (trim h))) hosts)).

Definition exit_node_matches (x : ExitNode) (url : bytes) : bool :=
  if negb (exit_enabled x) then false
  else if exit_full x then true
  else match extract_host url with
       | None => false
       | Some host =>
           let host_lc := to_ascii_lowercase host in
           existsb (λ entry, bool_decide (host_lc = entry) || ends_with (x2e :: entry) host_lc) (exit_hosts x)
       end.

Definition normalize_x_graphql_url (url : bytes) : bytes :=
  match (match strip_prefix (bs "https://") url with Some r => Some r | None => strip_prefix (bs "http://") url end) with
  | None => url
  | Some rest =>
      match find_byte (is_byte x2f) rest with
      | None => url
      | Some slash =>
          let host := take slash rest in
          let path_and_query := drop slash rest in
          if negb (bool_decide (split_first x3a host = bs "x.com")) then url
          else match split_once x3f path_and_query with
               | None => url
               | Some (path, query) =>
                   if negb (starts_with (bs "/i/api/graphql/") path) || negb (starts_with (bs "variables=") query)
                   then url
                   else
                     let scheme := if starts_with (bs "https://") url then bs "https://" else bs "http://" in
                     scheme ++ host ++ path ++ bs "?" ++ split_first x26 query
               end
      end
  end.

Definition parse_redirect (location : bytes) : bytes * option bytes :=
  match (match strip_prefix (bs "https://") location with
         | Some r => Some r | None => strip_prefix (bs "http://") location end) with
  | Some rest =>
      match find_byte (is_byte x2f) rest with
      | Some slash => (drop slash rest, Some (take slash rest))
      | None => (bs "/", Some rest)
      end
  | None => (location, None)
  end.

(** ** Names *)

Definition DEFAULT_GOOGLE_SNI_POOL : list bytes :=
  [bs "www.google.com"; bs "mail.google.com"; bs "drive.google.com"; bs "docs.google.com"; bs "calendar.google.com";
   bs "accounts.google.com"; bs "scholar.google.com"; bs "maps.google.com"; bs "chat.google.com";
   bs "translate.google.com"; bs "play.google.com"; bs "lens.google.com"; bs "chromewebstore.google.com"].

Definition build_sni_pool_for (primary : bytes) (user_pool : list bytes) : list bytes :=
  let primary := trim primary in
  match List.filter (λ s, negb (bool_decide (s = []))) (map trim user_pool) with
  | [] =>
      primary ::
      (if bool_decide (primary ∈ DEFAULT_GOOGLE_SNI_POOL)
       then List.filter (λ s, negb (bool_decide (s = primary))) DEFAULT_GOOGLE_SNI_POOL else [])
  | user_filtered => user_filtered
  end.

(** [next_sni]: the name and the counter after it. *)
Definition next_sni (sni_hosts : list bytes) (sni_idx : Z) : bytes * Z :=
  (nth (Z.to_nat (sni_idx mod len sni_hosts)) sni_hosts [], wadd64 sni_idx 1).

(** [format!("{:0w$}", n)]. *)
Definition fmt_padded (w : nat) (n : Z) : bytes :=
  let s := fmt_uint n in replicate (w - length s) x30 ++ s.

Definition current_pt_day_key (secs : Z) : bytes :=
  let '(y, m, d) := unix_to_ymd_utc (unix_to_pt_seconds secs) in
  fmt_padded 4 y ++ bs "-" ++ fmt_padded 2 m ++ bs "-" ++ fmt_padded 2 d.

(** ** Methods, statuses, messages *)

Definition is_method_safe_for_fanout (method : bytes) : bool :=
  bool_decide (to_ascii_uppercase method ∈ [bs "GET"; bs "HEAD"; bs "OPTIONS"]).

Definition is_h2_fronting_refusal_status (status : Z) : bool := status =? 421.

Definition is_redirect_status (status : Z) : bool :=
  bool_decide (status ∈ [301; 302; 303; 307; 308]).

(** [contains] of "quota", "daily limit", ..., "datenübertragungsrate", ... *)
Definition QUOTA_SIGNS : list bytes :=
  [bs "quota"; bs "daily limit"; bs "rate limit"; bs "too many times"; bs "service invoked"; bs "bandwidth";
   bs "bandbreitenkontingent"; bs "daten" ++ [xc3; xbc] ++ bs "bertragungsrate"; bs "transfer rate";
   bs "limit exceeded"].

Definition looks_like_quota_error (msg : bytes) : bool :=
  existsb (contains (to_ascii_lowercase msg)) QUOTA_SIGNS.

Definition should_blacklist (status : Z) (body : bytes) : bool :=
  if (status =? 429) || (status =? 403) then true else looks_like_quota_error body.

Fixpoint is_quota_like_fronter_error (e : FronterError) : bool :=
  match e with
  | ERelay msg => looks_like_quota_error msg
  | ENonRetryable inner => is_quota_like_fronter_error inner
  | _ => false
  end.

(** The characters of a string, for [chars()]. *)
Fixpoint chars_loop (fuel : nat) (s : bytes) : list bytes :=
  match fuel, s with
  | S fuel', _ :: _ => match utf8_step s with inl w => take w s :: chars_loop fuel' (drop w s) | inr _ => [] end
  | _, _ => []
  end.

Definition mask_script_id (id : bytes) : bytes :=
  let cs := chars_loop (length id) id in
  let n := length cs in
  if (n <=? 8)%nat then bs "***" else concat (take 4 cs) ++ bs "..." ++ concat (drop (n - 4) cs).
