(* ===== verification/Relay.v ===== *)
(** * Relayed requests (src/domain_fronter.rs)

    [relay] and what it calls: the exit node, the cache, the fan-out, the
    retry, one attempt over HTTP/2 or a pooled HTTP/1.1 connection with its
    redirects, and the quota and blacklist bookkeeping around it.  What the
    network does in an attempt is its input ([Attempt]); [None] in it stands
    for an operation that has not finished when the request's deadline
    passes.  Concurrent identical requests are the subject of [Coalesce]. *)

From Stdlib Require Import Strings.Byte.
From S2P Require Import Prelude RustBytes Base64 Mux Cache Quota Scripts Http RelayWire RelayJson RelayUrl.

(** ** Configuration and state *)

Record RelayConfig := mk_relay_config {
  cf_auth_key : bytes;
  cf_parallel_relay : Z;
  cf_normalize_x_graphql : bool;
  cf_strip_noise : bool;
  cf_exit : ExitNode
}.

Definition http_host : bytes := bs "script.google.com".

(** The counters of one remote host. *)
Record HostStat := mk_host_stat { hs_requests : Z; hs_cache_hits : Z; hs_bytes : Z; hs_latency : Z }.

(** The part of [DomainFronter] that requests change, but for the map of
    requests in flight.  [rs_sent] is the history of the payloads that Apps
    Script may have received from attempts that ended or expired, by the
    deployment they went to. *)
Record RelayState := mk_relay_state {
  rs_scripts : Fronter;
  rs_quota : QuotaTracker;
  rs_cache : ResponseCache;
  rs_h2_disabled : bool;
  rs_calls : Z;
  rs_failures : Z;
  rs_bytes : Z;
  rs_today : Today;
  rs_sites : gmap bytes HostStat;
  rs_sent : list (bytes * bytes)
}.

Definition with_scripts (f : Fronter → Fronter) (st : RelayState) : RelayState :=
  mk_relay_state (f (rs_scripts st)) (rs_quota st) (rs_cache st) (rs_h2_disabled st) (rs_calls st) (rs_failures st)
    (rs_bytes st) (rs_today st) (rs_sites st) (rs_sent st).
Definition with_quota (f : QuotaTracker → QuotaTracker) (st : RelayState) : RelayState :=
  mk_relay_state (rs_scripts st) (f (rs_quota st)) (rs_cache st) (rs_h2_disabled st) (rs_calls st) (rs_failures st)
    (rs_bytes st) (rs_today st) (rs_sites st) (rs_sent st).
Definition with_cache (f : ResponseCache → ResponseCache) (st : RelayState) : RelayState :=
  mk_relay_state (rs_scripts st) (rs_quota st) (f (rs_cache st)) (rs_h2_disabled st) (rs_calls st) (rs_failures st)
    (rs_bytes st) (rs_today st) (rs_sites st) (rs_sent st).
Definition with_sites (f : gmap bytes HostStat → gmap bytes HostStat) (st : RelayState) : RelayState :=
  mk_relay_state (rs_scripts st) (rs_quota st) (rs_cache st) (rs_h2_disabled st) (rs_calls st) (rs_failures st)
    (rs_bytes st) (rs_today st) (f (rs_sites st)) (rs_sent st).
Definition with_sent (f : list (bytes * bytes) → list (bytes * bytes)) (st : RelayState) : RelayState :=
  mk_relay_state (rs_scripts st) (rs_quota st) (rs_cache st) (rs_h2_disabled st) (rs_calls st) (rs_failures st)
    (rs_bytes st) (rs_today st) (rs_sites st) (f (rs_sent st)).
(** [relay_calls], [relay_failures] and [bytes_relayed] move by these. *)
Definition with_counts (calls failures bytes : Z) (st : RelayState) : RelayState :=
  mk_relay_state (rs_scripts st) (rs_quota st) (rs_cache st) (rs_h2_disabled st) (wadd64 (rs_calls st) calls)
    (wadd64 (rs_failures st) failures) (wadd64 (rs_bytes st) bytes) (rs_today st) (rs_sites st)
    (rs_sent st).
(** [h2_disabled.store(true)]. *)
Definition sticky_disable_h2 (st : RelayState) : RelayState :=
  mk_relay_state (rs_scripts st) (rs_quota st) (rs_cache st) true (rs_calls st) (rs_failures st)
    (rs_bytes st) (rs_today st) (rs_sites st) (rs_sent st).

Definition with_today (f : Today → Today) (st : RelayState) : RelayState :=
  mk_relay_state (rs_scripts st) (rs_quota st) (rs_cache st) (rs_h2_disabled st) (rs_calls st) (rs_failures st)
    (rs_bytes st) (f (rs_today st)) (rs_sites st) (rs_sent st).

Definition record_site (url : bytes) (cache_hit : bool) (bytes latency_ns : Z) (st : RelayState) : RelayState :=
  match extract_host url with
  | None => st
  | Some host =>
      with_sites (λ m,
        let e := default (mk_host_stat 0 0 0 0) (m !! host) in
        <[host := mk_host_stat (wadd64 (hs_requests e) 1)
                    (if cache_hit then wadd64 (hs_cache_hits e) 1 else hs_cache_hits e)
                    (wadd64 (hs_bytes e) bytes) (wadd64 (hs_latency e) latency_ns)]> m) st
  end.

(** ** One attempt *)

Inductive RequestSent := SentNo | SentMaybe.

(** A pooled connection: the outcome of the coming request writes ([None] or
    past the end: written) and the reads. *)
Record Conn := mk_conn { c_writes : list (option bytes); c_reads : Stream }.

Record Attempt := mk_attempt {
  a_now : Z;                     (** milliseconds on the monotonic clock *)
  a_secs : Z;                    (** seconds since the epoch *)
  a_io : bool;                   (** the quota file can be written *)
  a_pad : option bytes;
  a_h2 : option (result (Z * bytes) (FronterError * RequestSent));
  a_conn : option (result Conn FronterError);
  a_h1_done : bool               (** the exchange on it ends before the deadline *)
}.

Definition request_head (path : bytes) (n : Z) : bytes :=
  bs "POST " ++ path ++ bs " HTTP/1.1" ++ crlf ++ bs "Host: " ++ http_host ++ crlf ++
  bs "Content-Type: application/json" ++ crlf ++ bs "Content-Length: " ++ fmt_uint n ++ crlf ++
  bs "Accept-Encoding: gzip" ++ crlf ++ bs "Connection: keep-alive" ++ crlf ++ crlf.

Definition redirect_request (rpath rhost : bytes) : bytes :=
  bs "GET " ++ rpath ++ bs " HTTP/1.1" ++ crlf ++ bs "Host: " ++ rhost ++ crlf ++
  bs "Accept-Encoding: gzip" ++ crlf ++ bs "Connection: keep-alive" ++ crlf ++ crlf.

Definition script_path (script_id : bytes) : bytes := bs "/macros/s/" ++ script_id ++ bs "/exec".

Section exchange.
Context (decode_gzip : bytes → option bytes).

(** Write a request, read its response. *)
Definition round_trip (c : Conn) : run (Z * Headers * bytes * Conn) :=
  match c_writes c with
  | Some e :: _ => Throw (EIo e)
  | _ =>
      let* (status, headers, body, s) := read_http_response decode_gzip (c_reads c) in
      Ret (status, headers, body, mk_conn (drop 1 (c_writes c)) s)
  end.

(** [for _ in 0..5]: the requests written and the last response. *)
Fixpoint follow_redirects (hops : nat) (resp : Z * Headers * bytes) (c : Conn) (written : list bytes)
    : list bytes * run (Z * Headers * bytes) :=
  match hops with
  | O => (written, Ret resp)
  | S hops' =>
      let '(status, headers, _) := resp in
      if negb (is_redirect_status status) then (written, Ret resp)
      else match header_get headers (bs "location") with
           | None => (written, Ret resp)
           | Some loc =>
               let '(rpath, rhost) := parse_redirect loc in
               let written := written ++ [redirect_request rpath (default http_host rhost)] in
               match round_trip c with
               | Ret (s, h, b, c) => follow_redirects hops' (s, h, b) c written
               | Throw e => (written, Throw e)
               | Panicked => (written, Panicked)
               | OutOfFuel => (written, OutOfFuel)
               end
           end
  end.

(** The whole exchange on a connection, with the requests written. *)
Definition h1_exchange (path payload : bytes) (c : Conn) : list bytes * run (Z * Headers * bytes) :=
  let first := [request_head path (len payload) ++ payload] in
  match round_trip c with
  | Ret (s, h, b, c) => follow_redirects 5 (s, h, b) c first
  | Throw e => (first, Throw e)
  | Panicked => (first, Panicked)
  | OutOfFuel => (first, OutOfFuel)
  end.
End exchange.

Section relay.
Context `{!Base64} `{!RelayFormats} (decode_gzip : bytes → option bytes) (cfg : RelayConfig).

(** The tail of both transports: a status other than 200 is an error, else
    the envelope decides; a quota message benches the deployment. *)
Definition handle_envelope (now : Z) (script_id : bytes) (status : Z) (resp_body : bytes) (st : RelayState)
    : run bytes * RelayState :=
  if negb (status =? 200) then
    let body_txt := take_chars 200 (from_utf8_lossy resp_body) in
    (Throw (ERelay (bs "Apps Script HTTP " ++ fmt_uint status ++ bs ": " ++ body_txt)),
     if should_blacklist status body_txt then with_scripts (blacklist_script now script_id) st else st)
  else
    let r := parse_relay_json resp_body (cf_strip_noise cfg) in
    (r, match r with
        | Throw (ERelay msg) =>
            if looks_like_quota_error msg then with_scripts (blacklist_script now script_id) st else st
        | _ => st
        end).

Definition mark_sent (script_id payload : bytes) : RelayState → RelayState :=
  with_sent (λ l, l ++ [(script_id, payload)]).

(** The h1 part of an attempt. *)
Definition attempt_h1 (a : Attempt) (script_id payload : bytes) (st : RelayState) : option (run bytes) * RelayState :=
  match a_conn a with
  | None => (None, st)
  | Some (Err e) => (Some (Throw e), st)
  | Some (Ok c) =>
      let st := match c_writes c with Some _ :: _ => st | _ => mark_sent script_id payload st end in
      if negb (a_h1_done a) then (None, st)
      else match (h1_exchange decode_gzip (script_path script_id) payload c).2 with
      | Ret (status, _, resp_body) =>
          let '(r, st) := handle_envelope (a_now a) script_id status resp_body st in (Some r, st)
      | Throw e => (Some (Throw e), st)
      | Panicked => (Some Panicked, st)
      | OutOfFuel => (Some OutOfFuel, st)
      end
  end.

Definition do_relay_once_inner (a : Attempt) (script_id method payload : bytes) (st : RelayState)
    : option (run bytes) * RelayState :=
  match a_h2 a with
  | None => (None, mark_sent script_id payload st)
  | Some (Ok (status, resp_body)) =>
      if is_h2_fronting_refusal_status status then attempt_h1 a script_id payload (sticky_disable_h2 st)
      else
        let '(r, st) := handle_envelope (a_now a) script_id status resp_body (mark_sent script_id payload st) in
        (Some r, st)
  | Some (Err (_, SentNo)) => attempt_h1 a script_id payload st
  | Some (Err (e, SentMaybe)) =>
      let st := mark_sent script_id payload st in
      if is_method_safe_for_fanout method then attempt_h1 a script_id payload st
      else (Some (Throw (ENonRetryable e)), st)
  end.

(** The start of [do_relay_once_with]: the payload, or the refusal. *)
Definition begin_attempt (a : Attempt) (script_id method url : bytes) (headers : Headers) (body : bytes)
    (st : RelayState) : result bytes FronterError * RelayState :=
  if is_hard_stopped script_id (rs_quota st) then
    (Err (ERelay (bs "account " ++ mask_script_id script_id ++ bs " is quota-hard-stopped; skipping dispatch")), st)
  else
    let payload := build_payload_json (cf_auth_key cfg) (a_pad a) method url headers body in
    (Ok payload, with_quota (record_attempt (a_secs a) script_id (len payload) (a_io a)) st).

(** The bookkeeping of its result. *)
Definition record_result (a : Attempt) (script_id : bytes) (r : run bytes) (st : RelayState) : RelayState :=
  match r with
  | Ret b => with_quota (record_success script_id (len b)) st
  | Throw e =>
      let is_quota := is_quota_like_fronter_error e in
      let st := with_quota (record_failure script_id is_quota) st in
      if is_quota then with_quota (mark_exhausted script_id (display e) (a_io a)) st else st
  | _ => st
  end.

(** The rest: the dispatch and its bookkeeping. *)
Definition finish_attempt (a : Attempt) (script_id method payload : bytes) (st : RelayState)
    : option (run bytes) * RelayState :=
  match do_relay_once_inner a script_id method payload st with
  | (Some r, st) => (Some r, record_result a script_id r st)
  | (None, st) => (None, st)
  end.

Definition do_relay_once_with (a : Attempt) (script_id method url : bytes) (headers : Headers) (body : bytes)
    (st : RelayState) : option (run bytes) * RelayState :=
  match begin_attempt a script_id method url headers body st with
  | (Err e, st) => (Some (Throw e), st)
  | (Ok payload, st) => finish_attempt a script_id method payload st
  end.

Definition do_relay_once (a : Attempt) (method url : bytes) (headers : Headers) (body : bytes) (st : RelayState)
    : option (run bytes) * RelayState :=
  let '(script_id, f) := next_script_id (rs_quota st) (a_now a) (rs_scripts st) in
  do_relay_once_with a script_id method url headers body (with_scripts (λ _, f) st).

(** ** Fan-out *)

(** The futures, each polled up to its first wait. *)
Fixpoint begin_all (env : nat → Attempt) (i : nat) (ids : list bytes) (method url : bytes) (headers : Headers)
    (body : bytes) (st : RelayState) : list (Attempt * bytes * result bytes FronterError) * RelayState :=
  match ids with
  | sid :: ids' =>
      let '(r, st) := begin_attempt (env i) sid method url headers body st in
      let '(rest, st) := begin_all env (S i) ids' method url headers body st in
      ((env i, sid, r) :: rest, st)
  | [] => ([], st)
  end.

(** [select_ok]: [order] picks the next future to complete among those left;
    the first success ends it and drops the others, else the last error is the
    result.  A future that is still waiting when the deadline passes
    ([pending]) keeps it from ending in an error. *)
Fixpoint select_ok (order : list nat) (futs : list (Attempt * bytes * result bytes FronterError)) (method : bytes)
    (pending : bool) (st : RelayState) : option (run bytes) * RelayState :=
  match order with
  | [] => (None, st)
  | i :: order' =>
      match futs !! i with
      | None => (None, st)
      | Some (a, sid, begun) =>
          let futs := delete i futs in
          let '(r, st) := match begun with
                          | Err e => (Some (Throw e), st)
                          | Ok payload => finish_attempt a sid method payload st
                          end in
          match r with
          | Some (Throw e) =>
              match futs with
              | [] => (if pending then None else Some (Throw e), st)
              | _ => select_ok order' futs method pending st
              end
          | None => select_ok order' futs method true st
          | done => (done, st)
          end
      end
  end.

Definition do_relay_parallel (env : nat → Attempt) (order : list nat) (method url : bytes)
    (headers : Headers) (body : bytes) (fan : Z) (st : RelayState) : option (run bytes) * RelayState :=
  let '(sids, f) := next_script_ids (rs_quota st) (a_now (env 0%nat)) fan (rs_scripts st) in
  let st := with_scripts (λ _, f) st in
  match sids with
  | [] => (Some (Throw (ERelay (bs "no script_ids available"))), st)
  | _ =>
      let '(futs, st) := begin_all env 0 sids method url headers body st in
      select_ok order futs method false st
  end.

(** ** The request *)

Definition hard_stop_message : bytes :=
  bs "All Apps Script accounts quota exhausted; hard stop active. Quota resets on a rolling 24-hour window per account.".

(** [env] has the attempts by number, [order] the completions of a fan-out. *)
Definition do_relay_with_retry (env : nat → Attempt) (order : list nat) (method url : bytes) (headers : Headers)
    (body : bytes) (st : RelayState) : option (run bytes) * RelayState :=
  if is_globally_hard_stopped (rs_quota st) then (Some (Throw (ERelay hard_stop_message)), st)
  else
    let fan := Z.max (Z.min (cf_parallel_relay cfg) (len (ids (rs_scripts st)))) 1 in
    if (2 <=? fan) && is_method_safe_for_fanout method then
      do_relay_parallel env order method url headers body fan st
    else
      match do_relay_once (env 0%nat) method url headers body st with
      | (Some (Throw e), st) =>
          if negb (is_retryable e) then (Some (Throw (into_inner e)), st)
          else do_relay_once (env 1%nat) method url headers body st
      | done => done
      end.

Definition timeout_message : bytes :=
  bs "Relay timeout " ++ [xe2; x80; x94] ++
  bs " Apps Script did not respond. Most likely cause: daily UrlFetchApp quota exhausted (resets 00:00 UTC). Other possibilities: script.google.com unreachable from your network, or the Apps Script edge is having issues. Check the script's Executions tab at script.google.com for the real error.".

(** A call that panics has no response. *)
Definition relay_uncoalesced (env : nat → Attempt) (order : list nat) (secs now : Z) (method url : bytes)
    (headers : Headers) (body : bytes) (cache_key_opt : option bytes) (st : RelayState) : option bytes * RelayState :=
  let st := with_counts 1 0 0 st in
  match do_relay_with_retry env order method url headers body st with
  | (Some (Ret b), st) =>
      let st := with_today (record_today (current_pt_day_key secs) (len b)) (with_counts 0 0 (len b) st) in
      (Some b,
       match cache_key_opt with
       | Some k => match parse_ttl b url with
                   | Some ttl => with_cache (put now k b (ttl * 1000)) st
                   | None => st
                   end
       | None => st
       end)
  | (Some (Throw e), st) =>
      (Some (error_response 502 (bs "Relay error: " ++ display e)), with_counts 0 1 0 st)
  | (None, st) => (Some (error_response 504 timeout_message), with_counts 0 1 0 st)
  | (_, st) => (None, st)
  end.

(** ** The exit node *)

Definition outer_error (status : Z) (resp_body : bytes) : FronterError :=
  ERelay (bs "Apps Script HTTP " ++ fmt_uint status ++ bs " (exit-node outer call): " ++
          take_chars 200 (from_utf8_lossy resp_body)).

(** The outcome and whether the payload may have reached Apps Script. *)
Definition send_prebuilt_payload_through_relay (a : Attempt) (payload : bytes) (st : RelayState)
    : option (run bytes) * RelayState :=
  let '(script_id, f) := next_script_id (rs_quota st) (a_now a) (rs_scripts st) in
  let st := with_scripts (λ _, f) st in
  let body_of status resp_body := if negb (status =? 200) then Throw (outer_error status resp_body) else Ret resp_body in
  let over_h1 st :=
    match a_conn a with
    | None => (None, st)
    | Some (Err e) => (Some (Throw e), st)
    | Some (Ok c) =>
        let st := match c_writes c with Some _ :: _ => st | _ => mark_sent script_id payload st end in
        if negb (a_h1_done a) then (None, st)
        else (Some (let* (status, _, resp_body) := (h1_exchange decode_gzip (script_path script_id) payload c).2 in
                    body_of status resp_body), st)
    end in
  match a_h2 a with
  | None => (None, mark_sent script_id payload st)
  | Some (Ok (status, resp_body)) =>
      if is_h2_fronting_refusal_status status then over_h1 (sticky_disable_h2 st)
      else (Some (body_of status resp_body), mark_sent script_id payload st)
  | Some (Err (_, SentNo)) => over_h1 st
  | Some (Err (e, SentMaybe)) => (Some (Throw (ENonRetryable e)), mark_sent script_id payload st)
  end.

Definition relay_via_exit_node (a : Attempt) (method url : bytes) (headers : Headers) (body : bytes) (st : RelayState)
    : option (run bytes) * RelayState :=
  let inner_json := build_exit_node_inner_payload (exit_psk (cf_exit cfg)) method url headers body in
  let payload := build_payload_json (cf_auth_key cfg) (a_pad a) (bs "POST") (exit_url (cf_exit cfg))
                   [(bs "Content-Type", bs "application/json")] inner_json in
  let '(r, st) := send_prebuilt_payload_through_relay a payload st in
  (match r with Some r => Some (let* app_body := r in parse_exit_node_response app_body) | None => None end, st).

(** ** [relay] up to the requests in flight *)

(** What a request comes to before it looks for an identical one in flight:
    an answer, a call that never returns (no deadline covers the exit node) or
    panics, or the URL and cache key to go on with. *)
Inductive Entered :=
  | Answer (response : bytes)
  | Stuck
  | Dead
  | Proceed (url : bytes) (key : option bytes).

(** The cache lookup of a request that may be shared. *)
Definition lookup (now latency : Z) (method url : bytes) (headers : Headers) (body : bytes) (st : RelayState)
    : Entered * RelayState :=
  let has_range := existsb (λ kv, eq_ignore_ascii_case kv.1 (bs "range")) headers in
  let coalescible := is_cacheable_method method && bool_decide (body = []) && negb has_range in
  if coalescible then
    let key := cache_key method url in
    let '(hit, c) := get now key (rs_cache st) in
    let st := with_cache (λ _, c) st in
    match hit with
    | Some b => (Answer b, record_site url true (len b) latency st)
    | None => (Proceed url (Some key), st)
    end
  else (Proceed url None, st).

Definition relay_enter (exit_env : Attempt) (secs now latency : Z) (method url : bytes) (headers : Headers)
    (body : bytes) (st : RelayState) : Entered * RelayState :=
  let st := with_quota (record_relay secs) st in
  if is_globally_hard_stopped (rs_quota st) then
    (Answer (error_response 503 hard_stop_message), with_counts 0 1 0 st)
  else
    let url := if cf_normalize_x_graphql cfg then normalize_x_graphql_url url else url in
    if exit_node_matches (cf_exit cfg) url then
      match relay_via_exit_node exit_env method url headers body st with
      | (Some (Ret b), st) =>
          (Answer b, with_counts 0 0 (wadd64 (len body) (len b)) (record_site url false (len b) latency st))
      | (Some (Throw e), st) =>
          if negb (is_retryable e) && negb (is_method_safe_for_fanout method) then
            (Answer (error_response 502 (bs "Relay error: " ++ display (into_inner e))),
             record_site url false 0 latency (with_counts 0 1 0 st))
          else lookup now latency method url headers body st
      | (Some Panicked, st) => (Dead, st)
      | (Some OutOfFuel, st) => (Stuck, st)
      | (None, st) => (Stuck, st)
      end
    else lookup now latency method url headers body st.

(** [relay] for a request that finds none like it in flight. *)
Definition relay (exit_env : Attempt) (env : nat → Attempt) (order : list nat) (secs now latency : Z)
    (method url : bytes) (headers : Headers) (body : bytes) (st : RelayState) : option bytes * RelayState :=
  match relay_enter exit_env secs now latency method url headers body st with
  | (Answer b, st) => (Some b, st)
  | (Stuck, st) => (None, st)
  | (Dead, st) => (None, st)
  | (Proceed url key, st) =>
      match relay_uncoalesced env order secs now method url headers body key st with
      | (Some b, st) => (Some b, record_site url false (len b) latency st)
      | (None, st) => (None, st)
      end
  end.
End relay.

(** ** Redirects *)

(** A later request of an exchange is a bare [GET]: the payload, which holds
    the key, is written once, before any redirect is known. *)
Lemma follow_redirects_written gz hops resp c written :
  ∃ more, (follow_redirects gz hops resp c written).1 = written ++ more ∧ (length more ≤ hops)%nat ∧
    Forall (λ r, ∃ rpath rhost, r = redirect_request rpath rhost) more.
Proof.
  revert resp c written. induction hops as [|hops IH]; intros [[status headers] body] c written; cbn [follow_redirects].
  { exists []. rewrite app_nil_r. split_and!; [done|simpl; lia|constructor]. }
  case_if; [exists []; rewrite app_nil_r; split_and!; [done|simpl; lia|constructor]|].
  destruct (header_get headers (bs "location")) as [loc|]; [|exists []; rewrite app_nil_r; split_and!; [done|simpl; lia|constructor]].
  destruct (parse_redirect loc) as [rpath rhost].
  assert (Hone : Forall (λ r, ∃ rpath rhost, r = redirect_request rpath rhost) [redirect_request rpath (default http_host rhost)])
    by (repeat constructor; eauto).
  destruct (round_trip gz c) as [[[[s h] b] c']| | |]; [|eexists; split_and!; [done|simpl; lia|done]..].
  destruct (IH (s, h, b) c' (written ++ [redirect_request rpath (default http_host rhost)])) as (more & Ew & Hl & Hf).
  exists (redirect_request rpath (default http_host rhost) :: more). rewrite Ew, <-app_assoc.
  split_and!; [done|simpl; lia|]. by apply (Forall_app_2 _ [_]).
Qed.

Theorem h1_exchange_requests gz path payload c :
  ∃ more, (h1_exchange gz path payload c).1 = (request_head path (len payload) ++ payload) :: more ∧
    (length more ≤ 5)%nat ∧ Forall (λ r, ∃ rpath rhost, r = redirect_request rpath rhost) more.
Proof.
  unfold h1_exchange. destruct (round_trip gz c) as [[[[s h] b] c']| | |].
  - destruct (follow_redirects_written gz 5 (s, h, b) c' [request_head path (len payload) ++ payload]) as (more & E & H).
    exists more. by rewrite E.
  - exists []. split_and!; [done|simpl; lia|constructor].
  - exists []. split_and!; [done|simpl; lia|constructor].
  - exists []. split_and!; [done|simpl; lia|constructor].
Qed.

(** ** What requests cost *)

(** How often [id] occurs. *)
Definition times (id : bytes) (l : list bytes) : nat := length (List.filter (λ x, bool_decide (x = id)) l).

Lemma times_app id l l' : times id (l ++ l') = (times id l + times id l')%nat.
Proof. unfold times. by rewrite List.filter_app, length_app. Qed.

Definition attempt_ids (ops : list QuotaOp) : list bytes :=
  omap (λ o, match o with QAttempt _ id _ _ => Some id | _ => None end) ops.

(** From [st] to [st'] the tracker was told of [ops], and of each account at
    most [k] payloads were sent per recorded attempt and [credit] more. *)
Definition costs (k : nat) (credit : list bytes) (st st' : RelayState) : Prop :=
  ∃ ops new, rs_quota st' = quota_run (rs_quota st) ops ∧ rs_sent st' = rs_sent st ++ new ∧
    ∀ id, (times id new.*1 ≤ k * (times id (attempt_ids ops) + times id credit))%nat.

Lemma costs_quiet k credit st st' ops :
  rs_quota st' = quota_run (rs_quota st) ops → rs_sent st' = rs_sent st → costs k credit st st'.
Proof. intros Hq Hs. exists ops, []. rewrite app_nil_r. split_and!; [done|done|]. intros id. apply Nat.le_0_l. Qed.

Lemma costs_refl k credit st : costs k credit st st.
Proof. by apply (costs_quiet k credit st st []). Qed.

Lemma costs_trans k c1 c2 st1 st2 st3 : costs k c1 st1 st2 → costs k c2 st2 st3 → costs k (c1 ++ c2) st1 st3.
Proof.
  intros (o1 & n1 & Hq1 & Hs1 & H1) (o2 & n2 & Hq2 & Hs2 & H2). exists (o1 ++ o2), (n1 ++ n2). split_and!.
  - rewrite Hq2, Hq1. unfold quota_run. by rewrite foldl_app.
  - by rewrite Hs2, Hs1, app_assoc.
  - intros id. unfold attempt_ids in *. rewrite fmap_app, omap_app, !times_app. specialize (H1 id). specialize (H2 id). rewrite !Nat.mul_add_distr_l in *. lia.
Qed.

Lemma costs_weaken k credit st st' ops st'' :
  costs k [] st st' → rs_quota st'' = quota_run (rs_quota st') ops → rs_sent st'' = rs_sent st' →
  costs k credit st st''.
Proof.
  intros H Hq Hs. pose proof (costs_trans k [] credit st st' st'' H (costs_quiet k credit st' st'' ops Hq Hs)). done.
Qed.

(** At most [n] payloads went to [sid], and no attempt was recorded. *)
Definition sends (n : nat) (sid : bytes) (st st' : RelayState) : Prop :=
  ∃ ops new, rs_quota st' = quota_run (rs_quota st) ops ∧ attempt_ids ops = [] ∧
    rs_sent st' = rs_sent st ++ new ∧ Forall (λ x, x.1 = sid) new ∧ (length new ≤ n)%nat.

Lemma sends_trans n1 n2 sid st1 st2 st3 :
  sends n1 sid st1 st2 → sends n2 sid st2 st3 → sends (n1 + n2) sid st1 st3.
Proof.
  intros (o1 & w1 & Hq1 & Ha1 & Hs1 & Hf1 & Hl1) (o2 & w2 & Hq2 & Ha2 & Hs2 & Hf2 & Hl2).
  exists (o1 ++ o2), (w1 ++ w2). split_and!.
  - rewrite Hq2, Hq1. unfold quota_run. by rewrite foldl_app.
  - unfold attempt_ids in *. by rewrite omap_app, Ha1, Ha2.
  - by rewrite Hs2, Hs1, app_assoc.
  - by apply Forall_app.
  - rewrite length_app. lia.
Qed.

(** A change that leaves the tracker and the history alone. *)
Lemma sends_none sid st st' : rs_quota st' = rs_quota st → rs_sent st' = rs_sent st → sends 0 sid st st'.
Proof. intros Hq Hs. exists [], []. rewrite app_nil_r. split_and!; done. Qed.

Lemma sends_quota sid st o :
  match o with QAttempt _ _ _ _ => False | _ => True end → sends 0 sid st (with_quota (λ t, quota_op t o) st).
Proof.
  intros Ho. exists [o], []. rewrite app_nil_r. split_and!; try done. by destruct o.
Qed.

Lemma sends_mark sid payload st : sends 1 sid st (mark_sent sid payload st).
Proof. exists [], [(sid, payload)]. split_and!; try done. by constructor. Qed.

Lemma sends_le n m sid st st' : (n ≤ m)%nat → sends n sid st st' → sends m sid st st'.
Proof. intros Hle (ops & new & H). exists ops, new. destruct_and! H. split_and!; try done. lia. Qed.

Section costs.
Context `{!Base64} `{!RelayFormats} (gz : bytes → option bytes) (cfg : RelayConfig).

Lemma handle_envelope_sends now sid sid' status body st :
  sends 0 sid st (handle_envelope cfg now sid' status body st).2.
Proof.
  unfold handle_envelope. case_if; simpl; [case_if; by apply sends_none|].
  destruct (parse_relay_json _ _) as [|[]| |]; try (by apply sends_none). case_if; by apply sends_none.
Qed.

Lemma attempt_h1_sends a sid payload st : sends 1 sid st (attempt_h1 gz cfg a sid payload st).2.
Proof.
  unfold attempt_h1. destruct (a_conn a) as [[c|e]|]; [|by apply (sends_le 0); [lia|apply sends_none]..].
  set (st1 := match c_writes c with Some _ :: _ => st | _ => mark_sent sid payload st end).
  assert (H1 : sends 1 sid st st1).
  { subst st1. destruct (c_writes c) as [|[]]; try apply sends_mark. apply (sends_le 0); [lia|by apply sends_none]. }
  case_if; [done|]. destruct (h1_exchange _ _ _ _).2 as [[[status h] b]| | |]; try done.
  pose proof (handle_envelope_sends (a_now a) sid sid status b st1) as H2.
  destruct (handle_envelope _ _ _ _ _ _) as [r st2]. exact (sends_trans 1 0 sid _ _ _ H1 H2).
Qed.

(** What one attempt may send: the payload once, or twice for a method that
    is safe to repeat. *)
Definition per_attempt (method : bytes) : nat := if is_method_safe_for_fanout method then 2%nat else 1%nat.

Lemma inner_sends a sid method payload st :
  sends (per_attempt method) sid st (do_relay_once_inner gz cfg a sid method payload st).2.
Proof.
  assert (Hk : (1 ≤ per_attempt method)%nat) by (unfold per_attempt; case_if; lia).
  unfold do_relay_once_inner. destruct (a_h2 a) as [[[status b]|[e []]]|].
  - case_if.
    + apply (sends_le (0 + 1)); [lia|]. apply (sends_trans 0 1 sid _ (sticky_disable_h2 st)); [by apply sends_none|apply attempt_h1_sends].
    + pose proof (handle_envelope_sends (a_now a) sid sid status b (mark_sent sid payload st)) as H2.
      destruct (handle_envelope _ _ _ _ _ _) as [r st2]. apply (sends_le (1 + 0)); [lia|].
      eapply sends_trans; [apply sends_mark|exact H2].
  - eapply sends_le; [exact Hk|apply attempt_h1_sends].
  - unfold per_attempt in *. case_if.
    + apply (sends_trans 1 1 sid _ (mark_sent sid payload st)); [apply sends_mark|apply attempt_h1_sends].
    + apply sends_mark.
  - eapply sends_le; [exact Hk|apply sends_mark].
Qed.

Lemma record_result_sends a sid r st : sends 0 sid st (record_result a sid r st).
Proof.
  unfold record_result. destruct r as [b|e| |]; try (by apply sends_none).
  - apply (sends_quota sid st (QSuccess sid (len b))). done.
  - case_if.
    + eapply (sends_trans 0 0); [apply (sends_quota sid st (QFailure sid true)); done|].
      apply (sends_quota sid _ (QExhausted sid (display e) (a_io a))). done.
    + apply (sends_quota sid st (QFailure sid false)). done.
Qed.

Lemma finish_sends a sid method payload st :
  sends (per_attempt method) sid st (finish_attempt gz cfg a sid method payload st).2.
Proof.
  unfold finish_attempt. pose proof (inner_sends a sid method payload st) as Hi.
  destruct (do_relay_once_inner _ _ _ _ _ _ _) as [[r|] st1]; [|done]. simpl in *.
  rewrite <-(Nat.add_0_r (per_attempt method)). eapply sends_trans; [exact Hi|apply record_result_sends].
Qed.

Lemma times_same id sid (l : list (bytes * bytes)) :
  Forall (λ x, x.1 = sid) l → times id l.*1 = if bool_decide (sid = id) then length l else 0%nat.
Proof.
  induction 1 as [|[k v] l Hk _ IH]; [by case_bool_decide|]. rewrite fmap_cons. cbn [fst] in *. subst k.
  change (sid :: l.*1) with ([sid] ++ l.*1). rewrite times_app, IH. unfold times. simpl.
  by case_bool_decide.
Qed.

Lemma sends_costs n sid st st' : sends n sid st st' → costs n [sid] st st'.
Proof.
  intros (ops & new & Hq & Ha & Hs & Hf & Hl). exists ops, new. split_and!; [done|done|].
  intros id. rewrite (times_same id sid new Hf), Ha. unfold times. simpl. case_bool_decide; simpl; lia.
Qed.

(** What a begun future has paid for. *)
Definition begun_id (fut : Attempt * bytes * result bytes FronterError) : option bytes :=
  match fut.2 with Ok _ => Some fut.1.2 | Err _ => None end.

Lemma begin_attempt_costs a sid method url headers body st r st' :
  begin_attempt cfg a sid method url headers body st = (r, st') →
  ∃ ops, rs_quota st' = quota_run (rs_quota st) ops ∧ rs_sent st' = rs_sent st ∧
    attempt_ids ops = match r with Ok _ => [sid] | Err _ => [] end.
Proof.
  unfold begin_attempt. case_if; intros [= <- <-].
  - by exists [].
  - by exists [QAttempt (a_secs a) sid (len (build_payload_json (cf_auth_key cfg) (a_pad a) method url headers body)) (a_io a)].
Qed.

Lemma once_with_costs a sid method url headers body st :
  costs (per_attempt method) [] st (do_relay_once_with gz cfg a sid method url headers body st).2.
Proof.
  unfold do_relay_once_with. destruct (begin_attempt _ _ _ _ _ _ _ _) as [r st1] eqn:E.
  apply begin_attempt_costs in E as (o1 & Hq1 & Hs1 & Ha1). destruct r as [payload|e]; [|by eapply costs_quiet].
  destruct (finish_sends a sid method payload st1) as (o2 & new & Hq2 & Ha2 & Hs2 & Hf & Hl).
  exists (o1 ++ o2), new. split_and!.
  - rewrite Hq2, Hq1. unfold quota_run. by rewrite foldl_app.
  - by rewrite Hs2, Hs1.
  - intros id. unfold attempt_ids in *. rewrite omap_app, Ha1, Ha2, app_nil_r.
    rewrite (times_same id sid new Hf). unfold times. simpl. case_bool_decide; simpl; lia.
Qed.

Lemma once_costs a method url headers body st :
  costs (per_attempt method) [] st (do_relay_once gz cfg a method url headers body st).2.
Proof.
  unfold do_relay_once. destruct (next_script_id _ _ _) as [sid f].
  apply (costs_trans _ [] [] _ (with_scripts (λ _, f) st)); [by apply (costs_quiet _ _ _ _ [])|apply once_with_costs].
Qed.

Lemma begin_all_costs env i sids method url headers body st futs st' :
  begin_all cfg env i sids method url headers body st = (futs, st') →
  ∃ ops, rs_quota st' = quota_run (rs_quota st) ops ∧ rs_sent st' = rs_sent st ∧
    attempt_ids ops = omap begun_id futs.
Proof.
  revert i st futs. induction sids as [|sid sids IH]; intros i st futs; cbn [begin_all].
  - intros [= <- <-]. by exists [].
  - destruct (begin_attempt _ _ _ _ _ _ _ _) as [r st1] eqn:E1.
    destruct (begin_all _ _ _ _ _ _ _ _ _) as [rest st2] eqn:E2. intros [= <- <-].
    apply begin_attempt_costs in E1 as (o1 & Hq1 & Hs1 & Ha1). apply IH in E2 as (o2 & Hq2 & Hs2 & Ha2).
    exists (o1 ++ o2). split_and!.
    + rewrite Hq2, Hq1. unfold quota_run. by rewrite foldl_app.
    + by rewrite Hs2, Hs1.
    + unfold attempt_ids in *. rewrite omap_app, Ha1, Ha2. unfold begun_id. simpl. by destruct r.
Qed.

Lemma omap_delete {A B} (f : A → option B) (l : list A) i x :
  l !! i = Some x → omap f l ≡ₚ (match f x with Some y => [y] | None => [] end) ++ omap f (delete i l).
Proof.
  intros Hi. rewrite delete_take_drop. rewrite <-(take_drop_middle l i x Hi) at 1. rewrite !omap_app. simpl.
  destruct (f x); simpl; [|done]. by rewrite <-Permutation_middle.
Qed.

#[global] Instance times_proper id : Proper (Permutation ==> eq) (times id).
Proof.
  intros l l' Hp. unfold times. induction Hp; simpl; repeat case_bool_decide; simpl; congruence.
Qed.

Lemma costs_credit k c1 c2 st st' : c1 ≡ₚ c2 → costs k c1 st st' → costs k c2 st st'.
Proof.
  intros Hp (ops & new & H1 & H2 & H3). exists ops, new. split_and!; [done|done|]. intros id. by rewrite <-Hp.
Qed.

Lemma select_ok_costs order futs method pending st :
  costs (per_attempt method) (omap begun_id futs) st (select_ok gz cfg order futs method pending st).2.
Proof.
  revert futs pending st. induction order as [|i order IH]; intros futs pending st; cbn [select_ok]; [apply costs_refl|].
  destruct (futs !! i) as [[[a sid] begun]|] eqn:Ei; [|apply costs_refl].
  eapply costs_credit; [symmetry; by apply omap_delete|].
  assert (Hrest : ∀ r st1,
    (match begun with Err e => (Some (Throw e), st) | Ok payload => finish_attempt gz cfg a sid method payload st end) = (r, st1) →
    costs (per_attempt method) (match begun_id (a, sid, begun) with Some y => [y] | None => [] end) st st1).
  { intros r st1. destruct begun as [payload|e]; intros E.
    - pose proof (finish_sends a sid method payload st) as Hs. rewrite E in Hs. by apply sends_costs.
    - injection E as <- <-. apply costs_refl. }
  destruct (match begun with Err e => _ | Ok payload => _ end) as [r st1] eqn:E. specialize (Hrest r st1 eq_refl).
  assert (Hstop : costs (per_attempt method)
    ((match begun_id (a, sid, begun) with Some y => [y] | None => [] end) ++ omap begun_id (delete i futs)) st st1)
    by (eapply costs_trans; [exact Hrest|apply costs_refl]).
  destruct r as [[b|e| |]|]; try exact Hstop.
  - destruct (delete i futs) as [|f fs] eqn:Ed; [exact Hstop|]. eapply costs_trans; [exact Hrest|apply IH].
  - eapply costs_trans; [exact Hrest|apply IH].
Qed.

(** C13: every dispatch is charged to its account.  Whatever a relayed request
    does (one attempt, a retry, a fan-out; over HTTP/2 or HTTP/1.1; ending in an
    answer, an error or the deadline), the tracker sees a history of its own
    operations in which each account has an attempt for every payload sent to
    it; an attempt stands for one payload, or two when the method is safe to
    repeat and HTTP/2 failed after sending. *)
Theorem dispatches_charged env order method url headers body st :
  ∃ ops new,
    let st' := (do_relay_with_retry gz cfg env order method url headers body st).2 in
    rs_quota st' = quota_run (rs_quota st) ops ∧ rs_sent st' = rs_sent st ++ new ∧
    ∀ id, (times id new.*1 ≤ per_attempt method * times id (attempt_ids ops))%nat.
Proof.
  assert (Hc : costs (per_attempt method) [] st (do_relay_with_retry gz cfg env order method url headers body st).2).
  { unfold do_relay_with_retry. case_if; [apply costs_refl|]. case_if.
    - unfold do_relay_parallel. destruct (next_script_ids _ _ _ _) as [sids f].
      destruct sids as [|sid sids]; [by apply (costs_quiet _ _ _ _ [])|].
      destruct (begin_all _ _ _ _ _ _ _ _ _) as [futs st1] eqn:Eb.
      apply begin_all_costs in Eb as (o1 & Hq1 & Hs1 & Ha1).
      destruct (select_ok_costs order futs method false st1) as (o2 & new & Hq2 & Hs2 & Hn).
      exists (o1 ++ o2), new. split_and!.
      + rewrite Hq2, Hq1. unfold quota_run. by rewrite foldl_app.
      + by rewrite Hs2, Hs1.
      + intros id. unfold attempt_ids in *. rewrite omap_app, Ha1, times_app. specialize (Hn id). unfold times at 4. simpl. lia.
    - pose proof (once_costs (env 0%nat) method url headers body st) as H1.
      destruct (do_relay_once _ _ _ _ _ _ _ _) as [[[b|e| |]|] st1]; try exact H1.
      case_if; [exact H1|]. exact (costs_trans _ [] [] _ _ _ H1 (once_costs (env 1%nat) method url headers body st1)). }
  destruct Hc as (ops & new & Hq & Hs & Hn). exists ops, new. split_and!; [done|done|]. intros id. specialize (Hn id).
  unfold times at 3 in Hn. simpl in Hn. lia.
Qed.
End costs.

Section replays.
Context `{!Base64} `{!RelayFormats} (gz : bytes → option bytes) (cfg : RelayConfig).

Lemma once_sent a method url headers body st :
  is_method_safe_for_fanout method = false →
  ∃ new, rs_sent (do_relay_once gz cfg a method url headers body st).2 = rs_sent st ++ new ∧ (length new ≤ 1)%nat.
Proof.
  intros Hm. unfold do_relay_once. destruct (next_script_id _ _ _) as [sid f]. unfold do_relay_once_with.
  destruct (begin_attempt _ _ _ _ _ _ _ _) as [[payload|e] st1] eqn:E;
    apply begin_attempt_costs in E as (_ & _ & Hs1 & _); simpl in Hs1.
  - destruct (finish_sends gz cfg a sid method payload st1) as (_ & new & _ & _ & Hs2 & _ & Hl).
    exists new. rewrite Hs2, Hs1. split; [done|]. unfold per_attempt in Hl. by rewrite Hm in Hl.
  - exists []. rewrite app_nil_r. split; [done|simpl; lia].
Qed.

(** C12: a request with side effects is not sent again after HTTP/2 failed on
    its first attempt.  For a method other than GET, HEAD and OPTIONS, when the
    FIRST attempt's HTTP/2 exchange fails after the request was handed to the
    connection, no second attempt follows: the call has sent the request once
    and ends with that failure.  (When the account picked for the first attempt
    is hard-stopped, that attempt sends nothing and the second one sends at most
    once.)  Nothing is claimed of a first attempt lost over HTTP/1.1, which is
    repeated: [h1_failure_replayed]. *)
Theorem h2_failure_not_replayed env order method url headers body st e :
  is_method_safe_for_fanout method = false → a_h2 (env 0%nat) = Some (Err (e, SentMaybe)) →
  let '(r, st') := do_relay_with_retry gz cfg env order method url headers body st in
  ∃ new, rs_sent st' = rs_sent st ++ new ∧ (length new ≤ 1)%nat ∧
    (is_globally_hard_stopped (rs_quota st) = false →
     is_hard_stopped (next_script_id (rs_quota st) (a_now (env 0%nat)) (rs_scripts st)).1 (rs_quota st) = false →
     r = Some (Throw e) ∧ length new = 1%nat).
Proof.
  intros Hm Hh. unfold do_relay_with_retry. destruct (is_globally_hard_stopped (rs_quota st)).
  { exists []. rewrite app_nil_r. split_and!; [done|simpl; lia|done]. }
  rewrite Hm, andb_false_r. unfold do_relay_once at 1, do_relay_once_with.
  destruct (next_script_id (rs_quota st) (a_now (env 0%nat)) (rs_scripts st)) as [sid f] eqn:En. simpl fst.
  unfold begin_attempt at 1. change (rs_quota (with_scripts (λ _, f) st)) with (rs_quota st).
  destruct (is_hard_stopped sid (rs_quota st)) eqn:Es.
  - cbn [is_retryable negb]. set (st1 := with_scripts (λ _, f) st).
    destruct (once_sent (env 1%nat) method url headers body st1 Hm) as (new & Hs & Hl).
    destruct (do_relay_once _ _ _ _ _ _ _ st1) as [r st2]. by exists new.
  - unfold finish_attempt, do_relay_once_inner. rewrite Hh, Hm. cbn [record_result is_retryable negb into_inner].
    eexists [_]. split_and!; [|simpl; lia|done]. by case_if.
Qed.

(** The request as both attempts write it. *)
Definition sent_payload (a : Attempt) (method url : bytes) (headers : Headers) (body : bytes) : bytes :=
  build_payload_json (cf_auth_key cfg) (a_pad a) method url headers body.

(** An attempt that wrote its request on an HTTP/1.1 connection and then got
    no usable response. *)
Definition lost_after_send (a : Attempt) (e : FronterError) : Prop :=
  (∃ e', a_h2 a = Some (Err (e', SentNo))) ∧ a_h1_done a = true ∧
  ∃ c, a_conn a = Some (Ok c) ∧ c_writes c = [] ∧ read_http_response gz (c_reads c) = Throw e.

Lemma lost_attempt a sid method payload st e :
  lost_after_send a e →
  do_relay_once_inner gz cfg a sid method payload st = (Some (Throw e), mark_sent sid payload st).
Proof.
  intros ((e' & Hh) & Hd & c & Hc & Hw & Hr). unfold do_relay_once_inner, attempt_h1. rewrite Hh, Hc, Hw, Hd. cbn [negb].
  unfold h1_exchange, round_trip. rewrite Hw, Hr. done.
Qed.

Lemma once_lost a method url headers body st e sid f :
  lost_after_send a e → next_script_id (rs_quota st) (a_now a) (rs_scripts st) = (sid, f) →
  is_hard_stopped sid (rs_quota st) = false →
  ∃ st1, do_relay_once gz cfg a method url headers body st = (Some (Throw e), st1) ∧
    rs_sent st1 = rs_sent st ++ [(sid, sent_payload a method url headers body)] ∧ rs_scripts st1 = f ∧
    (is_quota_like_fronter_error e = false →
     rs_quota st1 = record_failure sid false
       (record_attempt (a_secs a) sid (len (sent_payload a method url headers body)) (a_io a) (rs_quota st))).
Proof.
  intros Hl Hn Hs. unfold do_relay_once, do_relay_once_with, begin_attempt. rewrite Hn.
  change (rs_quota (with_scripts (λ _, f) st)) with (rs_quota st). rewrite Hs.
  unfold finish_attempt. rewrite (lost_attempt _ _ _ _ _ e Hl). eexists. split; [done|].
  unfold record_result. case_if; split_and!; done.
Qed.

(** The same request over HTTP/1.1 is repeated.  When a deployment is
    healthy and the exchange on the pooled connection fails after the request
    was written in full (no response within ten seconds, say), the error is
    retried whatever the method: Apps Script receives a POST a second time. *)
Theorem h1_failure_replayed env order method url headers body st e1 e2 sid1 f1 sid2 :
  is_method_safe_for_fanout method = false →
  lost_after_send (env 0%nat) e1 → is_retryable e1 = true → is_quota_like_fronter_error e1 = false →
  lost_after_send (env 1%nat) e2 →
  is_globally_hard_stopped (rs_quota st) = false →
  next_script_id (rs_quota st) (a_now (env 0%nat)) (rs_scripts st) = (sid1, f1) →
  is_hard_stopped sid1 (rs_quota st) = false →
  let q1 := record_failure sid1 false
              (record_attempt (a_secs (env 0%nat)) sid1
                 (len (sent_payload (env 0%nat) method url headers body)) (a_io (env 0%nat)) (rs_quota st)) in
  (next_script_id q1 (a_now (env 1%nat)) f1).1 = sid2 → is_hard_stopped sid2 q1 = false →
  rs_sent (do_relay_with_retry gz cfg env order method url headers body st).2 =
  rs_sent st ++ [(sid1, sent_payload (env 0%nat) method url headers body);
                 (sid2, sent_payload (env 1%nat) method url headers body)].
Proof.
  intros Hm Hl1 Hr1 Hq1 Hl2 Hg Hn1 Hs1 q1 Hn2 Hs2. unfold do_relay_with_retry. rewrite Hg, Hm, andb_false_r.
  destruct (once_lost _ method url headers body _ _ _ _ Hl1 Hn1 Hs1) as (st1 & -> & Hsent1 & Hf1 & Hqt1).
  rewrite Hr1. cbn [negb]. specialize (Hqt1 Hq1). fold q1 in Hqt1.
  destruct (next_script_id q1 (a_now (env 1%nat)) f1) as [sid f2] eqn:En. simpl in Hn2. subst sid.
  rewrite <-Hqt1 in Hs2, En. rewrite <-Hf1 in En.
  destruct (once_lost _ method url headers body _ _ _ _ Hl2 En Hs2) as (st2 & -> & Hsent2 & _).
  cbn [snd]. by rewrite Hsent2, Hsent1, <-app_assoc.
Qed.

(** The exit node's calls go through Apps Script and are charged to no
    account. *)
Lemma exit_node_uncharged a method url headers body st :
  rs_quota (relay_via_exit_node gz cfg a method url headers body st).2 = rs_quota st.
Proof.
  unfold relay_via_exit_node, send_prebuilt_payload_through_relay. destruct (next_script_id _ _ _) as [sid f].
  repeat (case_match; simplify_eq/=); done.
Qed.
End replays.

(** ** Examples *)

Definition demo_config : RelayConfig :=
  mk_relay_config (bs "key") 1 false true (mk_exit false [] [] false []).

Definition demo_scripts : Fronter := mk_fronter [bs "s1"; bs "s2"] 0 ∅ ∅ 3 30000 120000.

Definition demo_relay_state : RelayState :=
  mk_relay_state demo_scripts fresh_tracker (Cache.new DEFAULT_MAX_BYTES) false 0 0 0 (mk_today (bs "2024-01-01") 0 0) ∅ [].

(** HTTP/2 is not available and the pooled connection stays silent. *)
Definition silent_h1 : Attempt :=
  mk_attempt 0 1700000000 true None (Some (Err (EIo (bs "no h2"), SentNo))) (Some (Ok (mk_conn [] [Stall]))) true.

(** HTTP/2 takes the request and then fails. *)
Definition broken_h2 : Attempt :=
  mk_attempt 0 1700000000 true None (Some (Err (EIo (bs "goaway"), SentMaybe))) None true.

Lemma h2_failure_not_replayed_witness :
  let '(r, st') := do_relay_with_retry (H := std_base64) (H0 := toy_relay_formats demo_envelope Null) Some demo_config
                     (λ i, if (i =? 0)%nat then broken_h2 else silent_h1) [] (bs "POST") (bs "http://a/") []
                     (bs "x=1") demo_relay_state in
  ∃ new, rs_sent st' = rs_sent demo_relay_state ++ new ∧ (length new ≤ 1)%nat ∧
    (is_globally_hard_stopped (rs_quota demo_relay_state) = false →
     is_hard_stopped (next_script_id (rs_quota demo_relay_state) 0 (rs_scripts demo_relay_state)).1
       (rs_quota demo_relay_state) = false →
     r = Some (Throw (EIo (bs "goaway"))) ∧ length new = 1%nat).
Proof.
  by apply (h2_failure_not_replayed (H := std_base64) (H0 := toy_relay_formats demo_envelope Null) Some demo_config
              (λ i, if (i =? 0)%nat then broken_h2 else silent_h1) [] (bs "POST") (bs "http://a/") [] (bs "x=1")
              demo_relay_state (EIo (bs "goaway"))).
Defined.

Lemma silent_h1_lost : lost_after_send Some silent_h1 ETimeout.
Proof. split; [by eexists|]. split; [done|]. eexists. split; [done|]. by split. Qed.

Lemma h1_failure_replayed_witness :
  (rs_sent (do_relay_with_retry (H := std_base64) (H0 := toy_relay_formats demo_envelope Null) Some demo_config
              (λ _, silent_h1) [] (bs "POST") (bs "http://a/") [] (bs "x=1") demo_relay_state).2).*1 =
  [bs "s1"; bs "s2"].
Proof.
  rewrite (h1_failure_replayed (H := std_base64) (H0 := toy_relay_formats demo_envelope Null) Some demo_config
             (λ _, silent_h1) [] (bs "POST") (bs "http://a/") [] (bs "x=1") demo_relay_state ETimeout ETimeout
             (bs "s1") (next_script_id fresh_tracker 0 demo_scripts).2 (bs "s2")); try apply silent_h1_lost; try by vm_compute.
Defined.
