(* ===== verification/Coalesce.v ===== *)
(** * Identical requests in flight (src/domain_fronter.rs, [relay])

    Clients that ask for the same thing at the same time share one fetch: the
    first becomes the leader and puts a channel under the request's key, the
    others subscribe to it.  The steps are the critical sections of [relay]
    over the map of requests in flight; what a fetch returns, how long it
    takes and whether its task dies are up to the environment. *)

From Stdlib Require Import Strings.Byte.
From S2P Require Import Prelude RustBytes.

Module Coalesce.

(** A request that may be shared: [key] is its cache key.  [Looked] is past
    the cache lookup, [Waiting ch] is in [rx.recv()]; [Hit] was answered by the
    cache, [Answered] by a fetch. *)
Inductive Phase :=
  | Hit (response : bytes)
  | Looked
  | Leading (ch : nat)
  | Waiting (ch : nat)
  | Answered (response : bytes)
  | Died.

#[global] Instance phase_eq_dec : EqDecision Phase.
Proof. solve_decision. Defined.

Record Client := mk_client { cl_key : bytes; cl_phase : Phase }.

(** [inflight] with the channels numbered, the clients, the counter of
    coalesced requests, and the fetches that ended, by key. *)
Record State := mk_state {
  inflight : gmap bytes nat;
  clients : gmap nat Client;
  next_channel : nat;
  coalesced : Z;
  fetched : list (bytes * bytes)
}.

Definition initial : State := mk_state ∅ ∅ 0 0 [].

(** The first critical section: subscribe to the channel under the key, or
    put a new one there. *)
Definition lock (c : nat) (key : bytes) (st : State) : State :=
  match inflight st !! key with
  | Some ch =>
      mk_state (inflight st) (<[c := mk_client key (Waiting ch)]> (clients st)) (next_channel st)
        (wadd64 (coalesced st) 1) (fetched st)
  | None =>
      let ch := next_channel st in
      mk_state (<[key := ch]> (inflight st)) (<[c := mk_client key (Leading ch)]> (clients st)) (S ch)
        (coalesced st) (fetched st)
  end.

(** The message of channel [ch] reaches its subscribers. *)
Definition deliver (ch : nat) (response : bytes) (cl : Client) : Client :=
  match cl_phase cl with
  | Waiting ch' => if bool_decide (ch' = ch) then mk_client (cl_key cl) (Answered response) else cl
  | _ => cl
  end.

(** The second critical section, when the fetch has returned: remove the
    channel under the key and send the response on it. *)
Definition finish (c : nat) (key response : bytes) (st : State) : State :=
  let cls := match inflight st !! key with
             | Some ch => deliver ch response <$> clients st
             | None => clients st
             end in
  mk_state (delete key (inflight st)) (<[c := mk_client key (Answered response)]> cls) (next_channel st)
    (coalesced st) (fetched st ++ [(key, response)]).

Definition set_phase (c : nat) (key : bytes) (p : Phase) (st : State) : State :=
  mk_state (inflight st) (<[c := mk_client key p]> (clients st)) (next_channel st) (coalesced st) (fetched st).

Inductive step : State → State → Prop :=
  | step_arrive st c key :
      clients st !! c = None → step st (set_phase c key Looked st)
  | step_hit st c key response :
      clients st !! c = None → step st (set_phase c key (Hit response) st)
  | step_lock st c key :
      clients st !! c = Some (mk_client key Looked) → step st (lock c key st)
  | step_finish st c key ch response :
      clients st !! c = Some (mk_client key (Leading ch)) → step st (finish c key response st)
  | step_die st c key ch :
      clients st !! c = Some (mk_client key (Leading ch)) → step st (set_phase c key Died st).

Inductive reachable : State → Prop :=
  | reach_initial : reachable initial
  | reach_step st st' : reachable st → step st st' → reachable st'.

Inductive steps : State → State → Prop :=
  | steps_refl st : steps st st
  | steps_step st st' st'' : steps st st' → step st' st'' → steps st st''.

(** ** Invariant *)

(** No leader's task has died. *)
Definition alive (st : State) : Prop := map_Forall (λ _ cl, cl_phase cl ≠ Died) (clients st).

Record inv (st : State) : Prop := mk_inv {
  inv_fresh : ∀ key ch, inflight st !! key = Some ch → (ch < next_channel st)%nat;
  inv_unique : ∀ k1 k2 ch, inflight st !! k1 = Some ch → inflight st !! k2 = Some ch → k1 = k2;
  inv_leader : ∀ c key ch, clients st !! c = Some (mk_client key (Leading ch)) → inflight st !! key = Some ch;
  inv_one : ∀ c1 c2 k1 k2 ch, clients st !! c1 = Some (mk_client k1 (Leading ch)) →
    clients st !! c2 = Some (mk_client k2 (Leading ch)) → c1 = c2;
  inv_waiter : ∀ c key ch, clients st !! c = Some (mk_client key (Waiting ch)) → inflight st !! key = Some ch;
  inv_owner : ∀ key ch, inflight st !! key = Some ch →
    ∃ c p, clients st !! c = Some (mk_client key p) ∧ (p = Leading ch ∨ p = Died);
  inv_answer : ∀ c key r, clients st !! c = Some (mk_client key (Answered r)) → (key, r) ∈ fetched st
}.

Lemma co_initial_inv : inv initial.
Proof. split; intros *; simpl; rewrite ?lookup_empty; done. Qed.

(** A client that is not in flight changes its phase, or a leader dies. *)
Lemma co_phase_inv st c key p :
  inv st → match p with Leading _ | Waiting _ | Answered _ => False | _ => True end →
  clients st !! c = None ∨ (p = Died ∧ ∃ ch, clients st !! c = Some (mk_client key (Leading ch))) →
  inv (set_phase c key p st).
Proof.
  intros [H1 H2 H3 H4 H5 H6 H7] Hp Hc. split; simpl; [done|done|..].
  - intros c' k ch [[_ [= -> ->]]|[_ Hc']]%lookup_insert_Some; [done|eauto].
  - intros c1 c2 k1 k2 ch [[_ [= -> ->]]|[_ Hc1]]%lookup_insert_Some Hc2; [done|].
    apply lookup_insert_Some in Hc2 as [[_ [= -> ->]]|[_ Hc2]]; [done|eauto].
  - intros c' k ch [[_ [= -> ->]]|[_ Hc']]%lookup_insert_Some; [done|eauto].
  - intros k ch Hk. destruct (H6 _ _ Hk) as (c' & p' & Hc' & Hp'). destruct (decide (c' = c)) as [->|Hne].
    + destruct Hc as [Hc|[-> (ch' & Hc)]]; rewrite Hc in Hc'; [done|]. injection Hc' as <- <-.
      exists c, Died. rewrite lookup_insert_eq. eauto.
    + exists c', p'. rewrite lookup_insert_ne by done. eauto.
  - intros c' k r [[_ [= -> ->]]|[_ Hc']]%lookup_insert_Some; [done|eauto].
Qed.

Lemma co_lock_inv st c key :
  inv st → clients st !! c = Some (mk_client key Looked) → inv (lock c key st).
Proof.
  intros [H1 H2 H3 H4 H5 H6 H7] Hl.
  assert (Hkeep : ∀ k ch p', inflight st !! k = Some ch →
    ∃ c' p, <[c := mk_client key p']> (clients st) !! c' = Some (mk_client k p) ∧ (p = Leading ch ∨ p = Died)).
  { intros k ch p' (c' & p & Hc' & Hp)%H6. exists c', p. rewrite lookup_insert_ne; [done|].
    intros <-. rewrite Hl in Hc'. injection Hc' as _ <-. by destruct Hp. }
  unfold lock. destruct (inflight st !! key) as [ch0|] eqn:E; split; simpl.
  - done.
  - done.
  - intros c' k ch [[_ [= ]]|[_ Hc]]%lookup_insert_Some. eauto.
  - intros c1 c2 k1 k2 ch [[_ [= ]]|[_ Hc1]]%lookup_insert_Some [[_ [= ]]|[_ Hc2]]%lookup_insert_Some. eauto.
  - intros c' k ch [[_ [= -> ->]]|[_ Hc]]%lookup_insert_Some; [done|eauto].
  - eauto.
  - intros c' k r [[_ [= ]]|[_ Hc]]%lookup_insert_Some. eauto.
  - intros k ch [[_ <-]|[_ Hk]]%lookup_insert_Some; [lia|]. apply H1 in Hk. lia.
  - intros k1 k2 ch [[<- <-]|[_ Hk1]]%lookup_insert_Some [[<- ?]|[_ Hk2]]%lookup_insert_Some; try done; subst;
      [apply H1 in Hk2; lia|apply H1 in Hk1; lia|eauto].
  - intros c' k ch [[_ [= -> ->]]|[_ Hc]]%lookup_insert_Some; [by rewrite lookup_insert_eq|].
    apply H3 in Hc. rewrite lookup_insert_ne; [done|]. congruence.
  - intros c1 c2 k1 k2 ch [[<- [= -> <-]]|[_ Hc1]]%lookup_insert_Some [[<- [= ]]|[_ Hc2]]%lookup_insert_Some; try done.
    + apply H3, H1 in Hc2. lia.
    + subst. apply H3, H1 in Hc1. lia.
    + eauto.
  - intros c' k ch [[_ [= ]]|[_ Hc]]%lookup_insert_Some. apply H5 in Hc. rewrite lookup_insert_ne; [done|]. congruence.
  - intros k ch [[<- <-]|[_ Hk]]%lookup_insert_Some; [|eauto].
    exists c, (Leading (next_channel st)). rewrite lookup_insert_eq. eauto.
  - intros c' k r [[_ [= ]]|[_ Hc]]%lookup_insert_Some. eauto.
Qed.

Lemma deliver_leading ch r cl key ch' : deliver ch r cl = mk_client key (Leading ch') → cl = mk_client key (Leading ch').
Proof. destruct cl as [k []]; unfold deliver; simpl; try done. by case_bool_decide. Qed.

Lemma deliver_waiting ch r cl key ch' :
  deliver ch r cl = mk_client key (Waiting ch') → cl = mk_client key (Waiting ch') ∧ ch' ≠ ch.
Proof. destruct cl as [k []]; unfold deliver; simpl; try done. case_bool_decide; [done|]. by intros [= -> ->]. Qed.

Lemma deliver_owner ch r cl key p :
  cl = mk_client key p → (∃ ch', p = Leading ch') ∨ p = Died → deliver ch r cl = mk_client key p.
Proof. by intros -> [[ch' ->] | ->]. Qed.

Lemma deliver_answered ch r cl key r' :
  deliver ch r cl = mk_client key (Answered r') → cl = mk_client key (Answered r') ∨ (cl = mk_client key (Waiting ch) ∧ r' = r).
Proof.
  destruct cl as [k []]; unfold deliver; simpl; try (by left). case_bool_decide; [|done]. intros [= -> ->]. subst. by right.
Qed.

Lemma co_finish_inv st c key ch response :
  inv st → clients st !! c = Some (mk_client key (Leading ch)) → inv (finish c key response st).
Proof.
  intros [H1 H2 H3 H4 H5 H6 H7] Hc. unfold finish. pose proof (H3 _ _ _ Hc) as Hk. rewrite Hk.
  assert (Hne : ∀ k' ch', inflight st !! k' = Some ch' → ch' ≠ ch → delete key (inflight st) !! k' = Some ch').
  { intros k' ch' Hk' Hch. rewrite lookup_delete_ne; [done|]. congruence. }
  split; simpl.
  - intros k' ch' [_ Hk']%lookup_delete_Some. eauto.
  - intros k1 k2 ch' [_ Hk1]%lookup_delete_Some [_ Hk2]%lookup_delete_Some. eauto.
  - intros c' k' ch' [[_ [= ]]|[Hcc Hc']]%lookup_insert_Some. apply lookup_fmap_Some in Hc' as (cl & Hd & Hcl).
    apply deliver_leading in Hd as ->. apply Hne; [eauto|]. intros ->. by destruct Hcc; eapply H4.
  - intros c1 c2 k1 k2 ch' [[_ [= ]]|[_ Hc1]]%lookup_insert_Some [[_ [= ]]|[_ Hc2]]%lookup_insert_Some.
    apply lookup_fmap_Some in Hc1 as (cl1 & Hd1 & Hcl1). apply lookup_fmap_Some in Hc2 as (cl2 & Hd2 & Hcl2).
    apply deliver_leading in Hd1 as ->. apply deliver_leading in Hd2 as ->. eauto.
  - intros c' k' ch' [[_ [= ]]|[_ Hc']]%lookup_insert_Some. apply lookup_fmap_Some in Hc' as (cl & Hd & Hcl).
    apply deliver_waiting in Hd as [-> Hch]. apply Hne; eauto.
  - intros k' ch' [Hkk Hk']%lookup_delete_Some. destruct (H6 _ _ Hk') as (c' & p & Hc' & Hp). exists c', p. split; [|done].
    rewrite lookup_insert_ne, lookup_fmap, Hc'; [|by intros <-; rewrite Hc in Hc'; injection Hc' as ? _].
    simpl. f_equal. apply deliver_owner; [done|]. destruct Hp as [-> | ->]; eauto.
  - intros c' k' r [[_ [= <- <-]]|[_ Hc']]%lookup_insert_Some; [rewrite elem_of_app, list_elem_of_singleton; auto|].
    apply lookup_fmap_Some in Hc' as (cl & Hd & Hcl). rewrite elem_of_app, list_elem_of_singleton.
    apply deliver_answered in Hd as [-> | [-> ->]]; [left; eauto|right]. f_equal. eauto.
Qed.

Lemma co_step_inv st st' : inv st → step st st' → inv st'.
Proof.
  intros Hi Hs. destruct Hs; [apply co_phase_inv; auto..|by apply co_lock_inv|by eapply co_finish_inv|].
  apply co_phase_inv; eauto 10.
Qed.

Lemma co_reachable_inv st : reachable st → inv st.
Proof. induction 1; [apply co_initial_inv|by eapply co_step_inv]. Qed.

(** ** What sharing guarantees *)

(** C14: shared requests are answered alike and none is forgotten.  In every
    reachable state there is at most one fetch under way for a key; a client
    answered by a fetch has the response of a fetch of its own key; and, as
    long as no leader's task has died, every waiting client has a leader whose
    completion answers it with the very response the leader gets. *)
Theorem coalesced_share_answer st :
  reachable st →
  (∀ c1 c2 key ch1 ch2, clients st !! c1 = Some (mk_client key (Leading ch1)) →
     clients st !! c2 = Some (mk_client key (Leading ch2)) → c1 = c2) ∧
  (∀ c key r, clients st !! c = Some (mk_client key (Answered r)) → (key, r) ∈ fetched st) ∧
  (alive st → ∀ c key ch, clients st !! c = Some (mk_client key (Waiting ch)) →
     ∃ l, clients st !! l = Some (mk_client key (Leading ch)) ∧
       ∀ r, clients (finish l key r st) !! c = Some (mk_client key (Answered r)) ∧
            clients (finish l key r st) !! l = Some (mk_client key (Answered r))).
Proof.
  intros [H1 H2 H3 H4 H5 H6 H7]%co_reachable_inv. split_and!.
  - intros c1 c2 key ch1 ch2 Hc1 Hc2. pose proof (H3 _ _ _ Hc1). pose proof (H3 _ _ _ Hc2). simplify_eq. eauto.
  - done.
  - intros Ha c key ch Hc. pose proof (H5 _ _ _ Hc) as Hk. destruct (H6 _ _ Hk) as (l & p & Hl & Hp).
    assert (p = Leading ch) as -> by (destruct Hp as [| ->]; [done|]; by apply (Ha l) in Hl).
    exists l. split; [done|]. intros r. unfold finish. rewrite Hk. simpl. split; [|apply lookup_insert_eq].
    rewrite lookup_insert_ne by congruence. rewrite lookup_fmap, Hc. simpl. unfold deliver. simpl.
    by rewrite bool_decide_true.
Qed.

(** ** What a leader's death does *)

(** The key's channel is in the map and nobody will send on it. *)
Definition wedged (key : bytes) (ch : nat) (st : State) : Prop :=
  inflight st !! key = Some ch ∧ ∀ c ch', clients st !! c ≠ Some (mk_client key (Leading ch')).

(** Nobody of the key is answered by a fetch who was not before. *)
Definition unanswered (key : bytes) (st0 st : State) : Prop :=
  ∀ c r, clients st !! c = Some (mk_client key (Answered r)) →
    clients st0 !! c = Some (mk_client key (Answered r)).

Lemma wedged_step key ch st0 st st' :
  inv st → wedged key ch st → unanswered key st0 st → step st st' →
  wedged key ch st' ∧ unanswered key st0 st'.
Proof.
  intros Hi [Hk Hl] Hu Hs. destruct Hs as [st c k Hc|st c k r Hc|st c k Hc|st c k ch' r Hc|st c k ch' Hc];
    unfold wedged, unanswered in *; simpl.
  - split; [split; [done|]|]; intros *; rewrite lookup_insert_Some; naive_solver.
  - split; [split; [done|]|]; intros *; rewrite lookup_insert_Some; naive_solver.
  - unfold lock. destruct (decide (k = key)) as [->|Hne].
    + rewrite Hk. simpl. split; [split; [done|]|]; intros *; rewrite lookup_insert_Some; naive_solver.
    + destruct (inflight st !! k); simpl; rewrite ?lookup_insert_ne by done;
        (split; [split; [done|]|]; intros *; rewrite lookup_insert_Some; naive_solver).
  - assert (k ≠ key) as Hne by (intros ->; by apply Hl in Hc).
    pose proof (inv_leader _ Hi _ _ _ Hc) as Hk'. unfold finish. rewrite Hk'. simpl.
    rewrite lookup_delete_ne by done. split; [split; [done|]|].
    + intros c' ch2 [[_ [= ]]|[_ (cl & Hd & Hcl)%lookup_fmap_Some]]%lookup_insert_Some.
      apply deliver_leading in Hd as ->. by apply Hl in Hcl.
    + intros c' r' [[_ [= ? ?]]|[_ (cl & Hd & Hcl)%lookup_fmap_Some]]%lookup_insert_Some; [done|].
      apply deliver_answered in Hd as [-> | [-> _]]; [eauto|].
      apply (inv_waiter _ Hi) in Hcl. destruct Hne. by eapply (inv_unique _ Hi).
  - split; [split; [done|]|]; intros *; rewrite lookup_insert_Some; naive_solver.
Qed.

(** A leader that dies blocks its key for good.  When the task of a fetch
    panics or is dropped, its channel stays in the map: from then on, in every
    continuation, no request for that key is answered by a fetch again (those
    waiting stay waiting, newcomers join them) unless the cache has it. *)
Theorem dead_leader_blocks_key st c key ch st' :
  reachable st → clients st !! c = Some (mk_client key (Leading ch)) →
  steps (set_phase c key Died st) st' →
  inflight st' !! key = Some ch ∧
  (∀ c' ch', clients st' !! c' ≠ Some (mk_client key (Leading ch'))) ∧
  (∀ c' r, clients st' !! c' = Some (mk_client key (Answered r)) →
     clients st !! c' = Some (mk_client key (Answered r))).
Proof.
  intros Hr Hc Hs. pose proof (co_reachable_inv _ Hr) as Hi.
  assert (H : reachable st' ∧ wedged key ch st' ∧ unanswered key st st').
  { remember (set_phase c key Died st) as st1 eqn:E1. induction Hs as [st1|st1 st2 st3 Hs IH Hst].
    - subst st1. split; [by eapply reach_step; [|by eapply step_die]|]. split; [split|]; simpl.
      + by eapply (inv_leader _ Hi).
      + intros c' ch'. rewrite lookup_insert_Some. intros [[_ [= ]]|[Hne Hc']].
        pose proof (inv_leader _ Hi _ _ _ Hc). pose proof (inv_leader _ Hi _ _ _ Hc'). simplify_eq.
        destruct Hne. by eapply (inv_one _ Hi).
      + unfold unanswered. simpl. intros c' r [[_ [= ]]|[_ Hc']]%lookup_insert_Some. done.
    - destruct (IH E1) as (Hr2 & Hw & Hu). split; [by eapply reach_step|].
      by eapply wedged_step; [apply co_reachable_inv| | |]. }
  destruct H as (_ & [H1 H2] & H3). done.
Qed.
End Coalesce.

Import Coalesce.

(** ** Examples *)

(** Two clients ask for the same page; the first one fetches it. *)
Definition two_clients : State :=
  lock 1 (bs "GET:u") (set_phase 1 (bs "GET:u") Looked (lock 0 (bs "GET:u") (set_phase 0 (bs "GET:u") Looked initial))).

Lemma two_clients_reachable : reachable two_clients.
Proof.
  repeat (eapply reach_step; [|first [by apply step_lock|by apply step_arrive]]). apply reach_initial.
Qed.

Lemma coalesced_share_answer_witness :
  alive two_clients ∧ clients two_clients !! 1%nat = Some (mk_client (bs "GET:u") (Waiting 0)) ∧
  ∃ l, clients two_clients !! l = Some (mk_client (bs "GET:u") (Leading 0)) ∧
    ∀ r, clients (finish l (bs "GET:u") r two_clients) !! 1%nat = Some (mk_client (bs "GET:u") (Answered r)) ∧
         clients (finish l (bs "GET:u") r two_clients) !! l = Some (mk_client (bs "GET:u") (Answered r)).
Proof.
  assert (Ha : alive two_clients) by (unfold alive; by apply (bool_decide_unpack _)).
  split; [done|]. split; [done|]. apply (proj2 (proj2 (coalesced_share_answer two_clients two_clients_reachable)) Ha). done.
Defined.

Lemma dead_leader_blocks_key_witness :
  let st' := lock 2 (bs "GET:u") (set_phase 2 (bs "GET:u") Looked (set_phase 0 (bs "GET:u") Died two_clients)) in
  clients st' !! 1%nat = Some (mk_client (bs "GET:u") (Waiting 0)) ∧
  clients st' !! 2%nat = Some (mk_client (bs "GET:u") (Waiting 0)) ∧ inflight st' !! bs "GET:u" = Some 0%nat.
Proof.
  split; [done|]. split; [done|].
  apply (dead_leader_blocks_key two_clients 0 (bs "GET:u") 0); [apply two_clients_reachable|done|].
  apply (steps_step _ (set_phase 2 (bs "GET:u") Looked (set_phase 0 (bs "GET:u") Died two_clients))); [|by apply step_lock].
  eapply steps_step; [apply steps_refl|]. by apply step_arrive.
Defined.
