(* ===== verification/TunnelRelay.v ===== *)
(** * The tunnel's requests over Apps Script (src/domain_fronter.rs)

    [tunnel_request], [tunnel_batch_request_to] and the reading of their
    responses, with the composition of the node's encoder, the edge's HTTP
    response and the client's decoder. *)

From Stdlib Require Import Strings.Byte.
From S2P Require Import Prelude RustBytes Base64 NodeHandlers Quota Scripts Http ProxyHttp ProxyHeads RelayWire RelayJson RelayUrl Relay.

(** ** Requests *)

(** The client's encoders: [serde_json::to_vec] of the ops and zstd. *)
Class BatchEncoder := {
  json_of_ops : list BatchOp → bytes;
  zops_encode_all : bytes → result bytes bytes
}.

Definition insert_some {A} (k : bytes) (f : A → Value) (o : option A) (m : list (bytes * Value)) : list (bytes * Value) :=
  match o with Some v => map_insert k (f v) m | None => m end.

(** A [BatchOp] as a JSON object: absent fields are skipped. *)
Definition op_value (o : BatchOp) : Value :=
  Object (insert_some (bs "wseq") (λ n, Num (PosInt n)) (op_wseq o)
    (insert_some (bs "seq") (λ n, Num (PosInt n)) (op_seq o)
    (insert_some (bs "d") Str (op_d o)
    (insert_some (bs "port") (λ n, Num (PosInt n)) (op_port o)
    (insert_some (bs "host") Str (op_host o)
    (insert_some (bs "sid") Str (op_sid o) (map_insert (bs "op") (Str (op o)) []))))))).

(** What the tunnel's requests change: the deployments' health and whether
    the node is known to read compressed batches. *)
Record TunnelClient := mk_tunnel_client { tc_scripts : Fronter; tc_zstd : bool }.

Section transport.
Context `{!Base64} `{!WireFormats} `{!RelayFormats} `{!BatchEncoder} (gz : bytes → option bytes) (auth_key : bytes).

Definition batch_payload (zstd_enabled : bool) (pad : option bytes) (ops : list BatchOp) : bytes :=
  let m := map_insert (bs "t") (Str (bs "batch")) (map_insert (bs "k") (Str auth_key) []) in
  let plain := map_insert (bs "ops") (Array (map op_value ops)) m in
  let m := if zstd_enabled then
             match zops_encode_all (json_of_ops ops) with
             | Ok compressed => map_insert (bs "zops") (Str (b64_encode compressed)) m
             | Err _ => plain
             end
           else plain in
  let m := map_insert (bs "zc") (Num (PosInt 1)) m in
  json_of_value (Object (match pad with Some p => add_random_pad p m | None => m end)).

(** A status other than 200 is an error and may bench the deployment. *)
Definition check_status (now : Z) (label script_id : bytes) (status : Z) (resp_body : bytes) (st : TunnelClient)
    : option FronterError * TunnelClient :=
  if negb (status =? 200) then
    let body_txt := take_chars 200 (from_utf8_lossy resp_body) in
    (Some (ERelay (label ++ fmt_uint status ++ bs ": " ++ body_txt)),
     if should_blacklist status body_txt
     then mk_tunnel_client (blacklist_script now script_id (tc_scripts st)) (tc_zstd st) else st)
  else (None, st).

Definition finalize_tunnel_response (now : Z) (script_id : bytes) (status : Z) (resp_body : bytes) (st : TunnelClient)
    : run TunnelResponse * TunnelClient :=
  match check_status now (bs "tunnel HTTP ") script_id status resp_body st with
  | (Some e, st) => (Throw e, st)
  | (None, st) => (parse_tunnel_response resp_body, st)
  end.

Definition finalize_batch_response (now : Z) (script_id : bytes) (status : Z) (resp_body : bytes) (st : TunnelClient)
    : run BatchTunnelResponse * TunnelClient :=
  match check_status now (bs "batch tunnel HTTP ") script_id status resp_body st with
  | (Some e, st) => (Throw e, st)
  | (None, st) =>
      match parse_batch_response (tc_zstd st) resp_body with
      | Ret (resp, z) => (Ret resp, mk_tunnel_client (tc_scripts st) z)
      | Throw e => (Throw e, st)
      | Panicked => (Panicked, st)
      | OutOfFuel => (OutOfFuel, st)
      end
  end.

(** The exchange on the connection [acquire] gave, up to the last response. *)
Definition tunnel_exchange (script_id payload : bytes) (conn : result Conn FronterError) : run (Z * Headers * bytes) :=
  match conn with
  | Err e => Throw e
  | Ok c => (h1_exchange gz (script_path script_id) payload c).2
  end.

Definition tunnel_request {T} `{!QuotaView T} (q : T) (now : Z) (pad : option bytes) (conn : result Conn FronterError)
    (op : bytes) (host : option bytes) (port : option Z) (sid data : option bytes) (st : TunnelClient)
    : run TunnelResponse * TunnelClient :=
  let payload := build_tunnel_payload auth_key pad op host port sid data in
  let '(script_id, f) := next_script_id q now (tc_scripts st) in
  let st := mk_tunnel_client f (tc_zstd st) in
  match tunnel_exchange script_id payload conn with
  | Ret (status, _, resp_body) => finalize_tunnel_response now script_id status resp_body st
  | Throw e => (Throw e, st)
  | Panicked => (Panicked, st)
  | OutOfFuel => (OutOfFuel, st)
  end.

Definition tunnel_batch_request_to (now : Z) (pad : option bytes) (conn : result Conn FronterError) (script_id : bytes)
    (ops : list BatchOp) (st : TunnelClient) : run BatchTunnelResponse * TunnelClient :=
  let payload := batch_payload (tc_zstd st) pad ops in
  match tunnel_exchange script_id payload conn with
  | Ret (status, _, resp_body) => finalize_batch_response now script_id status resp_body st
  | Throw e => (Throw e, st)
  | Panicked => (Panicked, st)
  | OutOfFuel => (OutOfFuel, st)
  end.

Definition tunnel_batch_request {T} `{!QuotaView T} (q : T) (now : Z) (pad : option bytes)
    (conn : result Conn FronterError) (ops : list BatchOp) (st : TunnelClient) : run BatchTunnelResponse * TunnelClient :=
  let '(script_id, f) := next_script_id q now (tc_scripts st) in
  tunnel_batch_request_to now pad conn script_id ops (mk_tunnel_client f (tc_zstd st)).
End transport.

(** ** From the node to the client *)

(** What the two crates rely on of serde_json and zstd: what one prints the
    other reads, and an object is printed between braces, as UTF-8. *)
Class TransportLaws `{!WireFormats} `{!RelayFormats} : Prop := {
  read_batch rs : batch_response_of_json (json_of_batch rs) = Ok (mk_batch_response rs None None None);
  read_zr z : batch_response_of_json (json_of_zr z) = Ok (mk_batch_response [] None (Some z) (Some 1));
  read_resps rs : responses_of_json (json_of_resps rs) = Ok rs;
  zstd_roundtrip b c : zstd_encode_all b = Ok c → zr_decode_all c = Ok b;
  batch_object rs : ∃ s, json_of_batch rs = [x7b] ++ s ++ [x7d] ∧ utf8_valid (json_of_batch rs) = true;
  zr_object z : ∃ s, json_of_zr z = [x7b] ++ s ++ [x7d] ∧ utf8_valid (json_of_zr z) = true
}.

Lemma trim_braces s : trim ([x7b] ++ s ++ [x7d]) = [x7b] ++ s ++ [x7d].
Proof.
  apply trim_id; [done|].
  assert (E : rev ([x7b] ++ s ++ [x7d]) = x7d :: (rev s ++ [x7b])) by (by rewrite !rev_app_distr).
  rewrite E. by apply ws_len_rev_printable.
Qed.

Lemma find_byte_app c a s : c ∉ a → find_byte (is_byte c) (a ++ c :: s) = Some (length a).
Proof.
  induction a as [|x a IH]; intros Ha; simpl.
  - unfold is_byte. by rewrite bool_decide_true.
  - apply not_elem_of_cons in Ha as [Hx Ha]. unfold is_byte at 1. rewrite bool_decide_false by done. by rewrite IH.
Qed.

Lemma rfind_byte_app c a s : c ∉ s → rfind_byte c (a ++ c :: s) = Some (length a).
Proof.
  intros Hs. unfold rfind_byte.
  assert (E : rev (a ++ c :: s) = rev s ++ c :: rev a) by (rewrite rev_app_distr; simpl; by rewrite <-app_assoc).
  rewrite E, find_byte_app by (intros Hin; apply Hs, list_elem_of_In, in_rev; by apply list_elem_of_In).
  f_equal. rewrite length_app, length_rev. simpl. lia.
Qed.

(** The JSON object is found alone or inside a page: text without an opening
    brace before it and without a closing one after it. *)
Lemma tunnel_json_found label pre s post :
  x7b ∉ pre → x7d ∉ post → (pre = [] → post = []) →
  let text := pre ++ ([x7b] ++ s ++ [x7d]) ++ post in
  utf8_valid text = true → trim text = text → tunnel_json label text = Ret ([x7b] ++ s ++ [x7d]).
Proof.
  intros Hpre Hpost Hpp text Hu Ht. unfold tunnel_json, from_utf8. rewrite Hu. cbn [ok_or rbind]. rewrite Ht.
  destruct pre as [|p pre].
  - subst text. rewrite (Hpp eq_refl), app_nil_l, app_nil_r. done.
  - apply not_elem_of_cons in Hpre as [Hp Hpre]. subst text.
    replace (starts_with [x7b] _) with false by (symmetry; simpl; by rewrite bool_decide_false).
    unfold braces. change (([x7b] ++ s ++ [x7d]) ++ post) with (x7b :: ((s ++ [x7d]) ++ post)).
    rewrite (find_byte_app x7b (p :: pre)) by (by apply not_elem_of_cons).
    rewrite <-app_assoc. change ([x7d] ++ post) with (x7d :: post).
    assert (E : (p :: pre) ++ x7b :: s ++ x7d :: post = ((p :: pre) ++ x7b :: s) ++ x7d :: post)
      by (by rewrite <-app_assoc).
    rewrite E, rfind_byte_app by done. cbn [ok_or rbind].
    set (a := (p :: pre)). replace (length (a ++ x7b :: s) <? length a)%nat with false
      by (symmetry; apply Nat.ltb_ge; rewrite length_app; lia).
    f_equal. rewrite <-app_assoc, drop_app_length.
    replace (S (length (a ++ x7b :: s)) - length a)%nat with (length ((x7b :: s) ++ [x7d]))
      by (rewrite !length_app; simpl; lia).
    change ((x7b :: s) ++ x7d :: post) with ((x7b :: s) ++ [x7d] ++ post). by rewrite app_assoc, take_app_length.
Qed.

Section delivery.
Context `{!Base64} `{!Base64Laws} `{!WireFormats} `{!RelayFormats} `{!BatchEncoder} `{!TransportLaws}.
Context (gz : bytes → option bytes) (key : bytes).

(** What the node sends is read as the responses it had, compressed or not. *)
Lemma encode_batch_read z client_zstd rs pre post :
  x7b ∉ pre → x7d ∉ post → (pre = [] → post = []) →
  let text := pre ++ encode_batch client_zstd rs ++ post in
  utf8_valid text = true → trim text = text →
  ∃ resp z', parse_batch_response z text = Ret (resp, z') ∧ bt_r resp = rs ∧ bt_e resp = None.
Proof.
  intros Hpre Hpost Hpp. unfold parse_batch_response.
  assert (Hplain : let text := pre ++ json_of_batch rs ++ post in utf8_valid text = true → trim text = text →
    ∃ resp z', (let* json := tunnel_json (bs "batch response") text in
      match batch_response_of_json json with
      | Err e => Throw (EJson e)
      | Ok resp => Ret (expand_zr resp, z || bool_decide (is_Some (bt_zc resp)))
      end) = Ret (resp, z') ∧ bt_r resp = rs ∧ bt_e resp = None).
  { intros text Hu Ht. subst text. pose proof (read_batch rs) as Hr. destruct (batch_object rs) as (s & Hs & _).
    rewrite Hs in *. rewrite tunnel_json_found by done. cbn [rbind]. rewrite Hr. eauto. }
  unfold encode_batch. destruct client_zstd; [|exact Hplain].
  destruct (zstd_encode_all (json_of_resps rs)) as [c|e] eqn:Ez; [|exact Hplain].
  intros Hu Ht. pose proof (read_zr (b64_encode c)) as Hr.
  destruct (zr_object (b64_encode c)) as (s & Hs & _). rewrite Hs in *. rewrite tunnel_json_found by done.
  cbn [rbind]. rewrite Hr. eexists _, _. split; [done|]. unfold expand_zr. simpl.
  by rewrite b64_decode_encode, (zstd_roundtrip _ _ Ez), read_resps.
Qed.

(** A response on the connection: its head, whole up to the blank line, and its
    body, by length or in chunks, in whatever pieces; [rest] follows it. *)
Definition response_arrives (s : Stream) (status : Z) (headers : Headers) (raw : bytes) (rest : Stream) : Prop :=
  ∃ head status_line lines wire,
    headers = response_headers lines ∧
    find_sub header_sep (head ++ header_sep ++ wire) = Some (length head) ∧ len head + 4 ≤ 1024 * 1024 ∧
    utf8_valid head = true ∧ split_crlf head = status_line :: lines ∧ parse_status_line status_line = Ret status ∧
    framed headers raw wire ∧ arrives s (head ++ header_sep ++ wire) rest.

(** [n] redirects, each with a place to go to, before what is at [rest]. *)
Inductive edge_redirects : nat → Stream → Stream → Prop :=
  | edge_redirects_none s : edge_redirects 0 s s
  | edge_redirects_more n s status headers raw location s' rest :
      response_arrives s status headers raw s' →
      status ∈ [301; 302; 303; 307; 308] → header_get headers (bs "location") = Some location →
      edge_redirects n s' rest → edge_redirects (S n) s rest.

Lemma round_trip_of s status headers raw rest :
  response_arrives s status headers raw rest →
  round_trip gz (mk_conn [] s) = Ret (status, headers, gunzip gz headers raw, mk_conn [] rest).
Proof.
  intros (head & status_line & lines & wire & -> & Hp & Hlen & Hu & Hsp & Hst & Hfr & Ha). unfold round_trip.
  cbn [c_writes c_reads]. by rewrite (read_http_response_of gz head status_line lines status raw wire s rest).
Qed.

(** The redirects are followed to the response behind them. *)
Lemma edge_redirects_followed n hops s s' status headers raw rest written :
  edge_redirects n s s' → (n ≤ hops)%nat → response_arrives s' status headers raw rest → is_redirect_status status = false →
  ∃ first c, round_trip gz (mk_conn [] s) = Ret (first, c) ∧
    (follow_redirects gz hops first c written).2 = Ret (status, headers, gunzip gz headers raw).
Proof.
  intros Hr. revert hops written. induction Hr as [s|n s st0 h0 raw0 loc s1 s2 Ha Hst Hloc Hr IH];
    intros hops written Hn Hlast Hnr.
  - eexists _, _. split; [by apply round_trip_of|]. destruct hops; [done|]. cbn [follow_redirects]. by rewrite Hnr.
  - eexists _, _. split; [by apply round_trip_of|]. destruct hops as [|hops]; [lia|]. cbn [follow_redirects].
    assert (is_redirect_status st0 = true) as ->.
    { rewrite !elem_of_cons, elem_of_nil in Hst. by destruct Hst as [->|[->|[->|[->|[->|[]]]]]]. }
    cbn [negb]. rewrite Hloc. destruct (parse_redirect loc) as [rpath rhost].
    destruct (IH hops (written ++ [redirect_request rpath (default http_host rhost)])) as ([[st1 h1] b1] & c & -> & E);
      [lia|done|done|]. exact E.
Qed.

End delivery.

(** ** An example

    Libraries that print any countable value as binary digits between braces,
    a compressed body with a [z] in front: they satisfy the laws. *)

#[global] Instance byte_countable : Countable byte := inj_countable' byte_val byte_of byte_of_val.

Definition resp_fields (r : TunnelResponse) :=
  (r_sid r, r_d r, r_pkts r, r_eof r, r_e r, r_code r, r_seq r).
Definition resp_of_fields (t : option bytes * option bytes * option (list bytes) * option bool * option bytes *
    option bytes * option Z) : TunnelResponse :=
  let '(sid, d, pkts, eof, e, code, seq) := t in mk_resp sid d pkts eof e code seq.

Lemma resp_of_fields_eq r : resp_of_fields (resp_fields r) = r.
Proof. by destruct r. Qed.

#[global] Instance resp_eq_dec : EqDecision TunnelResponse.
Proof. solve_decision. Defined.
#[global] Instance resp_countable : Countable TunnelResponse := inj_countable' resp_fields resp_of_fields resp_of_fields_eq.

Fixpoint digits_of (p : positive) : bytes :=
  match p with xH => [x32] | xO p => x30 :: digits_of p | xI p => x31 :: digits_of p end.

Fixpoint of_digits (s : bytes) : option positive :=
  match s with
  | [] => None
  | c :: s' =>
      if is_byte x32 c then Some xH
      else let? p := of_digits s' in if is_byte x30 c then Some (xO p) else Some (xI p)
  end.

Lemma of_digits_of p : of_digits (digits_of p) = Some p.
Proof. induction p as [p IH|p IH|]; simpl; by rewrite ?IH. Qed.

Lemma digits_of_printable p : forallb printable (digits_of p) = true.
Proof. induction p; by simpl. Qed.

Definition braced {A} `{Countable A} (tag : bytes) (a : A) : bytes := [x7b] ++ (tag ++ digits_of (encode a)) ++ [x7d].

Definition unbraced {A} `{Countable A} (tag s : bytes) : option A :=
  let? s := strip_prefix ([x7b] ++ tag) s in
  let? s := strip_suffix [x7d] s in
  let? p := of_digits s in decode p.

Lemma unbraced_braced {A} `{Countable A} tag (a : A) : unbraced tag (braced tag a) = Some a.
Proof.
  unfold unbraced, braced. rewrite <-app_assoc, (app_assoc [x7b] tag), strip_prefix_app, strip_suffix_app, of_digits_of.
  apply decode_encode.
Qed.

Lemma braced_object {A} `{Countable A} tag (a : A) :
  forallb printable tag = true → ∃ s, braced tag a = [x7b] ++ s ++ [x7d] ∧ utf8_valid (braced tag a) = true.
Proof.
  intros Ht. eexists. split; [done|]. apply utf8_printable. unfold braced.
  rewrite !forallb_app, Ht, digits_of_printable. done.
Qed.

Definition toy_node : WireFormats := {|
  decompress_gzip b := Err (bs "unsupported");
  batch_of_json b := Err (bs "eof");
  ops_of_json b := Ok [];
  json_of_resp r := braced [] r;
  json_of_resps rs := braced [] rs;
  json_of_batch rs := braced [] rs;
  json_of_zr z := braced [x7a] z;
  zstd_decode_all b := Ok b;
  zstd_encode_all b := Ok b |}.

Definition or_eof {A} (o : option A) : result A bytes := match o with Some a => Ok a | None => Err (bs "eof") end.

Definition toy_client : RelayFormats := {|
  value_of_json _ := Err (bs "eof");
  json_of_value _ := bs "{}";
  json_of_request _ := bs "{}";
  relay_response_of_json _ := Err (bs "eof");
  tunnel_response_of_json s := or_eof (unbraced [] s);
  batch_response_of_json s :=
    match unbraced [x7a] s with
    | Some z => Ok (mk_batch_response [] None (Some z) (Some 1))
    | None => or_eof (let? rs := unbraced [] s in Some (mk_batch_response rs None None None))
    end;
  responses_of_json s := or_eof (unbraced [] s);
  zr_decode_all b := Ok b |}.

Definition toy_encoder : BatchEncoder := {| json_of_ops _ := bs "[]"; zops_encode_all b := Ok b |}.

Lemma braced_no_tag {A} `{Countable A} (a : A) : strip_prefix ([x7b] ++ [x7a]) (braced [] a) = None.
Proof. unfold braced. by destruct (encode a). Qed.

Lemma toy_transport : TransportLaws (H := toy_node) (H0 := toy_client).
Proof.
  split; simpl.
  - intros rs. unfold unbraced at 1. rewrite braced_no_tag. by rewrite unbraced_braced.
  - intros z. by rewrite unbraced_braced.
  - intros rs. by rewrite unbraced_braced.
  - by intros b c [= ->].
  - intros rs. by apply braced_object.
  - intros z. by apply braced_object.
Qed.

Definition one_response : list TunnelResponse := [mk_resp (Some (bs "s")) None None None None None None].

Definition demo_page : bytes := bs "<p>" ++ encode_batch (H := std_base64) (H0 := toy_node) false one_response ++ bs "</p>".

Definition demo_batch_head : bytes := bs "HTTP/1.1 200 OK" ++ crlf ++ bs "Content-Length: " ++ fmt_uint (len demo_page).

(** The usual redirect of a deployment, in front of it. *)
Definition demo_redirect_head : bytes :=
  bs "HTTP/1.1 302 Moved Temporarily" ++ crlf ++ bs "Location: https://script.googleusercontent.com/macros/echo" ++ crlf ++
  bs "Content-Length: 0".

Definition demo_client : TunnelClient := mk_tunnel_client demo_scripts true.

Definition demo_last : Stream := Data <$> [take 20 demo_batch_head; drop 20 demo_batch_head ++ header_sep; demo_page].
Definition demo_stream : Stream := Data <$> [demo_redirect_head ++ [x0d]; [x0a; x0d; x0a]].

Lemma demo_redirect_arrives :
  response_arrives (demo_stream ++ demo_last) 302
    (response_headers [bs "Location: https://script.googleusercontent.com/macros/echo"; bs "Content-Length: 0"]) [] demo_last.
Proof.
  exists demo_redirect_head, (bs "HTTP/1.1 302 Moved Temporarily"),
    [bs "Location: https://script.googleusercontent.com/macros/echo"; bs "Content-Length: 0"], [].
  split_and!; try by vm_compute.
  - by apply framed_counted; vm_compute.
  - eexists. split; [reflexivity|]. split; [|by vm_compute]. repeat (constructor; [done|]). constructor.
Qed.

Lemma demo_last_arrives :
  response_arrives demo_last 200 (response_headers [bs "Content-Length: " ++ fmt_uint (len demo_page)]) demo_page [].
Proof.
  exists demo_batch_head, (bs "HTTP/1.1 200 OK"), [bs "Content-Length: " ++ fmt_uint (len demo_page)], demo_page.
  split_and!; try by vm_compute.
  - by apply framed_counted; vm_compute.
  - eexists. split; [symmetry; apply app_nil_r|]. split; [|by vm_compute]. repeat (constructor; [done|]). constructor.
Qed.


(** The text between the first opening and the last closing brace is taken as
    the JSON: in a page with a style sheet in front, that is not the node's. *)
Example page_with_braces_misread :
  tunnel_json (bs "batch response") (bs "<style>p{}</style>{json}</p>") = Ret (bs "{}</style>{json}").
Proof. vm_compute. reflexivity. Qed.
