(* ===== verification/Pool.v ===== *)
(** * The pool of HTTP/1.1 connections (src/domain_fronter.rs)

    [acquire], [release], [warm] and [run_pool_refill] over the shared vector
    of pooled connections, and the tasks that use them as an interleaving with
    one step between two awaits.  Times are nanoseconds on the monotonic
    clock; what [open] finds is an input. *)

From S2P Require Import Prelude RelayWire.

Definition POOL_TTL_SECS : Z := 30.
Definition POOL_MIN : Z := 8.
Definition POOL_MAX : Z := 80.
Definition MIN_REMAINING_SECS : Z := 20.

Definition NS : Z := 1000000000.

(** A TLS stream is known by the number of its connection. *)
Record PoolEntry := mk_entry { stream : nat; created : Z }.

#[global] Instance PoolEntry_eq_dec : EqDecision PoolEntry.
Proof. solve_decision. Defined.

(** [created.elapsed()] and its whole seconds. *)
Definition elapsed (now : Z) (e : PoolEntry) : Z := sat_sub now (created e).
Definition elapsed_secs (now : Z) (e : PoolEntry) : Z := elapsed now e / NS.

Definition pool_unexpired (now : Z) (e : PoolEntry) : bool := elapsed_secs now e <? POOL_TTL_SECS.

(** [pool.retain(..)]. *)
Definition evict_expired (now : Z) (pool : list PoolEntry) : list PoolEntry := filter (λ e, Is_true (pool_unexpired now e)) pool.

(** [min_by_key] over the entries numbered from [i]: the first of the smallest. *)
Fixpoint freshest (now : Z) (i : nat) (pool : list PoolEntry) : option (nat * Z) :=
  match pool with
  | [] => None
  | e :: pool' =>
      match freshest now (S i) pool' with
      | Some (j, k) => if k <? elapsed now e then Some (j, k) else Some (i, elapsed now e)
      | None => Some (i, elapsed now e)
      end
  end.

(** [Vec::swap_remove]: the last entry takes the place of the one removed. *)
Definition swap_remove (i : nat) (pool : list PoolEntry) : option (PoolEntry * list PoolEntry) :=
  match pool !! i, last pool with
  | Some e, Some z => Some (e, take (length pool - 1) (<[i := z]> pool))
  | _, _ => None
  end.

(** The locked part of [acquire]; [None] goes on to [open]. *)
Definition acquire_pooled (now : Z) (pool : list PoolEntry) : option PoolEntry * list PoolEntry :=
  let pool := evict_expired now pool in
  match freshest now 0 pool with
  | None => (None, pool)
  | Some (i, _) =>
      match swap_remove i pool with
      | Some (e, pool) => (Some e, pool)
      | None => (None, pool)
      end
  end.

(** [if pool.len() < POOL_MAX { pool.push(entry) }]. *)
Definition push_entry (e : PoolEntry) (pool : list PoolEntry) : list PoolEntry :=
  if len pool <? POOL_MAX then pool ++ [e] else pool.

(** The whole of [acquire]: [opened] is what [open] gives, and when. *)
Definition acquire (now : Z) (opened : result nat FronterError * Z) (pool : list PoolEntry)
    : result PoolEntry FronterError * list PoolEntry :=
  match acquire_pooled now pool with
  | (Some e, pool) => (Ok e, pool)
  | (None, pool) =>
      match opened with
      | (Ok s, later) => (Ok (mk_entry s later), pool)
      | (Err e, _) => (Err e, pool)
      end
  end.

Definition release (now : Z) (e : PoolEntry) (pool : list PoolEntry) : list PoolEntry :=
  if POOL_TTL_SECS <=? elapsed_secs now e then pool else push_entry e pool.

(** The entry [warm] makes of its [i]-th connection, dated [8 i] seconds back. *)
Definition warm_entry (now : Z) (i : Z) (s : nat) : PoolEntry := mk_entry s (now - 8 * i * NS).

(** The loop of [warm] from connection [i]: the entries pushed are counted.
    The opens are tried in turn, each with the time it ended at. *)
Fixpoint warm_loop (i : Z) (opens : list (result nat FronterError * Z)) (warmed : Z) (pool : list PoolEntry)
    : Z * list PoolEntry :=
  match opens with
  | [] => (warmed, pool)
  | (Ok s, now) :: opens' =>
      warm_loop (i + 1) opens' (if len pool <? POOL_MAX then warmed + 1 else warmed) (push_entry (warm_entry now i s) pool)
  | (Err _, _) :: opens' => warm_loop (i + 1) opens' warmed pool
  end.

Definition warm (opens : list (result nat FronterError * Z)) (pool : list PoolEntry) : Z * list PoolEntry :=
  warm_loop 0 opens 0 pool.

(** The number of connections that [run] in [src/proxy_server.rs] warms. *)
Definition warm_count (num_scripts : Z) : Z := Z.min 16 (Z.max 6 num_scripts).

Definition entry_healthy (now : Z) (e : PoolEntry) : bool := elapsed_secs now e + MIN_REMAINING_SECS <? POOL_TTL_SECS.

Definition healthy_count (now : Z) (pool : list PoolEntry) : Z := len (filter (λ e, Is_true (entry_healthy now e)) pool).

(** The inner loop of [run_pool_refill] on a pool that no other task touches,
    from time [now], over the coming opens and the times they end at.  The
    [bool] says that the loop has ended; otherwise it is in the open that
    follows the last of the list. *)
Fixpoint refill_loop (now : Z) (opens : list (result nat FronterError * Z)) (pool : list PoolEntry)
    : bool * list PoolEntry :=
  if POOL_MIN <=? healthy_count now pool then (true, pool)
  else match opens with
       | [] => (false, pool)
       | (Err _, _) :: _ => (true, pool)
       | (Ok s, later) :: opens' => refill_loop later opens' (push_entry (mk_entry s later) pool)
       end.

(** One turn of the outer loop: the eviction, then the inner loop. *)
Definition refill_turn (now : Z) (opens : list (result nat FronterError * Z)) (pool : list PoolEntry)
    : bool * list PoolEntry :=
  refill_loop now opens (evict_expired now pool).

(** ** The tasks around the pool *)

(** [held]: the connections that tasks have, taken from the pool or just
    opened; [next]: the number of the next connection. *)
Record PoolNet := mk_net { pn_now : Z; pn_pool : list PoolEntry; pn_held : list PoolEntry; pn_next : nat }.

Inductive pool_step : PoolNet → PoolNet → Prop :=
  | ps_tick now later pool held n :
      now ≤ later →
      pool_step (mk_net now pool held n) (mk_net later pool held n)
  | ps_acquire now pool held n e pool' :
      acquire_pooled now pool = (Some e, pool') →
      pool_step (mk_net now pool held n) (mk_net now pool' (e :: held) n)
  | ps_miss now pool held n pool' :
      acquire_pooled now pool = (None, pool') →
      pool_step (mk_net now pool held n) (mk_net now pool' held n)
  | ps_open now pool held n i :
      (** an [open] of [acquire] or the refill ([i] = 0) or of [warm] *)
      pool_step (mk_net now pool held n) (mk_net now pool (warm_entry now i n :: held) (S n))
  | ps_warm now pool h1 e h2 n :
      pool_step (mk_net now pool (h1 ++ e :: h2) n) (mk_net now (push_entry e pool) (h1 ++ h2) n)
  | ps_refill now pool h1 e h2 n :
      pool_step (mk_net now pool (h1 ++ e :: h2) n) (mk_net now (push_entry (mk_entry (stream e) now) pool) (h1 ++ h2) n)
  | ps_release now pool h1 e h2 n :
      pool_step (mk_net now pool (h1 ++ e :: h2) n) (mk_net now (release now e pool) (h1 ++ h2) n)
  | ps_drop now pool h1 e h2 n :
      (** a failed exchange, or a cancelled task *)
      pool_step (mk_net now pool (h1 ++ e :: h2) n) (mk_net now pool (h1 ++ h2) n)
  | ps_evict now pool held n :
      pool_step (mk_net now pool held n) (mk_net now (evict_expired now pool) held n).

Definition pool_start (now : Z) : PoolNet := mk_net now [] [] 0.

(** ** The choice of a connection *)

Lemma freshest_spec now pool : ∀ i,
  match freshest now i pool with
  | None => pool = []
  | Some (j, k) => ∃ e, pool !! (j - i)%nat = Some e ∧ (i ≤ j)%nat ∧ k = elapsed now e ∧
                        ∀ e', e' ∈ pool → k ≤ elapsed now e'
  end.
Proof.
  induction pool as [|x pool IH]; intros i; simpl; [done|].
  specialize (IH (S i)). destruct (freshest now (S i) pool) as [[j k]|].
  - destruct IH as (e & He & Hij & -> & Hmin). case_if.
    + exists e. replace (j - i)%nat with (S (j - S i)) by lia. simpl.
      split_and!; [done|lia|done|]. intros e' [->|H]%elem_of_cons; [lia|auto].
    + exists x. rewrite Nat.sub_diag. split_and!; [done|lia|done|].
      intros e' [->|H]%elem_of_cons; [lia|specialize (Hmin _ H); lia].
  - subst. exists x. rewrite Nat.sub_diag. split_and!; [done|lia|done|]. intros e' ->%list_elem_of_singleton. lia.
Qed.

Lemma swap_remove_perm i pool e :
  pool !! i = Some e → ∃ pool', swap_remove i pool = Some (e, pool') ∧ e :: pool' ≡ₚ pool.
Proof.
  intros He. destruct pool as [|z pool _] using rev_ind; [done|].
  unfold swap_remove. rewrite He, last_snoc. eexists. split; [done|].
  rewrite length_app. simpl. replace (length pool + 1 - 1)%nat with (length pool) by lia.
  destruct (decide (i = length pool)) as [->|Hi].
  - rewrite list_lookup_middle in He by done. injection He as <-.
    rewrite insert_app_r_alt, take_app_length by lia. apply Permutation_cons_append.
  - assert (i < length pool)%nat.
    { apply lookup_lt_Some in He. rewrite length_app in He. simpl in He. lia. }
    rewrite lookup_app_l in He by lia.
    rewrite insert_app_l, take_app_length' by (rewrite ?length_insert; lia).
    rewrite insert_take_drop by lia. rewrite <- (take_drop_middle _ _ _ He) at 3.
    rewrite <- Permutation_cons_append. solve_Permutation.
Qed.

(** Taking a connection evicts the expired ones and hands out a freshest of
    the others, which stays out of the pool. *)
Lemma acquire_pooled_spec now pool :
  match acquire_pooled now pool with
  | (Some e, pool') => e :: pool' ≡ₚ evict_expired now pool ∧ ∀ e', e' ∈ evict_expired now pool → elapsed now e ≤ elapsed now e'
  | (None, pool') => pool' = [] ∧ evict_expired now pool = []
  end.
Proof.
  unfold acquire_pooled. pose proof (freshest_spec now (evict_expired now pool) 0) as H.
  destruct (freshest now 0 (evict_expired now pool)) as [[j k]|].
  - destruct H as (e & He & _ & -> & Hmin). rewrite Nat.sub_0_r in He.
    destruct (swap_remove_perm _ _ _ He) as (pool' & -> & Hp). auto.
  - auto.
Qed.

Lemma evict_elem now pool e : e ∈ evict_expired now pool ↔ e ∈ pool ∧ elapsed_secs now e < POOL_TTL_SECS.
Proof. unfold evict_expired. rewrite list_elem_of_filter. unfold pool_unexpired. rewrite Is_true_true, Z.ltb_lt. tauto. Qed.

(** A connection that a request starts on has not expired, is the freshest
    there was, and is a new one exactly when the pool had none. *)
Lemma acquire_freshest now opened pool e pool' :
  acquire now opened pool = (Ok e, pool') →
  (e ∈ pool ∧ elapsed_secs now e < POOL_TTL_SECS ∧
     (∀ e', e' ∈ pool → elapsed_secs now e' < POOL_TTL_SECS → elapsed now e ≤ elapsed now e') ∧
     e :: pool' ≡ₚ evict_expired now pool)
  ∨ ((∀ e', e' ∈ pool → POOL_TTL_SECS ≤ elapsed_secs now e') ∧ pool' = [] ∧
     ∃ s later, opened = (Ok s, later) ∧ e = mk_entry s later).
Proof.
  unfold acquire. pose proof (acquire_pooled_spec now pool) as H.
  destruct (acquire_pooled now pool) as [[e0|] p]; [destruct H as [Hp Hmin]|destruct H as [-> He]].
  - intros [= <- <-]. left.
    assert (e0 ∈ evict_expired now pool) as [Hin Ht]%evict_elem by (rewrite <- Hp; left).
    split_and!; auto. intros e' Hin' Ht'. apply Hmin, evict_elem. auto.
  - destruct opened as [[s|er] later]; [|done]. intros [= <- <-]. right. split_and!; [|done|eauto].
    intros e' Hin. destruct (Z.lt_ge_cases (elapsed_secs now e') POOL_TTL_SECS); [|done].
    assert (e' ∈ evict_expired now pool) as Hx by (apply evict_elem; auto). rewrite He in Hx. by apply elem_of_nil in Hx.
Qed.

(** ** No connection is shared *)

Definition streams (l : list PoolEntry) : list nat := map stream l.

Record pool_inv (st : PoolNet) : Prop := {
  pi_nodup : NoDup (streams (pn_held st ++ pn_pool st));
  pi_known : Forall (λ s, s < pn_next st)%nat (streams (pn_held st ++ pn_pool st));
  pi_len : len (pn_pool st) ≤ POOL_MAX
}.

(** The streams of a later state are some of those there were. *)
Lemma pool_inv_sub st st' l :
  pool_inv st → streams (pn_held st') ++ streams (pn_pool st') ++ l ≡ₚ streams (pn_held st ++ pn_pool st) →
  (pn_next st ≤ pn_next st')%nat → len (pn_pool st') ≤ POOL_MAX → pool_inv st'.
Proof.
  intros [Hn Hk _] Hp Hle Hl. unfold streams in *. rewrite <- Hp in Hn, Hk. rewrite app_assoc, <- map_app in Hn, Hk.
  split; [|eapply Forall_impl; [apply Forall_app in Hk as [Hk _]; exact Hk|simpl; lia]|done].
  by apply NoDup_app in Hn as [? _].
Qed.

Lemma evict_split now pool : ∃ l, evict_expired now pool ++ l ≡ₚ pool.
Proof.
  induction pool as [|e pool [l IH]]; [by exists []|].
  unfold evict_expired in *. rewrite filter_cons. case_decide.
  - exists l. simpl. by rewrite IH.
  - exists (e :: l). by rewrite <- IH at 2; rewrite Permutation_middle.
Qed.

Lemma push_entry_cases e pool :
  (push_entry e pool = pool ++ [e] ∧ len pool < POOL_MAX) ∨ push_entry e pool = pool.
Proof. unfold push_entry. case_if; auto. Qed.

Lemma len_evict now pool : len (evict_expired now pool) ≤ len pool.
Proof. unfold len, evict_expired. pose proof (length_filter (λ e, Is_true (pool_unexpired now e)) pool). lia. Qed.

(** A held connection leaves its task and may go to the end of the pool. *)
Lemma pool_inv_put now pool h1 e e' h2 n pool' :
  pool_inv (mk_net now pool (h1 ++ e :: h2) n) → stream e' = stream e →
  (pool' = pool ++ [e'] ∧ len pool < POOL_MAX) ∨ pool' = pool → pool_inv (mk_net now pool' (h1 ++ h2) n).
Proof.
  intros Hi Hs Hp'. pose proof (pi_len _ Hi) as Hlen. simpl in Hlen.
  eapply (pool_inv_sub _ _ (if decide (pool' = pool) then [stream e] else [])); [exact Hi| |simpl; lia|].
  - unfold streams in *. simpl. destruct Hp' as [[-> Hl]| ->].
    + rewrite decide_False by (intros H; apply (f_equal length) in H; rewrite length_app in H; simpl in H; lia).
      rewrite !map_app. simpl. rewrite Hs. solve_Permutation.
    + rewrite decide_True by done. rewrite !map_app. simpl. solve_Permutation.
  - simpl. destruct Hp' as [[-> Hl]| ->]; rewrite ?len_app, ?len_cons, ?len_nil; lia.
Qed.

Lemma pool_step_inv st st' : pool_step st st' → pool_inv st → pool_inv st'.
Proof.
  intros Hs Hi. pose proof (pi_len _ Hi) as Hlen.
  destruct Hs; simpl in Hlen.
  - destruct Hi; by split.
  - pose proof (acquire_pooled_spec now pool) as Hp. rewrite H in Hp. destruct Hp as [Hp _].
    destruct (evict_split now pool) as [l Hl].
    assert (len pool' + 1 + len l = len pool).
    { apply Permutation_length in Hp, Hl. rewrite length_app in Hl. simpl in Hp. unfold len. lia. }
    eapply (pool_inv_sub _ _ (streams l)); [exact Hi| |simpl; lia|simpl; pose proof (len_nonneg l); lia].
    unfold streams. simpl. rewrite <- Hl, <- Hp. rewrite !map_app. simpl. solve_Permutation.
  - pose proof (acquire_pooled_spec now pool) as Hp. rewrite H in Hp. destruct Hp as [-> _].
    eapply (pool_inv_sub _ _ (streams pool)); [exact Hi| |simpl; lia|done].
    unfold streams. simpl. by rewrite map_app.
  - destruct Hi as [Hn Hk _]. simpl in *. split; simpl; [| |done].
    + constructor; [|done]. intros Hin. rewrite Forall_forall in Hk. specialize (Hk _ Hin). simpl in Hk. lia.
    + constructor; [lia|]. eapply Forall_impl; [exact Hk|]. simpl. lia.
  - eapply pool_inv_put; [exact Hi|done|apply push_entry_cases].
  - eapply (pool_inv_put _ _ _ e (mk_entry (stream e) now)); [exact Hi|done|apply push_entry_cases].
  - eapply (pool_inv_put _ _ _ e e); [exact Hi|done|]. unfold release. case_if; [auto|apply push_entry_cases].
  - eapply (pool_inv_put _ _ _ e e); [exact Hi|done|auto].
  - destruct (evict_split now pool) as [l Hl].
    eapply (pool_inv_sub _ _ (streams l)); [exact Hi| |simpl; lia|simpl; pose proof (len_evict now pool); lia].
    unfold streams. simpl. rewrite <- Hl at 2. by rewrite !map_app.
Qed.

(** C36: whatever requests, the warm-up and the refill do, and however they
    are cut short, no connection is used by two requests, or by a request
    while it is in the pool, and the pool holds at most [POOL_MAX]. *)
Theorem pool_exclusive now st :
  rtc pool_step (pool_start now) st →
  NoDup (map stream (pn_held st ++ pn_pool st)) ∧ len (pn_pool st) ≤ POOL_MAX.
Proof.
  intros Hr. assert (pool_inv st) as [? _ ?]; [|done].
  apply (rtc_ind_r (λ x, pool_inv x) _) in Hr; [done| |intros; eapply pool_step_inv; eauto].
  split; simpl; [constructor|constructor|vm_compute; discriminate].
Qed.

(** A request opens connection 0 and releases it, another takes it. *)
Lemma pool_exclusive_witness :
  let st := mk_net 7 [] [mk_entry 0 5] 1 in
  NoDup (map stream (pn_held st ++ pn_pool st)) ∧ len (pn_pool st) ≤ POOL_MAX.
Proof.
  apply (pool_exclusive 5).
  eapply rtc_l; [apply (ps_open 5 [] [] 0 0)|].
  eapply rtc_l; [apply (ps_release 5 [] [] (mk_entry 0 5) [] 1)|].
  eapply rtc_l; [apply (ps_tick 5 7); lia|].
  eapply rtc_l; [apply (ps_acquire 7 [mk_entry 0 5] [] 1 (mk_entry 0 5) []); reflexivity|].
  apply rtc_refl.
Defined.

(** ** The refill *)

(** The connections made after time [a]. *)
Definition made_after (a : Z) (pool : list PoolEntry) : Z := len (filter (λ e, a < created e) pool).

Definition HEALTHY_NS : Z := (POOL_TTL_SECS - MIN_REMAINING_SECS) * NS.

Lemma entry_healthy_spec now e : created e ≤ now → entry_healthy now e = true ↔ now - HEALTHY_NS < created e.
Proof.
  intros H. unfold entry_healthy, elapsed_secs, elapsed, sat_sub, HEALTHY_NS, POOL_TTL_SECS, MIN_REMAINING_SECS, NS.
  rewrite Z.max_r, Z.ltb_lt by lia. split; intros; [|]; divlia.
Qed.

Lemma healthy_count_made now pool :
  Forall (λ e, created e ≤ now) pool → healthy_count now pool = made_after (now - HEALTHY_NS) pool.
Proof.
  unfold healthy_count, made_after, len. induction 1 as [|e pool He _ IH]; [done|].
  rewrite !filter_cons. pose proof (entry_healthy_spec now e He) as Hs.
  repeat case_decide; simpl; try lia; rewrite Is_true_true in *; tauto.
Qed.

Lemma made_after_app a pool pool' : made_after a (pool ++ pool') = made_after a pool + made_after a pool'.
Proof. unfold made_after. by rewrite filter_app, len_app. Qed.

Lemma made_after_none a pool : Forall (λ e, created e ≤ a) pool → made_after a pool = 0.
Proof. unfold made_after. induction 1 as [|e pool He _ IH]; [done|]. by rewrite filter_cons_False by lia. Qed.

Lemma made_after_one a e : made_after a [e] = if a <? created e then 1 else 0.
Proof. unfold made_after. rewrite filter_cons. case_decide; case_if; (reflexivity || lia). Qed.

(** Every open succeeds and takes at least [d]. *)
Fixpoint slow_opens (d now : Z) (opens : list (result nat FronterError * Z)) : bool :=
  match opens with
  | [] => true
  | (Ok _, later) :: opens' => (now + d <=? later) && slow_opens d later opens'
  | (Err _, _) :: _ => false
  end.

(** The connections made since [start] are [d] apart. *)
Definition paced (d start now : Z) (pool : list PoolEntry) : Prop :=
  Forall (λ e, created e ≤ now) pool ∧
  ∀ a, start - HEALTHY_NS ≤ a ≤ now → d * made_after a pool < now - a + d.

Lemma paced_later d start now later pool :
  0 < d → now ≤ later → paced d start now pool → paced d start later pool.
Proof.
  intros Hd Hl [Hc Hp]. split; [eapply Forall_impl; [exact Hc|simpl; lia]|].
  intros a Ha. destruct (Z.le_gt_cases a now); [specialize (Hp a ltac:(lia)); lia|].
  rewrite made_after_none; [lia|]. eapply Forall_impl; [exact Hc|simpl; lia].
Qed.

Lemma paced_push d start now later pool s :
  0 < d → now + d ≤ later → paced d start now pool → paced d start later (push_entry (mk_entry s later) pool).
Proof.
  intros Hd Hl Hp. destruct (push_entry_cases (mk_entry s later) pool) as [[-> _]| ->];
    [|apply (paced_later _ _ now); [done|lia|done]].
  destruct Hp as [Hc Hp]. split.
  { apply Forall_app. split; [eapply Forall_impl; [exact Hc|simpl; lia]|by repeat constructor]. }
  intros a Ha. rewrite made_after_app, made_after_one. simpl.
  destruct (Z.eq_dec a later) as [->|].
  { rewrite made_after_none by (eapply Forall_impl; [exact Hc|simpl; lia]).
    case_if; lia. }
  if_true.
  destruct (Z.le_gt_cases a now); [specialize (Hp a ltac:(lia)); lia|].
  rewrite made_after_none by (eapply Forall_impl; [exact Hc|simpl; lia]). lia.
Qed.

Lemma paced_unhealthy d start now pool :
  HEALTHY_NS ≤ (POOL_MIN - 1) * d → start ≤ now → paced d start now pool → healthy_count now pool < POOL_MIN.
Proof.
  intros Hd Hs [Hc Hp]. rewrite healthy_count_made by done.
  specialize (Hp (now - HEALTHY_NS)). assert (0 < HEALTHY_NS) by (vm_compute; reflexivity).
  specialize (Hp ltac:(lia)). unfold POOL_MIN in *. nia.
Qed.

Lemma refill_loop_paced d start : HEALTHY_NS ≤ (POOL_MIN - 1) * d → 0 < d → ∀ opens now pool,
  start ≤ now → slow_opens d now opens = true → paced d start now pool →
  (refill_loop now opens pool).1 = false.
Proof.
  intros Hd Hd0. induction opens as [|[[s|e] later] opens IH]; intros now pool Hs Ho Hp; simpl in *; try done;
    rewrite (proj2 (Z.leb_gt _ _)) by (by eapply paced_unhealthy); [done|].
  apply andb_prop in Ho as [Hl Ho]. apply Z.leb_le in Hl.
  apply IH; [lia|done|]. by eapply paced_push.
Qed.

Lemma evict_forall P now pool : Forall P pool → Forall P (evict_expired now pool).
Proof. intros H. apply Forall_forall. intros e He%evict_elem. rewrite Forall_forall in H. apply H, He. Qed.

(** When opening a connection takes [10/7] seconds or more, the refill of
    a pool without a healthy connection never ends: after any number of
    successful opens it goes on to the next, and meanwhile nothing expired is
    evicted. *)
Theorem slow_refill_never_ends d now opens pool :
  HEALTHY_NS ≤ (POOL_MIN - 1) * d →
  Forall (λ e, created e ≤ now - HEALTHY_NS) pool →
  slow_opens d now opens = true →
  (refill_turn now opens pool).1 = false.
Proof.
  intros Hd Hp Ho. assert (0 < HEALTHY_NS) by (vm_compute; reflexivity).
  assert (0 < d) by (unfold POOL_MIN in *; lia).
  apply (refill_loop_paced d now); [done|done|lia|done|]. apply (evict_forall _ now) in Hp.
  split; [eapply Forall_impl; [exact Hp|simpl; lia]|].
  intros a Ha. rewrite made_after_none; [lia|]. eapply Forall_impl; [exact Hp|simpl; lia].
Qed.

Lemma slow_refill_never_ends_witness :
  (refill_turn 0 (imap (λ i _, (Ok i, (Z.of_nat i + 1) * 2 * NS)) (replicate 100 ())) []).1 = false.
Proof.
  apply (slow_refill_never_ends (2 * NS)); [vm_compute; discriminate|constructor|vm_compute; reflexivity].
Defined.

(** Every open succeeds, before the connections made since [start] have
    grown unhealthy. *)
Fixpoint prompt_opens (start now : Z) (opens : list (result nat FronterError * Z)) : bool :=
  match opens with
  | [] => true
  | (Ok _, later) :: opens' => (now <=? later) && (later <? start + HEALTHY_NS) && prompt_opens start later opens'
  | (Err _, _) :: _ => false
  end.

Lemma healthy_count_app now pool pool' :
  healthy_count now (pool ++ pool') = healthy_count now pool + healthy_count now pool'.
Proof. unfold healthy_count. by rewrite filter_app, len_app. Qed.

Lemma healthy_count_nonneg now pool : 0 ≤ healthy_count now pool.
Proof. apply len_nonneg. Qed.

Lemma healthy_count_new start now new :
  Forall (λ e, start ≤ created e ≤ now) new → now < start + HEALTHY_NS → healthy_count now new = len new.
Proof.
  intros Hn Hh. rewrite healthy_count_made by (eapply Forall_impl; [exact Hn|simpl; lia]).
  unfold made_after. induction Hn as [|e new He _ IH]; [done|].
  rewrite filter_cons_True by lia. by rewrite !len_cons, IH.
Qed.

Lemma refill_loop_prompt start base : len base + POOL_MIN ≤ POOL_MAX → ∀ opens now new,
  Forall (λ e, start ≤ created e ≤ now) new → start ≤ now < start + HEALTHY_NS → POOL_MIN ≤ len new + len opens →
  prompt_opens start now opens = true →
  ∃ t pool', refill_loop now opens (base ++ new) = (true, pool') ∧ now ≤ t < start + HEALTHY_NS ∧
             POOL_MIN ≤ healthy_count t pool'.
Proof.
  intros Hb. induction opens as [|[[s|e] later] opens IH]; intros now new Hn Hs Hl Ho; simpl; [| |done].
  - assert (POOL_MIN ≤ healthy_count now (base ++ new)) as Hh;
      [|rewrite (proj2 (Z.leb_le _ _) Hh); exists now; eexists; split_and!; [reflexivity|lia|lia|done]].
    rewrite healthy_count_app, (healthy_count_new start now new) by (done || lia). rewrite len_nil in Hl.
    pose proof (healthy_count_nonneg now base). lia.
  - case_if; [exists now; eexists; split_and!; [reflexivity|lia|lia|done]|]. rename E into Hlt.
    rewrite healthy_count_app, (healthy_count_new start now new) in Hlt by (done || lia).
    pose proof (healthy_count_nonneg now base).
    simpl in Ho. apply andb_prop in Ho as [[Ha Hz]%andb_prop Ho]. apply Z.leb_le in Ha. apply Z.ltb_lt in Hz.
    unfold push_entry. rewrite len_app. if_true. rewrite <- app_assoc.
    rewrite len_cons in Hl.
    destruct (IH later (new ++ [mk_entry s later])) as (t & pool' & -> & Ht & Hh); [| | |done|].
    + apply Forall_app. split; [eapply Forall_impl; [exact Hn|simpl; lia]|]. repeat constructor; simpl; lia.
    + lia.
    + rewrite len_app, len_cons, len_nil. lia.
    + exists t, pool'. split_and!; auto; lia.
Qed.

(** When the opens succeed and are prompt and the pool has room, the
    refill ends after at most [POOL_MIN] of them with [POOL_MIN] healthy
    connections. *)
Theorem refill_restores now opens pool :
  len (evict_expired now pool) + POOL_MIN ≤ POOL_MAX →
  len opens = POOL_MIN → prompt_opens now now opens = true →
  ∃ t pool', refill_turn now opens pool = (true, pool') ∧ now ≤ t < now + HEALTHY_NS ∧
             POOL_MIN ≤ healthy_count t pool'.
Proof.
  intros Hb Hl Ho. unfold refill_turn. rewrite <- (app_nil_r (evict_expired now pool)).
  assert (0 < HEALTHY_NS) by (vm_compute; reflexivity).
  apply refill_loop_prompt; [done|constructor|lia|rewrite len_nil; lia|done].
Qed.

Lemma refill_restores_witness :
  let opens := imap (λ i _, (Ok i, (Z.of_nat i + 1) * NS)) (replicate 8 ()) in
  ∃ t pool', refill_turn 0 opens [mk_entry 9 0] = (true, pool') ∧ 0 ≤ t < HEALTHY_NS ∧ POOL_MIN ≤ healthy_count t pool'.
Proof. apply refill_restores; [vm_compute; discriminate|reflexivity|reflexivity]. Defined.

(** A full pool without a healthy connection: every further connection is
    opened and thrown away. *)
Lemma full_refill_spins opens : ∀ now pool,
  len pool = POOL_MAX → Forall (λ e, created e ≤ now - HEALTHY_NS) pool →
  slow_opens 0 now opens = true → refill_loop now opens pool = (false, pool).
Proof.
  induction opens as [|[[s|e] later] opens IH]; intros now pool Hl Hp Ho; simpl in *; try done;
    assert (0 < HEALTHY_NS) by (vm_compute; reflexivity);
    rewrite healthy_count_made, made_after_none by (eapply Forall_impl; [exact Hp|simpl; lia]); simpl; [done|].
  apply andb_prop in Ho as [Hle Ho]. apply Z.leb_le in Hle.
  unfold push_entry. if_false. apply IH; [done| |done]. eapply Forall_impl; [exact Hp|simpl; lia].
Qed.

(** ** The warm-up *)

(** From the fifth on, a warmed connection has expired when it is pushed. *)
Lemma warm_entry_expired now i s : 4 ≤ i → pool_unexpired now (warm_entry now i s) = false.
Proof.
  intros Hi. unfold pool_unexpired, elapsed_secs, elapsed, sat_sub, warm_entry, POOL_TTL_SECS, NS. simpl.
  apply Z.ltb_ge. divlia.
Qed.

(** [run] warms six connections or more; two or more of them are useless. *)
Lemma warm_wasted :
  let opens := imap (λ i _, (Ok i, 500000000 * Z.of_nat i)) (replicate (Z.to_nat (warm_count 1)) ()) in
  warm opens [] = (6, (warm opens []).2) ∧ len (evict_expired (2500000000) (warm opens []).2) = 4.
Proof. vm_compute. split; reflexivity. Qed.
