(* ===== verification/H2.v ===== *)
(** * The HTTP/2 fast path (src/domain_fronter.rs)

    One exchange over HTTP/2 with its redirects ([h2_round_trip],
    [run_h2_relay_with_send]) and what it may have sent; and the shared
    connection: [ensure_h2] as a machine with one step per critical section,
    [poison_h2_if_gen] and the sticky switch, interleaved over any number of
    tasks.  What the h2 library answers is an input; times are nanoseconds on
    the monotonic clock. *)

From Stdlib Require Import Strings.Byte.
From S2P Require Import Prelude RustBytes Http ProxyHttp ProxyHeads RelayWire RelayUrl Relay Pool.

Definition H2_CONN_TTL_SECS : Z := 540.
Definition H2_OPEN_FAILURE_BACKOFF_SECS : Z := 15.

(** ** One stream *)

Record H2Request := mk_h2req { hr_method : bytes; hr_uri : bytes; hr_content_type : option bytes; hr_body : bytes }.

Inductive ReadyEvent := ReadyOk | ReadyErr (msg : bytes) | ReadyStall.
Inductive HeadEvent := HeadOk (status : Z) (headers : Headers) | HeadErr (msg : bytes) | HeadStall.
Inductive BodyEvent := BodyChunk (b : bytes) | BodyErr (msg : bytes) | BodyStall.

(** What the library answers to one round trip: [Some] is an error; past the
    last body event the body has ended. *)
Record H2Io := mk_io {
  io_build : option bytes;
  io_ready : ReadyEvent;
  io_send : option bytes;
  io_data : option bytes;
  io_head : HeadEvent;
  io_body : list BodyEvent
}.

(** [HeaderValue::to_str]: visible ASCII and tabs. *)
Definition to_str (v : bytes) : option bytes :=
  if forallb (λ c, let n := Z.of_N (Byte.to_N c) in ((32 <=? n) && (n <? 127)) || (n =? 9)) v then Some v else None.

Definition h2_headers (hs : Headers) : Headers :=
  omap (λ '(k, v), match to_str v with Some v => Some (k, v) | None => None end) hs.

(** The drain of the body. *)
Fixpoint drain_body (evs : list BodyEvent) (buf : bytes) : result bytes (FronterError * RequestSent) :=
  match evs with
  | [] => Ok buf
  | BodyChunk b :: evs' => drain_body evs' (buf ++ b)
  | BodyErr m :: _ => Err (ERelay (bs "h2 body chunk: " ++ m), SentMaybe)
  | BodyStall :: _ => Err (ETimeout, SentMaybe)
  end.

Section round_trip.
Context (decode_gzip : bytes → option bytes).

(** The requests whose headers went out, and the outcome. *)
Definition h2_round_trip (io : H2Io) (method path host payload : bytes) (content_type : option bytes)
    : list H2Request * result (Z * Headers * bytes) (FronterError * RequestSent) :=
  let uri := bs "https://" ++ host ++ path in
  match io_build io with
  | Some e => ([], Err (ERelay (bs "h2 request build: " ++ e), SentNo))
  | None =>
  match io_ready io with
  | ReadyErr e => ([], Err (ERelay (bs "h2 ready: " ++ e), SentNo))
  | ReadyStall => ([], Err (ETimeout, SentNo))
  | ReadyOk =>
  match io_send io with
  | Some e => ([], Err (ERelay (bs "h2 send_request: " ++ e), SentNo))
  | None =>
      let sent := [mk_h2req method uri content_type payload] in
      (sent,
       match (match payload with [] => None | _ => io_data io end) with
       | Some e => Err (ERelay (bs "h2 send_data: " ++ e), SentMaybe)
       | None =>
       match io_head io with
       | HeadErr e => Err (ERelay (bs "h2 response: " ++ e), SentMaybe)
       | HeadStall => Err (ETimeout, SentMaybe)
       | HeadOk status hs =>
           let headers := h2_headers hs in
           match drain_body (io_body io) [] with
           | Err e => Err e
           | Ok buf => Ok (status, headers, gunzip decode_gzip headers buf)
           end
       end
       end)
  end
  end
  end.

(** [for _ in 0..5]: round trip [i] of the request and those after it. *)
Fixpoint h2_redirects (env : nat → H2Io) (hops i : nat) (host : bytes) (resp : Z * Headers * bytes)
    : list H2Request * result (Z * Headers * bytes) (FronterError * RequestSent) :=
  match hops with
  | O => ([], Ok resp)
  | S hops' =>
      let '(status, hdrs, _) := resp in
      if negb (is_redirect_status status) then ([], Ok resp)
      else match header_get hdrs (bs "location") with
           | None => ([], Ok resp)
           | Some loc =>
               let '(rpath, rhost) := parse_redirect loc in
               let host := default host rhost in
               match h2_round_trip (env i) (bs "GET") rpath host [] None with
               | (sent, Ok resp) =>
                   let '(sent', r) := h2_redirects env hops' (S i) host resp in (sent ++ sent', r)
               | (sent, Err (e, _)) => (sent, Err (e, SentMaybe))
               end
           end
  end.

(** The exchange of [run_h2_relay_with_send]. *)
Definition h2_exchange (env : nat → H2Io) (path payload : bytes)
    : list H2Request * result (Z * Headers * bytes) (FronterError * RequestSent) :=
  match h2_round_trip (env 0%nat) (bs "POST") path http_host payload (Some (bs "application/json")) with
  | (sent, Err e) => (sent, Err e)
  | (sent, Ok resp) => let '(sent', r) := h2_redirects env 5 1 http_host resp in (sent ++ sent', r)
  end.
End round_trip.

(** ** Opening the connection *)

Inductive OpenH2Error :=
  | OAlpnRefused
  | OIo (msg : bytes)
  | OTls (msg : bytes)
  | ODns (msg : bytes)
  | OHandshake (msg : bytes).

Definition from_open_error (e : OpenH2Error) : FronterError :=
  match e with
  | OIo m => EIo m
  | OTls m => ETls m
  | ODns m => EDns m
  | OAlpnRefused => ERelay (bs "alpn refused h2")
  | OHandshake m => ERelay (bs "h2 handshake: " ++ m)
  end.

(** [alpn]: the protocol agreed on; [handshake]: the number of the connection
    that the library sets up, or its error. *)
Definition h2_handshake_post_tls (alpn : option bytes) (handshake : result nat bytes) : result nat OpenH2Error :=
  if default false ((λ p, bool_decide (p = bs "h2")) <$> alpn) then
    match handshake with Ok c => Ok c | Err m => Err (OHandshake m) end
  else Err OAlpnRefused.

(** What the steps of [open_h2] meet. *)
Record OpenIo := mk_open_io {
  oi_connect : option bytes;
  oi_name : option bytes;
  oi_tls : result (option bytes) bytes;
  oi_handshake : result nat bytes
}.

Definition open_h2 (io : OpenIo) : result nat OpenH2Error :=
  match oi_connect io with
  | Some m => Err (OIo m)
  | None =>
      match oi_name io with
      | Some m => Err (ODns m)
      | None =>
          match oi_tls io with
          | Err m => Err (OTls m)
          | Ok alpn => h2_handshake_post_tls alpn (oi_handshake io)
          end
      end
  end.

(** ** The shared connection *)

(** A [SendRequest] handle is known by the number of its connection. *)
Record H2Cell := mk_cell { hc_send : nat; hc_created : Z; hc_generation : Z }.

(** The HTTP/2 fields of [DomainFronter]; [h2_dead] collects the [dead] flags
    that are set, [h2_open_lock] names the task that holds the lock. *)
Record H2State := mk_h2 {
  h2_cell : option H2Cell;
  h2_open_lock : option nat;
  h2_open_failed_at : option Z;
  h2_generation : Z;
  h2_disabled : bool;
  h2_dead : gset nat;
  h2_calls : Z;
  h2_fallbacks : Z
}.

Definition set_cell (c : option H2Cell) (st : H2State) : H2State :=
  mk_h2 c (h2_open_lock st) (h2_open_failed_at st) (h2_generation st) (h2_disabled st) (h2_dead st) (h2_calls st)
    (h2_fallbacks st).
Definition set_lock (l : option nat) (st : H2State) : H2State :=
  mk_h2 (h2_cell st) l (h2_open_failed_at st) (h2_generation st) (h2_disabled st) (h2_dead st) (h2_calls st)
    (h2_fallbacks st).
Definition set_failed_at (t : option Z) (st : H2State) : H2State :=
  mk_h2 (h2_cell st) (h2_open_lock st) t (h2_generation st) (h2_disabled st) (h2_dead st) (h2_calls st)
    (h2_fallbacks st).
Definition set_generation (g : Z) (st : H2State) : H2State :=
  mk_h2 (h2_cell st) (h2_open_lock st) (h2_open_failed_at st) g (h2_disabled st) (h2_dead st) (h2_calls st)
    (h2_fallbacks st).
Definition set_disabled (st : H2State) : H2State :=
  mk_h2 (h2_cell st) (h2_open_lock st) (h2_open_failed_at st) (h2_generation st) true (h2_dead st) (h2_calls st)
    (h2_fallbacks st).
Definition set_counts (calls fallbacks : Z) (st : H2State) : H2State :=
  mk_h2 (h2_cell st) (h2_open_lock st) (h2_open_failed_at st) (h2_generation st) (h2_disabled st) (h2_dead st) calls
    fallbacks.

(** The end of the connection driver. *)
Definition driver_ends (c : nat) (st : H2State) : H2State :=
  mk_h2 (h2_cell st) (h2_open_lock st) (h2_open_failed_at st) (h2_generation st) (h2_disabled st) ({[c]} ∪ h2_dead st)
    (h2_calls st) (h2_fallbacks st).

Definition secs_since (now t : Z) : Z := sat_sub now t / NS.

(** The check of the cell in [ensure_h2]. *)
Definition usable (now : Z) (st : H2State) : option (nat * Z) :=
  match h2_cell st with
  | Some c =>
      if (secs_since now (hc_created c) <? H2_CONN_TTL_SECS) && negb (bool_decide (hc_send c ∈ h2_dead st))
      then Some (hc_send c, hc_generation c) else None
  | None => None
  end.

Definition backing_off (now : Z) (st : H2State) : bool :=
  match h2_open_failed_at st with
  | Some t => secs_since now t <? H2_OPEN_FAILURE_BACKOFF_SECS
  | None => false
  end.

(** Where a call of [ensure_h2] stands: before each of its critical sections,
    in the handshake, or done. *)
Inductive EnsurePc :=
  | PStart
  | PFast
  | PBackoff
  | PTryLock
  | PRecheck
  | POpening
  | PFailed
  | PClear
  | POpened (c : nat)
  | PUnbackoff (c : nat) (g : Z)
  | PStore (c : nat) (g : Z)
  | PDone (r : option (nat * Z)).

(** One critical section of the call of task [t]; [opened] is how the
    handshake ends, [None] by its timeout.  Dropping the guard frees the lock. *)
Definition ensure_step (t : nat) (now : Z) (opened : option (result nat OpenH2Error)) (pc : EnsurePc) (st : H2State)
    : EnsurePc * H2State :=
  match pc with
  | PStart => (if h2_disabled st then PDone None else PFast, st)
  | PFast => (match usable now st with Some h => PDone (Some h) | None => PBackoff end, st)
  | PBackoff => (if backing_off now st then PDone None else PTryLock, st)
  | PTryLock =>
      match h2_open_lock st with
      | Some _ => (PDone None, st)
      | None => (PRecheck, set_lock (Some t) st)
      end
  | PRecheck =>
      match usable now st with
      | Some h => (PDone (Some h), set_lock None st)
      | None => (POpening, st)
      end
  | POpening =>
      match opened with
      | Some (Ok c) => (POpened c, st)
      | Some (Err OAlpnRefused) => (PClear, set_disabled st)
      | Some (Err _) | None => (PFailed, st)
      end
  | PFailed => (PClear, set_failed_at (Some now) st)
  | PClear => (PDone None, set_lock None (set_cell None st))
  | POpened c =>
      let g := wadd64 (h2_generation st) 1 in (PUnbackoff c g, set_generation g st)
  | PUnbackoff c g => (PStore c g, set_failed_at None st)
  | PStore c g => (PDone (Some (c, g)), set_lock None (set_cell (Some (mk_cell c now g)) st))
  | PDone r => (PDone r, st)
  end.

(** The longest path has ten sections before [PDone]. *)
Fixpoint ensure_run (fuel : nat) (t : nat) (now : Z) (opened : option (result nat OpenH2Error)) (pc : EnsurePc)
    (st : H2State) : option (nat * Z) * H2State :=
  match pc, fuel with
  | PDone r, _ => (r, st)
  | _, O => (None, st)
  | _, S fuel' => let '(pc, st) := ensure_step t now opened pc st in ensure_run fuel' t now opened pc st
  end.

(** [ensure_h2] when no other task runs in between. *)
Definition ensure_h2 (t : nat) (now : Z) (opened : option (result nat OpenH2Error)) (st : H2State)
    : option (nat * Z) * H2State :=
  ensure_run 10 t now opened PStart st.

Definition poison_h2_if_gen (generation : Z) (st : H2State) : H2State :=
  match h2_cell st with
  | Some c => if hc_generation c =? generation then set_cell None st else st
  | None => st
  end.

(** The end of [run_h2_relay_with_send]. *)
Definition h2_finish {A E} (generation : Z) (r : result A E) (st : H2State) : H2State :=
  match r with
  | Ok _ => set_counts (wadd64 (h2_calls st) 1) (h2_fallbacks st) st
  | Err _ =>
      let st := poison_h2_if_gen generation st in
      set_counts (h2_calls st) (wadd64 (h2_fallbacks st) 1) st
  end.

Definition sticky_disable_h2_for_fronting_refusal (st : H2State) : H2State :=
  let st := set_cell None (set_disabled st) in
  set_counts (if 0 <? h2_calls st then h2_calls st - 1 else h2_calls st) (wadd64 (h2_fallbacks st) 1) st.

Section relay_request.
Context (decode_gzip : bytes → option bytes).

Definition run_h2_relay_with_send (env : nat → H2Io) (generation : Z) (path payload : bytes) (st : H2State)
    : list H2Request * result (Z * Headers * bytes) (FronterError * RequestSent) * H2State :=
  let '(sent, r) := h2_exchange decode_gzip env path payload in (sent, r, h2_finish generation r st).

(** [h2_relay_request] of a task alone; [env] is the connection it gets. *)
Definition h2_relay_request (t : nat) (now : Z) (opened : option (result nat OpenH2Error)) (env : nat → nat → H2Io)
    (path payload : bytes) (st : H2State)
    : list H2Request * result (Z * Headers * bytes) (FronterError * RequestSent) * H2State :=
  match ensure_h2 t now opened st with
  | (Some (c, generation), st) => run_h2_relay_with_send (env c) generation path payload st
  | (None, st) =>
      ([], Err (ERelay (bs "h2 unavailable"), SentNo),
       if h2_disabled st then st else set_counts (h2_calls st) (wadd64 (h2_fallbacks st) 1) st)
  end.
End relay_request.

(** ** What an exchange sends *)

Section sends.
Context (decode_gzip : bytes → option bytes).

Definition plain_get (q : H2Request) : Prop := hr_method q = bs "GET" ∧ hr_body q = [] ∧ hr_content_type q = None.

Lemma h2_round_trip_sent io method path host payload ct :
  let '(sent, r) := h2_round_trip decode_gzip io method path host payload ct in
  match r with
  | Err (_, SentNo) => sent = []
  | _ => sent = [mk_h2req method (bs "https://" ++ host ++ path) ct payload]
  end.
Proof.
  assert (∀ evs buf, match drain_body evs buf with Err (_, SentNo) => False | _ => True end) as Hd.
  { induction evs as [|ev evs IH]; intros buf; [done|]. destruct ev; simpl; [apply IH|done|done]. }
  unfold h2_round_trip. destruct (io_build io), (io_ready io), (io_send io); try done.
  destruct (match payload with [] => None | _ => io_data io end); [done|].
  destruct (io_head io); try done. specialize (Hd (io_body io) []).
  destruct (drain_body (io_body io) []) as [|[? []]]; done.
Qed.

Lemma h2_redirects_sent env hops : ∀ i host resp,
  let '(sent, r) := h2_redirects decode_gzip env hops i host resp in
  Forall plain_get sent ∧ len sent ≤ Z.of_nat hops ∧ (∀ e, r ≠ Err (e, SentNo)).
Proof.
  induction hops as [|hops IH]; intros i host [[status hdrs] body]; simpl; [done|].
  destruct (negb (is_redirect_status status)); [split_and!; [done|unfold len; simpl; lia|done]|].
  destruct (header_get hdrs (bs "location")) as [loc|]; [|split_and!; [done|unfold len; simpl; lia|done]].
  destruct (parse_redirect loc) as [rpath rhost].
  pose proof (h2_round_trip_sent (env i) (bs "GET") rpath (default host rhost) [] None) as Hs.
  destruct (h2_round_trip _ _ _ _ _ _ _) as [sent [resp|[e sn]]].
  - specialize (IH (S i) (default host rhost) resp).
    destruct (h2_redirects _ _ _ _ _ _) as [sent' r]. destruct IH as (Hg & Hl & Hr). subst sent.
    split_and!; [by constructor|rewrite len_app, len_cons, len_nil; lia|done].
  - destruct sn; subst sent; split_and!; try done; repeat constructor; unfold len; simpl; lia.
Qed.
End sends.

(** C37: an HTTP/2 exchange that reports [RequestSent::No] has sent nothing;
    any other has POSTed the payload to the deployment exactly once, and
    whatever else it sent are at most five GETs without a body. *)
Theorem h2_posts_once decode_gzip env path payload :
  let '(sent, r) := h2_exchange decode_gzip env path payload in
  match r with
  | Err (_, SentNo) => sent = []
  | _ => ∃ gets, sent = mk_h2req (bs "POST") (bs "https://script.google.com" ++ path) (Some (bs "application/json"))
                          payload :: gets ∧
                 Forall plain_get gets ∧ len gets ≤ 5
  end.
Proof.
  unfold h2_exchange.
  pose proof (h2_round_trip_sent decode_gzip (env 0%nat) (bs "POST") path http_host payload (Some (bs "application/json")))
    as Hp.
  destruct (h2_round_trip _ _ _ _ _ _ _) as [sent [resp|[e [|]]]]; [|done|].
  - pose proof (h2_redirects_sent decode_gzip env 5 1 http_host resp) as Hr.
    destruct (h2_redirects _ _ _ _ _ _) as [gets r]. destruct Hr as (Hg & Hl & Hn).
    assert (∃ g, sent ++ gets = mk_h2req (bs "POST") (bs "https://script.google.com" ++ path)
                                  (Some (bs "application/json")) payload :: g ∧ Forall plain_get g ∧ len g ≤ 5) as Hx
      by (rewrite Hp; exists gets; auto).
    destruct r as [|[? [|]]]; [exact Hx|by destruct (Hn f)|exact Hx].
  - exists []. subst sent. split_and!; [done|constructor|by vm_compute].
Qed.

(** ** Tasks around the connection *)

Inductive TaskPc := TEnsure (pc : EnsurePc) | TUsing (c : nat) (g : Z).

#[global] Instance H2Cell_eq_dec : EqDecision H2Cell.
Proof. solve_decision. Defined.

(** [hn_next]: the number of the next connection. *)
Record H2Net := mk_h2net { hn_now : Z; hn_st : H2State; hn_next : nat; hn_tasks : gmap nat TaskPc }.

Definition after_ensure (t : nat) (pc : EnsurePc) (tasks : gmap nat TaskPc) : gmap nat TaskPc :=
  match pc with
  | PDone None => delete t tasks
  | PDone (Some (c, g)) => <[t := TUsing c g]> tasks
  | _ => <[t := TEnsure pc]> tasks
  end.

(** The lock of a task that is dropped. *)
Definition unlock (t : nat) (st : H2State) : H2State :=
  if bool_decide (h2_open_lock st = Some t) then set_lock None st else st.

Inductive h2_step : H2Net → H2Net → Prop :=
  | hs_tick now later st n tasks :
      now ≤ later → h2_step (mk_h2net now st n tasks) (mk_h2net later st n tasks)
  | hs_call t now st n tasks :
      tasks !! t = None → h2_step (mk_h2net now st n tasks) (mk_h2net now st n (<[t := TEnsure PStart]> tasks))
  | hs_ensure t now st n tasks pc pc' st' opened :
      tasks !! t = Some (TEnsure pc) → (∀ r, pc ≠ PDone r) →
      ensure_step t now opened pc st = (pc', st') →
      match opened with Some (Ok c) => c = n | _ => True end →
      h2_step (mk_h2net now st n tasks)
              (mk_h2net now st' (match pc', opened with POpened _, Some (Ok _) => S n | _, _ => n end)
                 (after_ensure t pc' tasks))
  | hs_finish t now st n tasks c g (r : result unit unit) :
      tasks !! t = Some (TUsing c g) →
      h2_step (mk_h2net now st n tasks) (mk_h2net now (h2_finish g r st) n (delete t tasks))
  | hs_refused now st n tasks :
      (** after an answer with the refusal status *)
      h2_step (mk_h2net now st n tasks) (mk_h2net now (sticky_disable_h2_for_fronting_refusal st) n tasks)
  | hs_cancel t now st n tasks :
      h2_step (mk_h2net now st n tasks) (mk_h2net now (unlock t st) n (delete t tasks))
  | hs_dies c now st n tasks :
      h2_step (mk_h2net now st n tasks) (mk_h2net now (driver_ends c st) n tasks).

Definition h2_start (now : Z) (disabled : bool) : H2Net :=
  mk_h2net now (mk_h2 None None None 0 disabled ∅ 0 0) 0 ∅.

(** ** Invariants of the shared connection *)

Definition holds_lock (pc : EnsurePc) : bool :=
  match pc with
  | PRecheck | POpening | PFailed | PClear | POpened _ | PUnbackoff _ _ | PStore _ _ => true
  | _ => false
  end.

(** Past the second look at the cell. *)
Definition opening (pc : EnsurePc) : bool := match pc with PRecheck => false | _ => holds_lock pc end.

(** Only the holder of the lock is in the locked part, and while it opens a
    connection the cell has no usable one. *)
Record lock_inv (net : H2Net) : Prop := {
  li_lock t pc : hn_tasks net !! t = Some (TEnsure pc) → holds_lock pc = true → h2_open_lock (hn_st net) = Some t;
  li_open t pc : hn_tasks net !! t = Some (TEnsure pc) → opening pc = true → usable (hn_now net) (hn_st net) = None
}.

Lemma secs_since_mono now later t : now ≤ later → secs_since now t ≤ secs_since later t.
Proof. intros. unfold secs_since, sat_sub, NS. apply Z.div_le_mono; lia. Qed.

(** A connection that is not usable does not become so. *)
Lemma unusable_stays now later st st' :
  now ≤ later → h2_cell st' = h2_cell st ∨ h2_cell st' = None → h2_dead st ⊆ h2_dead st' →
  usable now st = None → usable later st' = None.
Proof.
  unfold usable. intros Hl [-> | ->] Hd; [|done]. destruct (h2_cell st) as [c|]; [|done].
  pose proof (secs_since_mono now later (hc_created c) Hl).
  repeat case_if; try done; rewrite ?andb_true_iff, ?andb_false_iff, ?Z.ltb_lt, ?Z.ltb_ge, ?negb_true_iff,
    ?negb_false_iff, ?bool_decide_eq_true, ?bool_decide_eq_false in *. set_solver by lia.
Qed.

Ltac lookup_cases := repeat match goal with
  | H : <[?t := _]> _ !! ?t' = Some _ |- _ => apply lookup_insert_Some in H as [[<- H]|[? H]]
  | H : delete _ _ !! _ = Some _ |- _ => apply lookup_delete_Some in H as [? H]
  end; simplify_eq.

(** Steps that leave the lock and the tasks in the locked part alone. *)
Lemma lock_inv_frame net net' :
  lock_inv net → hn_now net ≤ hn_now net' →
  (∀ t pc, hn_tasks net' !! t = Some (TEnsure pc) → holds_lock pc = true → hn_tasks net !! t = Some (TEnsure pc)) →
  (∀ t pc, hn_tasks net' !! t = Some (TEnsure pc) → holds_lock pc = true →
     h2_open_lock (hn_st net) = Some t → h2_open_lock (hn_st net') = Some t) →
  h2_cell (hn_st net') = h2_cell (hn_st net) ∨ h2_cell (hn_st net') = None →
  h2_dead (hn_st net) ⊆ h2_dead (hn_st net') → lock_inv net'.
Proof.
  intros [Hl Ho] Hn Ht Hlk Hc Hd. split.
  - intros t pc Hpc Hh. eauto.
  - intros t pc Hpc Hop. assert (holds_lock pc = true) as Hh by (by destruct pc).
    eapply unusable_stays; [exact Hn|exact Hc|exact Hd|]. eauto.
Qed.

Lemma after_ensure_lookup t pc tasks t' pc0 :
  after_ensure t pc tasks !! t' = Some (TEnsure pc0) →
  (t' = t ∧ pc0 = pc) ∨ (t' ≠ t ∧ tasks !! t' = Some (TEnsure pc0)).
Proof. destruct pc as [| | | | | | | | | | |[[]|]]; simpl; intros H; lookup_cases; eauto. Qed.

(** A step of the only task in the locked part. *)
Lemma lock_inv_solo t pc' tasks now st' n :
  (∀ t' pc, t' ≠ t → tasks !! t' = Some (TEnsure pc) → holds_lock pc = false) →
  (holds_lock pc' = true → h2_open_lock st' = Some t) → (opening pc' = true → usable now st' = None) →
  lock_inv (mk_h2net now st' n (after_ensure t pc' tasks)).
Proof.
  intros Hs Hl Ho. split; simpl; intros t' pc Hp Hpc; apply after_ensure_lookup in Hp as [[-> ->]|[Hne Hp]]; auto.
  - by rewrite (Hs t' pc) in Hpc.
  - destruct pc; try done; by specialize (Hs _ _ Hne Hp).
Qed.

Lemma lock_inv_ensure t now opened pc pc' st st' n n' tasks :
  lock_inv (mk_h2net now st n tasks) → tasks !! t = Some (TEnsure pc) →
  ensure_step t now opened pc st = (pc', st') → lock_inv (mk_h2net now st' n' (after_ensure t pc' tasks)).
Proof.
  intros Hi Ht Hs. destruct (holds_lock pc) eqn:Hpc.
  - pose proof (li_lock _ Hi _ _ Ht Hpc) as Hl. simpl in Hl.
    pose proof (li_open _ Hi _ _ Ht) as Ho. simpl in Ho.
    apply lock_inv_solo.
    + intros t' pc0 Hne H0. destruct (holds_lock pc0) eqn:Hp0; [|done].
      pose proof (li_lock _ Hi _ _ H0 Hp0) as Hl'. simpl in Hl'. congruence.
    + destruct pc; try done; simpl in Hs; try destruct opened as [[?|[]]|]; repeat case_match; by simplify_eq.
    + destruct pc; try done; simpl in Hs, Ho; try destruct opened as [[?|[]]|]; repeat case_match; simplify_eq;
        simpl; intros; try done; by apply Ho.
  - assert ((st' = st ∧ holds_lock pc' = false) ∨
            (h2_open_lock st = None ∧ pc' = PRecheck ∧ st' = set_lock (Some t) st)) as [[-> Hn]|(Hl & -> & ->)].
    { destruct pc; try done; simpl in Hs; repeat case_match; simplify_eq; auto. }
    + eapply lock_inv_frame; [exact Hi|simpl; lia| |auto|auto|done].
      intros t' pc0 Hp Hh. simpl in *. apply after_ensure_lookup in Hp as [[-> ->]|[_ Hp]]; [congruence|done].
    + apply lock_inv_solo; [|done|done]. intros t' pc0 _ H0. destruct (holds_lock pc0) eqn:Hp0; [|done].
      pose proof (li_lock _ Hi _ _ H0 Hp0) as Hl'. simpl in Hl'. congruence.
Qed.

Lemma poison_cell g st : h2_cell (poison_h2_if_gen g st) = h2_cell st ∨ h2_cell (poison_h2_if_gen g st) = None.
Proof. unfold poison_h2_if_gen. repeat case_match; auto. Qed.

Lemma poison_rest g st :
  h2_open_lock (poison_h2_if_gen g st) = h2_open_lock st ∧ h2_dead (poison_h2_if_gen g st) = h2_dead st ∧
  h2_generation (poison_h2_if_gen g st) = h2_generation st.
Proof. unfold poison_h2_if_gen. repeat case_match; auto. Qed.

Lemma finish_rest {A E} g (r : result A E) st :
  h2_open_lock (h2_finish g r st) = h2_open_lock st ∧ h2_dead (h2_finish g r st) = h2_dead st ∧
  h2_generation (h2_finish g r st) = h2_generation st ∧
  (h2_cell (h2_finish g r st) = h2_cell st ∨ h2_cell (h2_finish g r st) = None).
Proof. destruct (poison_rest g st) as (? & ? & ?), (poison_cell g st), r; simpl; auto. Qed.

Lemma lock_inv_step net net' : h2_step net net' → lock_inv net → lock_inv net'.
Proof.
  intros Hs Hi. destruct Hs.
  - eapply lock_inv_frame; [exact Hi|simpl; lia|auto|auto|auto|done].
  - eapply lock_inv_frame; [exact Hi|simpl; lia| |auto|auto|done].
    simpl. intros t' pc Hp Hh. lookup_cases; done.
  - by eapply lock_inv_ensure.
  - destruct (finish_rest g r st) as (Hl & Hd & _ & Hc).
    eapply lock_inv_frame; [exact Hi|simpl; lia| | |exact Hc|simpl; by rewrite Hd].
    + simpl. intros t' pc Hp Hh. by lookup_cases.
    + simpl. intros t' pc Hp Hh. by rewrite Hl.
  - eapply lock_inv_frame; [exact Hi|simpl; lia|auto|auto|auto|done].
  - eapply lock_inv_frame; [exact Hi|simpl; lia| | |left|]; simpl; unfold unlock.
    + intros t' pc Hp Hh. by lookup_cases.
    + intros t' pc Hp Hh. apply lookup_delete_Some in Hp as [Hne Hp]. intros Hl.
      rewrite bool_decide_false by congruence. done.
    + by case_bool_decide.
    + by case_bool_decide.
  - eapply lock_inv_frame; [exact Hi|simpl; lia|auto|auto|auto|simpl; set_solver].
Qed.

(** The connections with the generations they are known by: in the cell, in
    the hands of a request, or about to be stored. *)
Definition known (st : H2State) (tasks : gmap nat TaskPc) (c : nat) (g : Z) : Prop :=
  (∃ k, h2_cell st = Some k ∧ hc_send k = c ∧ hc_generation k = g) ∨
  (∃ t, tasks !! t = Some (TUsing c g) ∨ tasks !! t = Some (TEnsure (PUnbackoff c g)) ∨
        tasks !! t = Some (TEnsure (PStore c g))).

Record gen_inv (net : H2Net) : Prop := {
  gi_bound : 0 ≤ h2_generation (hn_st net) ≤ Z.of_nat (hn_next net);
  gi_known c g : known (hn_st net) (hn_tasks net) c g → g ≤ h2_generation (hn_st net);
  gi_fun c c' g : known (hn_st net) (hn_tasks net) c g → known (hn_st net) (hn_tasks net) c' g → c = c';
  gi_opened t c : hn_tasks net !! t = Some (TEnsure (POpened c)) → h2_generation (hn_st net) < Z.of_nat (hn_next net)
}.

(** Steps that make no generation known. *)
Lemma gen_inv_frame net net' :
  gen_inv net → h2_generation (hn_st net') = h2_generation (hn_st net) → (hn_next net ≤ hn_next net')%nat →
  (∀ c g, known (hn_st net') (hn_tasks net') c g → known (hn_st net) (hn_tasks net) c g) →
  (∀ t c, hn_tasks net' !! t = Some (TEnsure (POpened c)) →
     hn_tasks net !! t = Some (TEnsure (POpened c)) ∨ (hn_next net < hn_next net')%nat) →
  gen_inv net'.
Proof.
  intros [Hb Hk Hf Ho] Hg Hn Hsub Hop. split; rewrite ?Hg.
  - lia.
  - eauto.
  - eauto.
  - intros t c [Ht|Ht]%Hop; [specialize (Ho _ _ Ht)|]; lia.
Qed.

Lemma usable_cell now st c g :
  usable now st = Some (c, g) → ∃ k, h2_cell st = Some k ∧ hc_send k = c ∧ hc_generation k = g.
Proof. unfold usable. destruct (h2_cell st) as [k|]; [|done]. case_if; [|done]. intros [= <- <-]. eauto. Qed.

Lemma known_delete st st' tasks t c g :
  h2_cell st' = h2_cell st ∨ h2_cell st' = None → known st' (delete t tasks) c g → known st tasks c g.
Proof.
  intros Hc [(k & Hk & H)|(t' & Ht)].
  - left. exists k. destruct Hc as [<-|Hc]; [auto|congruence].
  - right. exists t'. destruct Ht as [Ht|[Ht|Ht]]; lookup_cases; auto.
Qed.

(** What a critical section makes known was known before, the tagging of a
    new connection apart. *)
Lemma known_ensure t now opened pc pc' st st' tasks c g :
  tasks !! t = Some (TEnsure pc) → (∀ r, pc ≠ PDone r) → ensure_step t now opened pc st = (pc', st') →
  (∀ c0, pc ≠ POpened c0) → known st' (after_ensure t pc' tasks) c g → known st tasks c g.
Proof.
  intros Ht Hr Hs Hno [(k & Hk & <- & <-)|(t' & Hx)].
  - destruct pc; simpl in Hs; try (by destruct (Hno c0)); repeat case_match;
      simplify_eq; simpl in *; simplify_eq; try (left; exists k; by auto); right; exists t; simpl; auto.
  - destruct (decide (t' = t)) as [->|Hne].
    + destruct pc; simpl in Hs; try (by destruct (Hno c0)); try (by destruct (Hr r)); repeat case_match;
        repeat match goal with p : (nat * Z)%type |- _ => destruct p end; simplify_eq; simpl in Hx; rewrite ?lookup_insert_eq, ?lookup_delete_eq in Hx;
        destruct Hx as [Hx|[Hx|Hx]]; simplify_eq; try (left; by eapply usable_cell); right; exists t; auto.
    + right. exists t'. destruct pc' as [| | | | | | | | | | |[[]|]]; simpl in Hx;
        rewrite ?lookup_insert_ne, ?lookup_delete_ne in Hx by done; done.
Qed.

Lemma gen_inv_tag t c now st n tasks :
  Z.of_nat n < u64_mod → lock_inv (mk_h2net now st n tasks) → gen_inv (mk_h2net now st n tasks) →
  tasks !! t = Some (TEnsure (POpened c)) →
  let g := wadd64 (h2_generation st) 1 in
  gen_inv (mk_h2net now (set_generation g st) n (<[t := TEnsure (PUnbackoff c g)]> tasks)).
Proof.
  intros Hn Hl [Hb Hk Hf Ho] Ht g. specialize (Ho _ _ Ht) as Hlt. simpl in *.
  assert (g = h2_generation st + 1) as Hg by (unfold g, wadd64; apply Z.mod_small; lia).
  assert (∀ c0 g0, known (set_generation g st) (<[t:=TEnsure (PUnbackoff c g)]> tasks) c0 g0 →
            (c0 = c ∧ g0 = g) ∨ known st tasks c0 g0) as Hkn.
  { intros c0 g0 [H|(t' & H)]; [right; by left|].
    destruct H as [H|[H|H]]; lookup_cases; auto; right; right; exists t'; auto. }
  split; simpl.
  - lia.
  - intros c0 g0 [[_ ->]|H]%Hkn; [lia|]. specialize (Hk _ _ H). lia.
  - intros c0 c1 g0 H0%Hkn H1%Hkn.
    destruct H0 as [[-> ->]|H0], H1 as [[-> Hg1]|H1]; [done| | |by eapply Hf].
    + specialize (Hk _ _ H1). lia.
    + subst g0. specialize (Hk _ _ H0). lia.
  - intros t' c' Ht'. lookup_cases. exfalso.
    pose proof (li_lock _ Hl t _ Ht eq_refl). pose proof (li_lock _ Hl t' _ Ht' eq_refl). simpl in *. congruence.
Qed.

Lemma gen_inv_step net net' :
  h2_step net net' → Z.of_nat (hn_next net') < u64_mod → lock_inv net → gen_inv net → gen_inv net'.
Proof.
  intros Hs Hn Hl Hi. destruct Hs.
  - eapply gen_inv_frame; [exact Hi|done|done|done|auto].
  - eapply gen_inv_frame; [exact Hi|done|done| |].
    + simpl. intros c g [Hk|(t' & Hk)]; [by left|right; exists t'].
      destruct Hk as [Hk|[Hk|Hk]]; lookup_cases; auto.
    + simpl. intros t' c Ht. lookup_cases. auto.
  - assert ((∃ c0, pc = POpened c0) ∨ ¬ (∃ c0, pc = POpened c0)) as [[c0 ->]|Hno]
      by (destruct pc; ((right; intros [? ?]; discriminate) || eauto)).
    { simpl in H1. simplify_eq. simpl in *. by apply gen_inv_tag. }
    assert (∀ c0, pc ≠ POpened c0) as Hno' by (intros c0 ->; eauto).
    eapply gen_inv_frame; [exact Hi| | | |].
    + simpl. destruct pc; try (by destruct (Hno' c)); simpl in H1; repeat case_match; by simplify_eq.
    + simpl. repeat case_match; lia.
    + simpl. intros c g. by eapply known_ensure.
    + simpl. intros t' c [[-> <-]|[_ Ht]]%after_ensure_lookup; [|auto]. right.
      destruct pc; try (by destruct (Hno' c0)); try (by destruct (H0 r)); simpl in H1; repeat case_match;
        simplify_eq; simpl; lia.
  - destruct (finish_rest g r st) as (_ & _ & Hg & Hc).
    eapply gen_inv_frame; [exact Hi|done|done| |].
    + simpl. intros c0 g0. by apply known_delete.
    + simpl. intros t' c' Ht. lookup_cases. auto.
  - eapply gen_inv_frame; [exact Hi|done|done| |auto]. simpl. intros c g [(k & Hk & _)|Hk]; [done|by right].
  - eapply gen_inv_frame; [exact Hi|by unfold unlock; simpl; case_bool_decide|done| |].
    + simpl. intros c g. apply known_delete. left. unfold unlock. by case_bool_decide.
    + simpl. intros t' c Ht. lookup_cases. auto.
  - eapply gen_inv_frame; [exact Hi|done|done|done|auto].
Qed.

Lemma h2_reachable_inv now disabled net :
  rtc h2_step (h2_start now disabled) net → Z.of_nat (hn_next net) < u64_mod → lock_inv net ∧ gen_inv net.
Proof.
  revert net. apply (rtc_ind_r (λ net, Z.of_nat (hn_next net) < u64_mod → lock_inv net ∧ gen_inv net)).
  - intros _. split; split; simpl; try lia; try (by intros ? ?; rewrite lookup_empty).
    + intros c g [(k & Hk & _)|(t & Ht)]; [done|]. rewrite lookup_empty in Ht. naive_solver.
    + intros c c' g [(k & Hk & _)|(t & Ht)]; [done|]. rewrite lookup_empty in Ht. naive_solver.
  - intros net net' _ Hs IH Hn. assert (hn_next net ≤ hn_next net')%nat as Hle.
    { destruct Hs; simpl; repeat case_match; lia. }
    destruct IH as [Hl Hg]; [lia|]. split; [by eapply lock_inv_step|by eapply gen_inv_step].
Qed.

(** C38: in every interleaving of the calls of [ensure_h2], the failures, the
    refusals, the cancellations and the ends of connections, a failing request
    clears the cell only if it holds that request's own connection; a critical
    section of [ensure_h2] never removes or replaces a connection that can
    still be used; and at most one task opens a connection at a time. *)
Theorem h2_connection_protected now disabled net :
  rtc h2_step (h2_start now disabled) net → Z.of_nat (hn_next net) < u64_mod →
  (∀ t c g k, hn_tasks net !! t = Some (TUsing c g) → h2_cell (hn_st net) = Some k →
     h2_cell (poison_h2_if_gen g (hn_st net)) ≠ Some k → hc_send k = c) ∧
  (∀ t pc opened h, hn_tasks net !! t = Some (TEnsure pc) → usable (hn_now net) (hn_st net) = Some h →
     h2_cell (ensure_step t (hn_now net) opened pc (hn_st net)).2 = h2_cell (hn_st net)) ∧
  (∀ t t' pc pc', hn_tasks net !! t = Some (TEnsure pc) → hn_tasks net !! t' = Some (TEnsure pc') →
     opening pc = true → opening pc' = true → t = t').
Proof.
  intros Hr Hn. destruct (h2_reachable_inv _ _ _ Hr Hn) as [Hl Hg]. split_and!.
  - intros t c g k Ht Hk Hne. unfold poison_h2_if_gen in Hne. rewrite Hk in Hne.
    destruct (hc_generation k =? g) eqn:E; [|by rewrite Hk in Hne]. apply Z.eqb_eq in E.
    apply (gi_fun _ Hg _ _ g); [left; eauto|right; eauto].
  - intros t pc opened h Ht Hu. pose proof (li_open _ Hl _ _ Ht) as Ho.
    destruct pc; simpl in *; repeat case_match; simpl; try done; by rewrite Ho in Hu.
  - intros t t' pc pc' Ht Ht' Hp Hp'.
    assert (holds_lock pc = true ∧ holds_lock pc' = true) as [H H'] by (destruct pc, pc'; done).
    pose proof (li_lock _ Hl _ _ Ht H). pose proof (li_lock _ Hl _ _ Ht' H'). congruence.
Qed.

(** The step of task [t] at [pc]. *)
Ltac section_of t pc io H :=
  eapply rtc_l; [eapply (hs_ensure t _ _ _ _ pc _ _ io);
    [apply lookup_insert_eq|done|simpl; rewrite ?H; reflexivity|done]|]; simpl; rewrite insert_insert_eq.

(** A call that meets no usable connection, no backoff and a free lock opens
    a connection and gets it. *)
Lemma h2_open_run t now st n tasks :
  tasks !! t = None → h2_disabled st = false → usable now st = None → backing_off now st = false →
  h2_open_lock st = None →
  let g := wadd64 (h2_generation st) 1 in
  rtc h2_step (mk_h2net now st n tasks)
    (mk_h2net now (set_lock None (set_cell (Some (mk_cell n now g)) (set_failed_at None (set_generation g
       (set_lock (Some t) st))))) (S n) (<[t := TUsing n g]> tasks)).
Proof.
  intros Ht Hd Hu Hb Hl g.
  eapply rtc_l; [by apply hs_call with (t := t)|].
  assert (usable now (set_lock (Some t) st) = None) as Hu' by exact Hu.
  section_of t PStart (@None (result nat OpenH2Error)) Hd.
  section_of t PFast (@None (result nat OpenH2Error)) Hu.
  section_of t PBackoff (@None (result nat OpenH2Error)) Hb.
  section_of t PTryLock (@None (result nat OpenH2Error)) Hl.
  section_of t PRecheck (@None (result nat OpenH2Error)) Hu'.
  section_of t POpening (Some (@Ok nat OpenH2Error n)) Hd.
  section_of t (POpened n) (@None (result nat OpenH2Error)) Hd.
  section_of t (PUnbackoff n g) (@None (result nat OpenH2Error)) Hd.
  section_of t (PStore n g) (@None (result nat OpenH2Error)) Hd.
  apply rtc_refl.
Qed.

(** Connection 0 dies, and a second task opens connection 1 before the first
    has met the failure. *)
Definition replaced_net : H2Net :=
  mk_h2net 0 (mk_h2 (Some (mk_cell 1 0 2)) None None 2 false {[0%nat]} 0 0) 2
    (<[1%nat := TUsing 1 2]> (<[0%nat := TUsing 0 1]> ∅)).

Lemma replaced_net_reachable : rtc h2_step (h2_start 0 false) replaced_net.
Proof.
  etrans; [by apply (h2_open_run 0)|].
  eapply rtc_l; [apply (hs_dies 0%nat)|].
  etrans; [by apply (h2_open_run 1)|]. reflexivity.
Qed.

Lemma h2_connection_protected_witness :
  h2_cell (poison_h2_if_gen 1 (hn_st replaced_net)) = Some (mk_cell 1 0 2).
Proof.
  destruct (decide (h2_cell (poison_h2_if_gen 1 (hn_st replaced_net)) = Some (mk_cell 1 0 2))) as [|Hne]; [done|].
  pose proof (proj1 (h2_connection_protected 0 false replaced_net replaced_net_reachable ltac:(reflexivity))
    0%nat 0%nat 1 (mk_cell 1 0 2) ltac:(reflexivity) ltac:(reflexivity) Hne) as H. discriminate H.
Defined.

(** ** The counters *)

(** The critical sections left, at most. *)
Definition ensure_rank (pc : EnsurePc) : nat :=
  match pc with
  | PStart => 9 | PFast => 8 | PBackoff => 7 | PTryLock => 6 | PRecheck => 5 | POpening => 4
  | PFailed | POpened _ => 3 | PClear | PUnbackoff _ _ => 2 | PStore _ _ => 1 | PDone _ => 0
  end.

Lemma ensure_step_rank t now opened pc st :
  (ensure_rank (ensure_step t now opened pc st).1 < ensure_rank pc)%nat ∨ ∃ r, pc = PDone r.
Proof. destruct pc; simpl; repeat case_match; simpl; eauto with lia. Qed.

Lemma ensure_run_S fuel t now opened pc st :
  ensure_run (S fuel) t now opened pc st =
    let '(pc, st) := ensure_step t now opened pc st in ensure_run fuel t now opened pc st.
Proof. destruct pc; try reflexivity. by destruct fuel. Qed.

(** The fuel of [ensure_h2] is enough: more changes nothing. *)
Lemma ensure_run_enough t now opened : ∀ fuel pc st,
  (ensure_rank pc ≤ fuel)%nat → ensure_run (S fuel) t now opened pc st = ensure_run fuel t now opened pc st.
Proof.
  induction fuel as [|fuel IH]; intros pc st Hr; [destruct pc; simpl in Hr; try lia; done|].
  rewrite !ensure_run_S. pose proof (ensure_step_rank t now opened pc st) as H.
  destruct (ensure_step t now opened pc st) as [pc' st'] eqn:Hs. simpl in H.
  destruct H as [H|[r ->]]; [apply IH; lia|]. simpl in Hs. simplify_eq. by destruct fuel.
Qed.

Lemma ensure_run_counts t now opened : ∀ fuel pc st,
  h2_calls (ensure_run fuel t now opened pc st).2 = h2_calls st ∧
  h2_fallbacks (ensure_run fuel t now opened pc st).2 = h2_fallbacks st.
Proof.
  induction fuel as [|fuel IH]; intros pc st; [by destruct pc|]. rewrite ensure_run_S.
  assert (h2_calls (ensure_step t now opened pc st).2 = h2_calls st ∧
          h2_fallbacks (ensure_step t now opened pc st).2 = h2_fallbacks st) as [<- <-]
    by (destruct pc; simpl; repeat case_match; done).
  destruct (ensure_step t now opened pc st) as [pc' st']. apply IH.
Qed.

Lemma ensure_h2_counts t now opened st :
  h2_calls (ensure_h2 t now opened st).2 = h2_calls st ∧ h2_fallbacks (ensure_h2 t now opened st).2 = h2_fallbacks st.
Proof. apply ensure_run_counts. Qed.

(** A request over HTTP/2 counts once, as a call or as a fallback, unless the
    switch is off when it has been through [ensure_h2]. *)
Lemma h2_accounted decode_gzip t now opened env path payload st :
  h2_disabled (ensure_h2 t now opened st).2 = false →
  let st' := (h2_relay_request decode_gzip t now opened env path payload st).2 in
  (h2_calls st' = wadd64 (h2_calls st) 1 ∧ h2_fallbacks st' = h2_fallbacks st) ∨
  (h2_calls st' = h2_calls st ∧ h2_fallbacks st' = wadd64 (h2_fallbacks st) 1).
Proof.
  unfold h2_relay_request. destruct (ensure_h2_counts t now opened st) as [Hc Hf].
  destruct (ensure_h2 t now opened st) as [[[c g]|] st1]; simpl in *.
  - intros _. unfold run_h2_relay_with_send. destruct (h2_exchange _ _ _ _) as [sent [r|e]]; simpl; rewrite ?Hc, ?Hf.
    + auto.
    + right. unfold poison_h2_if_gen. repeat case_match; simpl; by rewrite Hc, Hf.
  - intros ->. simpl. rewrite Hc, Hf. auto.
Qed.

(** A refusal by ALPN, which is documented as a fallback, is not counted. *)
Lemma alpn_refusal_uncounted decode_gzip env path payload :
  let st' := (h2_relay_request decode_gzip 0 0 (Some (Err OAlpnRefused)) env path payload (hn_st (h2_start 0 false))).2 in
  h2_disabled st' = true ∧ h2_calls st' = 0 ∧ h2_fallbacks st' = 0.
Proof. vm_compute. auto. Qed.

(** ** Redirects on both transports *)

Definition redirect_io (loc : bytes) : H2Io :=
  mk_io None ReadyOk None None (HeadOk 302 [(bs "location", loc)]) [].
Definition final_io : H2Io := mk_io None ReadyOk None None (HeadOk 200 []) [BodyChunk (bs "ok")].

Definition redirect_bytes (loc : bytes) : ReadEvent :=
  Data (bs "HTTP/1.1 302 Found" ++ crlf ++ bs "Location: " ++ loc ++ crlf ++ bs "Content-Length: 0" ++ crlf ++ crlf).
Definition final_bytes : ReadEvent :=
  Data (bs "HTTP/1.1 200 OK" ++ crlf ++ bs "Content-Length: 2" ++ crlf ++ crlf ++ bs "ok").

(** A redirect to another host followed by a relative one: HTTP/2 asks the
    other host, HTTP/1.1 names [script.google.com] again. *)
Lemma relative_redirect_hosts :
  let env i := match i with 0 => redirect_io (bs "https://u.example/a") | 1 => redirect_io (bs "/b") | _ => final_io end%nat in
  let conn := mk_conn [] [redirect_bytes (bs "https://u.example/a"); redirect_bytes (bs "/b"); final_bytes] in
  map hr_uri (h2_exchange (λ _, None) env (bs "/p") (bs "x")).1 =
    [bs "https://script.google.com/p"; bs "https://u.example/a"; bs "https://u.example/b"] ∧
  drop 1 (h1_exchange (λ _, None) (bs "/p") (bs "x") conn).1 =
    [redirect_request (bs "/a") (bs "u.example"); redirect_request (bs "/b") (bs "script.google.com")].
Proof. vm_compute. split; reflexivity. Qed.
