(* ===== verification/Config.v ===== *)
(** * Configuration (src/config.rs)

    The settings with their defaults, their reading from JSON and TOML
    documents (the derived [Deserialize] and [Serialize]), [validate], the
    conversions between the flat settings and the sections of config.toml, and
    [load] with the migration of an old config.json.  The readers and the
    writer of documents are external crates: the class [ConfigFormats]. *)

From Stdlib Require Import Strings.Byte.
From S2P Require Import Prelude RustBytes Routing RelayJson.

Inductive ConfigError :=
  | CRead (path : bytes)
  | CParse (msg : bytes)
  | CParseToml (msg : bytes)
  | CInvalid (msg : bytes).

(** ** The settings *)

Inductive ScriptId := One (s : bytes) | Many (v : list bytes).

Definition into_vec (s : ScriptId) : list bytes := match s with One s => [s] | Many v => v end.

Definition as_mode_str (m : Mode) : bytes :=
  match m with AppsScript => bs "apps_script" | Direct => bs "direct" | Full => bs "full" end.

Record ExitNodeConfig := mk_exit_config {
  x_enabled : bool; x_relay_url : bytes; x_psk : bytes; x_mode : bytes; x_hosts : list bytes }.

(** [ExitNodeConfig::default()]: the derived one, whose [mode] is empty. *)
Definition default_exit_node : ExitNodeConfig := mk_exit_config false [] [] [] [].
Definition default_exit_node_mode : bytes := bs "selective".

Definition default_fetch_ips_from_api : bool := false.
Definition default_max_ips_to_scan : Z := 100.
Definition default_scan_batch_size : Z := 500.
Definition default_google_ip_validation : bool := true.
Definition default_tunnel_doh : bool := true.
Definition default_block_stun : bool := false.
Definition default_block_quic : bool := true.
Definition default_block_doh : bool := true.
Definition default_auto_blacklist_strikes : Z := 3.
Definition default_auto_blacklist_window_secs : Z := 30.
Definition default_auto_blacklist_cooldown_secs : Z := 120.
Definition default_quota_daily_limit : Z := 20000.
Definition default_quota_safety_buffer : Z := 500.
Definition default_strip_noise_response_headers : bool := true.
Definition default_request_timeout_secs : Z := 30.
Definition default_stream_timeout_secs : Z := 300.
Definition default_google_ip : bytes := bs "216.239.38.120".
Definition default_front_domain : bytes := bs "www.google.com".
Definition default_listen_host : bytes := bs "0.0.0.0".
Definition default_listen_port : Z := 8085.
Definition default_log_level : bytes := bs "warn".
Definition default_verify_ssl : bool := true.

Record Config := mk_config {
  c_mode : bytes; c_google_ip : bytes; c_front_domain : bytes; c_script_id : option ScriptId;
  c_script_ids : option ScriptId; c_auth_key : bytes; c_listen_host : bytes; c_listen_port : Z;
  c_socks5_port : option Z; c_log_level : bytes; c_verify_ssl : bool; c_hosts : gmap bytes bytes;
  c_enable_batching : bool; c_upstream_socks5 : option bytes; c_parallel_relay : Z; c_coalesce_step_ms : Z;
  c_coalesce_max_ms : Z; c_network_preset : option bytes; c_sni_hosts : option (list bytes);
  c_fetch_ips_from_api : bool; c_max_ips_to_scan : Z; c_scan_batch_size : Z; c_google_ip_validation : bool;
  c_normalize_x_graphql : bool; c_youtube_via_relay : bool; c_passthrough_hosts : list bytes;
  c_block_stun : bool; c_block_quic : bool; c_disable_padding : bool; c_force_http1 : bool;
  c_tunnel_doh : bool; c_bypass_doh_hosts : list bytes; c_block_doh : bool;
  c_fronting_groups : list FrontingGroup; c_auto_blacklist_strikes : Z; c_auto_blacklist_window_secs : Z;
  c_auto_blacklist_cooldown_secs : Z; c_request_timeout_secs : Z; c_stream_timeout_secs : Z;
  c_exit_node : ExitNodeConfig; c_quota_daily_limit : Z; c_quota_safety_buffer : Z;
  c_strip_noise_response_headers : bool
}.

Record TomlRelay := mk_toml_relay {
  tr_mode : bytes; tr_script_id : option ScriptId; tr_script_ids : option ScriptId; tr_auth_key : bytes;
  tr_parallel_relay : Z; tr_enable_batching : bool; tr_coalesce_step_ms : Z; tr_coalesce_max_ms : Z;
  tr_network_preset : option bytes; tr_youtube_via_relay : bool; tr_normalize_x_graphql : bool;
  tr_disable_padding : bool; tr_force_http1 : bool; tr_auto_blacklist_strikes : Z;
  tr_auto_blacklist_window_secs : Z; tr_auto_blacklist_cooldown_secs : Z; tr_request_timeout_secs : Z;
  tr_stream_timeout_secs : Z; tr_strip_noise_response_headers : bool
}.

Record TomlNetwork := mk_toml_network {
  tn_google_ip : bytes; tn_front_domain : bytes; tn_listen_host : bytes; tn_listen_port : Z;
  tn_socks5_port : option Z; tn_verify_ssl : bool; tn_upstream_socks5 : option bytes; tn_block_quic : bool;
  tn_block_stun : bool; tn_sni_hosts : option (list bytes); tn_passthrough_hosts : list bytes;
  tn_tunnel_doh : bool; tn_block_doh : bool; tn_bypass_doh_hosts : list bytes; tn_hosts : gmap bytes bytes
}.

Record TomlScan := mk_toml_scan {
  ts_fetch_ips_from_api : bool; ts_max_ips_to_scan : Z; ts_scan_batch_size : Z; ts_google_ip_validation : bool
}.

(** [TomlLogging] has the one field. *)
Record TomlConfig := mk_toml_config {
  t_relay : TomlRelay; t_network : TomlNetwork; t_scan : TomlScan; t_log_level : bytes;
  t_exit_node : ExitNodeConfig; t_fronting_groups : list FrontingGroup }.

Definition default_toml_network : TomlNetwork := {|
  tn_google_ip := default_google_ip; tn_front_domain := default_front_domain;
  tn_listen_host := default_listen_host; tn_listen_port := default_listen_port; tn_socks5_port := None;
  tn_verify_ssl := default_verify_ssl; tn_upstream_socks5 := None; tn_block_quic := default_block_quic;
  tn_block_stun := default_block_stun; tn_sni_hosts := None; tn_passthrough_hosts := [];
  tn_tunnel_doh := default_tunnel_doh; tn_block_doh := default_block_doh; tn_bypass_doh_hosts := [];
  tn_hosts := ∅
|}.

Definition default_toml_scan : TomlScan := {|
  ts_fetch_ips_from_api := default_fetch_ips_from_api; ts_max_ips_to_scan := default_max_ips_to_scan;
  ts_scan_batch_size := default_scan_batch_size; ts_google_ip_validation := default_google_ip_validation
|}.

(** ** Reading a document

    The derived [Deserialize] on the document's values: an absent field takes
    its default, an unknown one is passed over, a wrong type or range fails. *)

Definition u8_max : Z := u8_mod - 1.
Definition u16_max : Z := u16_mod - 1.

Definition de_bool (v : Value) : option bool := match v with Bool b => Some b | _ => None end.
Definition de_string (v : Value) : option bytes := as_str v.
Definition de_uint (max : Z) (v : Value) : option Z := let? n := as_u64 v in if n <=? max then Some n else None.
Definition de_option {A} (d : Value → option A) (v : Value) : option (option A) :=
  match v with Null => Some None | v => let? a := d v in Some (Some a) end.
Definition de_list {A} (d : Value → option A) (v : Value) : option (list A) :=
  match v with Array l => mapM d l | _ => None end.
Definition de_map (v : Value) : option (gmap bytes bytes) :=
  let? m := as_object v in
  let? l := mapM (λ '(k, v), let? s := de_string v in Some (k, s)) m in Some (list_to_map l).
(** Untagged: the first variant that fits. *)
Definition de_script_id (v : Value) : option ScriptId :=
  match de_string v with
  | Some s => Some (One s)
  | None => let? l := de_list de_string v in Some (Many l)
  end.

Definition required {A} (d : Value → option A) (k : bytes) (m : list (bytes * Value)) : option A :=
  let? v := map_get k m in d v.
Definition field {A} (d : Value → option A) (dflt : A) (k : bytes) (m : list (bytes * Value)) : option A :=
  match map_get k m with Some v => d v | None => Some dflt end.

Definition de_group (v : Value) : option FrontingGroup :=
  let? m := as_object v in
  let? name := required de_string (bs "name") m in
  let? ip := required de_string (bs "ip") m in
  let? sni := required de_string (bs "sni") m in
  let? domains := required (de_list de_string) (bs "domains") m in
  Some (mk_group name ip sni domains).

Definition de_exit_node (v : Value) : option ExitNodeConfig :=
  let? m := as_object v in
  let? enabled := field de_bool false (bs "enabled") m in
  let? relay_url := field de_string [] (bs "relay_url") m in
  let? psk := field de_string [] (bs "psk") m in
  let? mode := field de_string default_exit_node_mode (bs "mode") m in
  let? hosts := field (de_list de_string) [] (bs "hosts") m in
  Some (mk_exit_config enabled relay_url psk mode hosts).

Definition de_config (v : Value) : option Config :=
  let? m := as_object v in
  let? mode_ := required de_string (bs "mode") m in
  let? google_ip_ := field de_string default_google_ip (bs "google_ip") m in
  let? front_domain_ := field de_string default_front_domain (bs "front_domain") m in
  let? script_id_ := field (de_option de_script_id) None (bs "script_id") m in
  let? script_ids_ := field (de_option de_script_id) None (bs "script_ids") m in
  let? auth_key_ := field de_string [] (bs "auth_key") m in
  let? listen_host_ := field de_string default_listen_host (bs "listen_host") m in
  let? listen_port_ := field (de_uint u16_max) default_listen_port (bs "listen_port") m in
  let? socks5_port_ := field (de_option (de_uint u16_max)) None (bs "socks5_port") m in
  let? log_level_ := field de_string default_log_level (bs "log_level") m in
  let? verify_ssl_ := field de_bool default_verify_ssl (bs "verify_ssl") m in
  let? hosts_ := field de_map ∅ (bs "hosts") m in
  let? enable_batching_ := field de_bool false (bs "enable_batching") m in
  let? upstream_socks5_ := field (de_option de_string) None (bs "upstream_socks5") m in
  let? parallel_relay_ := field (de_uint u8_max) 0 (bs "parallel_relay") m in
  let? coalesce_step_ms_ := field (de_uint u16_max) 0 (bs "coalesce_step_ms") m in
  let? coalesce_max_ms_ := field (de_uint u16_max) 0 (bs "coalesce_max_ms") m in
  let? network_preset_ := field (de_option de_string) None (bs "network_preset") m in
  let? sni_hosts_ := field (de_option (de_list de_string)) None (bs "sni_hosts") m in
  let? fetch_ips_from_api_ := field de_bool default_fetch_ips_from_api (bs "fetch_ips_from_api") m in
  let? max_ips_to_scan_ := field (de_uint u64_max) default_max_ips_to_scan (bs "max_ips_to_scan") m in
  let? scan_batch_size_ := field (de_uint u64_max) default_scan_batch_size (bs "scan_batch_size") m in
  let? google_ip_validation_ := field de_bool default_google_ip_validation (bs "google_ip_validation") m in
  let? normalize_x_graphql_ := field de_bool false (bs "normalize_x_graphql") m in
  let? youtube_via_relay_ := field de_bool false (bs "youtube_via_relay") m in
  let? passthrough_hosts_ := field (de_list de_string) [] (bs "passthrough_hosts") m in
  let? block_stun_ := field de_bool default_block_stun (bs "block_stun") m in
  let? block_quic_ := field de_bool default_block_quic (bs "block_quic") m in
  let? disable_padding_ := field de_bool false (bs "disable_padding") m in
  let? force_http1_ := field de_bool false (bs "force_http1") m in
  let? tunnel_doh_ := field de_bool default_tunnel_doh (bs "tunnel_doh") m in
  let? bypass_doh_hosts_ := field (de_list de_string) [] (bs "bypass_doh_hosts") m in
  let? block_doh_ := field de_bool default_block_doh (bs "block_doh") m in
  let? fronting_groups_ := field (de_list de_group) [] (bs "fronting_groups") m in
  let? auto_blacklist_strikes_ := field (de_uint u32_max) default_auto_blacklist_strikes (bs "auto_blacklist_strikes") m in
  let? auto_blacklist_window_secs_ := field (de_uint u64_max) default_auto_blacklist_window_secs (bs "auto_blacklist_window_secs") m in
  let? auto_blacklist_cooldown_secs_ := field (de_uint u64_max) default_auto_blacklist_cooldown_secs (bs "auto_blacklist_cooldown_secs") m in
  let? request_timeout_secs_ := field (de_uint u64_max) default_request_timeout_secs (bs "request_timeout_secs") m in
  let? stream_timeout_secs_ := field (de_uint u64_max) default_stream_timeout_secs (bs "stream_timeout_secs") m in
  let? exit_node_ := field de_exit_node default_exit_node (bs "exit_node") m in
  let? quota_daily_limit_ := field (de_uint u64_max) default_quota_daily_limit (bs "quota_daily_limit") m in
  let? quota_safety_buffer_ := field (de_uint u64_max) default_quota_safety_buffer (bs "quota_safety_buffer") m in
  let? strip_noise_response_headers_ := field de_bool default_strip_noise_response_headers (bs "strip_noise_response_headers") m in
  Some (mk_config
    mode_ google_ip_ front_domain_ script_id_ script_ids_ auth_key_ listen_host_ listen_port_ socks5_port_
    log_level_ verify_ssl_ hosts_ enable_batching_ upstream_socks5_ parallel_relay_ coalesce_step_ms_
    coalesce_max_ms_ network_preset_ sni_hosts_ fetch_ips_from_api_ max_ips_to_scan_ scan_batch_size_
    google_ip_validation_ normalize_x_graphql_ youtube_via_relay_ passthrough_hosts_ block_stun_ block_quic_
    disable_padding_ force_http1_ tunnel_doh_ bypass_doh_hosts_ block_doh_ fronting_groups_
    auto_blacklist_strikes_ auto_blacklist_window_secs_ auto_blacklist_cooldown_secs_ request_timeout_secs_
    stream_timeout_secs_ exit_node_ quota_daily_limit_ quota_safety_buffer_ strip_noise_response_headers_).

Definition de_toml_relay (v : Value) : option TomlRelay :=
  let? m := as_object v in
  let? mode_ := required de_string (bs "mode") m in
  let? script_id_ := field (de_option de_script_id) None (bs "script_id") m in
  let? script_ids_ := field (de_option de_script_id) None (bs "script_ids") m in
  let? auth_key_ := field de_string [] (bs "auth_key") m in
  let? parallel_relay_ := field (de_uint u8_max) 0 (bs "parallel_relay") m in
  let? enable_batching_ := field de_bool false (bs "enable_batching") m in
  let? coalesce_step_ms_ := field (de_uint u16_max) 0 (bs "coalesce_step_ms") m in
  let? coalesce_max_ms_ := field (de_uint u16_max) 0 (bs "coalesce_max_ms") m in
  let? network_preset_ := field (de_option de_string) None (bs "network_preset") m in
  let? youtube_via_relay_ := field de_bool false (bs "youtube_via_relay") m in
  let? normalize_x_graphql_ := field de_bool false (bs "normalize_x_graphql") m in
  let? disable_padding_ := field de_bool false (bs "disable_padding") m in
  let? force_http1_ := field de_bool false (bs "force_http1") m in
  let? auto_blacklist_strikes_ := field (de_uint u32_max) default_auto_blacklist_strikes (bs "auto_blacklist_strikes") m in
  let? auto_blacklist_window_secs_ := field (de_uint u64_max) default_auto_blacklist_window_secs (bs "auto_blacklist_window_secs") m in
  let? auto_blacklist_cooldown_secs_ := field (de_uint u64_max) default_auto_blacklist_cooldown_secs (bs "auto_blacklist_cooldown_secs") m in
  let? request_timeout_secs_ := field (de_uint u64_max) default_request_timeout_secs (bs "request_timeout_secs") m in
  let? stream_timeout_secs_ := field (de_uint u64_max) default_stream_timeout_secs (bs "stream_timeout_secs") m in
  let? strip_noise_response_headers_ := field de_bool default_strip_noise_response_headers (bs "strip_noise_response_headers") m in
  Some (mk_toml_relay
    mode_ script_id_ script_ids_ auth_key_ parallel_relay_ enable_batching_ coalesce_step_ms_ coalesce_max_ms_
    network_preset_ youtube_via_relay_ normalize_x_graphql_ disable_padding_ force_http1_
    auto_blacklist_strikes_ auto_blacklist_window_secs_ auto_blacklist_cooldown_secs_ request_timeout_secs_
    stream_timeout_secs_ strip_noise_response_headers_).

Definition de_toml_network (v : Value) : option TomlNetwork :=
  let? m := as_object v in
  let? google_ip_ := field de_string default_google_ip (bs "google_ip") m in
  let? front_domain_ := field de_string default_front_domain (bs "front_domain") m in
  let? listen_host_ := field de_string default_listen_host (bs "listen_host") m in
  let? listen_port_ := field (de_uint u16_max) default_listen_port (bs "listen_port") m in
  let? socks5_port_ := field (de_option (de_uint u16_max)) None (bs "socks5_port") m in
  let? verify_ssl_ := field de_bool default_verify_ssl (bs "verify_ssl") m in
  let? upstream_socks5_ := field (de_option de_string) None (bs "upstream_socks5") m in
  let? block_quic_ := field de_bool default_block_quic (bs "block_quic") m in
  let? block_stun_ := field de_bool default_block_stun (bs "block_stun") m in
  let? sni_hosts_ := field (de_option (de_list de_string)) None (bs "sni_hosts") m in
  let? passthrough_hosts_ := field (de_list de_string) [] (bs "passthrough_hosts") m in
  let? tunnel_doh_ := field de_bool default_tunnel_doh (bs "tunnel_doh") m in
  let? block_doh_ := field de_bool default_block_doh (bs "block_doh") m in
  let? bypass_doh_hosts_ := field (de_list de_string) [] (bs "bypass_doh_hosts") m in
  let? hosts_ := field de_map ∅ (bs "hosts") m in
  Some (mk_toml_network
    google_ip_ front_domain_ listen_host_ listen_port_ socks5_port_ verify_ssl_ upstream_socks5_ block_quic_
    block_stun_ sni_hosts_ passthrough_hosts_ tunnel_doh_ block_doh_ bypass_doh_hosts_ hosts_).

Definition de_toml_scan (v : Value) : option TomlScan :=
  let? m := as_object v in
  let? fetch_ips_from_api_ := field de_bool default_fetch_ips_from_api (bs "fetch_ips_from_api") m in
  let? max_ips_to_scan_ := field (de_uint u64_max) default_max_ips_to_scan (bs "max_ips_to_scan") m in
  let? scan_batch_size_ := field (de_uint u64_max) default_scan_batch_size (bs "scan_batch_size") m in
  let? google_ip_validation_ := field de_bool default_google_ip_validation (bs "google_ip_validation") m in
  Some (mk_toml_scan
    fetch_ips_from_api_ max_ips_to_scan_ scan_batch_size_ google_ip_validation_).

Definition de_toml_logging (v : Value) : option bytes :=
  let? m := as_object v in field de_string default_log_level (bs "log_level") m.

Definition de_toml (v : Value) : option TomlConfig :=
  let? m := as_object v in
  let? relay := required de_toml_relay (bs "relay") m in
  let? network := field de_toml_network default_toml_network (bs "network") m in
  let? scan := field de_toml_scan default_toml_scan (bs "scan") m in
  let? log_level := field de_toml_logging default_log_level (bs "logging") m in
  let? exit_node := field de_exit_node default_exit_node (bs "exit_node") m in
  let? fronting_groups := field (de_list de_group) [] (bs "fronting_groups") m in
  Some (mk_toml_config relay network scan log_level exit_node fronting_groups).

(** ** Writing config.toml

    The derived [Serialize]; the TOML writer leaves a [None] field out. *)

Definition ser_uint (n : Z) : Value := Num (PosInt n).
Definition ser_list {A} (e : A → Value) (l : list A) : Value := Array (map e l).
Definition ser_map (m : gmap bytes bytes) : Value := Object (map (λ '(k, s), (k, Str s)) (map_to_list m)).
Definition ser_script_id (s : ScriptId) : Value :=
  match s with One s => Str s | Many l => ser_list Str l end.
Definition ser_field (k : bytes) (v : Value) : list (bytes * Value) := [(k, v)].
Definition ser_opt {A} (k : bytes) (e : A → Value) (o : option A) : list (bytes * Value) :=
  match o with Some a => [(k, e a)] | None => [] end.

Definition ser_group (g : FrontingGroup) : Value :=
  Object (ser_field (bs "name") (Str (g_name g)) ++ ser_field (bs "ip") (Str (g_ip g)) ++
          ser_field (bs "sni") (Str (g_sni g)) ++ ser_field (bs "domains") (ser_list Str (g_domains g))).

Definition ser_exit_node (x : ExitNodeConfig) : Value :=
  Object (ser_field (bs "enabled") (Bool (x_enabled x)) ++ ser_field (bs "relay_url") (Str (x_relay_url x)) ++
          ser_field (bs "psk") (Str (x_psk x)) ++ ser_field (bs "mode") (Str (x_mode x)) ++
          ser_field (bs "hosts") (ser_list Str (x_hosts x))).

Definition ser_toml_relay (r : TomlRelay) : Value :=
  Object (
    ser_field (bs "mode") (Str (tr_mode r)) ++ ser_opt (bs "script_id") ser_script_id (tr_script_id r) ++
    ser_opt (bs "script_ids") ser_script_id (tr_script_ids r) ++
    ser_field (bs "auth_key") (Str (tr_auth_key r)) ++
    ser_field (bs "parallel_relay") (ser_uint (tr_parallel_relay r)) ++
    ser_field (bs "enable_batching") (Bool (tr_enable_batching r)) ++
    ser_field (bs "coalesce_step_ms") (ser_uint (tr_coalesce_step_ms r)) ++
    ser_field (bs "coalesce_max_ms") (ser_uint (tr_coalesce_max_ms r)) ++
    ser_opt (bs "network_preset") Str (tr_network_preset r) ++
    ser_field (bs "youtube_via_relay") (Bool (tr_youtube_via_relay r)) ++
    ser_field (bs "normalize_x_graphql") (Bool (tr_normalize_x_graphql r)) ++
    ser_field (bs "disable_padding") (Bool (tr_disable_padding r)) ++
    ser_field (bs "force_http1") (Bool (tr_force_http1 r)) ++
    ser_field (bs "auto_blacklist_strikes") (ser_uint (tr_auto_blacklist_strikes r)) ++
    ser_field (bs "auto_blacklist_window_secs") (ser_uint (tr_auto_blacklist_window_secs r)) ++
    ser_field (bs "auto_blacklist_cooldown_secs") (ser_uint (tr_auto_blacklist_cooldown_secs r)) ++
    ser_field (bs "request_timeout_secs") (ser_uint (tr_request_timeout_secs r)) ++
    ser_field (bs "stream_timeout_secs") (ser_uint (tr_stream_timeout_secs r)) ++
    ser_field (bs "strip_noise_response_headers") (Bool (tr_strip_noise_response_headers r))).

Definition ser_toml_network (n : TomlNetwork) : Value :=
  Object (
    ser_field (bs "google_ip") (Str (tn_google_ip n)) ++
    ser_field (bs "front_domain") (Str (tn_front_domain n)) ++
    ser_field (bs "listen_host") (Str (tn_listen_host n)) ++
    ser_field (bs "listen_port") (ser_uint (tn_listen_port n)) ++
    ser_opt (bs "socks5_port") ser_uint (tn_socks5_port n) ++
    ser_field (bs "verify_ssl") (Bool (tn_verify_ssl n)) ++
    ser_opt (bs "upstream_socks5") Str (tn_upstream_socks5 n) ++
    ser_field (bs "block_quic") (Bool (tn_block_quic n)) ++
    ser_field (bs "block_stun") (Bool (tn_block_stun n)) ++
    ser_opt (bs "sni_hosts") (ser_list Str) (tn_sni_hosts n) ++
    ser_field (bs "passthrough_hosts") (ser_list Str (tn_passthrough_hosts n)) ++
    ser_field (bs "tunnel_doh") (Bool (tn_tunnel_doh n)) ++
    ser_field (bs "block_doh") (Bool (tn_block_doh n)) ++
    ser_field (bs "bypass_doh_hosts") (ser_list Str (tn_bypass_doh_hosts n)) ++
    ser_field (bs "hosts") (ser_map (tn_hosts n))).

Definition ser_toml_scan (s : TomlScan) : Value :=
  Object (
    ser_field (bs "fetch_ips_from_api") (Bool (ts_fetch_ips_from_api s)) ++
    ser_field (bs "max_ips_to_scan") (ser_uint (ts_max_ips_to_scan s)) ++
    ser_field (bs "scan_batch_size") (ser_uint (ts_scan_batch_size s)) ++
    ser_field (bs "google_ip_validation") (Bool (ts_google_ip_validation s))).

Definition ser_toml (t : TomlConfig) : Value :=
  Object (ser_field (bs "relay") (ser_toml_relay (t_relay t)) ++
          ser_field (bs "network") (ser_toml_network (t_network t)) ++
          ser_field (bs "scan") (ser_toml_scan (t_scan t)) ++
          ser_field (bs "logging") (Object (ser_field (bs "log_level") (Str (t_log_level t)))) ++
          ser_field (bs "exit_node") (ser_exit_node (t_exit_node t)) ++
          ser_field (bs "fronting_groups") (ser_list ser_group (t_fronting_groups t))).

(** ** The two shapes of the settings *)

Definition config_of_toml (t : TomlConfig) : Config := {|
  c_mode := tr_mode (t_relay t); c_google_ip := tn_google_ip (t_network t);
  c_front_domain := tn_front_domain (t_network t); c_script_id := tr_script_id (t_relay t);
  c_script_ids := tr_script_ids (t_relay t); c_auth_key := tr_auth_key (t_relay t);
  c_listen_host := tn_listen_host (t_network t); c_listen_port := tn_listen_port (t_network t);
  c_socks5_port := tn_socks5_port (t_network t); c_log_level := t_log_level t;
  c_verify_ssl := tn_verify_ssl (t_network t); c_hosts := tn_hosts (t_network t);
  c_enable_batching := tr_enable_batching (t_relay t); c_upstream_socks5 := tn_upstream_socks5 (t_network t);
  c_parallel_relay := tr_parallel_relay (t_relay t); c_coalesce_step_ms := tr_coalesce_step_ms (t_relay t);
  c_coalesce_max_ms := tr_coalesce_max_ms (t_relay t); c_network_preset := tr_network_preset (t_relay t);
  c_sni_hosts := tn_sni_hosts (t_network t); c_fetch_ips_from_api := ts_fetch_ips_from_api (t_scan t);
  c_max_ips_to_scan := ts_max_ips_to_scan (t_scan t); c_scan_batch_size := ts_scan_batch_size (t_scan t);
  c_google_ip_validation := ts_google_ip_validation (t_scan t);
  c_normalize_x_graphql := tr_normalize_x_graphql (t_relay t);
  c_youtube_via_relay := tr_youtube_via_relay (t_relay t);
  c_passthrough_hosts := tn_passthrough_hosts (t_network t); c_block_stun := tn_block_stun (t_network t);
  c_block_quic := tn_block_quic (t_network t); c_disable_padding := tr_disable_padding (t_relay t);
  c_force_http1 := tr_force_http1 (t_relay t); c_tunnel_doh := tn_tunnel_doh (t_network t);
  c_bypass_doh_hosts := tn_bypass_doh_hosts (t_network t); c_block_doh := tn_block_doh (t_network t);
  c_fronting_groups := t_fronting_groups t; c_auto_blacklist_strikes := tr_auto_blacklist_strikes (t_relay t);
  c_auto_blacklist_window_secs := tr_auto_blacklist_window_secs (t_relay t);
  c_auto_blacklist_cooldown_secs := tr_auto_blacklist_cooldown_secs (t_relay t);
  c_request_timeout_secs := tr_request_timeout_secs (t_relay t);
  c_stream_timeout_secs := tr_stream_timeout_secs (t_relay t); c_exit_node := t_exit_node t;
  c_quota_daily_limit := default_quota_daily_limit; c_quota_safety_buffer := default_quota_safety_buffer;
  c_strip_noise_response_headers := tr_strip_noise_response_headers (t_relay t)
|}.

Definition toml_of_config (c : Config) : TomlConfig := {|
  t_relay := {|
    tr_mode := c_mode c; tr_script_id := c_script_id c; tr_script_ids := c_script_ids c;
    tr_auth_key := c_auth_key c; tr_parallel_relay := c_parallel_relay c;
    tr_enable_batching := c_enable_batching c; tr_coalesce_step_ms := c_coalesce_step_ms c;
    tr_coalesce_max_ms := c_coalesce_max_ms c; tr_network_preset := c_network_preset c;
    tr_youtube_via_relay := c_youtube_via_relay c; tr_normalize_x_graphql := c_normalize_x_graphql c;
    tr_disable_padding := c_disable_padding c; tr_force_http1 := c_force_http1 c;
    tr_auto_blacklist_strikes := c_auto_blacklist_strikes c;
    tr_auto_blacklist_window_secs := c_auto_blacklist_window_secs c;
    tr_auto_blacklist_cooldown_secs := c_auto_blacklist_cooldown_secs c;
    tr_request_timeout_secs := c_request_timeout_secs c; tr_stream_timeout_secs := c_stream_timeout_secs c;
    tr_strip_noise_response_headers := c_strip_noise_response_headers c |};
  t_network := {|
    tn_google_ip := c_google_ip c; tn_front_domain := c_front_domain c; tn_listen_host := c_listen_host c;
    tn_listen_port := c_listen_port c; tn_socks5_port := c_socks5_port c; tn_verify_ssl := c_verify_ssl c;
    tn_upstream_socks5 := c_upstream_socks5 c; tn_block_quic := c_block_quic c;
    tn_block_stun := c_block_stun c; tn_sni_hosts := c_sni_hosts c;
    tn_passthrough_hosts := c_passthrough_hosts c; tn_tunnel_doh := c_tunnel_doh c;
    tn_block_doh := c_block_doh c; tn_bypass_doh_hosts := c_bypass_doh_hosts c; tn_hosts := c_hosts c |};
  t_scan := {|
    ts_fetch_ips_from_api := c_fetch_ips_from_api c; ts_max_ips_to_scan := c_max_ips_to_scan c;
    ts_scan_batch_size := c_scan_batch_size c; ts_google_ip_validation := c_google_ip_validation c |};
  t_log_level := c_log_level c; t_exit_node := c_exit_node c; t_fronting_groups := c_fronting_groups c
|}.

(** ** Validation *)

Definition mode_kind (c : Config) : result Mode ConfigError :=
  if bool_decide (c_mode c = bs "apps_script") then Ok AppsScript
  else if bool_decide (c_mode c = bs "direct") then Ok Direct
  else if bool_decide (c_mode c = bs "google_only") then Ok Direct
  else if bool_decide (c_mode c = bs "full") then Ok Full
  else Err (CInvalid (bs "unknown mode '" ++ c_mode c ++ bs "' (expected 'apps_script', 'direct', or 'full')")).

Definition script_ids_resolved (c : Config) : list bytes :=
  match c_script_ids c with
  | Some s => into_vec s
  | None => match c_script_id c with Some s => into_vec s | None => [] end
  end.

Definition blank (s : bytes) : bool := bool_decide (trim s = []).

(** The checks that need Apps Script. *)
Definition validate_relay (c : Config) : result unit ConfigError :=
  if blank (c_auth_key c) || bool_decide (c_auth_key c = bs "CHANGE_ME_TO_A_STRONG_SECRET") then
    Err (CInvalid (bs "auth_key must be set to a strong secret"))
  else
    let ids := script_ids_resolved c in
    match ids with
    | [] => Err (CInvalid (bs "script_id (or script_ids) is required"))
    | _ =>
        if existsb (λ id, bool_decide (id = []) || bool_decide (id = bs "YOUR_APPS_SCRIPT_DEPLOYMENT_ID")) ids then
          Err (CInvalid (bs "script_id is not set — deploy Code.gs and paste its Deployment ID"))
        else Ok tt
    end.

Section validate.
(** [ServerName::try_from]: the error of a name it refuses. *)
Context (sni_error : bytes → option bytes).

Definition validate_group (i : Z) (g : FrontingGroup) : result unit ConfigError :=
  let at_ := bs "fronting_groups[" ++ fmt_uint i ++ bs "]" in
  let named := at_ ++ bs " ('" ++ g_name g ++ bs "'): " in
  if blank (g_name g) then Err (CInvalid (at_ ++ bs ": name is empty"))
  else if blank (g_ip g) then Err (CInvalid (named ++ bs "ip is empty"))
  else if blank (g_sni g) then Err (CInvalid (named ++ bs "sni is empty"))
  else match sni_error (g_sni g) with
       | Some e => Err (CInvalid (named ++ bs "invalid sni '" ++ g_sni g ++ bs "': " ++ e))
       | None =>
           match g_domains g with
           | [] => Err (CInvalid (named ++ bs "domains list is empty"))
           | ds => if existsb blank ds then Err (CInvalid (named ++ bs "empty domain entry")) else Ok tt
           end
       end.

Fixpoint validate_groups (i : Z) (gs : list FrontingGroup) : result unit ConfigError :=
  match gs with
  | [] => Ok tt
  | g :: gs' => let! _ := validate_group i g in validate_groups (i + 1) gs'
  end.

Definition validate (c : Config) : result unit ConfigError :=
  let! mode := mode_kind c in
  let! _ := match mode with AppsScript | Full => validate_relay c | Direct => Ok tt end in
  if c_scan_batch_size c =? 0 then Err (CInvalid (bs "scan_batch_size must be greater than 0"))
  else if bool_decide (c_socks5_port c = Some (c_listen_port c)) then
    Err (CInvalid (bs "listen_port and socks5_port must differ on the same host (both set to " ++
                   fmt_uint (c_listen_port c) ++ bs " on " ++ c_listen_host c ++
                   bs "). Change one of them in config.toml."))
  else validate_groups 0 (c_fronting_groups c).

End validate.

(** ** Loading *)

(** rustls' names, the JSON and TOML crates; an error is its message. *)
Class ConfigFormats := {
  sni_error : bytes → option bytes;
  json_document : bytes → result Value bytes;
  toml_document : bytes → result Value bytes;
  toml_text : Value → result bytes bytes
}.

(** A path is a directory, with its separator, and a file name. *)
Record Path := mk_path { p_dir : bytes; p_name : bytes }.

#[global] Instance Path_eq_dec : EqDecision Path.
Proof. solve_decision. Defined.
#[global] Instance Path_countable : Countable Path.
Proof. refine (inj_countable' (λ p, (p_dir p, p_name p)) (λ '(d, n), mk_path d n) _). by intros []. Defined.

Definition display_path (p : Path) : bytes := p_dir p ++ p_name p.

(** [Path::file_stem] and [Path::extension]: the last dot splits the name,
    unless it is its first character or the name is [..]. *)
Definition split_name (name : bytes) : bytes * option bytes :=
  if bool_decide (name = bs "..") then (name, None)
  else match find_byte (is_byte x2e) (rev name) with
       | Some i =>
           let stem := take (length name - i - 1) name in
           match stem with [] => (name, None) | _ => (stem, Some (drop (length name - i) name)) end
       | None => (name, None)
       end.

Definition with_extension (ext : bytes) (p : Path) : Path :=
  mk_path (p_dir p) ((split_name (p_name p)).1 ++ x2e :: ext).

(** The files, and the paths that cannot be written with the error met. *)
Record Fs := mk_fs { files : gmap Path bytes; write_error : Path → option bytes }.

(** [std::fs::read_to_string]; the error of a missing or undecodable file. *)
Definition read_to_string (fs : Fs) (p : Path) : option bytes := let? b := files fs !! p in from_utf8 b.

Definition write_file (fs : Fs) (p : Path) (b : bytes) : result Fs bytes :=
  match write_error fs p with Some e => Err e | None => Ok (mk_fs (<[p := b]> (files fs)) (write_error fs)) end.

Section load.
Context `{!ConfigFormats}.

Definition load_toml (fs : Fs) (p : Path) : result Config ConfigError :=
  match read_to_string fs p with
  | None => Err (CRead (display_path p))
  | Some data =>
      match toml_document data with
      | Err e => Err (CParseToml e)
      | Ok v =>
          match de_toml v with
          | None => Err (CParseToml (bs "invalid type or missing field"))
          | Some t =>
              let cfg := config_of_toml t in
              let! _ := validate sni_error cfg in Ok cfg
          end
      end
  end.

(** The message about the translation, and the files after it. *)
Definition migrate (fs : Fs) (p : Path) (cfg : Config) : bytes * Fs :=
  let toml_path := with_extension (bs "toml") p in
  match toml_text (ser_toml (toml_of_config cfg)) with
  | Ok toml_str =>
      match write_file fs toml_path toml_str with
      | Ok fs =>
          (bs "Found legacy config.json. Translated to " ++ display_path toml_path ++
           bs " automatically. config.json has been left in place but will no longer be read. You can delete it.", fs)
      | Err e =>
          (bs "Found legacy config.json but could not write " ++ display_path toml_path ++ bs ": " ++ e ++
           bs ". Continuing from the JSON config.", fs)
      end
  | Err e =>
      (bs "Found legacy config.json but could not serialize to TOML: " ++ e ++ bs ". Continuing from the JSON config.", fs)
  end.

Definition load_json_and_migrate (fs : Fs) (p : Path) : result (Config * option bytes) ConfigError * Fs :=
  match read_to_string fs p with
  | None => (Err (CRead (display_path p)), fs)
  | Some data =>
      match json_document data with
      | Err e => (Err (CParse e), fs)
      | Ok v =>
          match de_config v with
          | None => (Err (CParse (bs "invalid type or missing field")), fs)
          | Some cfg =>
              match validate sni_error cfg with
              | Err e => (Err e, fs)
              | Ok _ => let '(msg, fs) := migrate fs p cfg in (Ok (cfg, Some msg), fs)
              end
          end
      end
  end.

Definition load (fs : Fs) (p : Path) : result (Config * option bytes) ConfigError * Fs :=
  let ext := to_ascii_lowercase (default [] (split_name (p_name p)).2) in
  if bool_decide (ext = bs "toml") then
    (let! c := load_toml fs p in Ok (c, None), fs)
  else if bool_decide (ext = bs "json") then load_json_and_migrate fs p
  else match load_toml fs p with
       | Ok cfg => (Ok (cfg, None), fs)
       | Err toml_err =>
           match load_json_and_migrate fs p with
           | (Ok r, fs) => (Ok r, fs)
           | (Err _, fs) => (Err toml_err, fs)
           end
       end.
End load.

(** ** What is written is read back *)

Lemma map_get_field k v m : map_get k (ser_field k v ++ m) = Some v.
Proof. simpl. by rewrite bool_decide_true. Qed.
Lemma map_get_field_ne k k' v m : k ≠ k' → map_get k (ser_field k' v ++ m) = map_get k m.
Proof. intros. simpl. by rewrite bool_decide_false. Qed.
Lemma map_get_opt {A} k (e : A → Value) o m :
  map_get k (ser_opt k e o ++ m) = match o with Some a => Some (e a) | None => map_get k m end.
Proof. destruct o; simpl; [by rewrite bool_decide_true|done]. Qed.
Lemma map_get_opt_ne {A} k k' (e : A → Value) o m : k ≠ k' → map_get k (ser_opt k' e o ++ m) = map_get k m.
Proof. intros. destruct o; simpl; [by rewrite bool_decide_false|done]. Qed.

Lemma mapM_map {A B C} (d : C → option B) (e : A → C) (g : A → B) l :
  (∀ x, d (e x) = Some (g x)) → mapM d (map e l) = Some (map g l).
Proof. intros H. induction l as [|x l IH]; [done|]. simpl. rewrite H. simpl. by rewrite IH. Qed.

Lemma de_ser_list {A} (d : Value → option A) e l : (∀ x, d (e x) = Some x) → de_list d (ser_list e l) = Some l.
Proof. intros H. unfold de_list, ser_list. rewrite (mapM_map _ _ (λ x, x)) by done. by rewrite map_id. Qed.

Lemma de_ser_map m : de_map (ser_map m) = Some m.
Proof.
  unfold de_map, ser_map. simpl. rewrite (mapM_map _ _ (λ x, x)) by (by intros []).
  by rewrite map_id, list_to_map_to_list.
Qed.

Lemma de_ser_script_id x : de_script_id (ser_script_id x) = Some x.
Proof.
  destruct x as [|l]; [done|].
  change (de_script_id (ser_script_id (Many l))) with (let? v := de_list de_string (ser_list Str l) in Some (Many v)).
  by rewrite (de_ser_list de_string).
Qed.

Lemma as_object_object m : as_object (Object m) = Some m.
Proof. done. Qed.

(** Find the field of a written object. *)
Ltac get_field := repeat first
  [ rewrite map_get_field | rewrite map_get_opt
  | rewrite map_get_field_ne by (vm_compute; discriminate)
  | rewrite map_get_opt_ne by (vm_compute; discriminate) ].

Lemma de_ser_group g : de_group (ser_group g) = Some g.
Proof.
  unfold de_group, ser_group, required. rewrite as_object_object, <- (app_nil_r (ser_field (bs "domains") _)).
  get_field. rewrite (de_ser_list de_string) by done. by destruct g.
Qed.

Lemma de_ser_exit_node x : de_exit_node (ser_exit_node x) = Some x.
Proof.
  unfold de_exit_node, ser_exit_node, field. rewrite as_object_object, <- (app_nil_r (ser_field (bs "hosts") _)).
  get_field. rewrite (de_ser_list de_string) by done. by destruct x.
Qed.

Definition relay_fits (r : TomlRelay) : Prop :=
  tr_parallel_relay r ≤ u8_max ∧ tr_coalesce_step_ms r ≤ u16_max ∧ tr_coalesce_max_ms r ≤ u16_max ∧
  tr_auto_blacklist_strikes r ≤ u32_max ∧ tr_auto_blacklist_window_secs r ≤ u64_max ∧
  tr_auto_blacklist_cooldown_secs r ≤ u64_max ∧ tr_request_timeout_secs r ≤ u64_max ∧
  tr_stream_timeout_secs r ≤ u64_max.

Definition network_fits (n : TomlNetwork) : Prop :=
  tn_listen_port n ≤ u16_max ∧ (∀ p, tn_socks5_port n = Some p → p ≤ u16_max).

Definition scan_fits (s : TomlScan) : Prop := ts_max_ips_to_scan s ≤ u64_max ∧ ts_scan_batch_size s ≤ u64_max.

(** The integers are within their widths. *)
Definition toml_fits (t : TomlConfig) : Prop :=
  relay_fits (t_relay t) ∧ network_fits (t_network t) ∧ scan_fits (t_scan t).

Lemma de_ser_uint max n : n ≤ max → de_uint max (ser_uint n) = Some n.
Proof. intros. unfold de_uint. simpl. by if_true. Qed.

Lemma read_opt {A} (d : Value → option A) e o k :
  (∀ x, d (e x) = Some x) → (∀ x, e x ≠ Null) →
  match match o with Some a => Some (e a) | None => map_get k [] end with
  | Some v => de_option d v
  | None => Some None
  end = Some o.
Proof.
  intros H Hn. destruct o as [a|]; [|done]. unfold de_option. specialize (Hn a).
  destruct (e a) eqn:E; try done; by rewrite <- E, H.
Qed.

(** Read the fields of a written object one after the other; the object
    stays folded in [m]. *)
Ltac read_fields m := repeat match goal with
  | |- context [map_get ?k m] =>
      let H := fresh in eassert (map_get k m = _) as H by (unfold m; get_field; reflexivity); rewrite H; clear H
  end.

Lemma de_ser_relay r : relay_fits r → de_toml_relay (ser_toml_relay r) = Some r.
Proof.
  intros (H1 & H2 & H3 & H4 & H5 & H6 & H7 & H8). unfold de_toml_relay, ser_toml_relay, required, field.
  rewrite as_object_object, <- (app_nil_r (ser_field (bs "strip_noise_response_headers") _)).
  match goal with |- context [map_get _ ?obj] => set (m := obj) end. read_fields m. clear m.
  rewrite !de_ser_uint, !(read_opt de_script_id), (read_opt de_string)
    by (done || apply de_ser_script_id || by intros []).
  by destruct r.
Qed.

Lemma de_ser_network n : network_fits n → de_toml_network (ser_toml_network n) = Some n.
Proof.
  intros [H1 H2]. unfold de_toml_network, ser_toml_network, required, field.
  rewrite as_object_object, <- (app_nil_r (ser_field (bs "hosts") _)).
  match goal with |- context [map_get _ ?obj] => set (m := obj) end. read_fields m. clear m.
  rewrite de_ser_uint, !(de_ser_list de_string), de_ser_map, (read_opt de_string),
    (read_opt (de_list de_string)) by (done || by intros; apply de_ser_list).
  destruct n as [? ? ? ? [p|]]; simpl in *; [|done].
  change (de_option (de_uint u16_max) (ser_uint p)) with (let? a := de_uint u16_max (ser_uint p) in Some (Some a)).
  by rewrite de_ser_uint by auto.
Qed.

Lemma de_ser_scan s : scan_fits s → de_toml_scan (ser_toml_scan s) = Some s.
Proof.
  intros [H1 H2]. unfold de_toml_scan, ser_toml_scan, required, field.
  rewrite as_object_object, <- (app_nil_r (ser_field (bs "google_ip_validation") _)).
  match goal with |- context [map_get _ ?obj] => set (m := obj) end. read_fields m. clear m.
  rewrite !de_ser_uint by done. by destruct s.
Qed.

Lemma de_ser_toml t : toml_fits t → de_toml (ser_toml t) = Some t.
Proof.
  intros (Hr & Hn & Hs). unfold de_toml, ser_toml, required, field.
  rewrite as_object_object, <- (app_nil_r (ser_field (bs "fronting_groups") _)).
  match goal with |- context [map_get _ ?obj] => set (m := obj) end. read_fields m. clear m.
  rewrite de_ser_relay, de_ser_network, de_ser_scan, de_ser_exit_node, (de_ser_list de_group) by (done || apply de_ser_group).
  by destruct t.
Qed.

(** ** Migration *)

(** What the sections of config.toml have no place for. *)
Definition without_quota (c : Config) : Config := config_of_toml (toml_of_config c).

Lemma without_quota_only_quota c :
  without_quota c =
    {| c_mode := c_mode c; c_google_ip := c_google_ip c; c_front_domain := c_front_domain c;
       c_script_id := c_script_id c; c_script_ids := c_script_ids c; c_auth_key := c_auth_key c;
       c_listen_host := c_listen_host c; c_listen_port := c_listen_port c; c_socks5_port := c_socks5_port c;
       c_log_level := c_log_level c; c_verify_ssl := c_verify_ssl c; c_hosts := c_hosts c;
       c_enable_batching := c_enable_batching c; c_upstream_socks5 := c_upstream_socks5 c;
       c_parallel_relay := c_parallel_relay c; c_coalesce_step_ms := c_coalesce_step_ms c;
       c_coalesce_max_ms := c_coalesce_max_ms c; c_network_preset := c_network_preset c;
       c_sni_hosts := c_sni_hosts c; c_fetch_ips_from_api := c_fetch_ips_from_api c;
       c_max_ips_to_scan := c_max_ips_to_scan c; c_scan_batch_size := c_scan_batch_size c;
       c_google_ip_validation := c_google_ip_validation c; c_normalize_x_graphql := c_normalize_x_graphql c;
       c_youtube_via_relay := c_youtube_via_relay c; c_passthrough_hosts := c_passthrough_hosts c;
       c_block_stun := c_block_stun c; c_block_quic := c_block_quic c; c_disable_padding := c_disable_padding c;
       c_force_http1 := c_force_http1 c; c_tunnel_doh := c_tunnel_doh c; c_bypass_doh_hosts := c_bypass_doh_hosts c;
       c_block_doh := c_block_doh c; c_fronting_groups := c_fronting_groups c;
       c_auto_blacklist_strikes := c_auto_blacklist_strikes c;
       c_auto_blacklist_window_secs := c_auto_blacklist_window_secs c;
       c_auto_blacklist_cooldown_secs := c_auto_blacklist_cooldown_secs c;
       c_request_timeout_secs := c_request_timeout_secs c; c_stream_timeout_secs := c_stream_timeout_secs c;
       c_exit_node := c_exit_node c; c_quota_daily_limit := 20000; c_quota_safety_buffer := 500;
       c_strip_noise_response_headers := c_strip_noise_response_headers c |}.
Proof. reflexivity. Qed.

(** Validation does not look at the quota settings. *)
Lemma validate_without_quota sni_error c : validate sni_error (without_quota c) = validate sni_error c.
Proof. by destruct c. Qed.

Lemma field_uint_fits max dflt k m n : dflt ≤ max → field (de_uint max) dflt k m = Some n → n ≤ max.
Proof.
  unfold field, de_uint. destruct (map_get k m) as [v|]; [|by intros ? [= <-]].
  destruct (as_u64 v); [|done]. case_if; [|done]. intros _ [= <-]. done.
Qed.

Lemma field_opt_uint_fits max k m o :
  field (de_option (de_uint max)) None k m = Some o → ∀ p, o = Some p → p ≤ max.
Proof.
  unfold field, de_option, de_uint. destruct (map_get k m) as [v|]; [|intros [= <-]; done].
  destruct v; simpl; try done; [by intros [= <-]|]. destruct (match n with PosInt _ => _ | _ => _ end); [|done].
  case_if; [|done]. intros [= <-] p [= <-]. done.
Qed.

(** What is read from a document is within its widths. *)
Lemma de_config_fits v c : de_config v = Some c → toml_fits (toml_of_config c).
Proof.
  unfold de_config. destruct (as_object v) as [m|]; [|done].
  repeat match goal with
  | |- (match field (de_uint ?mx) ?d ?k m with _ => _ end = _) → _ =>
      let H := fresh "F" in destruct (field (de_uint mx) d k m) as [?|] eqn:H; [|done];
      apply field_uint_fits in H; [|by vm_compute]
  | |- (match field (de_option (de_uint ?mx)) None ?k m with _ => _ end = _) → _ =>
      let H := fresh "F" in destruct (field (de_option (de_uint mx)) None k m) as [?|] eqn:H; [|done];
      pose proof (field_opt_uint_fits _ _ _ _ H)
  | |- (match ?X with _ => _ end = _) → _ => destruct X; [|done]
  end.
  intros [= <-]. split_and!; unfold relay_fits, network_fits, scan_fits; simpl; split_and!; assumption.
Qed.

Lemma find_byte_none_rev c s t :
  forallb (λ x, negb (is_byte c x)) (rev t) = true → find_byte (is_byte c) (rev (s ++ c :: t)) = Some (length t).
Proof.
  intros Ht. rewrite rev_app_distr. simpl. rewrite <- app_assoc, find_byte_None_app by done. simpl.
  unfold is_byte at 1. rewrite bool_decide_true by done. simpl. by rewrite length_rev, Nat.add_0_r.
Qed.

Lemma split_name_toml stem : stem ≠ [] → split_name (stem ++ x2e :: bs "toml") = (stem, Some (bs "toml")).
Proof.
  intros Hs. unfold split_name. rewrite bool_decide_false
    by (intros H; apply (f_equal length) in H; rewrite length_app in H; simpl in H; lia).
  rewrite find_byte_none_rev by reflexivity. rewrite length_app.
  change (length (x2e :: bs "toml")) with 5%nat. change (length (bs "toml")) with 4%nat.
  replace (length stem + 5 - 4 - 1)%nat with (length stem) by lia.
  rewrite take_app_length. replace (length stem + 5 - 4)%nat with (length stem + 1)%nat by lia.
  rewrite <- drop_drop, drop_app_length. by destruct stem.
Qed.

Lemma split_name_stem name : name ≠ [] → (split_name name).1 ≠ [].
Proof. intros Hn. unfold split_name. repeat case_match; simpl; congruence. Qed.

Section migration.
Context `{!ConfigFormats}.

Lemma load_json_read fs p c msg fs' :
  load fs p = (Ok (c, Some msg), fs') →
  (∃ v, de_config v = Some c) ∧ validate sni_error c = Ok tt ∧ fs' = (migrate fs p c).2.
Proof.
  assert (∀ r, load_json_and_migrate fs p = (Ok (c, r), fs') →
            (∃ v, de_config v = Some c) ∧ validate sni_error c = Ok tt ∧ fs' = (migrate fs p c).2) as Hj.
  { intros r. unfold load_json_and_migrate. destruct (read_to_string fs p); [|done].
    destruct (json_document _) as [v|]; [|done]. destruct (de_config v) as [c'|] eqn:Hd; [|done].
    destruct (validate _ c') as [[]|] eqn:Hv; [|done]. destruct (migrate fs p c') as [msg' fs1] eqn:Hm.
    intros [= -> _ <-]. split_and!; [eauto|done|by rewrite Hm]. }
  unfold load. case_if; [by destruct (load_toml fs p)|]. case_if; [apply Hj|].
  destruct (load_toml fs p); [done|].
  destruct (load_json_and_migrate fs p) as [[[c' r]|] fs1]; [|done]. intros [= -> -> ->]. by eapply Hj.
Qed.

(** After an old config.json is loaded and translated, the config.toml
    next to it loads without an error and gives the settings that were read,
    except that the daily quota and its safety buffer are back at their
    defaults. *)
Theorem migration_keeps_all_but_quota fs p c msg fs' doc :
  load fs p = (Ok (c, Some msg), fs') →
  p_name p ≠ [] →
  toml_text (ser_toml (toml_of_config c)) = Ok doc →
  toml_document doc = Ok (ser_toml (toml_of_config c)) →
  utf8_valid doc = true →
  write_error fs (with_extension (bs "toml") p) = None →
  load fs' (with_extension (bs "toml") p) = (Ok (without_quota c, None), fs').
Proof.
  intros Hl Hp Hs Hd Hu Hw. destruct (load_json_read _ _ _ _ _ Hl) as ([v Hv] & Hok & ->).
  assert (files (migrate fs p c).2 !! with_extension (bs "toml") p = Some doc) as Hf.
  { unfold migrate, write_file. rewrite Hs, Hw. simpl. apply lookup_insert_eq. }
  unfold load. unfold with_extension at 1. simpl p_name. rewrite split_name_toml by (by apply split_name_stem).
  rewrite bool_decide_true by reflexivity. f_equal.
  unfold load_toml, read_to_string, from_utf8. rewrite Hf, Hu, Hd, de_ser_toml by (by eapply de_config_fits).
  fold (without_quota c). by rewrite validate_without_quota, Hok.
Qed.
End migration.

(** A config.json for a Workspace account, with its larger quota. *)
Definition sample_json : Value :=
  Object [(bs "mode", Str (bs "apps_script")); (bs "auth_key", Str (bs "secret")); (bs "script_id", Str (bs "AKfyc"));
          (bs "quota_daily_limit", Num (PosInt 100000))].

Definition sample_config : Config :=
  mk_config (bs "apps_script") default_google_ip default_front_domain (Some (One (bs "AKfyc"))) None (bs "secret")
    default_listen_host default_listen_port None default_log_level default_verify_ssl ∅ false None 0 0 0 None None
    default_fetch_ips_from_api default_max_ips_to_scan default_scan_batch_size default_google_ip_validation false false
    [] default_block_stun default_block_quic false false default_tunnel_doh [] default_block_doh []
    default_auto_blacklist_strikes default_auto_blacklist_window_secs default_auto_blacklist_cooldown_secs
    default_request_timeout_secs default_stream_timeout_secs default_exit_node 100000 default_quota_safety_buffer
    default_strip_noise_response_headers.

(** Formats that know this one document. *)
Definition sample_formats : ConfigFormats :=
  {| sni_error := λ _, None;
     json_document := λ _, Ok sample_json;
     toml_document := λ _, Ok (ser_toml (toml_of_config sample_config));
     toml_text := λ _, Ok (bs "doc") |}.

Definition sample_path : Path := mk_path (bs "/etc/") (bs "config.json").
Definition sample_fs : Fs := mk_fs {[ sample_path := bs "{}" ]} (λ _, None).

Lemma migration_keeps_all_but_quota_witness :
  let fs' := (migrate (H := sample_formats) sample_fs sample_path sample_config).2 in
  c_quota_daily_limit sample_config = 100000 ∧ c_quota_daily_limit (without_quota sample_config) = 20000 ∧
  load (H := sample_formats) fs' (mk_path (bs "/etc/") (bs "config.toml")) =
    (Ok (without_quota sample_config, None), fs').
Proof.
  split; [reflexivity|]. split; [reflexivity|].
  apply (migration_keeps_all_but_quota (H := sample_formats) sample_fs sample_path sample_config
           (migrate (H := sample_formats) sample_fs sample_path sample_config).1 _ (bs "doc"));
    [reflexivity|discriminate|reflexivity|reflexivity|reflexivity|reflexivity].
Defined.
