(* ===== verification/Startup.v ===== *)
(** * Start-up and statistics (src/domain_fronter.rs, src/proxy_server.rs)

    [DomainFronter::new] and [ProxyServer::new] from the settings, putting
    the components' initial states together; the statistics a running proxy
    takes of itself ([snapshot_stats], [snapshot_per_site], the log line and
    the JSON text) and the keep-alive request. *)

From Stdlib Require Import Strings.Byte Floats.SpecFloat.
From S2P Require Import Prelude RustBytes Base64 Cache Quota Scripts Mux Calendar Http Routing RelayWire RelayJson RelayUrl Relay Pool H2 Config.

(** ** [DomainFronter::new] *)

Definition clamp (lo hi x : Z) : Z := Z.min hi (Z.max lo x).

(** The fronter with its components' states; durations are in milliseconds. *)
Record DomainFronter := mk_domain_fronter {
  df_connect_host : bytes;
  df_sni_hosts : list bytes;
  df_sni_idx : Z;
  df_config : RelayConfig;
  df_alpn_h2 : list bytes;
  df_alpn_h1 : list bytes;
  df_verify_ssl : bool;
  df_pool : list PoolEntry;
  df_h2 : H2State;
  df_relay : RelayState;
  df_coalesced : Z;
  df_disable_padding : bool;
  df_zstd_enabled : bool;
  df_batch_timeout : Z;
  df_stream_timeout : Z
}.

(** [secs] is the clock and [file] the quota file, [io] whether it can be
    written. *)
Definition fronter_new (c : Config) (secs : Z) (file : option QuotaState) (io : bool)
    : result DomainFronter FronterError :=
  match script_ids_resolved c with
  | [] => Err (ERelay (bs "no script_id configured"))
  | ids =>
      let x := c_exit_node c in
      Ok {| df_connect_host := c_google_ip c;
            df_sni_hosts := build_sni_pool_for (c_front_domain c) (default [] (c_sni_hosts c));
            df_sni_idx := 0;
            df_config :=
              mk_relay_config (c_auth_key c) (c_parallel_relay c) (c_normalize_x_graphql c)
                (c_strip_noise_response_headers c)
                (exit_node_of_config (x_enabled x) (x_relay_url x) (x_psk x) (x_mode x) (x_hosts x));
            df_alpn_h2 := if c_force_http1 c then [bs "http/1.1"] else [bs "h2"; bs "http/1.1"];
            df_alpn_h1 := [bs "http/1.1"];
            df_verify_ssl := c_verify_ssl c;
            df_pool := [];
            df_h2 := mk_h2 None None None 0 (c_force_http1 c) ∅ 0 0;
            df_relay :=
              mk_relay_state
                (mk_fronter ids 0 ∅ ∅ (Z.max 1 (c_auto_blacklist_strikes c))
                   (1000 * clamp 1 3600 (c_auto_blacklist_window_secs c))
                   (1000 * clamp 1 86400 (c_auto_blacklist_cooldown_secs c)))
                (Quota.load file ids (c_quota_daily_limit c) (c_quota_safety_buffer c) io)
                (Cache.new DEFAULT_MAX_BYTES) (c_force_http1 c) 0 0 0 (mk_today (current_pt_day_key secs) 0 0) ∅ [];
            df_coalesced := 0;
            df_disable_padding := c_disable_padding c;
            df_zstd_enabled := false;
            df_batch_timeout := 1000 * clamp 5 300 (c_request_timeout_secs c);
            df_stream_timeout := 1000 * clamp 10 3600 (c_stream_timeout_secs c) |}
  end.

(** ** [ProxyServer::new] *)

Definition display_config_error (e : ConfigError) : bytes :=
  match e with
  | CRead p => bs "failed to read config file " ++ p
  | CParse m => bs "failed to parse config json: " ++ m
  | CParseToml m => bs "failed to parse config toml: " ++ m
  | CInvalid m => bs "invalid config: " ++ m
  end.

Record ProxyServer := mk_proxy {
  ps_host : bytes; ps_port : Z; ps_socks5_port : Z; ps_fronter : option DomainFronter; ps_ctx : RewriteCtx;
  ps_coalesce_step_ms : Z; ps_coalesce_max_ms : Z; ps_network_preset : option bytes }.

Section proxy_new.
Context (sni_error : bytes → option bytes).

(** The resolved groups, or the message about the first that fails. *)
Fixpoint resolve_groups (gs : list FrontingGroup) : result (list FrontingGroupResolved) bytes :=
  match gs with
  | [] => Ok []
  | g :: gs' =>
      match from_config sni_error g with
      | Err e => Err (bs "fronting_groups['" ++ g_name g ++ bs "']: " ++ e)
      | Ok r => let! rs := resolve_groups gs' in Ok (r :: rs)
      end
  end.

Definition proxy_new (c : Config) (secs : Z) (file : option QuotaState) (io : bool) : result ProxyServer bytes :=
  match mode_kind c with
  | Err e => Err (display_config_error e)
  | Ok mode =>
      let! fronter := match mode with
                      | AppsScript | Full =>
                          match fronter_new c secs file io with
                          | Ok f => Ok (Some f)
                          | Err e => Err (display e)
                          end
                      | Direct => Ok None
                      end in
      let! groups := resolve_groups (c_fronting_groups c) in
      Ok {| ps_host := c_listen_host c;
            ps_port := c_listen_port c;
            ps_socks5_port := default ((c_listen_port c + 1) mod u16_mod) (c_socks5_port c);
            ps_fronter := fronter;
            ps_ctx :=
              mk_ctx (c_google_ip c) (c_front_domain c) (c_hosts c) (c_upstream_socks5 c) mode (c_youtube_via_relay c)
                (c_passthrough_hosts c) (c_block_quic c) (c_block_stun c) (negb (c_tunnel_doh c)) (c_block_doh c)
                (c_bypass_doh_hosts c) groups;
            ps_coalesce_step_ms := c_coalesce_step_ms c;
            ps_coalesce_max_ms := c_coalesce_max_ms c;
            ps_network_preset := c_network_preset c |}
  end.
End proxy_new.

(** ** Statistics *)

Record StatsSnapshot := mk_stats {
  ss_total_relay_calls : Z; ss_relay_calls : Z; ss_relay_failures : Z; ss_coalesced : Z; ss_bytes_relayed : Z;
  ss_cache_hits : Z; ss_cache_misses : Z; ss_cache_bytes : Z; ss_blacklisted_scripts : Z; ss_total_scripts : Z;
  ss_today_calls : Z; ss_today_bytes : Z; ss_today_key : bytes; ss_today_reset_secs : Z;
  ss_h2_calls : Z; ss_h2_fallbacks : Z; ss_h2_disabled : bool; ss_quota : QuotaSummary }.

(** The day's counters start over when the day has changed. *)
Definition roll_today (secs : Z) (t : Today) : Today :=
  if bool_decide (today_key t = current_pt_day_key secs) then t else mk_today (current_pt_day_key secs) 0 0.

Definition with_relay (f : RelayState → RelayState) (df : DomainFronter) : DomainFronter :=
  {| df_connect_host := df_connect_host df; df_sni_hosts := df_sni_hosts df; df_sni_idx := df_sni_idx df;
     df_config := df_config df; df_alpn_h2 := df_alpn_h2 df; df_alpn_h1 := df_alpn_h1 df;
     df_verify_ssl := df_verify_ssl df; df_pool := df_pool df; df_h2 := df_h2 df; df_relay := f (df_relay df);
     df_coalesced := df_coalesced df; df_disable_padding := df_disable_padding df;
     df_zstd_enabled := df_zstd_enabled df; df_batch_timeout := df_batch_timeout df;
     df_stream_timeout := df_stream_timeout df |}.

Definition snapshot_stats (secs : Z) (df : DomainFronter) : StatsSnapshot * DomainFronter :=
  let df := with_relay (with_today (roll_today secs)) df in
  let st := df_relay df in
  let quota := summary (rs_quota st) in
  ({| ss_total_relay_calls := sum_total_relay_calls quota;
      ss_relay_calls := rs_calls st; ss_relay_failures := rs_failures st; ss_coalesced := df_coalesced df;
      ss_bytes_relayed := rs_bytes st; ss_cache_hits := hits (rs_cache st); ss_cache_misses := misses (rs_cache st);
      ss_cache_bytes := Cache.size (rs_cache st);
      ss_blacklisted_scripts := Z.of_nat (base.size (blacklist (rs_scripts st)));
      ss_total_scripts := len (ids (rs_scripts st));
      ss_today_calls := today_calls (rs_today st); ss_today_bytes := today_bytes (rs_today st);
      ss_today_key := today_key (rs_today st); ss_today_reset_secs := seconds_until_pacific_midnight secs;
      ss_h2_calls := h2_calls (df_h2 df); ss_h2_fallbacks := h2_fallbacks (df_h2 df);
      ss_h2_disabled := h2_disabled (df_h2 df); ss_quota := quota |}, df).

(** Most requests first; hosts with as many stay in the map's order. *)
Definition snapshot_per_site (df : DomainFronter) : list (bytes * HostStat) :=
  sort_by_key (λ '(_, s), - hs_requests s) (map_to_list (rs_sites (df_relay df))).

(** *** [f64]: IEEE double precision *)

Definition f64 : Type := spec_float.
Definition f64_of_uint (n : Z) : f64 := binary_normalize 53 1024 n 0 false.
Definition f64_div : f64 → f64 → f64 := SFdiv 53 1024.
Definition f64_mul : f64 → f64 → f64 := SFmul 53 1024.

(** The nearest integer, ties to even, of [m * 2^e]. *)
Definition round_even (m e : Z) : Z :=
  if 0 <=? e then m * 2 ^ e
  else
    let d := 2 ^ (- e) in
    let q := m / d in
    match 2 * (m mod d) ?= d with
    | Lt => q
    | Gt => q + 1
    | Eq => if Z.even q then q else q + 1
    end.

(** [format!("{:.0}", x)] of a number that is not negative. *)
Definition fmt_f64_0 (x : f64) : bytes :=
  match x with
  | S754_zero _ => bs "0"
  | S754_infinity _ => bs "inf"
  | S754_nan => bs "NaN"
  | S754_finite _ m e => fmt_uint (round_even (Zpos m) e)
  end.

Definition percent (a b : Z) : f64 := f64_mul (f64_div (f64_of_uint a) (f64_of_uint b)) (f64_of_uint 100).

Definition hit_rate (s : StatsSnapshot) : f64 :=
  let total := wadd64 (ss_cache_hits s) (ss_cache_misses s) in
  if total =? 0 then S754_zero false else percent (ss_cache_hits s) total.

Definition avg_latency_ms (h : HostStat) : f64 :=
  if hs_requests h =? 0 then S754_zero false
  else f64_div (f64_div (f64_of_uint (hs_latency h)) (f64_of_uint (hs_requests h))) (f64_of_uint 1000000).

Definition h2_segment (s : StatsSnapshot) : bytes :=
  if ss_h2_disabled s then bs " h2=off"
  else
    let total := wadd64 (ss_h2_calls s) (ss_h2_fallbacks s) in
    if total =? 0 then []
    else bs " h2-success=" ++ fmt_uint (ss_h2_calls s) ++ bs "/" ++ fmt_uint total ++ bs " (" ++
         fmt_f64_0 (percent (ss_h2_calls s) total) ++ bs "%)".

Definition quota_segment (q : QuotaSummary) : bytes :=
  if (0 <? account_count q) && ((0 <? exhausted_count q) || global_hard_stop q) then
    bs " quota=" ++ fmt_uint (requests_used_total q) ++ bs "/" ++ fmt_uint (daily_capacity_total q) ++
    bs " remaining=" ++ fmt_uint (requests_remaining_total q) ++
    bs " exhausted=" ++ fmt_uint (exhausted_count q) ++ bs "/" ++ fmt_uint (account_count q) ++
    (if global_hard_stop q then bs " HARD-STOP" else [])
  else [].

Definition fmt_line (s : StatsSnapshot) : bytes :=
  bs "stats: relay=" ++ fmt_uint (ss_relay_calls s) ++ bs " (" ++ fmt_uint (ss_bytes_relayed s / 1024) ++
  bs "KB) failures=" ++ fmt_uint (ss_relay_failures s) ++ bs " coalesced=" ++ fmt_uint (ss_coalesced s) ++
  bs " cache=" ++ fmt_uint (ss_cache_hits s) ++ bs "/" ++ fmt_uint (wadd64 (ss_cache_hits s) (ss_cache_misses s)) ++
  bs " (" ++ fmt_f64_0 (hit_rate s) ++ bs "% hit, " ++ fmt_uint (ss_cache_bytes s / 1024) ++ bs "KB) scripts=" ++
  fmt_uint (wsub64 (ss_total_scripts s) (ss_blacklisted_scripts s)) ++ bs "/" ++ fmt_uint (ss_total_scripts s) ++
  bs " active" ++ h2_segment s ++ quota_segment (ss_quota s).

(** Backslashes, then quotes, are escaped with a backslash. *)
Definition esc (s : bytes) : bytes :=
  let double c s := concat (map (λ x, if is_byte c x then [x5c; x] else [x]) s) in double x22 (double x5c s).

Definition json_bool (b : bool) : bytes := if b then bs "true" else bs "false".

(** The members of the object in the order of the text. *)
Definition stats_members (s : StatsSnapshot) : list (bytes * bytes) :=
  let q := ss_quota s in
  [(bs "relay_calls", fmt_uint (ss_relay_calls s)); (bs "relay_failures", fmt_uint (ss_relay_failures s));
   (bs "coalesced", fmt_uint (ss_coalesced s)); (bs "bytes_relayed", fmt_uint (ss_bytes_relayed s));
   (bs "cache_hits", fmt_uint (ss_cache_hits s)); (bs "cache_misses", fmt_uint (ss_cache_misses s));
   (bs "cache_bytes", fmt_uint (ss_cache_bytes s));
   (bs "blacklisted_scripts", fmt_uint (ss_blacklisted_scripts s));
   (bs "total_scripts", fmt_uint (ss_total_scripts s)); (bs "today_calls", fmt_uint (ss_today_calls s));
   (bs "today_bytes", fmt_uint (ss_today_bytes s)); (bs "today_key", x22 :: esc (ss_today_key s) ++ [x22]);
   (bs "today_reset_secs", fmt_uint (ss_today_reset_secs s)); (bs "h2_calls", fmt_uint (ss_h2_calls s));
   (bs "h2_fallbacks", fmt_uint (ss_h2_fallbacks s)); (bs "h2_disabled", json_bool (ss_h2_disabled s));
   (bs "quota_account_count", fmt_uint (account_count q)); (bs "quota_capacity", fmt_uint (daily_capacity_total q));
   (bs "quota_used", fmt_uint (requests_used_total q)); (bs "quota_remaining", fmt_uint (requests_remaining_total q));
   (bs "quota_exhausted", fmt_uint (exhausted_count q)); (bs "quota_hard_stop", json_bool (global_hard_stop q))].

Definition to_json (s : StatsSnapshot) : bytes :=
  bs "{" ++ join (bs ",") (map (λ '(k, v), x22 :: k ++ [x22; x3a] ++ v) (stats_members s)) ++ bs "}".

(** ** Background tasks *)

(** What a tick of the statistics task changes. *)
Definition stats_tick (secs : Z) (io : bool) (df : DomainFronter) : StatsSnapshot * DomainFronter :=
  let '(s, df) := snapshot_stats secs df in
  (s, with_relay (with_quota (λ q, save_if_needed io (roll_expired_windows secs q))) df).

Section keepalive.
Context `{!Base64} `{!RelayFormats} (decode_gzip : bytes → option bytes) (cfg : RelayConfig).

(** One turn of [run_keepalive]. *)
Definition keepalive (env : nat → Attempt) (order : list nat) (secs now : Z) (st : RelayState) : RelayState :=
  (relay_uncoalesced decode_gzip cfg env order secs now (bs "HEAD") (bs "http://example.com/") [] [] None st).2.
End keepalive.

(** ** A validated configuration starts *)

Lemma clamp_range lo hi x : lo ≤ hi → lo ≤ clamp lo hi x ≤ hi.
Proof. unfold clamp. lia. Qed.

Lemma build_sni_pool_nonempty primary user : build_sni_pool_for primary user ≠ [].
Proof. unfold build_sni_pool_for. by destruct (List.filter _ (map trim user)). Qed.

Lemma validate_groups_resolve sni_error gs : ∀ i,
  validate_groups sni_error i gs = Ok tt → ∃ rs, resolve_groups sni_error gs = Ok rs ∧ length rs = length gs.
Proof.
  induction gs as [|g gs IH]; intros i; simpl; [by exists []|].
  destruct (validate_group sni_error i g) as [[]|] eqn:Hg; [|done]. intros H.
  destruct (IH _ H) as (rs & -> & Hl). unfold validate_group in Hg. unfold from_config.
  repeat (case_match; try done); simplify_eq; eexists; (split; [done|]); simpl; by rewrite Hl.
Qed.

(** What the fronter's code takes for granted. *)
Record fronter_ready (f : DomainFronter) : Prop := {
  fr_ids : ids (rs_scripts (df_relay f)) ≠ [];
  fr_named : [] ∉ ids (rs_scripts (df_relay f));
  fr_sni : df_sni_hosts f ≠ [];
  fr_strikes : 1 ≤ auto_blacklist_strikes (rs_scripts (df_relay f));
  fr_window : 1000 ≤ auto_blacklist_window (rs_scripts (df_relay f)) ≤ 3600000;
  fr_cooldown : 1000 ≤ auto_blacklist_cooldown (rs_scripts (df_relay f)) ≤ 86400000;
  fr_batch : 5000 ≤ df_batch_timeout f ≤ 300000;
  fr_stream : 10000 ≤ df_stream_timeout f ≤ 3600000;
  fr_quota : script_ids (rs_quota (df_relay f)) = ids (rs_scripts (df_relay f))
}.

Lemma validate_relay_ids c :
  validate_relay c = Ok tt → script_ids_resolved c ≠ [] ∧ [] ∉ script_ids_resolved c.
Proof.
  unfold validate_relay. case_if; [done|]. destruct (script_ids_resolved c) as [|id l]; [done|].
  destruct (existsb _ (id :: l)) eqn:He; [done|]. intros _. split; [done|]. intros Hin.
  apply not_true_iff_false in He. apply He, existsb_exists. exists []. split; [by apply list_elem_of_In|done].
Qed.

Lemma fronter_new_ready c secs file io :
  validate_relay c = Ok tt → ∃ f, fronter_new c secs file io = Ok f ∧ fronter_ready f.
Proof.
  intros [Hn Hin]%validate_relay_ids. unfold fronter_new.
  destruct (script_ids_resolved c) as [|id l] eqn:Hids; [done|]. eexists. split; [reflexivity|].
  pose proof (clamp_range 1 3600 (c_auto_blacklist_window_secs c)).
  pose proof (clamp_range 1 86400 (c_auto_blacklist_cooldown_secs c)).
  pose proof (clamp_range 5 300 (c_request_timeout_secs c)).
  pose proof (clamp_range 10 3600 (c_stream_timeout_secs c)).
  split; simpl; try done; try lia; [apply build_sni_pool_nonempty|unfold Quota.load, save; by destruct io].
Qed.

Lemma next_sni_in hosts i : hosts ≠ [] → (next_sni hosts i).1 ∈ hosts.
Proof.
  intros Hn. simpl. apply list_elem_of_In, nth_In. pose proof (len_pos hosts Hn).
  pose proof (Z.mod_pos_bound i (len hosts)). unfold len in *. lia.
Qed.

Lemma validate_split sni_error c :
  validate sni_error c = Ok tt →
  ∃ m, mode_kind c = Ok m ∧ (m ≠ Direct → validate_relay c = Ok tt) ∧ c_socks5_port c ≠ Some (c_listen_port c) ∧
       validate_groups sni_error 0 (c_fronting_groups c) = Ok tt.
Proof.
  unfold validate. destruct (mode_kind c) as [m|]; [|done].
  destruct (match m with Direct => Ok tt | _ => validate_relay c end) as [[]|] eqn:Hr; [|by destruct m].
  intros H. exists m. revert H.
  destruct m; try rewrite Hr; (destruct (c_scan_batch_size c =? 0); [done|]); (case_bool_decide; [done|]);
    intros; split_and!; done.
Qed.

(** The names the settings let the relay present to the edge: the user's own
    (trimmed, blank ones left out) if there are any, otherwise the front domain,
    with the built-in Google names if it is one of them. *)
Definition edge_name (c : Config) (n : bytes) : Prop :=
  let own := default [] (c_sni_hosts c) in
  (n ≠ [] ∧ ∃ s, s ∈ own ∧ n = trim s) ∨
  ((∀ s, s ∈ own → trim s = []) ∧
   (n = trim (c_front_domain c) ∨
    (trim (c_front_domain c) ∈ DEFAULT_GOOGLE_SNI_POOL ∧ n ∈ DEFAULT_GOOGLE_SNI_POOL))).

Lemma trimmed_own own n :
  n ∈ List.filter (λ s, negb (bool_decide (s = []))) (map trim own) ↔ n ≠ [] ∧ ∃ s, s ∈ own ∧ n = trim s.
Proof.
  rewrite list_elem_of_In, filter_In, in_map_iff, negb_true_iff, bool_decide_eq_false. split.
  - intros [(s & <- & Hs) Hn]. split; [done|]. exists s. split; [by apply list_elem_of_In|done].
  - intros [Hn (s & Hs & ->)]. split; [|done]. exists s. split; [done|by apply list_elem_of_In].
Qed.

Lemma sni_pool_names c n :
  n ∈ build_sni_pool_for (c_front_domain c) (default [] (c_sni_hosts c)) ↔ edge_name c n.
Proof.
  unfold build_sni_pool_for, edge_name. cbv zeta. set (own := default [] (c_sni_hosts c)).
  set (fd := trim (c_front_domain c)). pose proof (trimmed_own own) as Hown.
  destruct (List.filter _ (map trim own)) as [|u us] eqn:E.
  - assert (Hblank : ∀ s, s ∈ own → trim s = []).
    { intros s Hs. destruct (decide (trim s = [])) as [|Hne]; [done|].
      by destruct (proj1 (elem_of_nil (trim s)) (proj2 (Hown (trim s)) (conj Hne (ex_intro _ s (conj Hs eq_refl))))). }
    rewrite elem_of_cons. split.
    + intros [->|Hin]; right; (split; [done|]); [by left|right]. case_bool_decide as Hp; [|by apply elem_of_nil in Hin].
      split; [done|]. by apply list_elem_of_In, filter_In in Hin as [?%list_elem_of_In _].
    + intros [Hn%Hown|[_ [->|[Hp Hin]]]]; [by apply elem_of_nil in Hn|by left|].
      destruct (decide (n = fd)) as [->|Hne]; [by left|right]. rewrite bool_decide_true by done.
      apply list_elem_of_In, filter_In. split; [by apply list_elem_of_In|]. by rewrite bool_decide_false.
  - rewrite Hown. split; [auto|]. intros [|[Hblank _]]; [done|]. exfalso.
    destruct (proj1 (Hown u) ltac:(by left)) as [Hu (s & Hs & ->)]. by apply Hu, Hblank.
Qed.

(** In any round of the counter every name gets its turn. *)
Lemma next_sni_round hosts i n :
  n ∈ hosts → ∃ j, 0 ≤ j < len hosts ∧ (next_sni hosts (i + j)).1 = n.
Proof.
  intros (k & Hk & Hn)%list_elem_of_In%(In_nth _ _ []). unfold next_sni. cbn [fst].
  assert (Hkn : Z.of_nat k < len hosts) by (unfold len; lia).
  exists ((Z.of_nat k - i) mod len hosts). split; [apply Z.mod_pos_bound; lia|].
  rewrite Zplus_mod_idemp_r. replace (i + (Z.of_nat k - i)) with (Z.of_nat k) by lia.
  by rewrite Z.mod_small, Nat2Z.id by lia.
Qed.

(** C39: settings that pass [validate] start a proxy: [ProxyServer::new]
    returns one whose two ports differ; in direct mode it has no relay, and in
    the other modes its relay has what its code takes for granted (deployments
    with names, the same ones in the quota tracker, names to present to the
    edge, strikes and timeouts within their ranges).  From that start, after
    any history of picks, failures, timeouts and successes and whatever the
    quota tracker says, every deployment handed out is one of those configured,
    those taken off the blacklist included.  And the names presented to the edge
    are those the settings allow ([edge_name]: configured, or built-in Google
    names where the front domain is one), each of them at least once in any
    [len (df_sni_hosts f)] consecutive values of the counter. *)
Theorem validated_config_starts sni_error c secs file io :
  validate sni_error c = Ok tt → is_u16 (c_listen_port c) →
  ∃ ps, proxy_new sni_error c secs file io = Ok ps ∧ ps_port ps ≠ ps_socks5_port ps ∧
    match mode_kind c with
    | Ok Direct => ps_fronter ps = None
    | _ => ∃ f, ps_fronter ps = Some f ∧ fronter_ready f ∧
             (∀ picks st, dispatched (T := QuotaTracker) (rs_scripts (df_relay f)) picks st →
                ∀ sid, sid ∈ picks → sid ∈ script_ids_resolved c) ∧
             (∀ i, edge_name c (next_sni (df_sni_hosts f) i).1) ∧
             (∀ i n, edge_name c n → ∃ j, 0 ≤ j < len (df_sni_hosts f) ∧ (next_sni (df_sni_hosts f) (i + j)).1 = n)
    end.
Proof.
  intros Hv Hp. destruct (validate_split _ _ Hv) as (m & Hm & Hr & Hs & Hg).
  destruct (validate_groups_resolve _ _ _ Hg) as (rs & Hrs & _). unfold proxy_new. rewrite Hm, Hrs.
  assert (c_listen_port c ≠ default ((c_listen_port c + 1) mod u16_mod) (c_socks5_port c)) as Hports.
  { destruct (c_socks5_port c) as [p|]; simpl; [congruence|].
    unfold_widths. intros He. assert ((c_listen_port c + 1) mod 2 ^ 16 = 0 ∨ c_listen_port c + 1 < 2 ^ 16) by divlia.
    divlia. }
  destruct (decide (m = Direct)) as [->|Hd]; [eexists; split_and!; done|].
  destruct (fronter_new_ready c secs file io (Hr Hd)) as (f & Hf & Hfr).
  assert (ids (rs_scripts (df_relay f)) = script_ids_resolved c ∧ blacklist (rs_scripts (df_relay f)) = ∅ ∧
          df_sni_hosts f = build_sni_pool_for (c_front_domain c) (default [] (c_sni_hosts c))) as (Hi & Hb & Hsni).
  { revert Hf. unfold fronter_new. destruct (script_ids_resolved c); [done|]. by intros [= <-]. }
  assert (∀ picks st, dispatched (T := QuotaTracker) (rs_scripts (df_relay f)) picks st →
            ∀ sid, sid ∈ picks → sid ∈ script_ids_resolved c) as Hn.
  { intros picks st H. rewrite <-Hi.
    destruct (dispatched_configured _ _ _ (fr_ids _ Hfr) ltac:(rewrite Hb, dom_empty; set_solver) H) as (_ & _ & Hall).
    by apply Forall_forall. }
  assert (∀ i, edge_name c (next_sni (df_sni_hosts f) i).1) as He1.
  { intros i. apply sni_pool_names. rewrite <-Hsni. apply next_sni_in, Hfr. }
  assert (∀ i n, edge_name c n → ∃ j, 0 ≤ j < len (df_sni_hosts f) ∧ (next_sni (df_sni_hosts f) (i + j)).1 = n) as He2.
  { intros i n Hen%sni_pool_names. apply next_sni_round. by rewrite Hsni. }
  destruct m; [|done|]; rewrite Hf; eexists; (split; [reflexivity|]); (split; [exact Hports|]); exists f; by split_and!.
Qed.

Lemma validated_config_starts_witness :
  ∃ ps, proxy_new (λ _, None) sample_config 0 None true = Ok ps ∧ ps_port ps ≠ ps_socks5_port ps ∧
    ∃ f, ps_fronter ps = Some f ∧ fronter_ready f ∧ edge_name sample_config (next_sni (df_sni_hosts f) 3).1 ∧
      ∀ now q, (next_script_id (q : QuotaTracker) now (rs_scripts (df_relay f))).1 ∈ script_ids_resolved sample_config.
Proof.
  destruct (validated_config_starts (λ _, None) sample_config 0 None true) as (ps & Hps & Hp & f & Hf & Hr & Hd & He & _);
    [reflexivity|split; [discriminate|reflexivity]|].
  exists ps. split; [exact Hps|]. split; [exact Hp|]. exists f. split; [exact Hf|]. split; [exact Hr|]. split; [apply He|].
  intros now q. destruct (next_script_id q now (rs_scripts (df_relay f))) as [sid f'] eqn:En.
  apply (Hd [sid] f'); [|by left]. by apply (dispatch_one _ q now [] _ sid f' (dispatch_start _)).
Defined.

(** Without a SOCKS port of its own, the highest HTTP port makes it 0, which
    lets the system choose one. *)
Lemma socks_port_wraps c secs file io sni_error ps :
  proxy_new sni_error c secs file io = Ok ps → c_listen_port c = 65535 → c_socks5_port c = None →
  ps_socks5_port ps = 0.
Proof.
  unfold proxy_new. intros Hn Hl Hs. rewrite Hl, Hs in Hn.
  repeat (case_match; try done); by simplify_eq.
Qed.

(** The table of sites lists every site once, the busiest first. *)
Lemma snapshot_per_site_spec df :
  snapshot_per_site df ≡ₚ map_to_list (rs_sites (df_relay df)) ∧
  Sorted (λ a b, hs_requests b.2 ≤ hs_requests a.2) (snapshot_per_site df).
Proof.
  split; [apply sort_by_key_perm|].
  unfold snapshot_per_site. induction (sort_by_key_sorted (λ '(_, s), - hs_requests s)
    (map_to_list (rs_sites (df_relay df)))) as [|[h s] l _ IH Hd]; constructor; [done|].
  destruct Hd as [|[h' s'] l Hle]; constructor. unfold key_le in Hle. simpl in *. lia.
Qed.

Example percent_two_thirds : fmt_f64_0 (percent 2 3) = bs "67".
Proof. reflexivity. Qed.
Example percent_half_even : fmt_f64_0 (percent 1 200) = bs "0" ∧ fmt_f64_0 (percent 3 200) = bs "2".
Proof. split; reflexivity. Qed.
