(* ===== verification/HostSystem.v ===== *)
(** The machine the command-line tools act on: files and directories,
    environment variables, and the programs they start.

    A computation is a function on the state of the machine ([M]).  External
    programs ([Exec]) are a parameter: each may change the machine in any
    way.  An operation of [std::fs] fails when the operating system refuses
    it ([io_error], a parameter that gives the message). *)
From Stdlib Require Import Strings.Byte.
From S2P Require Import Prelude RustBytes.

Inductive Node := File (b : bytes) | Dir.

#[global] Instance Node_eq_dec : EqDecision Node.
Proof. solve_decision. Defined.

(** Paths are the strings the program builds. *)
Notation Sys := (gmap bytes Node).

(** ** Computations *)

Definition M (A : Type) : Type := Sys → A * Sys.

Definition mret {A} (a : A) : M A := λ s, (a, s).
Definition mbnd {A B} (m : M A) (k : A → M B) : M B := λ s, let '(a, s) := m s in k a s.

Notation "'let%' x := e 'in' k" := (mbnd e (λ y, match y with x => k end))
  (at level 10, x pattern, e at level 100, k at level 200) : gvpn_scope.

(** [for x in l] with a body that carries a value along. *)
Fixpoint mfold {A B} (f : B → A → M B) (b : B) (l : list A) : M B :=
  match l with
  | [] => mret b
  | x :: l' => let% b := f b x in mfold f b l'
  end.

Definition gets {A} (f : Sys → A) : M A := λ s, (f s, s).

(** ** Programs *)

Record Output := mk_output { o_success : bool; o_stdout : bytes; o_stderr : bytes }.

(** What running a command line does; no output when it could not be
    started. *)
Class Exec := exec : list bytes → M (option Output).

Section programs.
Context `{!Exec}.

(** [Command::status] succeeded. *)
Definition succeeds (cmd : list bytes) : M bool :=
  let% o := exec cmd in mret match o with Some o => o_success o | None => false end.

Definition run_cmd (args : list bytes) : M bool := match args with [] => mret false | _ => succeeds args end.
End programs.

(** ** Files *)

Definition path_exists (s : Sys) (p : bytes) : bool := bool_decide (is_Some (s !! p)).
Definition is_dir (s : Sys) (p : bytes) : bool := bool_decide (s !! p = Some Dir).

Definition read_string (s : Sys) (p : bytes) : option bytes :=
  match s !! p with Some (File b) => from_utf8 b | _ => None end.

(** The separator of the platform, and [Path::join] with a name. *)
Definition sep_of (os : bytes) : byte := if bool_decide (os = bs "windows") then x5c else x2f.
Definition path_join (sep : byte) (p name : bytes) : bytes := p ++ sep :: name.

(** [p] lies in the directory [d], at any depth. *)
Definition below (sep : byte) (d p : bytes) : bool := starts_with (d ++ [sep]) p.

(** The entries of a directory: the paths one level below it. *)
Definition child_of (sep : byte) (d p : bytes) : bool :=
  match strip_prefix (d ++ [sep]) p with
  | Some name => bool_decide (name ≠ [] ∧ sep ∉ name)
  | None => false
  end.

Definition read_dir (sep : byte) (s : Sys) (d : bytes) : option (list bytes) :=
  if is_dir s d then Some (filter (child_of sep d) (map fst (map_to_list s))) else None.

(** The directories above a path, the outermost first: [/a], [/a/b] for
    [/a/b/c]. *)
Fixpoint ancestors_from (sep : byte) (acc : bytes) (parts : list bytes) : list bytes :=
  match parts with
  | [] | [_] => []
  | part :: rest => let p := acc ++ part in
                    (match p with [] => [] | _ => [p] end) ++ ancestors_from sep (p ++ [sep]) rest
  end.

Definition ancestors (sep : byte) (p : bytes) : list bytes := ancestors_from sep [] (split_on sep p).

Definition parent (sep : byte) (p : bytes) : option bytes := last (ancestors sep p).

Section files.
(** Why the operating system refuses an operation on a path, if it does. *)
Context (sep : byte) (io_error : bytes → bytes → option bytes).

(** [fs::write]: the parent must be a directory, the target not one. *)
Definition fs_write (p b : bytes) : M (result unit bytes) := λ s,
  match io_error (bs "write") p with
  | Some e => (Err e, s)
  | None =>
      if is_dir s p then (Err (bs "Is a directory (os error 21)"), s)
      else if match parent sep p with Some d => is_dir s d | None => true end
           then (Ok tt, <[p := File b]> s)
           else (Err (bs "No such file or directory (os error 2)"), s)
  end.

(** [fs::create_dir_all]: every missing directory up to [p]. *)
Definition fs_create_dir_all (p : bytes) : M (result unit bytes) := λ s,
  match io_error (bs "create_dir_all") p with
  | Some e => (Err e, s)
  | None =>
      let ds := ancestors sep p ++ [p] in
      if existsb (λ d, match s !! d with Some (File _) => true | _ => false end) ds
      then (Err (bs "Not a directory (os error 20)"), s)
      else (Ok tt, foldl (λ s d, <[d := Dir]> s) s ds)
  end.

Definition fs_copy (src dest : bytes) : M (result unit bytes) := λ s,
  match s !! src with
  | Some (File b) => fs_write dest b s
  | _ => (Err (bs "No such file or directory (os error 2)"), s)
  end.

Definition fs_remove_file (p : bytes) : M (result unit bytes) := λ s,
  match io_error (bs "remove_file") p, s !! p with
  | Some e, _ => (Err e, s)
  | None, Some (File _) => (Ok tt, delete p s)
  | None, Some Dir => (Err (bs "Is a directory (os error 21)"), s)
  | None, None => (Err (bs "No such file or directory (os error 2)"), s)
  end.

(** [fs::remove_dir_all]: the directory and everything below it. *)
Definition fs_remove_dir_all (p : bytes) : M (result unit bytes) := λ s,
  match io_error (bs "remove_dir_all") p with
  | Some e => (Err e, s)
  | None =>
      if path_exists s p then (Ok tt, filter (λ e, negb (bool_decide (e.1 = p) || below sep p e.1)) s)
      else (Err (bs "No such file or directory (os error 2)"), s)
  end.
End files.

(** ** The environment *)

Record Env := mk_env {
  e_home : option bytes; e_appdata : option bytes; e_xdg_config_home : option bytes; e_sudo_user : option bytes;
  e_sudo_home : option bytes; e_euid : Z
}.

Definition set_home (h : bytes) (e : Env) : Env :=
  mk_env (Some h) (e_appdata e) (e_xdg_config_home e) (e_sudo_user e) (e_sudo_home e) (e_euid e).

(** ** Lemmas *)

Lemma mbnd_run {A B} (m : M A) (k : A → M B) s a s' : m s = (a, s') → mbnd m k s = k a s'.
Proof. intros E. unfold mbnd. by rewrite E. Qed.

Lemma fs_remove_dir_all_gone sep io p s s' :
  fs_remove_dir_all sep io p s = (Ok tt, s') → s' !! p = None ∧ ∀ q, below sep p q = true → s' !! q = None.
Proof.
  unfold fs_remove_dir_all. destruct (io _ p); [done|]. destruct (path_exists s p); [|done]. intros [=]; subst.
  split; [|intros q Hq]; apply map_lookup_filter_None; right; intros x Hx; simpl; rewrite Is_true_true.
  - by rewrite (bool_decide_true (p = p)).
  - by rewrite Hq, orb_true_r.
Qed.

Lemma fs_write_ok sep io p b s s' : fs_write sep io p b s = (Ok tt, s') → s' = <[p := File b]> s.
Proof. unfold fs_write. repeat case_match; intros [=]; by subst. Qed.

Lemma fs_write_err sep io p b s e s' : fs_write sep io p b s = (Err e, s') → s' = s.
Proof. unfold fs_write. repeat case_match; intros [=]; by subst. Qed.
