(* ===== verification/RustText.v ===== *)
(** Text operations of Rust's standard library that the command-line tools
    share: [str::lines], sorting and de-duplicating strings, [chars] and the
    width of formatted columns. *)
From Stdlib Require Import Strings.Byte.
From S2P Require Import Prelude RustBytes RelayJson RelayUrl.

(** ** Lines *)

(** [s.lines()]: a line ends at LF, with a CR before it removed; nothing
    follows a final LF. *)
Definition strip_cr (l : bytes) : bytes := default l (strip_suffix [x0d] l).

Fixpoint lines_of (parts : list bytes) : list bytes :=
  match parts with
  | [] => []
  | [last] => match last with [] => [] | _ => [last] end
  | l :: ls => strip_cr l :: lines_of ls
  end.

Definition str_lines (s : bytes) : list bytes := lines_of (split_on x0a s).

(** ** Sorting *)

Definition bytes_le (a b : bytes) : bool := match bytes_compare a b with Gt => false | _ => true end.

Fixpoint insert_sorted (x : bytes) (l : list bytes) : list bytes :=
  match l with
  | [] => [x]
  | y :: l' => if bytes_le x y then x :: l else y :: insert_sorted x l'
  end.

Definition sort (l : list bytes) : list bytes := foldr insert_sorted [] l.

(** [Vec::dedup]. *)
Fixpoint dedup (l : list bytes) : list bytes :=
  match l with
  | [] => []
  | x :: l' => match dedup l' with
               | y :: t => if bool_decide (x = y) then y :: t else x :: y :: t
               | [] => [x]
               end
  end.

(** ** Characters *)

Definition chars (s : bytes) : list bytes := chars_loop (length s) s.

(** [char::is_control]. *)
Definition is_control (c : bytes) : bool :=
  match c with
  | [b] => (byte_val b <? 32) || (byte_val b =? 127)
  | [xc2; b] => (128 <=? byte_val b) && (byte_val b <=? 159)
  | _ => false
  end.

(** [{:<w}] and [{:>w}], counting characters. *)
Definition char_count (s : bytes) : nat := length (filter (λ b, negb (is_cont b)) s).
Definition pad_right (w : nat) (s : bytes) : bytes := s ++ repeat x20 (w - char_count s).
Definition pad_left (w : nat) (s : bytes) : bytes := repeat x20 (w - char_count s) ++ s.

(** ** What sorting and de-duplication keep *)

Lemma insert_sorted_perm x l : insert_sorted x l ≡ₚ x :: l.
Proof. induction l as [|y l IH]; simpl; [done|]. case_if; [done|]. rewrite IH. constructor. Qed.

Lemma sort_perm l : sort l ≡ₚ l.
Proof. induction l as [|x l IH]; simpl; [done|]. by rewrite insert_sorted_perm, IH. Qed.

Lemma dedup_elem x l : x ∈ dedup l ↔ x ∈ l.
Proof.
  induction l as [|y l IH]; simpl; [done|]. rewrite elem_of_cons, <-IH. destruct (dedup l) as [|z t].
  - rewrite list_elem_of_singleton, elem_of_nil. tauto.
  - case_bool_decide; subst; set_solver.
Qed.

Lemma sort_dedup_elem x l : x ∈ dedup (sort l) ↔ x ∈ l.
Proof. by rewrite dedup_elem, sort_perm. Qed.

(** ** Lines of a text *)

Lemma lines_of_cons l p ps : lines_of (l :: p :: ps) = strip_cr l :: lines_of (p :: ps).
Proof. done. Qed.

Lemma str_lines_line l s : x0a ∉ l → s ≠ [] → str_lines (l ++ x0a :: s) = strip_cr l :: str_lines s.
Proof.
  intros Hl Hs. unfold str_lines. rewrite split_on_line by done.
  destruct (split_on x0a s) as [|p ps] eqn:E; [|done]. destruct s as [|x s]; [done|]. simpl in E.
  destruct (is_byte x0a x); [done|]. by destruct (split_on x0a s).
Qed.

Lemma strip_cr_id l : x0d ∉ l → strip_cr l = l.
Proof.
  intros Hl. unfold strip_cr, strip_suffix. destruct (ends_with [x0d] l) eqn:E; [|done].
  apply starts_with_iff in E as [t E]. exfalso. apply Hl. apply list_elem_of_In, in_rev. rewrite E. by left.
Qed.
