(* ===== verification/ScanIps.v ===== *)
(** The IP scanner of src/src/scan_ips.rs.

    [ip_to_u32], [ip_in_cidr] and [cidr_to_ips] are the address arithmetic on
    u32; [find_matching_cidrs] and [select_candidates] choose what to test
    from the published blocks; [quick_probe] and [probe] judge one address
    from what the network did; [fetch_google_ips] and [run] put them
    together.  The random shuffles, the resolver, the network and serde_json
    are parameters. *)
From Stdlib Require Import Strings.Byte.
From S2P Require Import Prelude RustBytes IpAddr Http RelayJson RustText Config.

Definition CANDIDATE_IPS : list bytes := map bs
  ["216.239.32.120"; "216.239.34.120"; "216.239.36.120"; "216.239.38.120"; "216.58.212.142"; "142.250.80.142";
   "142.250.80.138"; "142.250.179.110"; "142.250.185.110"; "142.250.184.206"; "142.250.190.238";
   "142.250.191.78"; "172.217.1.206"; "172.217.14.206"; "172.217.16.142"; "172.217.22.174"; "172.217.164.110";
   "172.217.168.206"; "172.217.169.206"; "34.107.221.82"; "142.251.32.110"; "142.251.33.110"; "142.251.46.206";
   "142.251.46.238"; "142.250.80.170"; "142.250.72.206"; "142.250.64.206"; "142.250.72.110"].

Definition FAMOUS_GOOGLE_DOMAINS : list bytes := map bs
  ["google.com"; "www.google.com"; "youtube.com"; "www.youtube.com"; "gmail.com"; "www.gmail.com";
   "drive.google.com"; "docs.google.com"; "sheets.google.com"; "slides.google.com"; "maps.google.com";
   "www.maps.google.com"; "search.google.com"; "images.google.com"; "www.images.google.com"; "news.google.com";
   "www.news.google.com"; "scholar.google.com"; "www.scholar.google.com"; "books.google.com";
   "translate.google.com"; "www.translate.google.com"; "mail.google.com"; "chat.google.com"; "meet.google.com";
   "hangouts.google.com"; "voice.google.com"; "allo.google.com"; "play.google.com"; "music.google.com";
   "movies.google.com"; "video.google.com"; "videos.google.com"; "photos.google.com"; "picasa.google.com";
   "picasaweb.google.com"; "calendar.google.com"; "keep.google.com"; "contacts.google.com"; "tasks.google.com";
   "forms.google.com"; "sites.google.com"; "www.sites.google.com"; "accounts.google.com";
   "myaccount.google.com"; "myactivity.google.com"; "passwords.google.com"; "adssettings.google.com";
   "ads.google.com"; "adwords.google.com"; "www.adwords.google.com"; "adsense.google.com";
   "analytics.google.com"; "business.google.com"; "mybusiness.google.com"; "merchants.google.com";
   "console.cloud.google.com"; "cloud.google.com"; "firebase.google.com"; "console.firebase.google.com";
   "developers.google.com"; "console.developers.google.com"; "apis.google.com"; "fonts.google.com";
   "android.google.com"; "chrome.google.com"; "chromebook.google.com"; "classroom.google.com";
   "edu.google.com"; "shopping.google.com"; "pay.google.com"; "payments.google.com"; "wallet.google.com";
   "store.google.com"; "flights.google.com"; "hotels.google.com"; "travel.google.com"; "blogger.google.com";
   "domains.google.com"; "trends.google.com"; "alerts.google.com"; "podcasts.google.com"; "fit.google.com";
   "home.google.com"; "assistant.google.com"; "gemini.google.com"; "support.google.com"; "policies.google.com";
   "privacy.google.com"; "about.google.com"; "blog.google.com"; "plus.google.com"; "www.plus.google.com";
   "orkut.google.com"; "reader.google.com"; "wave.google.com"].

(** ** Addresses and blocks *)

Definition parse_u8 : bytes → option Z := parse_uint (u8_mod - 1).

(** [((o0 as u32) << 24) | ((o1 as u32) << 16) | ((o2 as u32) << 8) | (o3 as u32)]. *)
Definition quad (o0 o1 o2 o3 : Z) : Z :=
  Z.lor (Z.lor (Z.lor (Z.shiftl o0 24) (Z.shiftl o1 16)) (Z.shiftl o2 8)) o3.

Definition ip_to_u32 (ip : bytes) : option Z :=
  let octets := split_on x2e ip in
  if negb (len octets =? 4) then None
  else match omap parse_u8 octets with
       | [o0; o1; o2; o3] => Some (quad o0 o1 o2 o3)
       | _ => None
       end.

Definition prefix_mask (prefix_len : Z) : Z :=
  if prefix_len =? 0 then 0
  else if 32 <=? prefix_len then u32_max
  else Z.lxor (Z.shiftl 1 (32 - prefix_len) - 1) u32_max.

Definition ip_in_cidr (ip cidr : bytes) : bool :=
  match split_on x2f cidr with
  | [base_ip; plen] =>
      match parse_u8 plen, ip_to_u32 ip, ip_to_u32 base_ip with
      | Some prefix_len, Some ip_num, Some base_num =>
          let mask := prefix_mask prefix_len in
          Z.land ip_num mask =? Z.land base_num mask
      | _, _, _ => false
      end
  | _ => false
  end.

Definition find_matching_cidrs (ips cidrs : list bytes) : list bytes :=
  filter (λ cidr, existsb (λ ip, ip_in_cidr ip cidr) ips) cidrs.

(** The dotted quad of a u32. *)
Definition fmt_u32 (ip : Z) : bytes :=
  join (bs ".") (map fmt_uint [Z.land (Z.shiftr ip 24) 255; Z.land (Z.shiftr ip 16) 255;
                               Z.land (Z.shiftr ip 8) 255; Z.land ip 255]).

(** [base + i] on u32 wraps in a release build. *)
Definition cidr_to_ips (cidr : bytes) : list bytes :=
  match split_on x2f cidr with
  | [base_ip; plen] =>
      match parse_u8 plen with
      | None => []
      | Some prefix_len =>
          let octets := split_on x2e base_ip in
          if negb (len octets =? 4) then []
          else match mapM parse_u8 octets with
               | Some [o0; o1; o2; o3] =>
                   let base := quad o0 o1 o2 o3 in
                   if 32 <? prefix_len then []
                   else
                     let host_bits := 32 - prefix_len in
                     let num_hosts := if 32 <=? host_bits then u32_max else Z.shiftl 1 host_bits in
                     let limit := Z.min num_hosts 256 in
                     if limit <? 2 then []
                     else map (λ i, fmt_u32 ((base + i) mod u32_mod)) (seqZ 1 (limit - 2))
               | _ => []
               end
      end
  | _ => []
  end.

(** ** Probes *)

(** What an awaited operation under a timeout gave: its value, an I/O error
    with its text, or the timeout. *)
Inductive Timed (A : Type) : Type :=
  | Done (a : A)
  | Failed (e : bytes)
  | Elapsed.
Arguments Done {A} _.
Arguments Failed {A} _.
Arguments Elapsed {A}.

(** What the network does during one probe: the TCP connect, the TLS
    handshake, the write of the request, the first read, and the
    milliseconds until then. *)
Record Net := mk_net {
  n_tcp : Timed unit; n_tls : Timed unit; n_written : bool; n_read : Timed bytes; n_millis : Z
}.

(** [s.parse::<SocketAddr>()]: [a.b.c.d:port] or [[v6%scope]:port]. *)
Definition read_port (s : bytes) : option (Z * bytes) :=
  let? s := strip_prefix (bs ":") s in read_number 10 (length s) true u16_mod s.

Definition read_scope (s : bytes) : option bytes :=
  match strip_prefix (bs "%") s with
  | Some s' => let? (_, rest) := read_number 10 (length s') true u32_mod s' in Some rest
  | None => Some s
  end.

Definition parse_socket_addr (s : bytes) : option (IpAddr * Z) :=
  at_end (match (let? (o, rest) := read_ipv4_addr s in let? (p, rest) := read_port rest in
                 Some ((IpV4 o, p), rest)) with
          | Some r => Some r
          | None =>
              let? s := strip_prefix (bs "[") s in
              let? (o, rest) := read_ipv6_addr s in
              let? rest := read_scope rest in
              let? rest := strip_prefix (bs "]") rest in
              let? (p, rest) := read_port rest in
              Some ((IpV6 o, p), rest)
          end).

Definition at_443 (ip : bytes) : bytes := ip ++ bs ":443".

Definition bad_addr : bytes := bs "invalid socket address syntax".

Record Result_ := mk_result { r_ip : bytes; latency_ms : option Z; r_error : option bytes }.

Definition probe_failed (ip e : bytes) : Result_ := mk_result ip None (Some e).

Definition head_request (sni : bytes) : bytes :=
  bs "HEAD / HTTP/1.1" ++ crlf ++ bs "Host: " ++ sni ++ crlf ++ bs "Connection: close" ++ crlf ++ crlf.

Section scan.
(** [str::to_lowercase] (Unicode's tables), the names rustls refuses with its
    message, and serde_json. *)
Context (to_lowercase : bytes → bytes) (sni_error : bytes → option bytes) `{!RelayFormats}.

Definition google_frontend (response : bytes) : bool :=
  let lower := to_lowercase response in
  contains lower (bs "server: gws") || contains lower (bs "x-google-") || contains lower (bs "alt-svc: h3=").

Definition quick_probe (ip sni : bytes) (google_ip_validation : bool) (net : Net) : bool :=
  match parse_socket_addr (at_443 ip), n_tcp net, sni_error sni, n_tls net, n_written net, n_read net with
  | Some _, Done _, None, Done _, true, Done b =>
      let b := ztake 1024 b in
      if 0 <? len b then
        let response := from_utf8_lossy b in
        if negb (starts_with (bs "HTTP/") response) then false
        else if google_ip_validation then google_frontend response else true
      else false
  | _, _, _, _, _, _ => false
  end.

Definition probe (ip sni : bytes) (google_ip_validation : bool) (net : Net) : Result_ :=
  match parse_socket_addr (at_443 ip) with
  | None => probe_failed ip bad_addr
  | Some _ =>
      match n_tcp net with
      | Failed e => probe_failed ip (bs "connect: " ++ e)
      | Elapsed => probe_failed ip (bs "timeout")
      | Done _ =>
          match sni_error sni with
          | Some e => probe_failed ip (bs "bad sni: " ++ e)
          | None =>
              match n_tls net with
              | Failed e => probe_failed ip (bs "tls: " ++ e)
              | Elapsed => probe_failed ip (bs "tls timeout")
              | Done _ =>
                  if negb (n_written net) then probe_failed ip (bs "write failed")
                  else match n_read net with
                       | Done b =>
                           let b := ztake 1024 b in
                           if 0 <? len b then
                             let response := from_utf8_lossy b in
                             if negb (starts_with (bs "HTTP/") response) then probe_failed ip (bs "bad reply")
                             else
                               let is_google := if google_ip_validation then google_frontend response else true in
                               if is_google then mk_result ip (Some (n_millis net)) None
                               else probe_failed ip (bs "not google frontend")
                           else probe_failed ip (bs "empty reply")
                       | Failed e => probe_failed ip (bs "read: " ++ e)
                       | Elapsed => probe_failed ip (bs "read timeout")
                       end
              end
          end
      end
  end.

(** The addresses of a chunk whose probe succeeded, in order; [net i] is the
    network during the probe of candidate [i]. *)
Definition validate_ips (ips : list bytes) (sni : bytes) (google_ip_validation : bool) (net : nat → Net)
    : list bytes :=
  omap id (imap (λ i ip, if quick_probe ip sni google_ip_validation (net i) then Some ip else None) ips).

(** ** The published blocks *)

(** [split(sep).nth(1)]. *)
Definition second_part (sep s : bytes) : option bytes :=
  let? (_, rest) := split_sub sep s in
  Some (match split_sub sep rest with Some (a, _) => a | None => rest end).

(** [v[key]] is [Null] when the key is missing. *)
Definition index (v : Value) (key : bytes) : Value := default Null (value_get v key).
Definition as_array (v : Value) : option (list Value) := match v with Array l => Some l | _ => None end.

(** [fetch_google_cidrs] from the bytes of the response on. *)
Definition cidrs_of_response (response : bytes) : result (list bytes) bytes :=
  match second_part header_sep (from_utf8_lossy response) with
  | None => Err (bs "No HTTP body found")
  | Some body =>
      match value_of_json body with
      | Err e => Err e
      | Ok json =>
          match as_array (index json (bs "prefixes")) with
          | None => Err (bs "No prefixes array")
          | Some prefixes => Ok (omap (λ prefix, as_str (index prefix (bs "ipv4Prefix"))) prefixes)
          end
      end
  end.

(** The request to www.gstatic.com: the connect, the handshake and the two
    writes can fail; the read ends at the end of the stream or at an error,
    with what has arrived, or runs into its timeout. *)
Record Fetch := mk_fetch {
  f_tcp : Timed unit; f_tls : Timed unit; f_write : option bytes; f_read : option bytes
}.

Definition elapsed_text : bytes := bs "deadline has elapsed".

Definition timed {A} (t : Timed A) : result A bytes :=
  match t with Done a => Ok a | Failed e => Err e | Elapsed => Err elapsed_text end.

Definition fetch_google_cidrs (f : Fetch) : result (list bytes) bytes :=
  match timed (f_tcp f), timed (f_tls f), f_write f, f_read f with
  | Err e, _, _, _ => Err e
  | _, Err e, _, _ => Err e
  | _, _, Some e, _ => Err e
  | _, _, _, None => Err elapsed_text
  | Ok _, Ok _, None, Some response => cidrs_of_response response
  end.

(** The IPv4 answers for the famous domains; a failed lookup gives none. *)
Definition resolve_famous_domains (lookup_host : bytes → list IpAddr) : list bytes :=
  dedup (sort (omap (λ a, match a with IpV4 o => Some (fmt_ipv4 o) | IpV6 _ => None end)
                 (concat (map (λ d, lookup_host (at_443 d)) FAMOUS_GOOGLE_DOMAINS)))).

(** ** The candidates *)

Definition select_candidates (shuffle_priority shuffle_other : list bytes → list bytes)
    (famous_ips cidrs : list bytes) (max_ips : Z) : list bytes :=
  let priority_cidrs := find_matching_cidrs famous_ips cidrs in
  let priority_ips := concat (map cidr_to_ips priority_cidrs) in
  let other_ips := concat (map cidr_to_ips (filter (λ c, c ∉ priority_cidrs) cidrs)) in
  let candidate_ips := ztake max_ips (shuffle_priority priority_ips) in
  if len candidate_ips <? max_ips
  then candidate_ips ++ ztake (max_ips - len candidate_ips) (shuffle_other other_ips)
  else candidate_ips.

(** [slice::chunks(n)]; the fuel is the length of the list. *)
Fixpoint chunks {A} (fuel : nat) (n : nat) (l : list A) : list (list A) :=
  match fuel, l with
  | _, [] => []
  | O, _ => []
  | S f, _ => take n l :: chunks f n (drop n l)
  end.

Fixpoint validate_batches (batches : list (list bytes)) (tested : nat) (sni : bytes) (google_ip_validation : bool)
    (net : nat → Net) : list bytes :=
  match batches with
  | [] => []
  | chunk :: rest =>
      validate_ips chunk sni google_ip_validation (λ i, net (tested + i)%nat) ++
      validate_batches rest (tested + length chunk)%nat sni google_ip_validation net
  end.

(** What the world contributes to a scan. *)
Record World := mk_world {
  w_lookup : bytes → list IpAddr; w_fetch : Fetch; w_shuffle1 : list bytes → list bytes;
  w_shuffle2 : list bytes → list bytes; w_quick : nat → Net; w_probe : nat → Net
}.

(** A scan; [None] is the panic of the division by a batch size of 0. *)
Definition fetch_and_validate_google_ips (w : World) (sni : bytes) (max_ips batch_size : Z)
    (google_ip_validation : bool) : option (result (list bytes) bytes) :=
  let famous_ips := resolve_famous_domains (w_lookup w) in
  match fetch_google_cidrs (w_fetch w) with
  | Err e => Some (Err e)
  | Ok cidrs =>
      let candidate_ips := select_candidates (w_shuffle1 w) (w_shuffle2 w) famous_ips cidrs max_ips in
      match candidate_ips with
      | [] => Some (Err (bs "No valid IPs extracted from CIDRs"))
      | _ =>
          if batch_size =? 0 then None
          else Some (Ok (validate_batches (chunks (length candidate_ips) (Z.to_nat batch_size) candidate_ips) 0
                           sni google_ip_validation (w_quick w)))
      end
  end.

Definition fetch_google_ips (w : World) (config : Config) : option (list bytes) :=
  if negb (c_fetch_ips_from_api config) then Some CANDIDATE_IPS
  else
    let? r := fetch_and_validate_google_ips w (c_front_domain config) (c_max_ips_to_scan config)
                (c_scan_batch_size config) (c_google_ip_validation config) in
    Some (match r with
          | Ok [] => CANDIDATE_IPS
          | Ok ips => ips
          | Err _ => CANDIDATE_IPS
          end).

(** ** The command *)

(** [latency_ms.unwrap_or(u128::MAX)]. *)
Definition latency_key (r : Result_) : Z := default (2 ^ 128 - 1) (latency_ms r).

Definition row (r : Result_) : bytes :=
  match latency_ms r with
  | Some ms => pad_right 20 (r_ip r) ++ bs " " ++ pad_left 10 (fmt_uint ms) ++ bs "ms   OK"
  | None => pad_right 20 (r_ip r) ++ bs " " ++ pad_left 12 (bs "-") ++ bs "   " ++ default (bs "failed") (r_error r)
  end.

Definition reachable (r : Result_) : bool := bool_decide (is_Some (latency_ms r)).

Definition fastest_row (r : Result_) : bytes :=
  bs "  " ++ r_ip r ++ bs " (" ++ fmt_uint (default 0 (latency_ms r)) ++ bs " ms)".

(** The results in the order of the table. *)
Definition scan_results (ips : list bytes) (sni : bytes) (google_ip_validation : bool) (net : nat → Net)
    : list Result_ :=
  sort_by_key latency_key (imap (λ i ip, probe ip sni google_ip_validation (net i)) ips).

(** The lines [run] prints and what it returns. *)
Definition run (w : World) (config : Config) : option (list bytes * bool) :=
  let? ips := fetch_google_ips w config in
  let sni := c_front_domain config in
  let results := scan_results ips sni (c_google_ip_validation config) (w_probe w) in
  let ok_count := len (filter reachable results) in
  Some (
    [bs "Scanning " ++ fmt_uint (len ips) ++ bs " Google frontend IPs (SNI=" ++ sni ++ bs ", timeout=4s)..."; [];
     pad_right 20 (bs "IP") ++ bs " " ++ pad_left 12 (bs "LATENCY") ++ bs "   STATUS";
     repeat x2d 20 ++ bs " " ++ repeat x2d 12 ++ bs "   -------"] ++
    map row results ++
    [[]; fmt_uint ok_count ++ bs " / " ++ fmt_uint (len results) ++ bs " reachable. Fastest:"] ++
    map fastest_row (take 3 (filter reachable results)) ++
    [[]; if ok_count =? 0 then bs "No Google IPs reachable from this network."
         else bs "To use the fastest, set " ++ [x22] ++ bs "google_ip" ++ [x22]
                ++ bs " in config.toml to the top result above."],
    negb (ok_count =? 0)).
End scan.

(** ** The address arithmetic *)

Definition is_u32 (z : Z) : Prop := 0 ≤ z < u32_mod.

Lemma lor_low x n y : 0 ≤ n → 0 ≤ y < 2 ^ n → Z.lor (x * 2 ^ n) y = x * 2 ^ n + y.
Proof.
  intros Hn Hy. apply Z.bits_inj'. intros m Hm. rewrite Z.lor_spec.
  destruct (decide (m < n)).
  - rewrite Z.mul_pow2_bits_low by done. simpl.
    rewrite <-(Z.mod_pow2_bits_low (x * 2 ^ n + y) n m) by lia.
    rewrite Z.add_comm, Z.mod_add, Z.mod_small by lia. done.
  - replace m with (m - n + n) by lia. rewrite <-!Z.div_pow2_bits by lia.
    rewrite (Z.div_small y), Z.bits_0, orb_false_r by lia.
    by rewrite Z.div_add_l, (Z.div_small y), Z.add_0_r, Z.div_mul by lia.
Qed.

Lemma quad_sum a b c d :
  0 ≤ b < 256 → 0 ≤ c < 256 → 0 ≤ d < 256 → quad a b c d = a * 2 ^ 24 + b * 2 ^ 16 + c * 2 ^ 8 + d.
Proof.
  intros Hb Hc Hd. unfold quad. rewrite !Z.shiftl_mul_pow2 by done.
  rewrite lor_low by lia.
  replace (a * 2 ^ 24 + b * 2 ^ 16) with ((a * 2 ^ 8 + b) * 2 ^ 16) by lia. rewrite lor_low by lia.
  replace ((a * 2 ^ 8 + b) * 2 ^ 16 + c * 2 ^ 8) with (((a * 2 ^ 8 + b) * 2 ^ 8 + c) * 2 ^ 8) by lia.
  rewrite lor_low by lia. lia.
Qed.

Definition octet (ip k : Z) : Z := ip / 2 ^ k mod 256.

Lemma octet_range ip k : 0 ≤ octet ip k < 256.
Proof. unfold octet. by apply Z.mod_pos_bound. Qed.

Lemma octets_quad ip : is_u32 ip → quad (octet ip 24) (octet ip 16) (octet ip 8) (octet ip 0) = ip.
Proof. intros H. rewrite quad_sum by apply octet_range. unfold octet, is_u32, u32_mod in *. divlia. Qed.

Lemma land_255 z : Z.land z 255 = z mod 256.
Proof. apply (Z.land_ones z 8). lia. Qed.

Lemma fmt_u32_octets ip :
  fmt_u32 ip = join (bs ".") (map fmt_uint [octet ip 24; octet ip 16; octet ip 8; octet ip 0]).
Proof.
  unfold fmt_u32, octet. rewrite !land_255, !Z.shiftr_div_pow2 by done.
  by rewrite (Z.pow_0_r 2), Z.div_1_r.
Qed.

Lemma parse_fmt_below max n : 0 ≤ n < 10 ^ 20 → n ≤ max → parse_uint max (fmt_uint n) = Some n.
Proof.
  intros Hn Hm. destruct (fmt_uint_cons n) as (c & s & E & Hc); [lia|].
  assert (parse_uint max (fmt_uint n) = parse_digits max (fmt_uint n) 0) as ->.
  { rewrite E. unfold parse_uint. by destruct c. }
  unfold fmt_uint. by rewrite parse_fmt_digits.
Qed.

Lemma parse_octet n : 0 ≤ n < 256 → parse_u8 (fmt_uint n) = Some n.
Proof. intros Hn. apply parse_fmt_below; unfold u8_mod; lia. Qed.

Lemma digits_no c n : is_ascii_digit c = false → 0 ≤ n → c ∉ fmt_uint n.
Proof.
  intros Hc Hn Hin%list_elem_of_In. pose proof (fmt_uint_all_digits n Hn) as Hd.
  rewrite forallb_forall in Hd. rewrite Hd in Hc; done.
Qed.

Lemma split_fmt_u32 ip :
  split_on x2e (fmt_u32 ip) = map fmt_uint [octet ip 24; octet ip 16; octet ip 8; octet ip 0].
Proof.
  assert (H : ∀ k, x2e ∉ fmt_uint (octet ip k)) by (intros k; apply digits_no; [done|apply octet_range]).
  rewrite fmt_u32_octets. cbn [map join]. change (bs ".") with [x2e]. cbn [app].
  by rewrite !split_on_line, split_on_none.
Qed.

Lemma fmt_u32_no_slash ip : x2f ∉ fmt_u32 ip.
Proof.
  rewrite fmt_u32_octets. cbn [map join]. rewrite !not_elem_of_app.
  repeat split; try (apply digits_no; [done|apply octet_range]); by intros ?%list_elem_of_singleton.
Qed.

Lemma parse_octets ip :
  mapM parse_u8 (map fmt_uint [octet ip 24; octet ip 16; octet ip 8; octet ip 0]) =
  Some [octet ip 24; octet ip 16; octet ip 8; octet ip 0].
Proof. cbn [map mapM]. by rewrite !parse_octet by apply octet_range. Qed.

Lemma mapM_omap {A B} (f : A → option B) l k : mapM f l = Some k → omap f l = k.
Proof. rewrite mapM_Some. induction 1 as [|x y l k Hxy _ IH]; [done|]. cbn. rewrite Hxy. by f_equal. Qed.

Lemma ip_to_u32_fmt ip : is_u32 ip → ip_to_u32 (fmt_u32 ip) = Some ip.
Proof.
  intros Hip. unfold ip_to_u32. rewrite split_fmt_u32, (mapM_omap _ _ _ (parse_octets ip)).
  rewrite len_map. change (len [_; _; _; _]) with 4. simpl. by rewrite octets_quad.
Qed.

(** [ip/prefix_len], and the addresses of the block around an address: those
    that agree with it above the host bits. *)
Definition cidr_text (base prefix_len : Z) : bytes := fmt_u32 base ++ bs "/" ++ fmt_uint prefix_len.
Definition block_size (prefix_len : Z) : Z := 2 ^ Z.max 0 (32 - prefix_len).
Definition block_start (base prefix_len : Z) : Z := base - base mod block_size prefix_len.
Definition in_block (ip base prefix_len : Z) : bool :=
  (block_start base prefix_len <=? ip) && (ip <? block_start base prefix_len + block_size prefix_len).

Lemma split_cidr base p : 0 ≤ p → split_on x2f (cidr_text base p) = [fmt_u32 base; fmt_uint p].
Proof.
  intros Hp. unfold cidr_text. change (bs "/" ++ ?l) with (x2f :: l).
  rewrite split_on_line by apply fmt_u32_no_slash. by rewrite split_on_none by (by apply digits_no).
Qed.

Lemma land_prefix_mask a p : is_u32 a → 0 ≤ p < 256 →
  Z.land a (prefix_mask p) = a / block_size p * block_size p.
Proof.
  intros Ha Hp. unfold prefix_mask, block_size.
  destruct (Z.eqb_spec p 0) as [->|Hp0]; [rewrite Z.land_0_r, Z.div_small; [done|apply Ha]|].
  assert (Ha' : ∀ n, 32 ≤ n → Z.testbit a n = false).
  { intros n Hn. destruct (decide (a = 0)) as [->|]; [apply Z.bits_0|].
    apply Z.bits_above_log2; [apply Ha|]. apply Z.log2_lt_pow2; [unfold is_u32 in *; lia|].
    eapply Z.lt_le_trans; [apply Ha|]. by apply Z.pow_le_mono_r. }
  assert (Hm : ∀ n, 0 ≤ n → Z.testbit u32_max n = bool_decide (n < 32)).
  { intros n Hn. change u32_max with (Z.ones 32). case_bool_decide; [apply Z.ones_spec_low|apply Z.ones_spec_high]; lia. }
  case_if.
  - rewrite Z.max_l, Z.pow_0_r, Z.div_1_r, Z.mul_1_r by lia.
    change u32_max with (Z.ones 32). rewrite Z.land_ones by done. by apply Z.mod_small.
  - rewrite Z.max_r by lia. set (k := 32 - p). replace (Z.shiftl 1 k - 1) with (Z.ones k).
    2: { unfold Z.ones. lia. }
    apply Z.bits_inj'. intros n Hn. rewrite Z.land_spec, Z.lxor_spec, Hm by done.
    destruct (decide (n < k)).
    + rewrite Z.ones_spec_low by lia. rewrite Z.mul_pow2_bits_low by done.
      rewrite bool_decide_true by lia. by rewrite andb_false_r.
    + rewrite Z.ones_spec_high by lia. rewrite Z.mul_pow2_bits, Z.div_pow2_bits by lia.
      replace (n - k + k) with n by lia. case_bool_decide; [by rewrite andb_true_r|].
      rewrite Ha' by lia. done.
Qed.

Lemma block_size_pos p : 0 < block_size p.
Proof. unfold block_size. apply Z.pow_pos_nonneg; lia. Qed.

Lemma ip_in_cidr_quot a b p : is_u32 a → is_u32 b → 0 ≤ p < 256 →
  ip_in_cidr (fmt_u32 a) (cidr_text b p) = (a / block_size p =? b / block_size p).
Proof.
  intros Ha Hb Hp. unfold ip_in_cidr. rewrite split_cidr by lia. rewrite parse_octet, !ip_to_u32_fmt by done.
  rewrite !land_prefix_mask by done. pose proof (block_size_pos p). apply eq_true_iff_eq. rewrite !Z.eqb_eq. nia.
Qed.

(** C22: [ip_in_cidr] decides membership in the block: for every address and
    every block written [a.b.c.d/n] (aligned or not, n up to 255), the mask
    arithmetic of the code agrees with the reference test that the address
    lies in the interval of [2^(32-n)] addresses around the base. *)
Theorem ip_in_cidr_is_block a b p :
  is_u32 a → is_u32 b → 0 ≤ p < 256 → ip_in_cidr (fmt_u32 a) (cidr_text b p) = in_block a b p.
Proof.
  intros Ha Hb Hp. rewrite ip_in_cidr_quot by done. unfold in_block, block_start.
  pose proof (block_size_pos p) as Hk. generalize dependent (block_size p). intros k Hk.
  apply eq_true_iff_eq. rewrite andb_true_iff, Z.eqb_eq, Z.leb_le, Z.ltb_lt.
  pose proof (Z.div_mod b k). split; intros E; [divlia|].
  symmetry. apply (Z.div_unique a k (b / k) (a - k * (b / k))); lia.
Qed.

Lemma ip_in_cidr_is_block_witness :
  is_u32 3232235777 ∧ ip_in_cidr (fmt_u32 3232235777) (cidr_text 3232235520 16) = in_block 3232235777 3232235520 16.
Proof. split; [by vm_compute|]. apply ip_in_cidr_is_block; by vm_compute. Defined.

Lemma fmt_u32_inj a b : is_u32 a → is_u32 b → fmt_u32 a = fmt_u32 b → a = b.
Proof. intros Ha Hb E. apply (inj Some). by rewrite <-(ip_to_u32_fmt a), <-(ip_to_u32_fmt b), E. Qed.

(** The addresses listed for a block: the inner ones, at most 254. *)
Definition hosts (base p : Z) : list Z := seqZ (base + 1) (Z.min (block_size p) 256 - 2).

Lemma cidr_to_ips_text base p : is_u32 base → 0 ≤ p ≤ 32 →
  cidr_to_ips (cidr_text base p) = map (λ ip, fmt_u32 (ip mod u32_mod)) (hosts base p).
Proof.
  intros Hb Hp. unfold cidr_to_ips. rewrite split_cidr by lia. rewrite parse_octet by lia.
  rewrite split_fmt_u32, parse_octets, len_map. change (len [_; _; _; _]) with 4. simpl negb. cbv iota.
  rewrite octets_quad by done. if_false.
  assert (Z.min (if 32 <=? 32 - p then u32_max else Z.shiftl 1 (32 - p)) 256 = Z.min (block_size p) 256) as ->.
  { unfold block_size. rewrite Z.max_r by lia. case_if.
    - replace p with 0 by lia. reflexivity.
    - by rewrite Z.shiftl_1_l. }
  unfold hosts. replace (base + 1) with (Z.add base 1) by done. case_if.
  - rewrite (seqZ_nil (base + 1)) by lia. done.
  - rewrite <-(fmap_add_seqZ base 1), <-list_fmap_compose. done.
Qed.

(** For an aligned block the addresses stay inside it and are distinct. *)
Lemma cidr_to_ips_aligned base p : is_u32 base → 0 ≤ p ≤ 32 → base mod block_size p = 0 →
  cidr_to_ips (cidr_text base p) = map fmt_u32 (hosts base p) ∧ NoDup (cidr_to_ips (cidr_text base p)) ∧
  ∀ ip, ip ∈ cidr_to_ips (cidr_text base p) → ip_in_cidr ip (cidr_text base p) = true.
Proof.
  intros Hb Hp Ha. rewrite cidr_to_ips_text by done.
  pose proof (block_size_pos p) as Hk.
  assert (Hd : u32_mod = 2 ^ p * block_size p).
  { unfold block_size. rewrite Z.max_r, <-Z.pow_add_r by lia. by replace (p + (32 - p)) with 32 by lia. }
  assert (Hin : ∀ ip, ip ∈ hosts base p → base < ip < base + block_size p ∧ is_u32 ip).
  { intros ip Hip%elem_of_seqZ. split; [lia|]. split; [unfold is_u32 in Hb; lia|].
    assert (base / block_size p < 2 ^ p) by (apply Z.div_lt_upper_bound; [done|]; unfold is_u32 in Hb; lia).
    pose proof (Z.div_mod base (block_size p)). nia. }
  assert (E : map (λ ip, fmt_u32 (ip mod u32_mod)) (hosts base p) = map fmt_u32 (hosts base p)).
  { apply list_fmap_ext. intros i ip Hi%list_elem_of_lookup_2%Hin. by rewrite Z.mod_small by apply Hi. }
  rewrite E. split; [done|]. split.
  - apply NoDup_fmap_2_strong; [|apply NoDup_seqZ]. intros x y Hx Hy E1. apply Hin in Hx as [_ Hx], Hy as [_ Hy]. by apply fmt_u32_inj.
  - intros ip (a & -> & Hx%Hin)%list_elem_of_fmap. rewrite ip_in_cidr_quot by (tauto || lia).
    apply Z.eqb_eq. destruct Hx as [Hx _]. pose proof (Z.div_mod base (block_size p)).
    symmetry. apply (Z.div_unique a _ _ (a - base)); lia.
Qed.

(** An unaligned base near the top of the address space wraps around. *)
Lemma unaligned_block_wraps :
  cidr_to_ips (bs "255.255.255.253/29") =
  map bs ["255.255.255.254"; "255.255.255.255"; "0.0.0.0"; "0.0.0.1"; "0.0.0.2"; "0.0.0.3"].
Proof. by vm_compute. Qed.

(** ** The scan *)

Section scan_lemmas.
Context (to_lowercase : bytes → bytes) (sni_error : bytes → option bytes) `{!RelayFormats}.

Lemma validate_ips_app l k sni v net :
  validate_ips to_lowercase sni_error (l ++ k) sni v net =
  validate_ips to_lowercase sni_error l sni v net ++
  validate_ips to_lowercase sni_error k sni v (λ i, net (length l + i)%nat).
Proof. unfold validate_ips. by rewrite imap_app, omap_app. Qed.

(** Testing in batches finds what testing all at once finds. *)
Lemma validate_batches_all fuel n l k sni v net : (0 < n)%nat → (length l ≤ fuel)%nat →
  validate_batches to_lowercase sni_error (chunks fuel n l) k sni v net =
  validate_ips to_lowercase sni_error l sni v (λ i, net (k + i)%nat).
Proof.
  intros Hn. revert l k. induction fuel as [|f IH]; intros [|x l] k Hf; try done; [simpl in Hf; lia|].
  cbn [chunks validate_batches]. rewrite IH; [|rewrite length_drop; simpl in *; lia].
  rewrite <-(take_drop n (x :: l)) at 3. rewrite validate_ips_app. f_equal.
  unfold validate_ips. f_equal. apply imap_ext. intros i y _. simpl. by rewrite Nat.add_assoc.
Qed.

Lemma validate_ips_sublist l sni v net : validate_ips to_lowercase sni_error l sni v net `sublist_of` l.
Proof.
  unfold validate_ips. revert net. induction l as [|x l IH]; intros net; [done|]. cbn. unfold compose.
  destruct (quick_probe _ _ _ _ _ _); [apply sublist_skip|apply sublist_cons]; apply (IH (λ i, net (S i))).
Qed.

Lemma validate_ips_accepted l sni v net ip : ip ∈ validate_ips to_lowercase sni_error l sni v net →
  ∃ i, quick_probe to_lowercase sni_error ip sni v (net i) = true.
Proof.
  unfold validate_ips. intros (o & Ho & Hid)%list_elem_of_omap. cbn in Hid. subst o.
  apply elem_of_lookup_imap in Ho as (i & x & E & _).
  destruct (quick_probe _ _ _ _ _ _) eqn:Hq; simplify_eq. by exists i.
Qed.

Lemma select_candidates_len s1 s2 famous cidrs max : 0 ≤ max →
  len (select_candidates s1 s2 famous cidrs max) ≤ max.
Proof.
  intros Hmax. unfold select_candidates. set (p := s1 _). set (o := s2 _).
  assert (len (ztake max p) ≤ max) by (unfold ztake, len; rewrite length_take; lia).
  case_if; [|done]. rewrite len_app. unfold ztake, len in *. rewrite !length_take in *. lia.
Qed.

Lemma select_candidates_from s1 s2 famous cidrs max ip : (∀ l, s1 l ≡ₚ l) → (∀ l, s2 l ≡ₚ l) →
  ip ∈ select_candidates s1 s2 famous cidrs max → ∃ cidr, cidr ∈ cidrs ∧ ip ∈ cidr_to_ips cidr.
Proof.
  intros H1 H2. unfold select_candidates.
  assert (Hp : ∀ n (P : bytes → Prop) `{!∀ c, Decision (P c)} (s : list bytes → list bytes), (∀ l, s l ≡ₚ l) →
    ip ∈ ztake n (s (concat (map cidr_to_ips (filter P cidrs)))) → ∃ cidr, cidr ∈ cidrs ∧ ip ∈ cidr_to_ips cidr).
  { intros n P HP s Hs (i & Hi & _)%elem_of_take. apply list_elem_of_lookup_2 in Hi. rewrite Hs in Hi.
    apply list_elem_of_In, in_concat in Hi as (l & (c & <- & Hc)%in_map_iff & Hl).
    apply list_elem_of_In in Hc, Hl.
    apply list_elem_of_filter in Hc as [_ Hc]. eauto. }
  case_if; [rewrite elem_of_app; intros [Hi|Hi]|intros Hi]; eauto.
Qed.

(** An address the scanner may hand out: a host of a published block that
    answered its probe. *)
Definition validated (w : World) (config : Config) (cidrs : list bytes) (ip : bytes) : Prop :=
  (∃ cidr, cidr ∈ cidrs ∧ ip ∈ cidr_to_ips cidr) ∧
  ∃ i, quick_probe to_lowercase sni_error ip (c_front_domain config) (c_google_ip_validation config) (w_quick w i)
       = true.

Lemma validate_batch_size c : validate sni_error c = Ok tt → c_scan_batch_size c ≠ 0.
Proof.
  unfold validate. intros Hv. destruct (Z.eqb_spec (c_scan_batch_size c) 0); [|done].
  by repeat case_match.
Qed.

(** What the IP scanner hands out.  With a configuration that passed
    validation and shuffles that permute, [fetch_google_ips] does not panic,
    never returns an empty list, and returns either the built-in candidates
    or at most [max_ips_to_scan] addresses, each a host of a block fetched
    from goog.json whose probe succeeded. *)
Theorem scanned_ips_validated w config :
  (∀ l, w_shuffle1 w l ≡ₚ l) → (∀ l, w_shuffle2 w l ≡ₚ l) → validate sni_error config = Ok tt →
  0 ≤ c_scan_batch_size config → 0 ≤ c_max_ips_to_scan config →
  ∃ ips, fetch_google_ips to_lowercase sni_error w config = Some ips ∧ ips ≠ [] ∧
    (ips = CANDIDATE_IPS ∨
     ∃ cidrs, fetch_google_cidrs (w_fetch w) = Ok cidrs ∧ len ips ≤ c_max_ips_to_scan config ∧
       Forall (validated w config cidrs) ips).
Proof.
  intros H1 H2 Hv%validate_batch_size Hb Hm. unfold fetch_google_ips.
  case_if; [eauto|]. unfold fetch_and_validate_google_ips.
  destruct (fetch_google_cidrs (w_fetch w)) as [cidrs|e] eqn:Hf; [|simpl; eauto].
  pose proof (select_candidates_len (w_shuffle1 w) (w_shuffle2 w) (resolve_famous_domains (w_lookup w)) cidrs _ Hm) as Hlen.
  pose proof (λ ip, select_candidates_from (w_shuffle1 w) (w_shuffle2 w) (resolve_famous_domains (w_lookup w)) cidrs
                      (c_max_ips_to_scan config) ip H1 H2) as Hfrom.
  destruct (select_candidates _ _ _ _ _) as [|x l] eqn:Hc; [simpl; eauto|]. rewrite <-Hc in *. clear Hc x l.
  set (cs := select_candidates _ _ _ _ _) in *.
  if_false. cbn [mbind option_bind].
  rewrite validate_batches_all by lia.
  set (ok := validate_ips _ _ _ _ _ _).
  assert (Hs : ok `sublist_of` cs) by apply validate_ips_sublist.
  destruct ok as [|y ok'] eqn:Hok; [eauto|]. rewrite <-Hok in *.
  exists ok. split; [done|]. split; [by rewrite Hok|]. right. exists cidrs. split; [done|]. split.
  - apply sublist_length in Hs. unfold len in *. lia.
  - apply Forall_forall. intros ip Hip. split; [apply Hfrom; by eapply elem_of_sublist|].
    by apply validate_ips_accepted in Hip.
Qed.
End scan_lemmas.

Definition scan_config : Config :=
  mk_config (bs "apps_script") default_google_ip default_front_domain (Some (One (bs "AKfyc"))) None (bs "secret")
    default_listen_host default_listen_port None default_log_level default_verify_ssl ∅ false None 0 0 0 None None
    true 1 default_scan_batch_size default_google_ip_validation false false
    [] default_block_stun default_block_quic false false default_tunnel_doh [] default_block_doh []
    default_auto_blacklist_strikes default_auto_blacklist_window_secs default_auto_blacklist_cooldown_secs
    default_request_timeout_secs default_stream_timeout_secs default_exit_node 100000 default_quota_safety_buffer
    default_strip_noise_response_headers.

Definition goog_json : Value :=
  Object [(bs "prefixes", Array [Object [(bs "ipv6Prefix", Str (bs "2001:4860::/32"))];
                                 Object [(bs "ipv4Prefix", Str (bs "8.8.4.0/24"))];
                                 Object [(bs "ipv4Prefix", Str (bs "142.250.0.0/30"))]])].

(** The second block holds a famous address, its first host answers. *)
Definition scan_world : World := {|
  w_lookup d := if bool_decide (d = bs "google.com:443") then [IpV4 [x8e; xfa; x00; x03]] else [];
  w_fetch := mk_fetch (Done tt) (Done tt) None (Some (bs "HTTP/1.1 200 OK" ++ header_sep ++ bs "{}"));
  w_shuffle1 := id; w_shuffle2 := id;
  w_quick _ := mk_net (Done tt) (Done tt) true (Done (bs "HTTP/1.1 200 OK" ++ crlf ++ bs "Server: gws")) 12;
  w_probe _ := mk_net (Done tt) (Done tt) true (Done (bs "HTTP/1.1 200 OK" ++ crlf ++ bs "Server: gws")) 12 |}.

Lemma scanned_ips_validated_witness :
  fetch_google_ips (H := toy_relay_formats demo_envelope goog_json) to_ascii_lowercase (λ _, None) scan_world scan_config
    = Some [bs "142.250.0.1"] ∧
  ∃ ips, fetch_google_ips (H := toy_relay_formats demo_envelope goog_json) to_ascii_lowercase (λ _, None) scan_world
           scan_config = Some ips ∧ ips ≠ [].
Proof.
  split; [by vm_compute|].
  destruct (scanned_ips_validated (H := toy_relay_formats demo_envelope goog_json) to_ascii_lowercase (λ _, None)
    scan_world scan_config) as (ips & E & Hn & _); [done|done|by vm_compute|done|done|by exists ips].
Defined.

(** ** The table *)

Section table.
Context (to_lowercase : bytes → bytes) (sni_error : bytes → option bytes).

(** Each address is reported once, and no reachable one is faster than the
    first row. *)
Lemma scan_results_table ips sni v net :
  scan_results to_lowercase sni_error ips sni v net ≡ₚ
    imap (λ i ip, probe to_lowercase sni_error ip sni v (net i)) ips ∧
  Sorted (key_le latency_key) (scan_results to_lowercase sni_error ips sni v net).
Proof. split; [apply sort_by_key_perm|apply sort_by_key_sorted]. Qed.

(** A probe and a quick probe that see the same network agree. *)
Lemma probe_quick_agree ip sni v net :
  reachable (probe to_lowercase sni_error ip sni v net) = quick_probe to_lowercase sni_error ip sni v net.
Proof. unfold probe, quick_probe. by repeat case_match. Qed.
End table.
