(* ===== verification/ScanSni.v ===== *)
(** The SNI scanner of src/src/scan_sni.rs.

    [probe_with] judges one name from what the resolver and the network did,
    [probe_all] runs the probes and puts the answers back in input order,
    [parse_http_response_body] and [decode_chunked_http_body] read the answer
    of dns.google, and [discover_snis_from_google_ips] collects, filters and
    validates candidate names. *)
From Stdlib Require Import Strings.Byte.
From S2P Require Import Prelude RustBytes IpAddr Http Routing ProxyHttp RelayJson RelayUrl RustText Config ScanIps.

(** ** Probing a name *)

Record ProbeResult := mk_probe { p_latency_ms : option Z; p_error : option bytes }.

Definition is_ok (r : ProbeResult) : bool := bool_decide (is_Some (p_latency_ms r)).

Definition failed_probe (e : bytes) : ProbeResult := mk_probe None (Some e).

(** The resolver's answer and the network during one probe. *)
Record SniNet := mk_sni_net { s_dns : Timed (list IpAddr); s_net : Net }.

Definition truncate_reason (s : bytes) (max : nat) : bytes :=
  if len s <=? Z.of_nat max then s
  else concat (filter (λ c, negb (is_control c)) (take max (chars s))).

(** The bytes a probe sends once the handshake is done. *)
Definition sni_head_request : bytes := head_request (bs "www.google.com").

Section probes.
Context (sni_error : bytes → option bytes).

Definition probe_with (google_ip sni : bytes) (n : SniNet) : ProbeResult :=
  match s_dns n with
  | Done [] => failed_probe (bs "dns: no addresses")
  | Failed e => failed_probe (bs "dns: " ++ truncate_reason e 32)
  | Elapsed => failed_probe (bs "dns timeout")
  | Done _ =>
      match parse_socket_addr (at_443 google_ip) with
      | None => failed_probe (bs "bad ip: " ++ bad_addr)
      | Some _ =>
          match n_tcp (s_net n) with
          | Failed e => failed_probe (bs "connect: " ++ e)
          | Elapsed => failed_probe (bs "connect timeout")
          | Done _ =>
              match sni_error sni with
              | Some e => failed_probe (bs "bad sni: " ++ e)
              | None =>
                  match n_tls (s_net n) with
                  | Failed e =>
                      failed_probe (if contains e (bs "reset") || contains e (bs "peer")
                                    then bs "handshake RST (SNI may be blocked)" else bs "tls: " ++ e)
                  | Elapsed => failed_probe (bs "tls handshake timeout")
                  | Done _ =>
                      if negb (n_written (s_net n)) then failed_probe (bs "write failed")
                      else match n_read (s_net n) with
                           | Done b =>
                               let b := ztake 64 b in
                               if (5 <=? len b) && starts_with (bs "HTTP/") b
                               then mk_probe (Some (Z.min (n_millis (s_net n)) u32_max)) None
                               else failed_probe (bs "non-HTTP reply")
                           | Failed e => failed_probe (bs "read: " ++ e)
                           | Elapsed => failed_probe (bs "read timeout")
                           end
                  end
              end
          end
      end
  end.

(** The first entry for [sni] and the others. *)
Fixpoint take_entry (sni : bytes) (out : list (bytes * ProbeResult))
    : option ((bytes * ProbeResult) * list (bytes * ProbeResult)) :=
  match out with
  | [] => None
  | e :: out' =>
      if bool_decide (e.1 = sni) then Some (e, out')
      else let? (x, rest) := take_entry sni out' in Some (x, e :: rest)
  end.

Fixpoint in_input_order (snis : list bytes) (out : list (bytes * ProbeResult)) : list (bytes * ProbeResult) :=
  match snis with
  | [] => []
  | sni :: snis' =>
      match take_entry sni out with
      | Some (e, out') => e :: in_input_order snis' out'
      | None => in_input_order snis' out
      end
  end.

(** Every probe, awaited in turn; [net i] is what the probe of name [i] saw. *)
Definition probe_all (google_ip : bytes) (snis : list bytes) (net : nat → SniNet) : list (bytes * ProbeResult) :=
  in_input_order snis (imap (λ i sni, (sni, probe_with google_ip sni (net i))) snis).

(** [latency_ms.unwrap_or(u32::MAX)]. *)
Definition sni_latency_key (e : bytes * ProbeResult) : Z := default u32_max (p_latency_ms e.2).

Definition sni_row (e : bytes * ProbeResult) : bytes :=
  match p_latency_ms e.2 with
  | Some ms => pad_right 36 e.1 ++ bs " " ++ pad_left 8 (fmt_uint ms) ++ bs "ms  ok"
  | None => pad_right 36 e.1 ++ bs " " ++ pad_left 10 (bs "-") ++ bs "  " ++ default (bs "failed") (p_error e.2)
  end.

(** The lines the test-sni command prints and what it returns. *)
Definition test_sni (config : Config) (net : nat → SniNet) : list bytes * bool :=
  let pool := build_sni_pool_for (c_front_domain config) (default [] (c_sni_hosts config)) in
  let results := sort_by_key sni_latency_key (probe_all (c_google_ip config) pool net) in
  let ok_count := len (filter (λ e, is_ok e.2) results) in
  ([bs "Probing " ++ fmt_uint (len pool) ++ bs " SNI candidate(s) against google_ip=" ++ c_google_ip config
      ++ bs " (TCP+TLS, timeout=3s)..."; [];
    pad_right 36 (bs "SNI") ++ bs " " ++ pad_left 10 (bs "LATENCY") ++ bs "  STATUS";
    repeat x2d 36 ++ bs " " ++ repeat x2d 10 ++ bs "  ------"] ++
   map sni_row results ++ [[]; bs "Working: " ++ fmt_uint ok_count ++ bs " / " ++ fmt_uint (len results)],
   0 <? ok_count).
End probes.

(** ** The answer of dns.google *)

(** A computation that returns, fails with a message or panics; [NoFuel] is a
    loop the fuel of its model did not cover. *)
Inductive Dec := DOk (b : bytes) | DErr (e : bytes) | DPanic | NoFuel.

Fixpoint skip_trailer_lines (fuel : nat) (body out : bytes) : Dec :=
  match fuel with
  | O => NoFuel
  | S f =>
      match find_sub crlf body with
      | None => DErr (bs "truncated chunk trailer")
      | Some O => DOk out
      | Some trailer_end => skip_trailer_lines f (drop (trailer_end + 2) body) out
      end
  end.

Fixpoint chunk_loop (fuel : nat) (body out : bytes) : Dec :=
  match fuel with
  | O => NoFuel
  | S f =>
      match find_sub crlf body with
      | None => DErr (bs "truncated chunk size line")
      | Some line_end =>
          match from_utf8 (take line_end body) with
          | None => DErr (bs "bad chunk size line")
          | Some size_line =>
              match parse_hex (split_first x3b (trim size_line)) with
              | None => DErr (bs "bad chunk size")
              | Some size =>
                  let body := drop (line_end + 2) body in
                  if size =? 0 then skip_trailer_lines f body out
                  else
                    let size2 := wadd64 size 2 in
                    if len body <? size2 then DErr (bs "truncated chunk body")
                    else if size2 <? size then DPanic
                    else if negb (bool_decide (ztake 2 (zdrop size body) = crlf)) then
                      DErr (bs "chunk missing trailing CRLF")
                    else chunk_loop f (zdrop size2 body) (out ++ ztake size body)
              end
          end
      end
  end.

(** Every turn of either loop drops at least the two bytes of a line end. *)
Definition decode_chunked_http_body (body : bytes) : Dec := chunk_loop (S (length body)) body [].

(** The two headers that matter; a later one replaces an earlier one. *)
Definition body_headers (lines : list bytes) : option bytes * option Z :=
  foldl (λ '(te, cl) line,
    match split_once x3a line with
    | None => (te, cl)
    | Some (k, v) =>
        if eq_ignore_ascii_case k (bs "transfer-encoding") then (Some (trim v), cl)
        else if eq_ignore_ascii_case k (bs "content-length") then (te, parse_u64 (trim v))
        else (te, cl)
    end) (None, None) lines.

Definition parse_http_response_body (raw : bytes) : Dec :=
  match find_sub header_sep raw with
  | None => DErr (bs "No HTTP header/body separator found")
  | Some header_end =>
      match from_utf8 (take header_end raw) with
      | None => DErr (bs "Bad HTTP headers")
      | Some header_block =>
          let body := drop (header_end + 4) raw in
          let '(transfer_encoding, content_length) := body_headers (tail (str_lines header_block)) in
          if match transfer_encoding with Some v => has_token (bs "chunked") v | None => false end
          then decode_chunked_http_body body
          else match content_length with
               | Some n => if len body <? n then DErr (bs "HTTP body shorter than Content-Length")
                           else DOk (ztake n body)
               | None => DOk body
               end
      end
  end.

(** ** Discovery *)

Definition PUBLIC_SUFFIXES : list bytes := map bs
  ["google.com"; "youtube.com"; "googleapis.com"; "gstatic.com"; "ggpht.com"; "withgoogle.com"].

Definition is_public_google_sni_candidate (domain : bytes) : bool :=
  existsb (λ suffix, bool_decide (domain = suffix) ||
             match strip_suffix suffix domain with Some prefix => ends_with [x2e] prefix | None => false end)
    PUBLIC_SUFFIXES.

(** [trim_start_matches] and [trim_end_matches] with a string pattern. *)
Fixpoint trim_start_str (fuel : nat) (p s : bytes) : bytes :=
  match fuel with
  | O => s
  | S f => match strip_prefix p s with Some s' => trim_start_str f p s' | None => s end
  end.

Fixpoint trim_end_str (fuel : nat) (p s : bytes) : bytes :=
  match fuel with
  | O => s
  | S f => match strip_suffix p s with Some s' => trim_end_str f p s' | None => s end
  end.

Definition famous_base (famous : bytes) : bytes :=
  let s := trim_start_str (length famous) (bs "www.") famous in trim_end_str (length s) (bs ".com") s.

Definition interesting (d : bytes) : bool :=
  contains d (bs "1e100.net") || contains d (bs "google") || contains d (bs "goog") || contains d (bs "youtube") ||
  existsb (λ famous, contains d (famous_base famous)) FAMOUS_GOOGLE_DOMAINS.

(** The URL asked for an address; [None] when it is not a dotted quad. *)
Definition ptr_url (ip : bytes) : option bytes :=
  match split_on x2e ip with
  | [o0; o1; o2; o3] =>
      Some (bs "https://dns.google/resolve?name=" ++ join (bs ".") [o3; o2; o1; o0] ++ bs ".in-addr.arpa&type=PTR")
  | _ => None
  end.

(** [Url] of the url crate. *)
Record Url := mk_url { u_host : option bytes; u_port : option Z; u_path : bytes; u_query : option bytes }.

(** How [fetch_dns_info] ends. *)
Inductive DnsInfo := Info (body : bytes) | NoInfo (e : bytes) | InfoPanics.

Inductive Discovery := Finished (lines : list bytes) (found : bool) | Panics | NeverEnds.

(** tokio's [Semaphore::MAX_PERMITS]. *)
Definition MAX_PERMITS : Z := 2 ^ 61 - 1.

Section discovery.
(** [str::to_lowercase], rustls' names, the url crate, and serde_json on a
    DnsResponse: the [data] members of its [Answer], if it has one. *)
Context (to_lowercase : bytes → bytes) (sni_error : bytes → option bytes) (url_parse : bytes → result Url bytes)
  (dns_response : bytes → option (option (list bytes))) `{!RelayFormats}.

Definition dns_request (u : Url) (host : bytes) : bytes :=
  let path := match u_path u with [] => bs "/" | p => p end in
  let query := match u_query u with Some q => bs "?" ++ q | None => [] end in
  bs "GET " ++ path ++ query ++ bs " HTTP/1.1" ++ crlf ++ bs "Host: " ++ host ++ crlf
    ++ bs "User-Agent: Mozilla/5.0" ++ crlf ++ bs "Connection: close" ++ header_sep.

(** The connection to the resolver goes to [host:port]; its events are those
    of the request for goog.json. *)
Definition fetch_dns_info (net : bytes → bytes → Fetch) (url_addr : bytes) : DnsInfo :=
  match url_parse url_addr with
  | Err e => NoInfo e
  | Ok u =>
      match u_host u with
      | None => NoInfo (bs "No host in URL")
      | Some host =>
          let f := net (host ++ bs ":" ++ fmt_uint (default 443 (u_port u))) (dns_request u host) in
          match timed (f_tcp f), sni_error host, timed (f_tls f), f_write f, f_read f with
          | Err e, _, _, _, _ => NoInfo e
          | _, Some e, _, _, _ => NoInfo e
          | _, _, Err e, _, _ => NoInfo e
          | _, _, _, Some e, _ => NoInfo e
          | _, _, _, _, None => NoInfo elapsed_text
          | Ok _, None, Ok _, None, Some response =>
              match parse_http_response_body response with
              | DOk body => Info (from_utf8_lossy body)
              | DErr e => NoInfo e
              | DPanic | NoFuel => InfoPanics
              end
          end
      end
  end.

(** One task of the discovery; a panic of the task is dropped with it. *)
Definition ptr_domains (net : bytes → bytes → Fetch) (ip : bytes) : list bytes :=
  match ptr_url ip with
  | None => []
  | Some url =>
      match fetch_dns_info net url with
      | Info body =>
          match dns_response body with
          | Some (Some answers) => filter interesting (map (λ a, to_lowercase (trim_end_matches x2e a)) answers)
          | _ => []
          end
      | _ => []
      end
  end.

Definition validate_sni_against_dpi (sni : bytes) (net : Net) : bool :=
  match n_tcp net, sni_error sni, n_tls net with Done _, None, Done _ => true | _, _, _ => false end.

(** The names to validate: the public ones of the PTR answers (a set, in no
    particular order) and the famous ones. *)
Definition discovered_snis (domains : list bytes) : list bytes :=
  let all_domains : gset bytes := list_to_set domains in
  dedup (sort (filter is_public_google_sni_candidate (elements all_domains) ++ FAMOUS_GOOGLE_DOMAINS)).

Definition discover_snis_from_google_ips (w : World) (dns : nat → bytes → bytes → Fetch) (dpi : nat → Net)
    (config : Config) : Discovery :=
  match fetch_google_ips to_lowercase sni_error w config with
  | None => Panics
  | Some ips =>
      let intro := [bs "Discovering SNIs for " ++ fmt_uint (len ips) ++ bs " Google IPs via dns.google..."; []] in
      let discovered := discovered_snis (concat (imap (λ i ip, ptr_domains (dns i) ip) ips)) in
      match discovered with
      | [] => Finished (intro ++ [bs "No public SNI candidates discovered."; []]) false
      | _ =>
          let lines := intro ++ [bs "Validating " ++ fmt_uint (len discovered)
                                   ++ bs " public SNI candidates against DPI (IP: " ++ c_google_ip config
                                   ++ bs ")..."; []] in
          if MAX_PERMITS <? c_scan_batch_size config then Panics
          else if c_scan_batch_size config =? 0 then NeverEnds
          else match omap id (imap (λ i sni, if validate_sni_against_dpi sni (dpi i) then Some sni else None)
                                discovered) with
               | [] => Finished (lines ++ [bs "No SNI domains passed DPI validation."; []]) false
               | ok => Finished (lines ++ [bs "SNIs that passed DPI validation:"; []] ++
                                 map (λ s, bs "  " ++ s) (sort ok) ++ [[]]) true
               end
      end
  end.
End discovery.

(** ** Results in input order *)

Lemma take_entry_perm sni out e out' :
  take_entry sni out = Some (e, out') → e.1 = sni ∧ out ≡ₚ e :: out'.
Proof.
  revert e out'. induction out as [|x out IH]; intros e out'; [done|]. cbn [take_entry].
  case_bool_decide; [intros [=]; by subst|]. destruct (take_entry sni out) as [[y rest]|]; [|done].
  simpl. intros [=]; subst. destruct (IH _ _ eq_refl) as [-> ->]. split; [done|]. constructor.
Qed.

Lemma take_entry_Some sni out : sni ∈ map fst out → is_Some (take_entry sni out).
Proof.
  induction out as [|x out IH]; cbn [map take_entry]; [by intros ?%elem_of_nil|].
  case_bool_decide; [eauto|]. intros [->|Hin]%elem_of_cons; [done|].
  destruct (IH Hin) as [[y rest] ->]. simpl. eauto.
Qed.

(** However the tasks finish, no answer is lost and the names come back in
    the order in which they were asked for. *)
Lemma in_input_order_spec snis out : map fst out ≡ₚ snis →
  map fst (in_input_order snis out) = snis ∧ in_input_order snis out ≡ₚ out.
Proof.
  revert out. induction snis as [|sni snis IH]; intros out Hp.
  - apply Permutation_nil_r, fmap_nil_inv in Hp. by subst.
  - cbn [in_input_order]. destruct (take_entry_Some sni out) as [[e out'] E].
    { rewrite Hp. by left. }
    rewrite E. apply take_entry_perm in E as [<- Ho].
    destruct (IH out') as [H1 H2].
    { apply (Permutation_cons_inv (a := e.1)). rewrite <-Hp, Ho. done. }
    cbn [map]. by rewrite H1, H2, Ho.
Qed.

Lemma probe_all_in_order sni_error ip snis net :
  map fst (probe_all sni_error ip snis net) = snis ∧
  probe_all sni_error ip snis net ≡ₚ imap (λ i sni, (sni, probe_with sni_error ip sni (net i))) snis.
Proof.
  apply in_input_order_spec. revert net. induction snis as [|s snis IH]; intros net; [done|].
  cbn. f_equiv. apply (IH (λ i, net (S i))).
Qed.

(** ** Chunked answers *)

(** One chunk: a size line of any form the decoder reads, and its data. *)
Definition sized (ld : bytes * bytes) : Prop :=
  (x0a ∉ ld.1) ∧ utf8_valid ld.1 = true ∧ parse_hex (split_first x3b (trim ld.1)) = Some (len ld.2) ∧
  ld.2 ≠ [] ∧ len ld.2 + 2 < u64_mod.

Lemma drop_line (l s : bytes) : drop (length l + 2) (l ++ crlf ++ s) = s.
Proof. rewrite app_assoc. apply drop_app_length'. by rewrite length_app. Qed.

Lemma skip_trailer_lines_of fuel trailers out s : Forall line_ok trailers → (length trailers < fuel)%nat →
  skip_trailer_lines fuel (concat (map (λ l, l ++ crlf) trailers) ++ crlf ++ s) out = DOk out.
Proof.
  revert fuel. induction trailers as [|l ls IH]; intros [|f] Hok Hf; try (simpl in Hf; lia);
    cbn [skip_trailer_lines]; [done|].
  apply Forall_cons in Hok as [[Hl1 Hl2] Hok]. cbn [map concat]. rewrite <-!app_assoc.
  rewrite find_crlf_line, drop_line by done. destruct (length l) eqn:E; [by apply nil_length_inv in E|].
  apply IH; [done|]. simpl in Hf. lia.
Qed.

Lemma chunk_loop_of fuel chunks last trailers out s : Forall sized chunks → Forall line_ok trailers →
  x0a ∉ last → utf8_valid last = true → parse_hex (split_first x3b (trim last)) = Some 0 →
  (length chunks + length trailers + 1 < fuel)%nat →
  chunk_loop fuel (chunked_body chunks last trailers ++ s) out = DOk (out ++ concat (map snd chunks)).
Proof.
  intros Hc Ht Hl Hu Hz. unfold chunked_body. revert fuel out.
  induction chunks as [|[l d] cs IH]; intros [|f] out Hf; try (simpl in Hf; lia); cbn [chunk_loop].
  - change (concat (map chunk_bytes [])) with (@nil byte). rewrite app_nil_l, <-!app_assoc.
    rewrite find_crlf_line by done. cbv beta iota zeta. rewrite drop_line, take_app_length. unfold from_utf8. rewrite Hu, Hz. cbn [Z.eqb].
    rewrite app_nil_r. apply skip_trailer_lines_of; [done|simpl in Hf; lia].
  - apply Forall_cons in Hc as [(H1 & H2 & H3 & H4 & H5) Hc]. cbn [fst snd] in *.
    cbn [map concat snd]. change (chunk_bytes (l, d)) with (l ++ crlf ++ d ++ crlf). rewrite <-!app_assoc.
    rewrite find_crlf_line by done. cbv beta iota zeta. rewrite drop_line, take_app_length. unfold from_utf8. rewrite H2, H3.
    pose proof (len_pos d H4). replace (len d =? 0) with false by lia.
    assert (wadd64 (len d) 2 = len d + 2) as -> by (unfold wadd64; rewrite Z.mod_small; lia).
    set (tl := concat _ ++ _). assert (len d + 2 <= len (d ++ crlf ++ tl)).
    { rewrite !len_app. change (len crlf) with 2. pose proof (len_nonneg tl). lia. }
    if_false. if_false. rewrite zdrop_app_len, (ztake_app_eq 2 crlf) by done. rewrite bool_decide_true by done.
    cbn [negb]. rewrite ztake_app_len.
    assert (zdrop (len d + 2) (d ++ crlf ++ tl) = tl) as ->.
    { rewrite app_assoc. apply zdrop_app_eq. by rewrite len_app. }
    subst tl. rewrite (app_assoc out d), <-(IH Hc f (out ++ d)) by (simpl in Hf; lia).
    f_equal. by rewrite <-!app_assoc.
Qed.

Lemma decode_chunked_of chunks last trailers s : Forall sized chunks → Forall line_ok trailers →
  x0a ∉ last → utf8_valid last = true → parse_hex (split_first x3b (trim last)) = Some 0 →
  decode_chunked_http_body (chunked_body chunks last trailers ++ s) = DOk (concat (map snd chunks)).
Proof.
  intros Hc Ht Hl Hu Hz. unfold decode_chunked_http_body. rewrite chunk_loop_of; [done..|].
  unfold chunked_body. rewrite !length_app. simpl length.
  pose proof (concat_map_length chunk_bytes chunks) as H1.
  pose proof (concat_map_length (λ l, l ++ crlf) trailers) as H2.
  assert (H3 : ∀ x, (1 ≤ length (chunk_bytes x))%nat) by (intros x; unfold chunk_bytes; rewrite !length_app; simpl; lia).
  assert (H4 : ∀ x : bytes, (1 ≤ length (x ++ crlf))%nat) by (intros x; rewrite length_app; simpl; lia).
  specialize (H1 H3). specialize (H2 H4). destruct last; [done|]. simpl. lia.
Qed.

(** The decoder always returns: the fuel is enough for any input. *)
Lemma skip_trailer_lines_ends fuel body out :
  (length body < fuel)%nat → skip_trailer_lines fuel body out ≠ NoFuel.
Proof.
  revert body. induction fuel as [|f IH]; intros body Hf; [lia|]. cbn [skip_trailer_lines].
  destruct (find_sub crlf body) as [[|i]|] eqn:E; [done| |done].
  apply find_sub_le in E. simpl length in E. apply IH. rewrite length_drop. lia.
Qed.

Lemma chunk_loop_ends fuel body out : (length body < fuel)%nat → chunk_loop fuel body out ≠ NoFuel.
Proof.
  revert body out. induction fuel as [|f IH]; intros body out Hf; [lia|]. cbn [chunk_loop].
  destruct (find_sub crlf body) as [i|] eqn:E; [|done]. apply find_sub_le in E. simpl length in E.
  destruct (from_utf8 _); [|done]. destruct (parse_hex _) as [size|]; [|done].
  assert (length (drop (i + 2) body) < f)%nat by (rewrite length_drop; lia).
  repeat case_if; try done; [by apply skip_trailer_lines_ends|].
  apply IH. unfold zdrop. rewrite length_drop. lia.
Qed.

Lemma decode_chunked_ends body : decode_chunked_http_body body ≠ NoFuel.
Proof. apply chunk_loop_ends. lia. Qed.

(** A chunk size of [usize::MAX - 1] or more overflows [size + 2] and the
    slice after it panics. *)
Lemma dns_chunk_size_overflow body :
  decode_chunked_http_body (bs "ffffffffffffffff" ++ crlf ++ x20 :: body) = DPanic.
Proof.
  unfold decode_chunked_http_body. cbn [chunk_loop].
  rewrite find_crlf_line by (by apply no_lf). cbv beta iota zeta. rewrite take_app_length, drop_line.
  assert (H : from_utf8 (bs "ffffffffffffffff") = Some (bs "ffffffffffffffff")) by done. rewrite H.
  assert (Hx : parse_hex (split_first x3b (trim (bs "ffffffffffffffff"))) = Some u64_max) by done. rewrite Hx.
  change (u64_max =? 0) with false. change (wadd64 u64_max 2) with 1. cbv iota.
  rewrite len_cons. pose proof (len_nonneg body). by replace (1 + len body <? 1) with false by lia.
Qed.

Definition te_chunked (head : bytes) : Prop :=
  ∃ v, (body_headers (tail (str_lines head))).1 = Some v ∧ has_token (bs "chunked") v = true.

(** A chunked answer is decoded to the data it carries, whatever its size
    lines, trailers and the bytes after it. *)
Lemma dns_answer_decoded head chunks last trailers rest :
  find_sub header_sep (head ++ header_sep) = Some (length head) → utf8_valid head = true → te_chunked head →
  Forall sized chunks → Forall line_ok trailers →
  x0a ∉ last → utf8_valid last = true → parse_hex (split_first x3b (trim last)) = Some 0 →
  parse_http_response_body (head ++ header_sep ++ chunked_body chunks last trailers ++ rest) =
    DOk (concat (map snd chunks)).
Proof.
  intros Hh Hu (v & Hv & Ht) Hc Htr Hl Hlu Hz. unfold parse_http_response_body. rewrite find_sub_app by done.
  cbv beta iota zeta. rewrite take_app_length. unfold from_utf8. rewrite Hu.
  destruct (body_headers _) as [te cl] eqn:E. simpl in Hv. subst te. rewrite Ht.
  replace (drop _ _) with (chunked_body chunks last trailers ++ rest); [by apply decode_chunked_of|].
  rewrite app_assoc. symmetry. apply drop_app_length'. by rewrite length_app.
Qed.

Example dns_answer_read :
  parse_http_response_body
    (bs "HTTP/1.1 200 OK" ++ crlf ++ bs "Transfer-Encoding: gzip, Chunked" ++ header_sep ++
     bs "5" ++ crlf ++ bs "hello" ++ crlf ++ bs "0" ++ crlf ++ crlf) = DOk (bs "hello") ∧
  parse_http_response_body (bs "HTTP/1.1 200 OK" ++ crlf ++ bs "Content-Length: 3" ++ header_sep ++ bs "hello")
    = DOk (bs "hel").
Proof. split; by vm_compute. Qed.

(** ** Discovery *)

Lemma public_candidate_under d :
  is_public_google_sni_candidate d = true ↔ ∃ s, s ∈ PUBLIC_SUFFIXES ∧ under d s.
Proof.
  unfold is_public_google_sni_candidate. rewrite existsb_exists. setoid_rewrite <-list_elem_of_In.
  enough (H : ∀ s, (bool_decide (d = s) ||
     match strip_suffix s d with Some prefix => ends_with [x2e] prefix | None => false end) = true ↔ under d s).
  { split; intros (s & Hs & Hd); exists s; split; try done; by apply H. }
  intros s. unfold under. rewrite orb_true_iff, bool_decide_eq_true. f_equiv. unfold strip_suffix.
  destruct (ends_with s d) eqn:E.
  - apply ends_with_iff in E as [p ->].
    replace (length (p ++ s) - length s)%nat with (length p) by (rewrite length_app; lia).
    rewrite take_app_length, ends_with_iff. split.
    + intros [q ->]. exists q. by rewrite <-app_assoc.
    + intros [q Hq]. change (x2e :: s) with ([x2e] ++ s) in Hq. rewrite app_assoc in Hq.
      apply app_inv_tail in Hq. eauto.
  - split; [done|]. intros [q ->]. enough (ends_with s (q ++ x2e :: s) = true) by congruence.
    apply ends_with_iff. exists (q ++ [x2e]). by rewrite <-app_assoc.
Qed.

(** Only public Google names are proposed: the built-in ones and those of the
    answers that lie under a public suffix. *)
Lemma discovered_snis_public domains d :
  d ∈ discovered_snis domains ↔ d ∈ FAMOUS_GOOGLE_DOMAINS ∨ (d ∈ domains ∧ ∃ s, s ∈ PUBLIC_SUFFIXES ∧ under d s).
Proof.
  unfold discovered_snis. rewrite sort_dedup_elem, elem_of_app, list_elem_of_filter, elem_of_elements.
  rewrite elem_of_list_to_set, <-public_candidate_under, Is_true_true. tauto.
Qed.

Section discovery_ends.
Context (to_lowercase : bytes → bytes) (sni_error : bytes → option bytes) (url_parse : bytes → result Url bytes)
  (dns_response : bytes → option (option (list bytes))) `{!RelayFormats}.

(** With a validated configuration the discovery finishes, and reports
    success exactly when some candidate completed a verified handshake. *)
Lemma discovery_finishes w dns dpi config ips :
  fetch_google_ips to_lowercase sni_error w config = Some ips →
  0 < c_scan_batch_size config ≤ MAX_PERMITS →
  let names := discovered_snis (concat (imap (λ i ip, ptr_domains to_lowercase sni_error url_parse dns_response (dns i) ip) ips)) in
  ∃ lines found,
    discover_snis_from_google_ips to_lowercase sni_error url_parse dns_response w dns dpi config = Finished lines found ∧
    (found = true ↔ ∃ i sni, names !! i = Some sni ∧ validate_sni_against_dpi sni_error sni (dpi i) = true).
Proof.
  intros Hips Hb names. unfold discover_snis_from_google_ips. rewrite Hips. fold names.
  destruct names as [|x l] eqn:Hn.
  { eexists _, false. split; [done|]. split; [done|]. intros (i & sni & Hi & _). by rewrite lookup_nil in Hi. }
  rewrite <-Hn in *. do 2 if_false.
  assert (Hin : ∀ s, s ∈ omap id (imap (λ i sni, if validate_sni_against_dpi sni_error sni (dpi i) then Some sni else None) names)
    ↔ ∃ i, names !! i = Some s ∧ validate_sni_against_dpi sni_error s (dpi i) = true).
  { intros s. rewrite list_elem_of_omap. split.
    - intros (o & (i & y & E & Hy)%elem_of_lookup_imap & Ho). cbn in Ho. subst o.
      destruct (validate_sni_against_dpi _ _ _) eqn:Hv; simplify_eq. eauto.
    - intros (i & Hi & Hv). exists (Some s). split; [|done]. apply elem_of_lookup_imap. exists i, s. by rewrite Hv. }
  destruct (omap id _) as [|y ok].
  - eexists _, false. split; [done|]. split; [done|]. intros (i & sni & Hi & Hv).
    assert (Hs : sni ∈ @nil bytes) by (apply Hin; eauto). by apply elem_of_nil in Hs.
  - eexists _, true. split; [done|]. split; [|done]. intros _. destruct (proj1 (Hin y)) as (i & Hi & Hv); [by left|]. eauto.
Qed.

(** A batch size beyond tokio's limit passes validation and panics here. *)
Lemma discovery_huge_batch_panics w dns dpi config ips :
  fetch_google_ips to_lowercase sni_error w config = Some ips → MAX_PERMITS < c_scan_batch_size config →
  discover_snis_from_google_ips to_lowercase sni_error url_parse dns_response w dns dpi config = Panics.
Proof.
  intros Hips Hb. unfold discover_snis_from_google_ips. rewrite Hips.
  destruct (discovered_snis _) eqn:E; [|by if_true].
  assert (Hg : bs "google.com" ∈ discovered_snis (concat (imap (λ i ip, ptr_domains to_lowercase sni_error url_parse dns_response (dns i) ip) ips))).
  { apply discovered_snis_public. left. by left. }
  rewrite E in Hg. by apply elem_of_nil in Hg.
Qed.
End discovery_ends.
