(* ===== verification/Update.v ===== *)
(** The update check of src/src/update_check.rs.

    [is_newer] compares versions, [pick_asset_for_platform] chooses a
    download, [parse_url] and [split_url] take URLs apart.
    [https_raw_get] is one HTTPS request, directly or through the local
    proxy, and the requests its redirects lead to; [check] and
    [download_asset] use it.  The network is a function from the number of
    the request to what happens during it. *)
From Stdlib Require Import Strings.Byte.
From S2P Require Import Prelude RustBytes Http RelayWire RelayJson RelayUrl RustText ScanIps.

Definition REPO_OWNER : bytes := bs "therealaleph".
Definition REPO_NAME : bytes := bs "MasterHttpRelayVPN-RUST".
Definition GITHUB_API_HOST : bytes := bs "api.github.com".

(** The version of Cargo.toml. *)
Definition CURRENT_VERSION : bytes := bs "1.9.37".

Inductive Route := Direct | Proxy (host : bytes) (port : Z).

Record ReleaseAsset := mk_asset { a_name : bytes; download_url : bytes; size_bytes : Z }.

Inductive UpdateCheck :=
  | Offline (msg : bytes)
  | Error (msg : bytes)
  | UpToDate (current latest : bytes)
  | UpdateAvailable (current latest release_url : bytes) (asset : option ReleaseAsset).

Definition summary (u : UpdateCheck) : bytes :=
  match u with
  | Offline msg => bs "Can't reach github.com: " ++ msg
  | Error msg => bs "Update check failed: " ++ msg
  | UpToDate current _ => bs "Up to date (running v" ++ current ++ bs ")."
  | UpdateAvailable current latest release_url _ =>
      bs "Update available: v" ++ current ++ [x20; xe2; x86; x92; x20] ++ bs "v" ++ latest ++ bs "  (" ++ release_url
        ++ bs ")"
  end.

(** ** Versions *)

(** [s.split(|c| c == '.' || c == '-')]. *)
Fixpoint version_parts (s : bytes) : list bytes :=
  match s with
  | [] => [[]]
  | c :: s' =>
      if is_byte x2e c || is_byte x2d c then [] :: version_parts s'
      else match version_parts s' with l :: ls => (c :: l) :: ls | [] => [[c]] end
  end.

(** One position; [None] goes on to the next. *)
Definition newer_part (pa pb : bytes) : option bool :=
  match parse_u64 pa, parse_u64 pb with
  | Some na, Some nb => if na =? nb then None else Some (nb <? na)
  | _, _ => if bool_decide (pa = pb) then None else Some (negb (bytes_le pa pb))
  end.

Fixpoint newer_loop (n i : nat) (parts_a parts_b : list bytes) : bool :=
  match n with
  | O => false
  | S n' =>
      match newer_part (default (bs "0") (parts_a !! i)) (default (bs "0") (parts_b !! i)) with
      | Some r => r
      | None => newer_loop n' (S i) parts_a parts_b
      end
  end.

Definition is_newer (a b : bytes) : bool :=
  let parts_a := version_parts a in
  let parts_b := version_parts b in
  newer_loop (Nat.max (length parts_a) (length parts_b)) 0 parts_a parts_b.

(** ** URLs *)

Definition https : bytes := bs "https://".

Definition parse_url (url default_host : bytes) : bytes * bytes :=
  match strip_prefix https url with
  | Some rest =>
      match find_byte (is_byte x2f) rest with
      | Some slash => (take slash rest, drop slash rest)
      | None => (rest, bs "/")
      end
  | None => if starts_with (bs "/") url then (default_host, url) else (default_host, bs "/" ++ url)
  end.

Definition split_url (url : bytes) : option (bytes * bytes) :=
  let? rest := strip_prefix https url in
  let? slash := find_byte (is_byte x2f) rest in
  Some (take slash rest, drop slash rest).

(** ** Release assets *)

Definition asset_prefs (os arch : bytes) : list (list bytes) :=
  let same (s : String.string) (t : bytes) := bool_decide (t = bs s) in
  if same "macos" os && same "aarch64" arch then
    [[bs "macos-arm64-app"; bs ".zip"]; [bs "macos-arm64"; bs ".tar.gz"]]
  else if same "macos" os && same "x86_64" arch then
    [[bs "macos-amd64-app"; bs ".zip"]; [bs "macos-amd64"; bs ".tar.gz"]]
  else if same "windows" os then [[bs "windows-amd64"; bs ".zip"]]
  else if same "linux" os && same "aarch64" arch then
    [[bs "linux-arm64"; bs ".tar.gz"]; [bs "linux-musl-arm64"; bs ".tar.gz"]]
  else if same "linux" os && same "arm" arch then [[bs "raspbian-armhf"; bs ".tar.gz"]]
  else if same "linux" os && same "x86_64" arch then
    [[bs "linux-amd64"; bs ".tar.gz"]; [bs "linux-musl-amd64"; bs ".tar.gz"]]
  else [].

Definition str_member (v : Value) (k : bytes) : bytes := default [] (let? x := value_get v k in as_str x).

(** The asset, if its name has every needle and it has a URL. *)
Definition matching_asset (needles : list bytes) (a : Value) : option ReleaseAsset :=
  let name := str_member a (bs "name") in
  let lower := to_ascii_lowercase name in
  if forallb (λ n, contains lower (to_ascii_lowercase n)) needles then
    match str_member a (bs "browser_download_url") with
    | [] => None
    | url => Some (mk_asset name url (default 0 (let? x := value_get a (bs "size") in as_u64 x)))
    end
  else None.

(** The first answer of a list of attempts. *)
Fixpoint first_some {A B} (f : A → option B) (l : list A) : option B :=
  match l with
  | [] => None
  | x :: l' => match f x with Some y => Some y | None => first_some f l' end
  end.

Definition pick_asset_for_platform (os arch : bytes) (assets : list Value) : option ReleaseAsset :=
  first_some (λ needles, first_some (matching_asset needles) assets) (asset_prefs os arch).

(** ** One HTTPS request *)

(** What happens during request number [k]: the error of building the root
    store (a ca.crt that does not parse; only looked at on the proxy route),
    the TCP connect, the CONNECT exchange with the proxy, rustls' opinion of
    the host name, the handshake, the write and the reads.  A read of no
    bytes, or the end of the list, is the end of the stream. *)
Record Hop := mk_hop {
  h_ca : option bytes; h_tcp : Timed unit; h_connect : option bytes; h_connect_reads : list (Timed bytes);
  h_name : option bytes; h_tls : Timed unit; h_write : option bytes; h_reads : list (Timed bytes)
}.

Fixpoint connect_reply (reads : list (Timed bytes)) (collected : bytes) : result bytes bytes :=
  match reads with
  | Elapsed :: _ => Err (bs "proxy CONNECT read timeout")
  | Failed e :: _ => Err (bs "proxy CONNECT read: " ++ e)
  | [] | Done [] :: _ => Err (bs "proxy CONNECT closed early")
  | Done b :: reads' =>
      let collected := collected ++ b in
      if contains collected header_sep then Ok collected
      else if 4096 <? len collected then Err (bs "proxy CONNECT reply too large")
      else connect_reply reads' collected
  end.

Definition tcp_stream (route : Route) (hop : Hop) : result unit bytes :=
  match route with
  | Direct =>
      match h_tcp hop with
      | Done _ => Ok tt
      | Failed e => Err (bs "tcp connect: " ++ e)
      | Elapsed => Err (bs "tcp connect timeout")
      end
  | Proxy _ _ =>
      match h_tcp hop with
      | Failed e => Err (bs "proxy connect: " ++ e)
      | Elapsed => Err (bs "proxy connect timeout")
      | Done _ =>
          match h_connect hop with
          | Some e => Err (bs "proxy CONNECT write: " ++ e)
          | None =>
              let! collected := connect_reply (h_connect_reads hop) [] in
              let line := default [] (first_line (from_utf8_lossy collected)) in
              if contains line (bs "200") then Ok tt else Err (bs "proxy CONNECT refused: " ++ line)
          end
      end
  end.

Definition read_limit (binary : bool) : Z := if binary then 128 * 1024 * 1024 else 512 * 1024.

Fixpoint read_all (limit : Z) (reads : list (Timed bytes)) (buf : bytes) : result bytes bytes :=
  match reads with
  | [] | Done [] :: _ => Ok buf
  | Elapsed :: _ => Err (bs "read timeout")
  | Failed e :: _ => Err (bs "read: " ++ e)
  | Done b :: reads' =>
      let buf := buf ++ b in
      if limit <? len buf then Err (bs "response too large") else read_all limit reads' buf
  end.

(** The request line and headers. *)
Definition get_request (host path : bytes) (binary : bool) : bytes :=
  bs "GET " ++ path ++ bs " HTTP/1.1" ++ crlf ++ bs "Host: " ++ host ++ crlf ++
  bs "User-Agent: mhrv-rs/" ++ CURRENT_VERSION ++ bs " (update-check)" ++ crlf ++
  bs "Accept: " ++ (if binary then bs "*/*" else bs "application/vnd.github+json") ++ crlf ++
  bs "Connection: close" ++ crlf ++ crlf.

(** The part of [https_raw_get] up to the bytes of the response. *)
Definition exchange (route : Route) (hop : Hop) (binary : bool) : result bytes bytes :=
  let! _ := match route, h_ca hop with Proxy _ _, Some e => Err (bs "read ca.crt: " ++ e) | _, _ => Ok tt end in
  let! _ := tcp_stream route hop in
  let! _ := match h_name hop with Some e => Err (bs "bad host: " ++ e) | None => Ok tt end in
  let! _ := match h_tls hop with
            | Done _ => Ok tt
            | Failed e => Err (bs "tls: " ++ e)
            | Elapsed => Err (bs "tls handshake timeout")
            end in
  let! _ := match h_write hop with Some e => Err (bs "write: " ++ e) | None => Ok tt end in
  read_all (read_limit binary) (h_reads hop) [].

(** What a response says: a body, an error, or where to go next. *)
Inductive Response := Body (b : bytes) | Failure (e : bytes) | Redirect (host path : bytes).

Definition location_line (l : bytes) : option bytes :=
  if starts_with (bs "location:") (to_ascii_lowercase l) then
    match find_byte (is_byte x3a) l with Some i => Some (trim (drop (i + 1) l)) | None => None end
  else None.

Definition parse_response (buf host : bytes) : Response :=
  match find_sub header_sep buf with
  | None => Failure (bs "no HTTP header terminator")
  | Some hdr_end =>
      match from_utf8 (take hdr_end buf) with
      | None => Failure (bs "non-utf8 header")
      | Some hdr =>
          let body := drop (hdr_end + 4) buf in
          let first := default [] (head (str_lines hdr)) in
          match (let? w := second_item first in parse_u16 w) with
          | None => Failure (bs "bad status line: " ++ first)
          | Some status =>
              if status =? 200 then Body body
              else if (status =? 301) || (status =? 302) || (status =? 307) || (status =? 308) then
                match first_some location_line (str_lines hdr) with
                | None => Failure (bs "redirect without Location")
                | Some loc => let '(new_host, new_path) := parse_url loc host in Redirect new_host new_path
                end
              else Failure (bs "HTTP " ++ fmt_uint status ++ bs ": " ++ take_chars 240 (from_utf8_lossy body))
          end
      end
  end.

(** [https_raw_get] and [parse_response] call each other for as long as the
    server redirects; [None] is a chain longer than the fuel.  The network of
    request [k] may depend on where it goes. *)
Fixpoint https_raw_get (fuel k : nat) (net : nat → bytes → bytes → Hop) (route : Route) (host path : bytes)
    (binary : bool) : option (result bytes bytes) :=
  match fuel with
  | O => None
  | S f =>
      match exchange route (net k host (get_request host path binary)) binary with
      | Err e => Some (Err e)
      | Ok buf =>
          match parse_response buf host with
          | Body b => Some (Ok b)
          | Failure e => Some (Err e)
          | Redirect new_host new_path => https_raw_get f (S k) net route new_host new_path binary
          end
      end
  end.

(** ** The operations *)

Section operations.
(** serde_json, and the platform the program was built for. *)
Context `{!RelayFormats} (os arch : bytes).

Definition releases_path : bytes := bs "/repos/" ++ REPO_OWNER ++ bs "/" ++ REPO_NAME ++ bs "/releases/latest".

Definition fetch_api_body (fuel : nat) (net : nat → bytes → bytes → Hop) (route : Route) : option (result bytes bytes) :=
  let? r := https_raw_get fuel 0 net route GITHUB_API_HOST releases_path false in
  Some (let! b := r in match from_utf8 b with Some s => Ok s | None => Err (bs "non-utf8 API body") end).

Definition probe_github (probe : Timed unit) : option bytes :=
  match probe with Done _ => None | Failed e => Some e | Elapsed => Some (bs "connect timeout") end.

Definition release_url (tag : bytes) : bytes :=
  bs "https://github.com/" ++ REPO_OWNER ++ bs "/" ++ REPO_NAME ++ bs "/releases/tag/" ++ tag.

(** [check] from the API's answer on. *)
Definition check_body (body : bytes) : UpdateCheck :=
  match value_of_json body with
  | Err e => Error (bs "bad API JSON: " ++ e)
  | Ok v =>
      match (let? t := value_get v (bs "tag_name") in as_str t) with
      | None => Error (bs "API response missing tag_name")
      | Some latest_tag =>
          let latest := trim_start_matches x76 latest_tag in
          if negb (is_newer latest CURRENT_VERSION) then UpToDate CURRENT_VERSION latest
          else
            let asset := let? a := value_get v (bs "assets") in
                         let? arr := as_array a in pick_asset_for_platform os arch arr in
            UpdateAvailable CURRENT_VERSION latest (release_url latest_tag) asset
      end
  end.

Definition check (fuel : nat) (probe : Timed unit) (net : nat → bytes → bytes → Hop) (route : Route)
    : option UpdateCheck :=
  match (match route with Direct => probe_github probe | Proxy _ _ => None end) with
  | Some e => Some (Offline e)
  | None =>
      let? r := fetch_api_body fuel net route in
      Some (match r with Err e => Error e | Ok body => check_body body end)
  end.

(** The bytes written to [out_path] and their number. *)
Definition download_asset (fuel : nat) (net : nat → bytes → bytes → Hop) (route : Route) (asset_url out_path : bytes)
    (write_error : option bytes) : option (result (bytes * Z) bytes) :=
  match split_url asset_url with
  | None => Some (Err (bs "bad asset URL: " ++ asset_url))
  | Some (host, path) =>
      let? r := https_raw_get fuel 0 net route host path true in
      Some (let! body := r in
            match write_error with
            | Some e => Err (bs "write " ++ out_path ++ bs ": " ++ e)
            | None => Ok (body, len body)
            end)
  end.
End operations.

(** ** The order on versions *)

Definition no_sep (l : bytes) : Prop := (x2e ∉ l) ∧ (x2d ∉ l).

Lemma version_parts_none l : no_sep l → version_parts l = [l].
Proof.
  intros [H1 H2]. induction l as [|c l IH]; [done|]. cbn [version_parts].
  apply not_elem_of_cons in H1 as [H1 H1'], H2 as [H2 H2']. unfold is_byte.
  rewrite !bool_decide_false by done. simpl. by rewrite IH.
Qed.

Lemma version_parts_sep l c s : no_sep l → c = x2e ∨ c = x2d → version_parts (l ++ c :: s) = l :: version_parts s.
Proof.
  intros [H1 H2] Hc. induction l as [|d l IH]; cbn [version_parts app].
  - by destruct Hc as [-> | ->].
  - apply not_elem_of_cons in H1 as [H1 H1'], H2 as [H2 H2']. unfold is_byte.
    rewrite !bool_decide_false by done. simpl. by rewrite IH.
Qed.

Lemma digits_no_sep n : 0 ≤ n → no_sep (fmt_uint n).
Proof. intros Hn. split; by apply digits_no. Qed.

(** [1.9.37] for the numbers 1, 9, 37. *)
Definition version_text (v : list Z) : bytes := join (bs ".") (map fmt_uint v).

Definition is_version (v : list Z) : Prop := v ≠ [] ∧ Forall is_u64 v.

Lemma version_parts_text v : is_version v → version_parts (version_text v) = map fmt_uint v.
Proof.
  intros [Hne Hv]. unfold version_text. induction Hv as [|n v [Hn _] Hv IH]; [done|].
  destruct v as [|m v]; [by apply version_parts_none, digits_no_sep|].
  change (join _ _) with (fmt_uint n ++ x2e :: join (bs ".") (map fmt_uint (m :: v))).
  rewrite version_parts_sep; [|by apply digits_no_sep|by left]. by rewrite IH.
Qed.

Lemma version_parts_suffix v s : is_version v → no_sep s →
  version_parts (version_text v ++ x2d :: s) = map fmt_uint v ++ [s].
Proof.
  intros [Hne Hv] Hs. unfold version_text. induction Hv as [|n v [Hn _] Hv IH]; [done|].
  destruct v as [|m v].
  - cbn [map join app]. rewrite version_parts_sep; [|by apply digits_no_sep|by right]. by rewrite version_parts_none.
  - change (join _ _) with (fmt_uint n ++ x2e :: join (bs ".") (map fmt_uint (m :: v))). rewrite <-app_assoc. cbn [app].
    rewrite version_parts_sep; [|by apply digits_no_sep|by left]. by rewrite IH.
Qed.

Definition num (v : list Z) (i : nat) : Z := default 0 (v !! i).

Lemma parse_part v i : Forall is_u64 v → parse_u64 (default (bs "0") (map fmt_uint v !! i)) = Some (num v i).
Proof.
  intros Hv. unfold num. rewrite list_lookup_fmap. destruct (v !! i) as [n|] eqn:E; [|done]. simpl.
  apply parse_fmt_uint. eapply Forall_lookup_1 in Hv; [|done]. unfold is_u64, u64_max in *. lia.
Qed.

Lemma newer_part_num v w i : Forall is_u64 v → Forall is_u64 w →
  newer_part (default (bs "0") (map fmt_uint v !! i)) (default (bs "0") (map fmt_uint w !! i)) =
  if num v i =? num w i then None else Some (num w i <? num v i).
Proof. intros Hv Hw. unfold newer_part. by rewrite !parse_part. Qed.

Lemma newer_loop_num v w n i : Forall is_u64 v → Forall is_u64 w →
  newer_loop n i (map fmt_uint v) (map fmt_uint w) = true ↔
  ∃ k, (i ≤ k < i + n)%nat ∧ (∀ j, (i ≤ j < k)%nat → num v j = num w j) ∧ num w k < num v k.
Proof.
  intros Hv Hw. revert i. induction n as [|n IH]; intros i; cbn [newer_loop].
  { split; [done|]. intros (k & Hk & _). lia. }
  rewrite newer_part_num by done. destruct (Z.eqb_spec (num v i) (num w i)) as [E|E].
  - rewrite IH. split; intros (k & Hk & Hj & Hlt); exists k.
    + split; [lia|]. split; [|done]. intros j Hj'. destruct (decide (j = i)) as [->|]; [done|]. apply Hj. lia.
    + destruct (decide (k = i)) as [->|]; [lia|]. split; [lia|]. split; [|done]. intros j Hj'. apply Hj. lia.
  - rewrite Z.ltb_lt. split.
    + intros Hlt. exists i. split; [lia|]. split; [intros j Hj; lia|done].
    + intros (k & Hk & Hj & Hlt). destruct (decide (k = i)) as [->|]; [done|]. exfalso. apply E, Hj. lia.
Qed.

Lemma num_beyond v k : (length v ≤ k)%nat → num v k = 0.
Proof. intros Hk. unfold num. by rewrite lookup_ge_None_2. Qed.

(** [is_newer] on numeric versions is the lexicographic order of their
    numbers: [a] is newer than [b] exactly when at the first position where
    they differ (missing numbers count as 0) the number of [a] is larger. *)
Theorem is_newer_lexicographic a b : is_version a → is_version b →
  is_newer (version_text a) (version_text b) = true ↔
  ∃ k, (∀ j, (j < k)%nat → num a j = num b j) ∧ num b k < num a k.
Proof.
  intros Ha Hb. unfold is_newer. rewrite !version_parts_text, !length_map by done.
  destruct Ha as [_ Ha], Hb as [_ Hb]. rewrite newer_loop_num by done. split; intros (k & H).
  - exists k. destruct H as (Hk & Hj & Hlt). split; [|done]. intros j Hj'. apply Hj. lia.
  - exists k. destruct H as (Hj & Hlt). split; [|split; [|done]]; [|intros j Hj'; apply Hj; lia].
    destruct (decide (k < Nat.max (length a) (length b))%nat); [lia|]. rewrite !num_beyond in Hlt by lia. lia.
Qed.

Lemma is_newer_lexicographic_witness :
  is_version [0; 9] ∧ is_newer (version_text [0; 9]) (version_text [0; 8; 99]) = true.
Proof.
  assert (H1 : is_version [0; 9]) by (split; [done|]; by repeat constructor).
  assert (H2 : is_version [0; 8; 99]) by (split; [done|]; by repeat constructor).
  split; [done|]. apply (is_newer_lexicographic [0; 9] [0; 8; 99] H1 H2).
  exists 1%nat. split; [|done]. intros j Hj. assert (j = 0%nat) as -> by lia. done.
Defined.

Lemma newer_part_refl p : newer_part p p = None.
Proof. unfold newer_part. destruct (parse_u64 p); [by rewrite Z.eqb_refl|by rewrite bool_decide_true]. Qed.

Lemma newer_loop_skip n m i a b : (∀ j, (i ≤ j < i + n)%nat → a !! j = b !! j) →
  newer_loop (n + m) i a b = newer_loop m (i + n) a b.
Proof.
  revert i. induction n as [|n IH]; intros i H; [by rewrite Nat.add_0_r|]. cbn [Nat.add newer_loop].
  rewrite (H i), newer_part_refl by lia. rewrite IH; [f_equal; lia|]. intros j Hj. apply H. lia.
Qed.

(** No version is newer than itself, and of two at most one is newer. *)
Lemma bytes_compare_opp a b : bytes_compare b a = CompOpp (bytes_compare a b).
Proof.
  revert b. induction a as [|x a IH]; intros [|y b]; try done. cbn [bytes_compare].
  rewrite (Z.compare_antisym (byte_val x)). destruct (byte_val x ?= byte_val y); simpl; [apply IH|done..].
Qed.

Lemma newer_part_opp a b : newer_part b a = negb <$> newer_part a b.
Proof.
  unfold newer_part. destruct (parse_u64 a) as [n|], (parse_u64 b) as [m|].
  1: { rewrite (Z.eqb_sym m). destruct (Z.eqb_spec n m); [done|]. simpl. f_equal.
       destruct (Z.ltb_spec n m), (Z.ltb_spec m n); simpl; lia || done. }
  all: rewrite (bool_decide_ext (b = a) (a = b)) by done; case_bool_decide as E; [done|]; simpl; f_equal;
    unfold bytes_le; rewrite (bytes_compare_opp a b); destruct (bytes_compare a b) eqn:C; try done;
    by apply bytes_compare_eq in C.
Qed.

Lemma is_newer_asym a b : is_newer a b = true → is_newer b a = false.
Proof.
  unfold is_newer. rewrite (Nat.max_comm (length (version_parts b))). generalize 0%nat.
  induction (Nat.max _ _) as [|n IH]; intros i; cbn [newer_loop]; [done|].
  rewrite (newer_part_opp (default (bs "0") (version_parts a !! i))).
  destruct (newer_part _ _) as [r|]; [by intros -> | apply IH].
Qed.

(** A pre-release is judged newer than the release it precedes, so a client
    that runs one is never offered the release. *)
Lemma prerelease_judged_newer v s : is_version v → no_sep s → parse_u64 s = None → bytes_le s (bs "0") = false →
  is_newer (version_text v ++ x2d :: s) (version_text v) = true ∧
  is_newer (version_text v) (version_text v ++ x2d :: s) = false.
Proof.
  intros Hv Hs Hp Hle.
  enough (H : is_newer (version_text v ++ x2d :: s) (version_text v) = true) by (split; [done|by apply is_newer_asym]).
  unfold is_newer. rewrite version_parts_suffix, version_parts_text by done.
  rewrite length_app, length_map. cbn [length].
  replace (Nat.max (length v + 1) (length v)) with (length v + 1)%nat by lia.
  rewrite newer_loop_skip. 2: { intros j Hj. rewrite lookup_app_l; [done|]. rewrite length_map. lia. }
  cbn [newer_loop Nat.add]. rewrite lookup_app_r, length_map, Nat.sub_diag by (by rewrite length_map).
  rewrite (lookup_ge_None_2 (map _ _)) by (by rewrite length_map). cbn [default lookup list_lookup from_option].
  unfold newer_part, id. rewrite Hp. rewrite Hle. rewrite bool_decide_false; [done|]. by intros ->.
Qed.

Example prerelease_example :
  is_newer (bs "1.9.38-rc1") (bs "1.9.38") = true ∧ is_newer (bs "1.9.38") (bs "1.9.38-rc1") = false.
Proof. split; by vm_compute. Qed.

(** Numbers and other parts mixed: the relation has cycles. *)
Example is_newer_cycle :
  is_newer (bs "9") (bs "10a") = true ∧ is_newer (bs "10a") (bs "10") = true ∧ is_newer (bs "10") (bs "9") = true.
Proof. split_and!; by vm_compute. Qed.

(** ** Assets *)

Lemma first_some_spec {A B} (f : A → option B) l y :
  first_some f l = Some y ↔ ∃ l1 x l2, l = l1 ++ x :: l2 ∧ f x = Some y ∧ Forall (λ z, f z = None) l1.
Proof.
  split.
  - induction l as [|x l IH]; [done|]. cbn [first_some]. destruct (f x) as [z|] eqn:E.
    + intros [=]; subst. exists [], x, l. done.
    + intros (l1 & x' & l2 & -> & Hx & Hl1)%IH. exists (x :: l1), x', l2. split; [done|]. split; [done|]. by constructor.
  - intros (l1 & x & l2 & -> & Hx & Hl1). induction Hl1 as [|z l1 Hz Hl1 IH]; cbn [first_some app]; [by rewrite Hx|].
    by rewrite Hz.
Qed.

(** The chosen asset belongs to the platform: its name carries every needle
    of one of the platform's preferences, no earlier preference matches any
    asset, and it has a URL. *)
Lemma picked_asset_matches os arch assets a : pick_asset_for_platform os arch assets = Some a →
  ∃ before needles after, asset_prefs os arch = before ++ needles :: after ∧
    Forall (λ n, contains (to_ascii_lowercase (a_name a)) (to_ascii_lowercase n) = true) needles ∧
    download_url a ≠ [] ∧ Forall (λ p, first_some (matching_asset p) assets = None) before.
Proof.
  intros (before & needles & after & Hp & Hn & Hb)%first_some_spec. exists before, needles, after.
  split; [done|]. apply first_some_spec in Hn as (l1 & v & l2 & -> & Hv & _).
  unfold matching_asset in Hv. destruct (forallb _ needles) eqn:E; [|done].
  destruct (str_member v (bs "browser_download_url")) as [|c url] eqn:U; [done|]. injection Hv as <-. cbn.
  split; [|split; done]. apply Forall_forall. intros n Hin%list_elem_of_In. by apply (proj1 (forallb_forall _ _) E).
Qed.

(** ** Redirects *)

(** Request [k] to [host] and [path] is answered by a redirect. *)
Definition redirects (net : nat → bytes → bytes → Hop) (route : Route) (binary : bool) (k : nat) (host path : bytes)
    (next : bytes * bytes) : Prop :=
  ∃ buf, exchange route (net k host (get_request host path binary)) binary = Ok buf ∧
    parse_response buf host = Redirect next.1 next.2.

(** A chain of redirects is followed to its end, however long. *)
Inductive leads (net : nat → bytes → bytes → Hop) (route : Route) (binary : bool)
  : nat → bytes → bytes → nat → result bytes bytes → Prop :=
  | leads_error k host path e :
      exchange route (net k host (get_request host path binary)) binary = Err e →
      leads net route binary k host path 1 (Err e)
  | leads_body k host path buf b :
      exchange route (net k host (get_request host path binary)) binary = Ok buf →
      parse_response buf host = Body b → leads net route binary k host path 1 (Ok b)
  | leads_failure k host path buf e :
      exchange route (net k host (get_request host path binary)) binary = Ok buf →
      parse_response buf host = Failure e → leads net route binary k host path 1 (Err e)
  | leads_redirect k host path next n r :
      redirects net route binary k host path next →
      leads net route binary (S k) next.1 next.2 n r →
      leads net route binary k host path (S n) r.

Lemma redirects_followed net route binary k host path n r fuel :
  leads net route binary k host path n r → (n ≤ fuel)%nat →
  https_raw_get fuel k net route host path binary = Some r.
Proof.
  intros H. revert fuel.
  induction H as [k host path e E|k host path buf b E P|k host path buf e E P|k host path next n r (buf & E & P) H IH];
    intros [|fuel] Hf; try lia; cbn [https_raw_get]; rewrite E; try rewrite P; try done.
  apply IH. lia.
Qed.

(** Redirects have no limit.  The documentation speaks of a single
    redirect; the code follows every one, and when every answer of a server
    is a redirect (one page that redirects to itself is enough) the request
    never ends: no number of steps gives a result. *)
Theorem redirect_loop_never_ends net route binary (inv : bytes → bytes → Prop) :
  (∀ k host path, inv host path → ∃ next, redirects net route binary k host path next ∧ inv next.1 next.2) →
  ∀ fuel k host path, inv host path → https_raw_get fuel k net route host path binary = None.
Proof.
  intros Hr fuel. induction fuel as [|f IH]; intros k host path Hi; [done|]. cbn [https_raw_get].
  destruct (Hr k host path Hi) as ([h p] & (buf & E & P) & Hi'). rewrite E, P. by apply IH.
Qed.

(** A server whose every page says [302] to itself. *)
Definition loop_hop : Hop :=
  mk_hop None (Done tt) None [] None (Done tt) None
    [Done (bs "HTTP/1.1 302 Found" ++ crlf ++ bs "Location: /asset" ++ header_sep)].

Lemma redirect_loop_never_ends_witness :
  ∀ fuel, https_raw_get fuel 0 (λ _ _ _, loop_hop) Direct (bs "h") (bs "/asset") true = None.
Proof.
  intros fuel. apply (redirect_loop_never_ends _ _ _ (λ host path, host = bs "h" ∧ path = bs "/asset")); [|done].
  intros k host path [-> ->]. exists (bs "h", bs "/asset"). split; [|done].
  exists (bs "HTTP/1.1 302 Found" ++ crlf ++ bs "Location: /asset" ++ header_sep). split; by vm_compute.
Defined.

(** The size of a response is limited. *)
Lemma read_all_bounded limit reads buf out : len buf ≤ limit → read_all limit reads buf = Ok out → len out ≤ limit.
Proof.
  revert buf. induction reads as [|r reads IH]; intros buf Hb; cbn [read_all]; [by intros [=]; subst|].
  destruct r as [[|c b]|e|]; [by intros [=]; subst| |done..]. case_if; [done|]. apply IH. lia.
Qed.

(** A transfer-encoded answer of the API reaches the JSON parser with its
    chunk framing: [parse_response] does not decode it. *)
Example chunked_body_kept :
  parse_response (bs "HTTP/1.1 200 OK" ++ crlf ++ bs "Transfer-Encoding: chunked" ++ header_sep ++
                  bs "2" ++ crlf ++ bs "{}" ++ crlf ++ bs "0" ++ header_sep) GITHUB_API_HOST =
  Body (bs "2" ++ crlf ++ bs "{}" ++ crlf ++ bs "0" ++ header_sep).
Proof. by vm_compute. Qed.
