(* ===== verification/UserJs.v ===== *)
(** The marker block in Firefox' user.js: the text helpers of
    src/src/cert_installer.rs that add and strip it.

    Installing the CA appends two lines, a marker and a preference; removing
    it strips them again.  A preference without the marker belongs to the
    user and is left alone. *)
From Stdlib Require Import Strings.Byte.
From S2P Require Import Prelude RustBytes RelayJson ProxyHeads RustText.

Definition FX_MARKER : bytes := bs "// mhrv-rs: auto-added, safe to strip with --remove-cert".
Definition PREF_NAME : bytes := bs "security.enterprise_roots.enabled".
Definition FX_PREF : bytes := bs "user_pref(" ++ [x22] ++ PREF_NAME ++ [x22] ++ bs ", true);".

Inductive EnterpriseRootsEdit := AddedBlock (s : bytes) | AlreadyOurs | UserOwned.

Definition is_marker (l : bytes) : bool := bool_decide (trim l = FX_MARKER).
Definition is_our_pref (l : bytes) : bool := bool_decide (trim l = FX_PREF).

(** A marker line directly above a preference line. *)
Fixpoint block_from (prev : option bytes) (lines : list bytes) : bool :=
  match lines with
  | [] => false
  | line :: rest =>
      if match prev with Some p => is_marker p | None => false end && is_our_pref line then true
      else block_from (Some line) rest
  end.

Definition contains_our_block (existing : bytes) : bool := block_from None (str_lines existing).

(** [existing] with a newline at its end, unless it is empty. *)
Definition with_newline (existing : bytes) : bytes :=
  if negb (bool_decide (existing = [])) && negb (ends_with [x0a] existing) then existing ++ [x0a] else existing.

Definition add_enterprise_roots_block (existing : bytes) : EnterpriseRootsEdit :=
  if contains_our_block existing then AlreadyOurs
  else if contains existing PREF_NAME then UserOwned
  else AddedBlock (with_newline existing ++ FX_MARKER ++ [x0a] ++ FX_PREF ++ [x0a]).

(** The loop of [strip_enterprise_roots_block]; it advances by one line or
    two, so the number of lines is enough fuel. *)
Fixpoint strip_lines (fuel : nat) (lines : list bytes) : list bytes :=
  match fuel, lines with
  | S f, l :: rest =>
      if is_marker l && match rest with l' :: _ => is_our_pref l' | [] => false end
      then strip_lines f (tail rest)
      else l :: strip_lines f rest
  | _, _ => []
  end.

Definition strip_enterprise_roots_block (existing : bytes) : option bytes :=
  if negb (contains_our_block existing) then None
  else
    let lines := str_lines existing in
    let joined := join [x0a] (strip_lines (length lines) lines) in
    Some (if ends_with [x0a] existing && negb (bool_decide (joined = [])) then joined ++ [x0a] else joined).

Definition has_bare_enterprise_roots (existing : bytes) : bool :=
  if contains_our_block existing then false else existsb is_our_pref (str_lines existing).

(** ** Substrings and lines *)

Lemma find_sub_complete p a b : is_Some (find_sub p (a ++ p ++ b)).
Proof.
  induction a as [|x a IH].
  - destruct (p ++ b) eqn:E; simpl.
    + apply app_eq_nil in E as [-> ->]. by eexists.
    + rewrite <-E, starts_with_app. by eexists.
  - simpl. destruct (starts_with p (x :: a ++ p ++ b)); [by eexists|]. destruct IH as [i ->]. by eexists.
Qed.

Lemma contains_mid a p b : contains (a ++ p ++ b) p = true.
Proof. unfold contains. destruct (find_sub_complete p a b) as [i ->]. done. Qed.

Lemma split_on_app c y z : split_on c (y ++ c :: z) = split_on c y ++ split_on c z.
Proof.
  induction y as [|x y IH]; cbn [app split_on].
  - unfold is_byte. by rewrite bool_decide_true.
  - rewrite IH. destruct (is_byte c x); [done|]. destruct (split_on c y) eqn:E; [|done].
    exfalso. destruct y as [|x' y]; [done|]. simpl in E. destruct (is_byte c x'); [done|]. by destruct (split_on c y).
Qed.

Lemma split_on_ne c s : split_on c s ≠ [].
Proof. destruct s as [|x s]; [done|]. simpl. destruct (is_byte c x); [done|]. by destruct (split_on c s). Qed.

Lemma lines_of_app ps qs : qs ≠ [] → lines_of (ps ++ qs) = map strip_cr ps ++ lines_of qs.
Proof.
  intros Hq. induction ps as [|p ps IH]; [done|]. cbn [app map]. rewrite <-IH.
  destruct (ps ++ qs) eqn:E; [|done]. by apply app_eq_nil in E as [_ ->].
Qed.

(** A text whose last line is complete. *)
Definition complete (x : bytes) : Prop := x = [] ∨ ∃ y, x = y ++ [x0a].

Lemma with_newline_cases x : with_newline x = x ∨ with_newline x = x ++ [x0a] ∧ x ≠ [].
Proof. unfold with_newline. case_bool_decide; [by left|]. destruct (ends_with [x0a] x); simpl; eauto. Qed.

Lemma with_newline_complete x : complete (with_newline x).
Proof.
  unfold with_newline. case_bool_decide; [by left|]. cbn [negb andb].
  destruct (ends_with [x0a] x) eqn:E; cbn [negb]; [|right; eauto]. right.
  apply starts_with_iff in E as [t E]. exists (rev t). by rewrite <-(rev_involutive x), E.
Qed.

Lemma complete_lines y : str_lines (y ++ [x0a]) = map strip_cr (split_on x0a y).
Proof. unfold str_lines. rewrite split_on_app, lines_of_app by done. cbn. by rewrite app_nil_r. Qed.

Lemma str_lines_complete x z : complete x → str_lines (x ++ z) = str_lines x ++ str_lines z.
Proof.
  intros [->|[y ->]]; [done|]. rewrite complete_lines. unfold str_lines. rewrite <-app_assoc. cbn [app].
  by rewrite split_on_app, lines_of_app by apply split_on_ne.
Qed.

(** A line is part of its text. *)
Lemma strip_cr_mid l : ∃ b, l = strip_cr l ++ b.
Proof.
  unfold strip_cr, strip_suffix. destruct (ends_with [x0d] l); simpl; [|exists []; by rewrite app_nil_r].
  exists (drop (length l - 1) l). by rewrite take_drop.
Qed.

Lemma split_on_mid c s l : l ∈ split_on c s → ∃ a b, s = a ++ l ++ b.
Proof.
  revert l. induction s as [|x s IH]; intros l; cbn [split_on].
  { intros ->%list_elem_of_singleton. by exists [], []. }
  destruct (is_byte c x) eqn:Hx.
  - intros [->|Hl]%elem_of_cons; [by exists [], (x :: s)|].
    destruct (IH _ Hl) as (a & b & ->). by exists (x :: a), b.
  - pose proof (split_on_ne c s) as Hne. destruct (split_on c s) as [|k ks] eqn:E; [done|].
    intros [->|Hl]%elem_of_cons.
    + assert (Hp : ∃ b, s = k ++ b); [|destruct Hp as [b ->]; by exists [], b].
      clear -E. revert k ks E. induction s as [|y s IH]; intros k ks; cbn [split_on]; [intros [=]; subst; by exists []|].
      destruct (is_byte c y); [intros [=]; subst; by eexists|]. destruct (split_on c s) as [|k' ks'] eqn:E; [by intros [=]; subst; exists s|].
      intros [=]; subst. destruct (IH _ _ eq_refl) as [b ->]. by exists b.
    + destruct (IH l) as (a & b & ->); [by right|]. by exists (x :: a), b.
Qed.

Lemma lines_of_elem ps l : l ∈ lines_of ps → ∃ p, p ∈ ps ∧ (l = p ∨ l = strip_cr p).
Proof.
  induction ps as [|p ps IH]; [by intros ?%elem_of_nil|]. destruct ps as [|q ps].
  - simpl. destruct p; [by intros ?%elem_of_nil|]. intros ->%list_elem_of_singleton. eexists. split; [by left|by left].
  - rewrite lines_of_cons. intros [->|Hl]%elem_of_cons.
    + exists p. split; [by left|by right].
    + destruct (IH Hl) as (p' & Hp & H). exists p'. split; [by right|done].
Qed.

Lemma str_lines_mid s l : l ∈ str_lines s → ∃ a b, s = a ++ l ++ b.
Proof.
  intros (p & Hp & Hl)%lines_of_elem. apply split_on_mid in Hp as (a & b & ->).
  destruct Hl as [->| ->]; [eauto|]. destruct (strip_cr_mid p) as [c Hc]. exists a, (c ++ b).
  rewrite Hc at 1. by rewrite <-app_assoc.
Qed.

(** A text that does not name the preference has no line of ours. *)
Lemma contains_pref_snoc a b x z : x ++ [z] = a ++ FX_PREF ++ b → contains x PREF_NAME = true.
Proof.
  intros E. unfold FX_PREF in E. rewrite <-!app_assoc in E.
  destruct (exists_last (l := [x22] ++ bs ", true);" ++ b)) as (w & y & Hw); [done|].
  rewrite Hw, !app_assoc in E. apply app_inj_tail in E as [-> _]. rewrite <-(app_assoc _ PREF_NAME).
  apply contains_mid.
Qed.

Lemma contains_pref_mid a b : contains (a ++ FX_PREF ++ b) PREF_NAME = true.
Proof.
  replace (a ++ FX_PREF ++ b) with ((a ++ bs "user_pref(" ++ [x22]) ++ PREF_NAME ++ [x22] ++ bs ", true);" ++ b)
    by (unfold FX_PREF; by rewrite <-!app_assoc).
  apply contains_mid.
Qed.

Lemma no_pref_lines x : contains x PREF_NAME = false → Forall (λ l, is_our_pref l = false) (str_lines (with_newline x)).
Proof.
  intros Hc. apply Forall_forall. intros l Hl. destruct (is_our_pref l) eqn:E; [|done].
  apply bool_decide_eq_true in E. apply str_lines_mid in Hl as (a & b & Hx).
  destruct (trim_mid l) as (c & d & Hl). rewrite E in Hl. rewrite Hl, <-!app_assoc, app_assoc in Hx.
  exfalso. revert Hc. destruct (with_newline_cases x) as [Hw|[Hw _]]; rewrite Hw in Hx.
  - by rewrite Hx, contains_pref_mid.
  - by rewrite (contains_pref_snoc _ _ _ _ Hx).
Qed.

(** ** Adding and stripping *)

Definition unix_text (lines : list bytes) : bytes := concat (map (λ l, l ++ [x0a]) lines).

(** What is left of a text after the block was added and stripped: its
    lines, with LF line ends; a text that is one empty line becomes empty. *)
Definition restored (x : bytes) : bytes :=
  let lines := str_lines (with_newline x) in if bool_decide (lines = [[]]) then [] else unix_text lines.

Lemma block_from_end prev L m p : is_marker m = true → is_our_pref p = true → block_from prev (L ++ [m; p]) = true.
Proof.
  intros Hm Hp. revert prev. induction L as [|l L IH]; intros prev; cbn [app block_from]; [|by case_if].
  rewrite Hm, Hp. by case_if.
Qed.

Lemma strip_lines_end L m p : Forall (λ l, is_our_pref l = false) L →
  is_marker m = true → is_our_pref m = false → is_our_pref p = true →
  strip_lines (length (L ++ [m; p])) (L ++ [m; p]) = L.
Proof.
  intros HL Hm Hm' Hp. induction HL as [|l L Hl HL IH]; cbn [app length strip_lines].
  - by rewrite Hm, Hp.
  - assert (match L ++ [m; p] with l' :: _ => is_our_pref l' | [] => false end = false) as ->.
    { destruct HL; [done|]. done. }
    rewrite andb_false_r. by rewrite IH.
Qed.

Lemma join_unix L : L ≠ [] → join [x0a] L ++ [x0a] = unix_text L.
Proof.
  unfold unix_text. induction L as [|l L IH]; [done|]. intros _. destruct L as [|k L].
  - simpl. by rewrite app_nil_r.
  - change (join [x0a] (l :: k :: L)) with (l ++ [x0a] ++ join [x0a] (k :: L)).
    rewrite <-!app_assoc, IH by done. cbn [map concat]. by rewrite <-!app_assoc.
Qed.

Lemma join_nil L : join [x0a] L = [] → L = [] ∨ L = [[]].
Proof.
  destruct L as [|l [|k L]]; [by left| |].
  - simpl. intros ->. by right.
  - change (join [x0a] (l :: k :: L)) with (l ++ [x0a] ++ join [x0a] (k :: L)). by intros [_ ?]%app_eq_nil.
Qed.

Lemma ends_with_lf x : ends_with [x0a] (x ++ [x0a]) = true.
Proof. unfold ends_with. rewrite rev_app_distr. done. Qed.

(** A text with LF line ends is its lines. *)
Lemma unix_lines x : complete x → x0d ∉ x → unix_text (str_lines x) = x.
Proof.
  intros [->|[y ->]] Hcr; [done|]. rewrite complete_lines. apply not_elem_of_app in Hcr as [Hcr _].
  unfold unix_text. induction y as [|c y IH]; [done|]. apply not_elem_of_cons in Hcr as [Hc Hcr]. specialize (IH Hcr).
  cbn [split_on]. unfold is_byte. case_bool_decide; subst.
  - cbn [map concat app]. by rewrite IH.
  - destruct (split_on x0a y) as [|k ks] eqn:E; [by apply split_on_ne in E|]. cbn [map concat] in IH |- *.
    assert (Hk : x0d ∉ k).
    { intros Hk. destruct (split_on_mid x0a y k) as (a & b & ->); [rewrite E; by left|]. set_solver. }
    rewrite strip_cr_id in IH by done. rewrite strip_cr_id by set_solver. cbn [app]. by rewrite IH.
Qed.

Lemma block_added x y : add_enterprise_roots_block x = AddedBlock y →
  contains_our_block y = true ∧ strip_enterprise_roots_block y = Some (restored x).
Proof.
  unfold add_enterprise_roots_block at 1. destruct (contains_our_block x); [done|].
  destruct (contains x PREF_NAME) eqn:Hp; [done|]. intros E.
  assert (Ey : y = with_newline x ++ FX_MARKER ++ [x0a] ++ FX_PREF ++ [x0a]) by (by injection E as <-). clear E.
  pose proof (with_newline_complete x) as Hw. pose proof (no_pref_lines x Hp) as HL.
  assert (Hy : str_lines y = str_lines (with_newline x) ++ [FX_MARKER; FX_PREF]).
  { rewrite Ey. by rewrite str_lines_complete. }
  assert (Hb : contains_our_block y = true).
  { unfold contains_our_block. rewrite Hy. by apply block_from_end. }
  split; [done|].
  unfold strip_enterprise_roots_block. rewrite Hb, Hy, strip_lines_end by (done || by vm_compute).
  assert (ends_with [x0a] y = true) as -> by (rewrite Ey, !app_assoc; apply ends_with_lf).
  unfold restored. simpl negb. f_equal. set (L := str_lines (with_newline x)). case_bool_decide as E; cbn [negb andb].
  - destruct (join_nil L E) as [-> | ->]; done.
  - rewrite bool_decide_false by (intros HL'; by rewrite HL' in E). apply join_unix. intros HL'. by rewrite HL' in E.
Qed.

Lemma restored_unix x : x0d ∉ x → x ≠ [x0a] → restored x = with_newline x.
Proof.
  intros Hcr Hx. unfold restored. pose proof (with_newline_complete x) as Hw. assert (Hn : x0d ∉ with_newline x).
  { destruct (with_newline_cases x) as [->|[-> _]]; [done|]. rewrite not_elem_of_app. split; [done|].
    by intros ?%list_elem_of_singleton. }
  rewrite bool_decide_false; [by apply unix_lines|]. intros E. pose proof (unix_lines _ Hw Hn) as Hu. rewrite E in Hu.
  destruct (with_newline_cases x) as [Hw'|[Hw' Hne]]; rewrite Hw' in Hu; [done|].
  destruct x as [|c [|d x]]; done.
Qed.

(** C17: Installing and removing the CA restores user.js.  When the block is
    added to a text, adding it again does nothing, and stripping it gives
    back the lines of the text; for a text with LF line ends, other than a
    single empty line, that is the text itself with a newline at its end. *)
Theorem user_js_restored x y : add_enterprise_roots_block x = AddedBlock y →
  add_enterprise_roots_block y = AlreadyOurs ∧ strip_enterprise_roots_block y = Some (restored x) ∧
  (x0d ∉ x → x ≠ [x0a] → restored x = with_newline x).
Proof.
  intros [Hb Hs]%block_added. split_and!; [|done|apply restored_unix].
  unfold add_enterprise_roots_block. by rewrite Hb.
Qed.

Lemma user_js_restored_witness :
  ∃ y, add_enterprise_roots_block (bs "user_pref(1);") = AddedBlock y ∧
    strip_enterprise_roots_block y = Some (bs "user_pref(1);" ++ [x0a]).
Proof.
  exists (bs "user_pref(1);" ++ [x0a] ++ FX_MARKER ++ [x0a] ++ FX_PREF ++ [x0a]). split; [by vm_compute|].
  destruct (user_js_restored (bs "user_pref(1);") (bs "user_pref(1);" ++ [x0a] ++ FX_MARKER ++ [x0a] ++ FX_PREF ++ [x0a]))
    as (_ & -> & _); by vm_compute.
Defined.

(** A text of the user's is never stripped, and one that names the
    preference without the marker is not changed by an install either. *)
Lemma user_owned_untouched x : contains_our_block x = false → contains x PREF_NAME = true →
  add_enterprise_roots_block x = UserOwned ∧ strip_enterprise_roots_block x = None.
Proof.
  intros Hb Hp. unfold add_enterprise_roots_block, strip_enterprise_roots_block. by rewrite Hb, Hp.
Qed.

(** CRLF line ends do not survive. *)
Example crlf_rewritten :
  add_enterprise_roots_block (bs "a" ++ [x0d; x0a]) =
    AddedBlock (bs "a" ++ [x0d; x0a] ++ FX_MARKER ++ [x0a] ++ FX_PREF ++ [x0a]) ∧
  strip_enterprise_roots_block (bs "a" ++ [x0d; x0a] ++ FX_MARKER ++ [x0a] ++ FX_PREF ++ [x0a]) = Some (bs "a" ++ [x0a]).
Proof. split; by vm_compute. Qed.
