(* ===== verification/CertInstall.v ===== *)
(** Installing and removing the CA certificate: src/src/cert_installer.rs.

    Every function that touches the machine is a computation of
    HostSystem: [install_ca] and [remove_ca] with their platform parts
    (macOS keychains, Linux anchor directories, Windows stores), the NSS
    databases and the user.js files of Mozilla browsers.  The decisions
    ([should_reconcile_for], [classify_os_release], [is_nss_not_found]) are
    plain functions. *)
From Stdlib Require Import Strings.Byte.
From S2P Require Import Prelude RustBytes RelayJson RustText HostSystem UserJs.

Definition CERT_NAME : bytes := bs "MasterHttpRelayVPN".
Definition CA_DIR : bytes := bs "ca".

(** [CERT_NAME.replace(' ', "_")]. *)
Definition safe_name : bytes := map (λ b, if is_byte x20 b then x5f else b) CERT_NAME.

Inductive InstallError :=
  | NotFound (path : bytes)
  | InstallFailed
  | Unsupported (os : bytes)
  | InstallIo (path source : bytes)
  | RemovalIncomplete.

Record NssReport := mk_nss { tried : Z; nss_ok : Z; tool_missing_with_stores_present : bool }.

Definition is_clean (r : NssReport) : bool := negb (tool_missing_with_stores_present r) && (tried r =? nss_ok r).

Inductive RemovalOutcome := Clean | NssIncomplete (r : NssReport).

Definition removal_summary (o : RemovalOutcome) : bytes :=
  match o with
  | Clean => bs "CA removed."
  | NssIncomplete r =>
      if tool_missing_with_stores_present r
      then bs "OS CA removed. NSS cleanup skipped " ++ [xe2; x80; x94] ++ bs " NSS certutil not found."
      else bs "OS CA removed. NSS cleanup partial: " ++ fmt_uint (nss_ok r) ++ bs "/" ++ fmt_uint (tried r)
             ++ bs " browser stores updated."
  end.

(** ** Running under sudo *)

Definition should_reconcile_for (euid : Z) (sudo_user : option bytes) : option bytes :=
  if negb (euid =? 0) then None
  else
    let? user := sudo_user in
    if bool_decide (user = []) || bool_decide (user = bs "root") then None else Some user.

Definition sudo_parse_passwd_home (content : bytes) : option bytes :=
  let? line := head (str_lines content) in
  let fields := split_on x3a line in
  if len fields <? 7 then None
  else
    let home := trim (default [] (fields !! 5%nat)) in
    match home with [] => None | _ => Some home end.

Section sudo.
Context `{!Exec}.

Definition resolve_home (env : Env) (sudo_user : bytes) : M (option bytes) :=
  match e_sudo_home env with
  | Some (c :: h) => mret (Some (c :: h))
  | _ =>
      let% out := exec [bs "getent"; bs "passwd"; sudo_user] in
      match (match out with
             | Some o => if o_success o then sudo_parse_passwd_home (from_utf8_lossy (o_stdout o)) else None
             | None => None
             end) with
      | Some h => mret (Some h)
      | None =>
          gets (λ s, let users := bs "/Users/" ++ sudo_user in
                     let home := bs "/home/" ++ sudo_user in
                     if path_exists s users then Some users
                     else if path_exists s home then Some home else None)
      end
  end.

Definition reconcile_sudo_environment (unix : bool) (env : Env) : M Env :=
  if negb unix then mret env
  else match should_reconcile_for (e_euid env) (e_sudo_user env) with
       | None => mret env
       | Some sudo_user =>
           let% home := resolve_home env sudo_user in
           mret match home with Some h => set_home h env | None => env end
       end.
End sudo.

(** ** Linux distributions *)

(** [s.trim_matches(c)]. *)
Definition trim_matches (c : byte) (s : bytes) : bytes :=
  let fix go (s : bytes) : bytes := match s with x :: s' => if is_byte c x then go s' else s | [] => [] end in
  trim_end_matches c (go s).

(** The values of the last [ID] and [ID_LIKE] lines. *)
Definition os_release_line (acc : bytes * bytes) (line : bytes) : bytes * bytes :=
  match split_once x3d line with
  | None => acc
  | Some (k, v) =>
      let v := to_ascii_lowercase (trim_matches x27 (trim_matches x22 (trim v))) in
      if bool_decide (trim k = bs "ID") then (v, acc.2)
      else if bool_decide (trim k = bs "ID_LIKE") then (acc.1, v)
      else acc
  end.

(** The pieces between commas and white space. *)
Definition token_end (s : bytes) : nat := match s with x2c :: _ => 1 | _ => ws_len s end%nat.

Fixpoint tokens_loop (fuel : nat) (s cur : bytes) : list bytes :=
  let done := match cur with [] => [] | _ => [rev cur] end in
  match fuel, s with
  | S f, c :: s' =>
      match token_end s with
      | O => tokens_loop f s' (c :: cur)
      | n => done ++ tokens_loop f (drop n s) []
      end
  | _, _ => done
  end.

Definition os_tokens (s : bytes) : list bytes := tokens_loop (length s) s [].

Definition classify_os_release (content : bytes) : bytes :=
  let '(id, id_like) := foldl os_release_line ([], []) (str_lines content) in
  let tokens := os_tokens id ++ os_tokens id_like in
  let has (names : list bytes) := existsb (λ n, bool_decide (n ∈ tokens)) names in
  if has [bs "openwrt"] then bs "openwrt"
  else if has [bs "debian"; bs "ubuntu"; bs "mint"; bs "raspbian"] then bs "debian"
  else if has [bs "fedora"; bs "rhel"; bs "centos"; bs "rocky"; bs "almalinux"] then bs "rhel"
  else if has [bs "arch"; bs "manjaro"; bs "endeavouros"] then bs "arch"
  else bs "unknown".

Definition detect_linux_distro (s : Sys) : bytes :=
  let there p := path_exists s (bs p) in
  if there "/etc/openwrt_release" then bs "openwrt"
  else if there "/etc/debian_version" then bs "debian"
  else if there "/etc/redhat-release" || there "/etc/fedora-release" then bs "rhel"
  else if there "/etc/arch-release" then bs "arch"
  else match read_string s (bs "/etc/os-release") with
       | Some content => classify_os_release content
       | None => bs "unknown"
       end.

(** ** Mozilla profiles *)

Definition mozilla_family_profile_roots (os home : bytes) (appdata xdg_config_home : option bytes) : list bytes :=
  if bool_decide (os = bs "macos") then
    [home ++ bs "/Library/Application Support/Firefox/Profiles";
     home ++ bs "/Library/Application Support/LibreWolf/Profiles"]
  else if bool_decide (os = bs "linux") then
    let xdg := match xdg_config_home with Some (c :: v) => c :: v | _ => home ++ bs "/.config" end in
    let flatpak_home := home ++ bs "/.var/app/io.gitlab.librewolf-community" in
    [home ++ bs "/.mozilla/firefox"; home ++ bs "/snap/firefox/common/.mozilla/firefox"; home ++ bs "/.librewolf";
     xdg ++ bs "/librewolf/librewolf"; flatpak_home ++ bs "/.librewolf";
     flatpak_home ++ bs "/.config/librewolf/librewolf"; home ++ bs "/.mozilla/icecat"]
  else if bool_decide (os = bs "windows") then
    match appdata with
    | Some appdata => [appdata ++ bs "\Mozilla\Firefox\Profiles"; appdata ++ bs "\LibreWolf\Profiles"]
    | None => []
    end
  else [].

(** A profile directory has a database, in the new or in the old format. *)
Definition has_cert_db (sep : byte) (s : Sys) (p : bytes) : bool :=
  path_exists s (path_join sep p (bs "cert9.db")) || path_exists s (path_join sep p (bs "cert8.db")).

Definition discover_profile_dirs (sep : byte) (s : Sys) (roots : list bytes) : list bytes :=
  concat (map (λ root, match read_dir sep s root with
                       | Some entries => filter (λ p, is_dir s p && has_cert_db sep s p) entries
                       | None => []
                       end) roots).

(** ** NSS *)

Definition is_nss_not_found (stderr : bytes) : bool :=
  let s := to_ascii_lowercase stderr in
  contains s (bs "could not find cert") || contains s (bs "could not find a certificate").

Section install.
(** The platform, the refusals of its files, the environment and
    [str::to_lowercase]. *)
Context `{!Exec} (os : bytes) (io_error : bytes → bytes → option bytes) (env : Env) (to_lowercase : bytes → bytes).

Definition os_sep : byte := sep_of os.
Definition on_linux : bool := bool_decide (os = bs "linux").

Definition mozilla_family_profile_dirs (s : Sys) : list bytes :=
  discover_profile_dirs os_sep s
    (mozilla_family_profile_roots os (default [] (e_home env)) (e_appdata env) (e_xdg_config_home env)).

Definition chrome_nssdb_path : option bytes :=
  if on_linux then let? home := e_home env in Some (home ++ bs "/.pki/nssdb") else None.

Definition user_js (profile : bytes) : bytes := path_join os_sep profile (bs "user.js").

(** One profile of [enable_mozilla_enterprise_roots]: a file that cannot be
    read counts as empty. *)
Definition enable_profile (profile : bytes) : M unit :=
  let% existing := gets (λ s, default [] (read_string s (user_js profile))) in
  match add_enterprise_roots_block existing with
  | AddedBlock new => let% _ := fs_write os_sep io_error (user_js profile) new in mret tt
  | AlreadyOurs | UserOwned => mret tt
  end.

Definition enable_mozilla_enterprise_roots : M unit :=
  let% profiles := gets mozilla_family_profile_dirs in mfold (λ _ p, enable_profile p) tt profiles.

Definition disable_profile (profile : bytes) : M unit :=
  let% existing := gets (λ s, read_string s (user_js profile)) in
  match existing with
  | None => mret tt
  | Some existing =>
      match strip_enterprise_roots_block existing with
      | Some new => let% _ := fs_write os_sep io_error (user_js profile) new in mret tt
      | None => mret tt
      end
  end.

Definition disable_mozilla_enterprise_roots : M unit :=
  let% profiles := gets mozilla_family_profile_dirs in mfold (λ _ p, disable_profile p) tt profiles.

Definition has_nss_certutil : M bool :=
  let% out := exec [bs "certutil"; bs "--help"] in
  mret match out with
       | Some o => contains (to_ascii_lowercase (from_utf8_lossy (o_stderr o) ++ from_utf8_lossy (o_stdout o)))
                     (bs "nickname")
       | None => false
       end.

Definition install_nss_in_dir (dir_arg cert_path : bytes) : M bool :=
  let% _ := exec [bs "certutil"; bs "-D"; bs "-n"; CERT_NAME; bs "-d"; dir_arg] in
  succeeds [bs "certutil"; bs "-A"; bs "-n"; CERT_NAME; bs "-t"; bs "C,,"; bs "-d"; dir_arg; bs "-i"; cert_path].

(** The argument that names a profile's database. *)
Definition profile_arg (s : Sys) (profile : bytes) : option bytes :=
  if path_exists s (path_join os_sep profile (bs "cert9.db")) then Some (bs "sql:" ++ profile)
  else if path_exists s (path_join os_sep profile (bs "cert8.db")) then Some profile
  else None.

Definition install_nss_in_profile (profile cert_path : bytes) : M bool :=
  let% arg := gets (λ s, profile_arg s profile) in
  match arg with None => mret false | Some dir_arg => install_nss_in_dir dir_arg cert_path end.

(** The outcome is only logged. *)
Definition install_nss_stores (cert_path : bytes) : M unit :=
  let% _ := enable_mozilla_enterprise_roots in
  let% has := has_nss_certutil in
  if negb has then mret tt
  else
    let% profiles := gets mozilla_family_profile_dirs in
    let% _ := mfold (λ _ p, let% _ := install_nss_in_profile p cert_path in mret tt) tt profiles in
    match chrome_nssdb_path with
    | None => mret tt
    | Some nssdb =>
        let dir_arg := bs "sql:" ++ nssdb in
        let% there := gets (λ s, has_cert_db os_sep s nssdb) in
        let% _ := (if there then mret tt
                   else let% _ := fs_create_dir_all os_sep io_error nssdb in
                        let% _ := exec [bs "certutil"; bs "-N"; bs "-d"; dir_arg; bs "--empty-password"] in mret tt) in
        let% _ := install_nss_in_dir dir_arg cert_path in mret tt
    end.

Definition remove_nss_in_dir (dir_arg : bytes) : M bool :=
  let% list := exec [bs "certutil"; bs "-L"; bs "-n"; CERT_NAME; bs "-d"; dir_arg] in
  match list with
  | None => mret false
  | Some o =>
      if o_success o then succeeds [bs "certutil"; bs "-D"; bs "-n"; CERT_NAME; bs "-d"; dir_arg]
      else mret (is_nss_not_found (from_utf8_lossy (o_stderr o)))
  end.

Definition remove_nss_in_profile (profile : bytes) : M bool :=
  let% arg := gets (λ s, profile_arg s profile) in
  match arg with None => mret false | Some dir_arg => remove_nss_in_dir dir_arg end.

Definition count_store (r : NssReport) (ok : bool) : NssReport :=
  mk_nss (tried r + 1) (if ok then nss_ok r + 1 else nss_ok r) (tool_missing_with_stores_present r).

Definition chrome_present (s : Sys) : bool :=
  match chrome_nssdb_path with Some p => has_cert_db os_sep s p | None => false end.

Definition remove_nss_stores : M NssReport :=
  let% _ := disable_mozilla_enterprise_roots in
  let% has := has_nss_certutil in
  if negb has then
    gets (λ s, mk_nss 0 0 (negb (bool_decide (mozilla_family_profile_dirs s = [])) || chrome_present s))
  else
    let% profiles := gets mozilla_family_profile_dirs in
    let% report := mfold (λ r p, let% ok := remove_nss_in_profile p in mret (count_store r ok))
                     (mk_nss 0 0 false) profiles in
    let% there := gets chrome_present in
    match chrome_nssdb_path with
    | Some nssdb =>
        if there then let% ok := remove_nss_in_dir (bs "sql:" ++ nssdb) in mret (count_store report ok)
        else mret report
    | None => mret report
    end.

(** ** macOS *)

Definition login_keychain (s : Sys) : bytes :=
  let kc := default [] (e_home env) ++ bs "/Library/Keychains/login.keychain" in
  if path_exists s (kc ++ bs "-db") then kc ++ bs "-db" else kc.

Definition system_keychain : bytes := bs "/Library/Keychains/System.keychain".

Definition add_trusted (keychain cert_path : bytes) : list bytes :=
  [bs "security"; bs "add-trusted-cert"; bs "-d"; bs "-r"; bs "trustRoot"; bs "-k"; keychain; cert_path].

Definition install_macos (cert_path : bytes) : M bool :=
  let% kc := gets login_keychain in
  let% ok := succeeds (add_trusted kc cert_path) in
  if ok then mret true else succeeds (bs "sudo" :: add_trusted system_keychain cert_path).

(** Whether [security find-certificate] found something. *)
Definition finds (cmd : list bytes) : M bool :=
  let% out := exec cmd in
  mret match out with Some o => o_success o && negb (bool_decide (o_stdout o = [])) | None => false end.

Definition macos_system_keychain_has : M bool :=
  finds [bs "security"; bs "find-certificate"; bs "-a"; bs "-c"; CERT_NAME; system_keychain].

Definition is_trusted_macos : M bool := finds [bs "security"; bs "find-certificate"; bs "-a"; bs "-c"; CERT_NAME].

Definition remove_macos : M unit :=
  let% kc := gets login_keychain in
  let% _ := succeeds [bs "security"; bs "delete-certificate"; bs "-c"; CERT_NAME; kc] in
  let% has := macos_system_keychain_has in
  if has then
    let% _ := succeeds [bs "sudo"; bs "security"; bs "delete-certificate"; bs "-c"; CERT_NAME; system_keychain] in mret tt
  else mret tt.

(** ** Linux *)

Fixpoint run_all (cmds : list (list bytes)) : M bool :=
  match cmds with
  | [] => mret true
  | cmd :: rest => let% ok := run_cmd cmd in if ok then run_all rest else mret false
  end.

Definition try_copy_and_run (src dest : bytes) (cmds : list (list bytes)) : M bool :=
  let% made := match parent x2f dest with
               | Some d => fs_create_dir_all x2f io_error d
               | None => mret (Ok tt)
               end in
  let% copied := match made with Ok _ => fs_copy x2f io_error src dest | Err e => mret (Err e) end in
  let% ok := match copied with Ok _ => run_all cmds | Err _ => mret false end in
  if ok then mret true
  else
    let% cp := run_cmd [bs "sudo"; bs "cp"; src; dest] in
    if cp then run_all (map (cons (bs "sudo")) cmds) else mret false.

Definition debian_anchors : bytes := bs "/usr/local/share/ca-certificates".
Definition rhel_anchors : bytes := bs "/etc/pki/ca-trust/source/anchors".
Definition arch_anchors : bytes := bs "/etc/ca-certificates/trust-source/anchors".

(** Each anchor directory with the command that merges it into the bundle. *)
Definition anchors : list (bytes * list bytes) :=
  [(debian_anchors, [bs "update-ca-certificates"]);
   (rhel_anchors, [bs "update-ca-trust"; bs "extract"]);
   (arch_anchors, [bs "trust"; bs "extract-compat"])].

Definition anchor_file (dir : bytes) : bytes := dir ++ bs "/" ++ safe_name ++ bs ".crt".

Definition install_linux (cert_path : bytes) : M bool :=
  let% distro := gets detect_linux_distro in
  if bool_decide (distro = bs "debian") then
    try_copy_and_run cert_path (anchor_file debian_anchors) [[bs "update-ca-certificates"]]
  else if bool_decide (distro = bs "rhel") then
    try_copy_and_run cert_path (anchor_file rhel_anchors) [[bs "update-ca-trust"; bs "extract"]]
  else if bool_decide (distro = bs "arch") then
    try_copy_and_run cert_path (anchor_file arch_anchors) [[bs "trust"; bs "extract-compat"]]
  else mret (bool_decide (distro = bs "openwrt")).

(** One anchor directory of [remove_linux]. *)
Definition remove_anchor (all_ok : bool) (a : bytes * list bytes) : M bool :=
  let '(dir, refresh) := a in
  let% there := gets (λ s, path_exists s dir) in
  if negb there then mret all_ok
  else
    let path := anchor_file dir in
    let% present := gets (λ s, path_exists s path) in
    let% deleted := (if present then
                       let% r := fs_remove_file io_error path in
                       match r with
                       | Ok _ => mret true
                       | Err _ => run_cmd [bs "sudo"; bs "rm"; bs "-f"; path]
                       end
                     else mret true) in
    if negb deleted then mret false
    else
      let% direct := run_cmd refresh in
      let% refreshed := (if direct then mret true else run_cmd (bs "sudo" :: refresh)) in
      mret (all_ok && refreshed).

Definition remove_linux : M bool := mfold remove_anchor true anchors.

Definition trust_dirs : list bytes :=
  map fst anchors ++ [bs "/etc/ssl/certs"; bs "/etc/pki/ca-trust/extracted/pem/directory-hash";
                      bs "/etc/ca-certificates/extracted/cadir"].

(** The entry's name, after the directory and a slash, is ours. *)
Definition ours (dir entry : bytes) : bool :=
  let s := to_lowercase (from_utf8_lossy (drop (length dir + 1) entry)) in
  contains s (bs "masterhttprelayvpn") || contains s (bs "mhrv").

Definition is_trusted_linux (s : Sys) : bool :=
  existsb (λ d, match read_dir x2f s d with Some entries => existsb (ours d) entries | None => false end) trust_dirs.

(** ** Windows *)

Definition windows_store_has (user : bool) : M bool :=
  let% out := exec ([bs "certutil"] ++ (if user then [bs "-user"] else []) ++ [bs "-store"; bs "Root"; CERT_NAME]) in
  mret match out with
       | Some o => o_success o &&
                   contains (to_ascii_lowercase (from_utf8_lossy (o_stdout o))) (to_ascii_lowercase CERT_NAME)
       | None => false
       end.

Definition is_trusted_windows : M bool :=
  let% user := windows_store_has true in if user then mret true else windows_store_has false.

Definition install_windows (cert_path : bytes) : M bool :=
  let% ok := succeeds [bs "certutil"; bs "-addstore"; bs "-user"; bs "Root"; cert_path] in
  if ok then mret true else succeeds [bs "certutil"; bs "-addstore"; bs "Root"; cert_path].

Definition remove_windows : M unit :=
  let% user := windows_store_has true in
  let% _ := (if user then succeeds [bs "certutil"; bs "-delstore"; bs "-user"; bs "Root"; CERT_NAME]
             else mret false) in
  let% machine := windows_store_has false in
  let% _ := (if machine then succeeds [bs "certutil"; bs "-delstore"; bs "Root"; CERT_NAME] else mret false) in
  mret tt.

(** ** The operations *)

Definition is_ca_trusted_by_name : M bool :=
  if bool_decide (os = bs "macos") then is_trusted_macos
  else if bool_decide (os = bs "linux") then gets is_trusted_linux
  else if bool_decide (os = bs "windows") then is_trusted_windows
  else mret false.

Definition is_ca_trusted (path : bytes) : M bool :=
  let% there := gets (λ s, path_exists s path) in if there then is_ca_trusted_by_name else mret false.

Definition install_ca (path : bytes) : M (result unit InstallError) :=
  let% there := gets (λ s, path_exists s path) in
  if negb there then mret (Err (NotFound path))
  else if negb (existsb (λ o, bool_decide (os = o)) [bs "macos"; bs "linux"; bs "windows"])
  then mret (Err (Unsupported os))
  else
    let% ok := (if bool_decide (os = bs "macos") then install_macos path
                else if bool_decide (os = bs "linux") then install_linux path
                else install_windows path) in
    let% _ := install_nss_stores path in
    mret (if ok then Ok tt else Err InstallFailed).

(** The removal from the store of the platform; [None] for an unknown one. *)
Definition remove_platform : M (option bool) :=
  if bool_decide (os = bs "macos") then let% _ := remove_macos in mret (Some true)
  else if bool_decide (os = bs "linux") then let% ok := remove_linux in mret (Some ok)
  else if bool_decide (os = bs "windows") then let% _ := remove_windows in mret (Some true)
  else mret None.

Definition remove_ca (base : bytes) : M (result RemovalOutcome InstallError) :=
  let% platform := remove_platform in
  match platform with
  | None => mret (Err (Unsupported os))
  | Some platform_ok =>
      let% trusted := (if platform_ok then is_ca_trusted_by_name else mret true) in
      if negb platform_ok || trusted then mret (Err RemovalIncomplete)
      else
        let% nss := remove_nss_stores in
        let ca_dir := path_join os_sep base CA_DIR in
        let% there := gets (λ s, path_exists s ca_dir) in
        let% deleted := (if there then fs_remove_dir_all os_sep io_error ca_dir else mret (Ok tt)) in
        match deleted with
        | Err e => mret (Err (InstallIo ca_dir e))
        | Ok _ => mret (Ok (if is_clean nss then Clean else NssIncomplete nss))
        end
  end.
End install.

(** ** What a removal does *)

Section removal.
Context `{!Exec} (io_error : bytes → bytes → option bytes) (env : Env) (to_lowercase : bytes → bytes).

(** No program changes [p]. *)
Definition kept_by_programs (p : bytes) : Prop := ∀ cmd s, (exec cmd s).2 !! p = s !! p.

Lemma succeeds_keeps p cmd s : kept_by_programs p → (succeeds cmd s).2 !! p = s !! p.
Proof. intros Hk. unfold succeeds, mbnd. specialize (Hk cmd s). by destruct (exec cmd s). Qed.

Lemma run_cmd_keeps p cmd s : kept_by_programs p → (run_cmd cmd s).2 !! p = s !! p.
Proof. intros Hk. destruct cmd; [done|]. by apply succeeds_keeps. Qed.

Lemma remove_file_keeps p q s : p ≠ q → (fs_remove_file io_error q s).2 !! p = s !! p.
Proof. intros Hpq. unfold fs_remove_file. destruct (io_error _ q); [done|].
  destruct (s !! q) as [[b|]|]; [|done..]. cbn [snd]. by apply lookup_delete_ne.
Qed.

Lemma remove_anchor_keeps p ok a s : kept_by_programs p → p ≠ anchor_file a.1 →
  (remove_anchor io_error ok a s).2 !! p = s !! p.
Proof.
  intros Hk Hp. destruct a as [dir refresh]. unfold remove_anchor, mbnd, gets, mret. simpl in Hp.
  destruct (negb (path_exists s dir)); [done|].
  assert (Hrefresh : ∀ s1 : Sys, s1 !! p = s !! p →
    ((let '(direct, s2) := run_cmd refresh s1 in
      let '(refreshed, s3) := (if direct then λ s, (true, s) else run_cmd (bs "sudo" :: refresh)) s2 in
      (ok && refreshed, s3)).2 : Sys) !! p = s !! p).
  { intros s1 E. pose proof (run_cmd_keeps p refresh s1 Hk) as H1. destruct (run_cmd refresh s1) as [d s2]. simpl in H1.
    destruct d; [simpl; congruence|]. pose proof (run_cmd_keeps p (bs "sudo" :: refresh) s2 Hk) as H2.
    destruct (run_cmd (bs "sudo" :: refresh) s2) as [r s3]. simpl in *. congruence. }
  destruct (path_exists s (anchor_file dir)); [|by apply Hrefresh].
  pose proof (remove_file_keeps p (anchor_file dir) s Hp) as H1.
  destruct (fs_remove_file io_error (anchor_file dir) s) as [[[]|e] s1]; simpl in H1; [by apply Hrefresh|].
  pose proof (run_cmd_keeps p [bs "sudo"; bs "rm"; bs "-f"; anchor_file dir] s1 Hk) as H2.
  destruct (run_cmd [bs "sudo"; bs "rm"; bs "-f"; anchor_file dir] s1) as [[] s2]; simpl in *; [apply Hrefresh|]; congruence.
Qed.

Lemma mfold_keeps {A B} (f : B → A → M B) p b l s :
  (∀ b a s, a ∈ l → (f b a s).2 !! p = s !! p) → (mfold f b l s).2 !! p = s !! p.
Proof.
  revert b s. induction l as [|a l IH]; intros b s Hf; [done|]. cbn [mfold]. unfold mbnd.
  pose proof (Hf b a s ltac:(by left)) as H1. destruct (f b a s) as [b' s']. rewrite IH; [done|].
  intros b0 a0 s0 Ha. apply Hf. by right.
Qed.

Lemma remove_linux_keeps p s : kept_by_programs p → p ∉ map (λ a, anchor_file a.1) anchors →
  (remove_linux io_error s).2 !! p = s !! p.
Proof.
  intros Hk Hp. apply mfold_keeps. intros b a s0 Ha. apply remove_anchor_keeps; [done|]. intros ->. apply Hp.
  by apply (list_elem_of_fmap_2 (λ a, anchor_file a.1)).
Qed.

(** The name of a certificate of ours: what the installer writes, and what the
    system's tools make of it (another extension or capitalisation, say). *)
Definition named_ours (name : bytes) : bool :=
  let n := to_ascii_lowercase name in contains n (bs "masterhttprelayvpn") || contains n (bs "mhrv").

(** A store that is judged untrusted holds no certificate of ours, as far as
    the names tell. *)
Lemma untrusted_no_name s dir name : (∀ x, Forall (λ c, byte_val c < 128) x → to_lowercase x = to_ascii_lowercase x) →
  dir ∈ trust_dirs → is_trusted_linux to_lowercase s = false → s !! dir = Some Dir →
  name ≠ [] → x2f ∉ name → Forall (λ c, byte_val c < 128) name → named_ours name = true →
  s !! (dir ++ bs "/" ++ name) = None.
Proof.
  intros Hlow Hd Ht Hdir Hne Hsl Hascii Hours. set (f := dir ++ bs "/" ++ name).
  destruct (s !! f) as [n|] eqn:E; [|done].
  enough (is_trusted_linux to_lowercase s = true) by congruence. unfold is_trusted_linux.
  apply existsb_exists. exists dir. split; [by apply list_elem_of_In|]. unfold read_dir, is_dir.
  rewrite bool_decide_true by done. apply existsb_exists. exists f. split.
  - apply list_elem_of_In, list_elem_of_filter. split.
    + unfold child_of, f. rewrite (app_assoc dir), strip_prefix_app. apply Is_true_true. by rewrite bool_decide_true.
    + apply list_elem_of_fmap. exists (f, n). split; [done|]. by apply elem_of_map_to_list.
  - unfold ours, f. rewrite app_assoc, drop_app_length' by (by rewrite length_app).
    rewrite from_utf8_lossy_valid by (by apply ascii_utf8). by rewrite Hlow.
Qed.

Lemma path_exists_false s p : path_exists s p = false ↔ s !! p = None.
Proof. unfold path_exists. rewrite bool_decide_eq_false, <-eq_None_not_Some. done. Qed.

(** [remove_ca] on Linux, step by step. *)
Lemma remove_ca_linux base s :
  remove_ca (bs "linux") io_error env to_lowercase base s =
  let '(ok, s1) := remove_linux io_error s in
  if negb ok || is_trusted_linux to_lowercase s1 then (Err RemovalIncomplete, s1)
  else
    let '(nss, s2) := remove_nss_stores (bs "linux") io_error env s1 in
    let ca_dir := path_join x2f base CA_DIR in
    let '(deleted, s3) := if path_exists s2 ca_dir then fs_remove_dir_all x2f io_error ca_dir s2 else (Ok tt, s2) in
    (match deleted with
     | Err e => Err (InstallIo ca_dir e)
     | Ok _ => Ok (if is_clean nss then Clean else NssIncomplete nss)
     end, s3).
Proof.
  assert (Hp : remove_platform (bs "linux") io_error env s =
    let '(ok, s1) := remove_linux io_error s in (Some ok, s1)) by reflexivity.
  unfold remove_ca, mbnd at 1. rewrite Hp. destruct (remove_linux io_error s) as [[] s1]; [|done].
  cbn [negb orb]. assert (Ht : is_ca_trusted_by_name (bs "linux") to_lowercase s1 = (is_trusted_linux to_lowercase s1, s1))
    by reflexivity.
  unfold mbnd at 1. rewrite Ht. destruct (is_trusted_linux to_lowercase s1); [done|]. unfold mbnd at 1.
  destruct (remove_nss_stores _ _ _ s1) as [nss s2]. unfold mbnd, gets. change (os_sep (bs "linux")) with x2f.
  destruct (path_exists s2 _); [|done]. destruct (fs_remove_dir_all _ _ _ s2) as [[u|e] s3]; done.
Qed.

End removal.

(** Programs that succeed and change nothing. *)
Definition quiet_exec : Exec := λ _ s, (Some (mk_output true [] []), s).

Definition demo_host : Sys :=
  list_to_map [(debian_anchors, Dir); (anchor_file debian_anchors, File (bs "PEM")); (bs "/data", Dir);
               (bs "/data/ca", Dir); (bs "/data/ca/ca.crt", File (bs "PEM")); (bs "/data/ca/ca.key", File (bs "KEY"))].

Definition demo_env : Env := mk_env (Some (bs "/home/u")) None None None None 1000.

(** The anchors, and the copies [update-ca-certificates] makes, are named so. *)
Example anchors_named_ours :
  Forall (λ n, named_ours n = true) [safe_name ++ bs ".crt"; safe_name ++ bs ".pem"; bs "mhrv-ca.0"] ∧
  ∀ dir, anchor_file dir = dir ++ bs "/" ++ safe_name ++ bs ".crt".
Proof. split; [repeat constructor|done]. Qed.


(** ** user.js on the machine *)

Section profiles.
Context `{!Exec} (os : bytes) (io_error : bytes → bytes → option bytes).

(** The file may be written: it is no directory, its parent is one, and the
    operating system agrees. *)
Definition writable (s : Sys) (f : bytes) : Prop :=
  io_error (bs "write") f = None ∧ is_dir s f = false ∧
  match parent (os_sep os) f with Some d => is_dir s d = true | None => True end.

Lemma write_writable s f b : writable s f → fs_write (os_sep os) io_error f b s = (Ok tt, <[f := File b]> s).
Proof.
  intros (H1 & H2 & H3). unfold fs_write. rewrite H1, H2. destruct (parent _ f); [by rewrite H3|done].
Qed.

Lemma writable_insert s f b : writable s f → parent (os_sep os) f ≠ Some f → writable (<[f := File b]> s) f.
Proof.
  intros (H1 & H2 & H3) Hp. unfold writable, is_dir. split_and!; [done| |].
  - apply bool_decide_eq_false. 
    by rewrite lookup_insert_eq.
  - destruct (parent _ f) as [d|]; [|done]. apply bool_decide_eq_true in H3. apply bool_decide_eq_true.
    rewrite lookup_insert_ne; [done|]. congruence.
Qed.

(** Installing and then removing the preference of one profile leaves the
    lines of its user.js. *)
Lemma profile_restored s profile x y :
  let f := user_js os profile in
  s !! f = Some (File x) → utf8_valid x = true → utf8_valid y = true → writable s f → parent (os_sep os) f ≠ Some f →
  add_enterprise_roots_block x = AddedBlock y →
  (disable_profile os io_error profile (enable_profile os io_error profile s).2).2 = <[f := File (restored x)]> s.
Proof.
  intros f Hf Hx Hy Hw Hp Ha. destruct (block_added x y Ha) as [_ Hs].
  assert (He : (enable_profile os io_error profile s).2 = <[f := File y]> s).
  { unfold enable_profile, mbnd, gets, read_string. fold f. rewrite Hf. unfold from_utf8. rewrite Hx. cbn [default].
    unfold id. rewrite Ha. by rewrite write_writable. }
  rewrite He. unfold disable_profile, mbnd at 1, gets, read_string. fold f. rewrite lookup_insert_eq. unfold from_utf8.
  rewrite Hy, Hs. unfold mbnd. rewrite write_writable by (by apply writable_insert). cbn. by rewrite insert_insert_eq.
Qed.

(** A user.js that is not UTF-8 is destroyed.  Reading it fails, the
    failure counts as an empty file, and installing the CA replaces the
    user's preferences with the two lines of the block. *)
Theorem undecodable_user_js_lost s profile b :
  let f := user_js os profile in
  s !! f = Some (File b) → utf8_valid b = false → writable s f →
  (enable_profile os io_error profile s).2 !! f = Some (File (FX_MARKER ++ [x0a] ++ FX_PREF ++ [x0a])).
Proof.
  intros f Hf Hu Hw. unfold enable_profile, mbnd, gets, read_string. fold f. rewrite Hf. unfold from_utf8. rewrite Hu.
  assert (Ha : add_enterprise_roots_block [] = AddedBlock (FX_MARKER ++ [x0a] ++ FX_PREF ++ [x0a])) by done.
  cbn [default from_option]. rewrite Ha.
  rewrite write_writable by done. cbn [fst snd mret]. apply lookup_insert_eq.
Qed.
End profiles.

Definition latin1_profile : Sys :=
  list_to_map [(bs "/p", Dir); (bs "/p/user.js", File (bs "// caf" ++ [xe9; x0a]))].

Lemma undecodable_user_js_lost_witness :
  (enable_profile (bs "linux") (λ _ _, None) (bs "/p") latin1_profile).2 !! bs "/p/user.js" =
    Some (File (FX_MARKER ++ [x0a] ++ FX_PREF ++ [x0a])).
Proof.
  apply (undecodable_user_js_lost (bs "linux") (λ _ _, None) latin1_profile (bs "/p") (bs "// caf" ++ [xe9; x0a]));
    [by vm_compute|by vm_compute|]. split_and!; by vm_compute.
Defined.

(** ** os-release *)

(** Only the lines of [ID] and [ID_LIKE] decide the family of a
    distribution. *)
Definition names_distro (line : bytes) : bool :=
  match split_once x3d line with
  | Some (k, _) => bool_decide (trim k = bs "ID") || bool_decide (trim k = bs "ID_LIKE")
  | None => false
  end.

Lemma os_release_other acc l : names_distro l = false → os_release_line acc l = acc.
Proof.
  unfold names_distro, os_release_line. destruct (split_once x3d l) as [[k v]|]; [|done].
  intros [H1 H2]%orb_false_iff. by rewrite H1, H2.
Qed.

Lemma os_release_only_ids acc lines :
  foldl os_release_line acc lines = foldl os_release_line acc (filter names_distro lines).
Proof.
  revert acc. induction lines as [|l ls IH]; intros acc; [done|]. cbn [foldl]. rewrite IH, filter_cons.
  case_decide as Hn; [done|]. rewrite os_release_other; [done|]. by apply not_true_iff_false; rewrite <-Is_true_true.
Qed.

Example openwrt_arch_line :
  classify_os_release (bs "OPENWRT_DEVICE_ARCH=x86_64" ++ [x0a] ++ bs "ID=" ++ [x22] ++ bs "openwrt" ++ [x22] ++ [x0a])
    = bs "openwrt" ∧
  classify_os_release (bs "ID=linuxmint" ++ [x0a] ++ bs "ID_LIKE=" ++ [x22] ++ bs "ubuntu debian" ++ [x22]) = bs "debian".
Proof. split; by vm_compute. Qed.

(** ** Reconciling sudo *)

(** HOME is changed only for a root process started by another user. *)
Lemma reconcile_only_under_sudo `{!Exec} unix env s :
  (reconcile_sudo_environment unix env s).1 ≠ env →
  e_euid env = 0 ∧ ∃ user, e_sudo_user env = Some user ∧ user ≠ [] ∧ user ≠ bs "root".
Proof.
  unfold reconcile_sudo_environment. destruct unix; [|done]. simpl negb. cbv iota.
  destruct (should_reconcile_for _ _) as [user|] eqn:E; [|done]. intros _.
  unfold should_reconcile_for in E. destruct (Z.eqb_spec (e_euid env) 0); [|done]. split; [done|]. simpl in E.
  destruct (e_sudo_user env) as [u|]; [|done]. simpl in E.
  destruct (bool_decide (u = [])) eqn:E1, (bool_decide (u = bs "root")) eqn:E2; try done.
  apply bool_decide_eq_false in E1, E2. eauto.
Qed.
