(* ===== verification/Mitm.v ===== *)
(** The certificate authority of the man-in-the-middle proxy:
    src/src/mitm.rs.

    [new_in] loads the CA from disk or makes one, [get_server_config] hands
    out a TLS configuration per domain from a cache.  rcgen, rustls and the
    PEM reader are the parameters of [Pki]; the parameters of certificates
    are the record the source fills in. *)
From Stdlib Require Import Strings.Byte.
From S2P Require Import Prelude RustBytes HostSystem CertInstall.

Inductive MitmError :=
  | MIo (e : bytes) | MRcgen (e : bytes) | MRustls (e : bytes) | MPem (e : bytes) | MInvalid (e : bytes).

Inductive KeyUsagePurpose := DigitalSignature | KeyEncipherment | KeyCertSign | CrlSign.
Inductive ExtendedKeyUsagePurpose := ServerAuth.

(** [rcgen::CertificateParams], the fields the program sets; times in
    seconds. *)
Record CertificateParams := mk_params {
  common_name : bytes; organization : option bytes; ca_path_len : option Z; key_usages : list KeyUsagePurpose;
  extended_key_usages : list ExtendedKeyUsagePurpose; subject_alt_names : list bytes; not_before : Z; not_after : Z
}.

Class Pki := {
  KeyPair : Type; Certificate : Type; Der : Type;
  key_of_pem : bytes → result KeyPair bytes;
  key_to_pem : KeyPair → bytes;
  cert_to_pem : Certificate → bytes;
  cert_der : Certificate → Der;
  certs_of_pem : bytes → result (list Der) bytes;
  params_of_der : Der → result CertificateParams bytes;
  self_signed : CertificateParams → KeyPair → result Certificate bytes;
  signed_by : CertificateParams → KeyPair → Certificate → KeyPair → result Certificate bytes;
  dns_name_error : bytes → option bytes;
  single_cert_error : list Der → KeyPair → option bytes
}.

Definition CA_KEY_FILE : bytes := bs "ca/ca.key".
Definition CA_CERT_FILE : bytes := bs "ca/ca.crt".

Definition minutes (n : Z) : Z := n * 60.
Definition days (n : Z) : Z := n * 86400.

Section mitm.
Context `{!Pki}.

(** [rustls::ServerConfig]: the chain, its key and the protocols. *)
Record ServerConfig := mk_server { chain : list Der; server_key : KeyPair; alpn_protocols : list bytes }.

Record MitmCertManager := mk_mitm {
  ca_cert_der : Der; ca_key_pair : KeyPair; ca_cert : Certificate; mitm_cache : gmap bytes ServerConfig
}.

Definition map_err {A} (f : bytes → MitmError) (r : result A bytes) : result A MitmError :=
  match r with Ok a => Ok a | Err e => Err (f e) end.

(** What [read_to_string] says when it fails. *)
Definition no_such_file : bytes := bs "No such file or directory (os error 2)".

Definition mitm_load (key_path cert_path : bytes) (s : Sys) : result MitmCertManager MitmError :=
  let! key_pem := match read_string s key_path with Some b => Ok b | None => Err (MIo no_such_file) end in
  let! cert_pem := match read_string s cert_path with Some b => Ok b | None => Err (MIo no_such_file) end in
  let! key_pair := map_err MRcgen (key_of_pem key_pem) in
  let! certs := map_err MIo (certs_of_pem cert_pem) in
  match certs with
  | [] => Err (MPem (bs "no certificate in ca.crt"))
  | der :: _ =>
      let! params := map_err MRcgen (params_of_der der) in
      let! cert := map_err MRcgen (self_signed params key_pair) in
      Ok (mk_mitm der key_pair cert ∅)
  end.

Definition ca_params (now : Z) : CertificateParams :=
  mk_params CERT_NAME (Some CERT_NAME) (Some 0) [DigitalSignature; KeyCertSign; CrlSign] [] []
    (now - minutes 5) (now + days 3650).

(** [KeyPair::generate] gave [key]; the certificate is written before the
    key. *)
Definition generate (os : bytes) (io_error : bytes → bytes → option bytes) (now : Z) (key : result KeyPair bytes)
    (key_path cert_path : bytes) : M (result MitmCertManager MitmError) :=
  match (let! key_pair := map_err MRcgen key in
         let! cert := map_err MRcgen (self_signed (ca_params now) key_pair) in Ok (key_pair, cert)) with
  | Err e => mret (Err e)
  | Ok (key_pair, cert) =>
      let% w1 := fs_write (sep_of os) io_error cert_path (cert_to_pem cert) in
      match w1 with
      | Err e => mret (Err (MIo e))
      | Ok _ =>
          let% w2 := fs_write (sep_of os) io_error key_path (key_to_pem key_pair) in
          mret match w2 with Err e => Err (MIo e) | Ok _ => Ok (mk_mitm (cert_der cert) key_pair cert ∅) end
      end
  end.

Definition new_in (os : bytes) (io_error : bytes → bytes → option bytes) (now : Z) (key : result KeyPair bytes)
    (base : bytes) : M (result MitmCertManager MitmError) :=
  let join := path_join (sep_of os) base in
  let key_path := join CA_KEY_FILE in
  let cert_path := join CA_CERT_FILE in
  let% there := gets (λ s, path_exists s key_path && path_exists s cert_path) in
  if there then gets (mitm_load key_path cert_path)
  else
    let% made := fs_create_dir_all (sep_of os) io_error (join CA_DIR) in
    match made with
    | Err e => mret (Err (MIo e))
    | Ok _ => generate os io_error now key key_path cert_path
    end.

Definition leaf_params (domain : bytes) (now : Z) : CertificateParams :=
  mk_params domain None None [DigitalSignature; KeyEncipherment] [ServerAuth] [domain]
    (now - minutes 5) (now + days 365).

Definition issue_leaf (m : MitmCertManager) (now : Z) (key : result KeyPair bytes) (domain : bytes)
    : result (Der * KeyPair) MitmError :=
  match dns_name_error domain with
  | Some e => Err (MInvalid (bs "bad dns name '" ++ domain ++ bs "': " ++ e))
  | None =>
      let! leaf_key := map_err MRcgen key in
      let! leaf := map_err MRcgen (signed_by (leaf_params domain now) leaf_key (ca_cert m) (ca_key_pair m)) in
      Ok (cert_der leaf, leaf_key)
  end.

Definition get_server_config (m : MitmCertManager) (now : Z) (key : result KeyPair bytes) (domain : bytes)
    : result ServerConfig MitmError * MitmCertManager :=
  match mitm_cache m !! domain with
  | Some cfg => (Ok cfg, m)
  | None =>
      match issue_leaf m now key domain with
      | Err e => (Err e, m)
      | Ok (leaf_der, leaf_key) =>
          let ch := [leaf_der; ca_cert_der m] in
          match single_cert_error ch leaf_key with
          | Some e => (Err (MRustls e), m)
          | None =>
              let cfg := mk_server ch leaf_key [bs "http/1.1"] in
              (Ok cfg, mk_mitm (ca_cert_der m) (ca_key_pair m) (ca_cert m) (<[domain := cfg]> (mitm_cache m)))
          end
      end
  end.

(** ** The cache *)

(** Every cached configuration is a chain that ends in the CA on disk, its
    leaf issued for the domain at some time, and HTTP/1.1 only. *)
Definition issued (m : MitmCertManager) (domain : bytes) (t : Z) (cfg : ServerConfig) : Prop :=
  ∃ leaf key, signed_by (leaf_params domain t) key (ca_cert m) (ca_key_pair m) = Ok leaf ∧
    dns_name_error domain = None ∧
    cfg = mk_server [cert_der leaf; ca_cert_der m] key [bs "http/1.1"].

Definition cache_ok (now : Z) (m : MitmCertManager) : Prop :=
  ∀ domain cfg, mitm_cache m !! domain = Some cfg → ∃ t, t ≤ now ∧ issued m domain t cfg.

Lemma get_server_config_same m now key domain r m' : get_server_config m now key domain = (r, m') →
  ca_cert_der m' = ca_cert_der m ∧ ca_key_pair m' = ca_key_pair m ∧ ca_cert m' = ca_cert m.
Proof. unfold get_server_config. repeat case_match; intros [=]; by subst. Qed.

Lemma issue_leaf_issued m now key domain der k : issue_leaf m now key domain = Ok (der, k) →
  issued m domain now (mk_server [der; ca_cert_der m] k [bs "http/1.1"]).
Proof.
  unfold issue_leaf. destruct (dns_name_error domain) eqn:Hd; [done|]. destruct key as [kp|]; [|done]. simpl.
  destruct (signed_by _ _ _ _) as [leaf|] eqn:E; [|done]. intros [=]; subst. by exists leaf, k.
Qed.

Lemma get_server_config_cached m now key domain cfg m' : get_server_config m now key domain = (Ok cfg, m') →
  mitm_cache m' !! domain = Some cfg ∧
  (∀ d c, mitm_cache m' !! d = Some c → mitm_cache m !! d = Some c ∨ d = domain ∧ c = cfg ∧ issued m d now c).
Proof.
  unfold get_server_config. destruct (mitm_cache m !! domain) as [c|] eqn:E; [intros [=]; subst; eauto|].
  destruct (issue_leaf m now key domain) as [[der k]|] eqn:Hi; [|done].
  destruct (single_cert_error _ _); [done|]. intros [=]; subst. cbn. rewrite lookup_insert_eq. split; [done|].
  intros d c. destruct (decide (d = domain)) as [->|]; [|rewrite lookup_insert_ne by done; eauto].
  rewrite lookup_insert_eq. intros [=]; subst. right. by apply issue_leaf_issued in Hi.
Qed.

Lemma get_server_config_preserves m now key domain r m' :
  cache_ok now m → get_server_config m now key domain = (r, m') → cache_ok now m'.
Proof.
  intros Hok Hg. pose proof (get_server_config_same _ _ _ _ _ _ Hg) as (H1 & H2 & H3).
  assert (Hiss : ∀ d t c, issued m d t c → issued m' d t c).
  { intros d t c (leaf & k & ?). exists leaf, k. by rewrite H1, H2, H3. }
  intros d c Hc. destruct r as [cfg|e].
  - apply get_server_config_cached in Hg as [_ Hnew]. destruct (Hnew d c Hc) as [Hm|(-> & -> & Hi)].
    + destruct (Hok d c Hm) as (t & Ht & Hi). eauto.
    + exists now. split; [lia|eauto].
  - assert (m' = m) as ->; [|destruct (Hok d c Hc) as (t & Ht & Hi); eauto].
    unfold get_server_config in Hg. by repeat case_match; simplify_eq.
Qed.

(** Requests over time: the clock never goes back. *)
Inductive serves : Z → MitmCertManager → Z → MitmCertManager → Prop :=
  | serves_refl t m : serves t m t m
  | serves_step t m now key domain r m1 t' m' :
      t ≤ now → get_server_config m now key domain = (r, m1) → serves now m1 t' m' → serves t m t' m'.

Lemma cache_ok_later t t' m : t ≤ t' → cache_ok t m → cache_ok t' m.
Proof. intros Ht Hok d c Hc. destruct (Hok d c Hc) as (u & Hu & Hi). exists u. split; [lia|done]. Qed.

Lemma serves_cache_ok t m t' m' : serves t m t' m' → cache_ok t m → cache_ok t' m'.
Proof.
  induction 1 as [|t m now key domain r m1 t' m' Ht Hg Hs IH]; [done|]. intros Hok. apply IH.
  eapply get_server_config_preserves; [|done]. by apply (cache_ok_later t).
Qed.

Lemma get_server_config_keeps m now key domain r m' d c : get_server_config m now key domain = (r, m') →
  mitm_cache m !! d = Some c → mitm_cache m' !! d = Some c.
Proof.
  unfold get_server_config. intros Hg Hd. repeat case_match; simplify_eq; try done. cbn.
  rewrite lookup_insert_ne; [done|]. congruence.
Qed.

Lemma serves_keeps t m t' m' d c : serves t m t' m' → mitm_cache m !! d = Some c → mitm_cache m' !! d = Some c.
Proof.
  induction 1 as [|t m now key domain r m1 t' m' Ht Hg Hs IH]; [done|]. intros Hd. apply IH.
  by eapply get_server_config_keeps.
Qed.

(** A leaf is served past its expiry.  Once a domain has a configuration,
    every later request for it gets the same one, whatever happened in
    between; the leaf's validity ended 365 days after it was issued, and
    nothing renews it: a proxy that runs longer serves an expired
    certificate. *)
Theorem cached_leaf_outlives_validity m t now key domain cfg m1 later m2 key' :
  t ≤ now → mitm_cache m !! domain = None → get_server_config m now key domain = (Ok cfg, m1) →
  serves now m1 later m2 → now + days 365 < later →
  get_server_config m2 later key' domain = (Ok cfg, m2) ∧ issued m domain now cfg ∧
  not_after (leaf_params domain now) < later.
Proof.
  intros Ht Hn Hg Hs Hl. pose proof (get_server_config_cached _ _ _ _ _ _ Hg) as [Hc Hnew]. split_and!.
  - unfold get_server_config. by rewrite (serves_keeps _ _ _ _ _ _ Hs Hc).
  - destruct (Hnew domain cfg Hc) as [Hm|(_ & _ & Hi)]; [congruence|done].
  - cbn. lia.
Qed.

(** ** Disk *)

(** The PEM and DER encodings invert, and the texts are UTF-8. *)
Record pki_roundtrips : Prop := {
  key_roundtrip k : key_of_pem (key_to_pem k) = Ok k ∧ utf8_valid (key_to_pem k) = true;
  cert_roundtrip c : certs_of_pem (cert_to_pem c) = Ok [cert_der c] ∧ utf8_valid (cert_to_pem c) = true;
  der_roundtrip p k c : self_signed p k = Ok c → ∃ p' c', params_of_der (cert_der c) = Ok p' ∧ self_signed p' k = Ok c'
}.

Lemma load_of_files s key_path cert_path k c p' c' :
  pki_roundtrips → s !! key_path = Some (File (key_to_pem k)) → s !! cert_path = Some (File (cert_to_pem c)) →
  params_of_der (cert_der c) = Ok p' → self_signed p' k = Ok c' →
  mitm_load key_path cert_path s = Ok (mk_mitm (cert_der c) k c' ∅).
Proof.
  intros [Hk Hc _] H1 H2 H3 H4. destruct (Hk k) as [Hk1 Hk2], (Hc c) as [Hc1 Hc2].
  unfold mitm_load, read_string. rewrite H1, H2. unfold from_utf8. rewrite Hk2, Hc2, Hk1, Hc1. cbn [map_err]. rewrite H3. cbn [map_err]. by rewrite H4.
Qed.

Lemma generate_ok os io now key kp cp s m s' : kp ≠ cp → generate os io now key kp cp s = (Ok m, s') →
  ∃ k c, self_signed (ca_params now) k = Ok c ∧ m = mk_mitm (cert_der c) k c ∅ ∧
    s' !! kp = Some (File (key_to_pem k)) ∧ s' !! cp = Some (File (cert_to_pem c)).
Proof.
  intros Hne. unfold generate. destruct key as [k|]; [|done]. simpl.
  destruct (self_signed (ca_params now) k) as [c|] eqn:E; [|done]. simpl. unfold mbnd.
  destruct (fs_write _ _ cp _ s) as [[[]|] s1] eqn:W1; [|done].
  destruct (fs_write _ _ kp _ s1) as [[[]|] s2] eqn:W2; [|done]. intros [=]; subst.
  apply fs_write_ok in W1 as ->, W2 as ->. exists k, c. split_and!; [done|done|apply lookup_insert_eq|].
  rewrite lookup_insert_ne by done. apply lookup_insert_eq.
Qed.

Lemma ca_paths_differ os base : path_join (sep_of os) base CA_KEY_FILE ≠ path_join (sep_of os) base CA_CERT_FILE.
Proof. unfold path_join. by intros [=]%app_inv_head. Qed.

(** The CA survives a restart.  When the first start makes a CA, the next
    one loads it from disk: the same certificate, the one browsers were told
    to trust, ends every chain, and the same key signs the leaves. *)
Theorem ca_reloaded os io now key base s m s' now' key' :
  pki_roundtrips →
  path_exists s (path_join (sep_of os) base CA_KEY_FILE) && path_exists s (path_join (sep_of os) base CA_CERT_FILE)
    = false →
  new_in os io now key base s = (Ok m, s') →
  ∃ m', new_in os io now' key' base s' = (Ok m', s') ∧ ca_cert_der m' = ca_cert_der m ∧ ca_key_pair m' = ca_key_pair m.
Proof.
  intros Hr Hx. unfold new_in at 1, mbnd at 1, gets at 1. rewrite Hx. unfold mbnd at 1.
  destruct (fs_create_dir_all _ _ _ s) as [[[]|] s1]; [|done]. intros Hg.
  apply generate_ok in Hg as (k & c & Hs & -> & Hk & Hc); [|apply ca_paths_differ].
  destruct (der_roundtrip Hr _ _ _ Hs) as (p' & c' & Hp & Hc').
  exists (mk_mitm (cert_der c) k c' ∅). split; [|done].
  unfold new_in, mbnd, gets, path_exists. rewrite !bool_decide_true by (rewrite ?Hk, ?Hc; eauto). simpl.
  by rewrite (load_of_files _ _ _ k c p' c').
Qed.
End mitm.

(** A toy library: keys and certificates are bytes, written in decimal. *)
Definition byte_text (b : byte) : bytes := fmt_uint (byte_val b).

Definition toy_pki : Pki := {|
  KeyPair := byte; Certificate := byte; Der := byte;
  key_of_pem s := match parse_uint 255 s with Some n => Ok (byte_of n) | None => Err (bs "bad key") end;
  key_to_pem := byte_text; cert_to_pem := byte_text; cert_der c := c;
  certs_of_pem s := match parse_uint 255 s with Some n => Ok [byte_of n] | None => Err (bs "bad PEM") end;
  params_of_der _ := Ok (ca_params 0);
  self_signed _ _ := Ok x07;
  signed_by _ _ _ _ := Ok x09;
  dns_name_error _ := None; single_cert_error _ _ := None |}.

Lemma toy_roundtrips : @pki_roundtrips toy_pki.
Proof. split; [intros []; by vm_compute|intros []; by vm_compute|intros p k c _; by exists (ca_params 0), x07]. Qed.

Definition fresh_host : Sys := {[ bs "/data" := Dir ]}.
Definition started_host : Sys := (new_in (H := toy_pki) (bs "linux") (λ _ _, None) 0 (Ok x2a) (bs "/data") fresh_host).2.

Lemma ca_reloaded_witness :
  started_host !! bs "/data/ca/ca.key" = Some (File (bs "42")) ∧
  ∃ m', new_in (H := toy_pki) (bs "linux") (λ _ _, None) 9 (Ok x01) (bs "/data") started_host = (Ok m', started_host) ∧
    ca_key_pair (H := toy_pki) m' = x2a.
Proof.
  split; [by vm_compute|].
  assert (H1 : path_exists fresh_host (path_join (sep_of (bs "linux")) (bs "/data") CA_KEY_FILE) &&
    path_exists fresh_host (path_join (sep_of (bs "linux")) (bs "/data") CA_CERT_FILE) = false) by by vm_compute.
  assert (H2 : new_in (H := toy_pki) (bs "linux") (λ _ _, None) 0 (Ok x2a) (bs "/data") fresh_host =
    (Ok (mk_mitm (H := toy_pki) x07 x2a x07 ∅), started_host)) by reflexivity.
  destruct (ca_reloaded (H := toy_pki) _ _ _ _ _ _ _ _ 9 (Ok x01) toy_roundtrips H1 H2) as (m' & Hm & _ & Hk).
  exists m'. split; [exact Hm|exact Hk].
Defined.

Definition demo_mitm : MitmCertManager (H := toy_pki) := mk_mitm (H := toy_pki) x07 x2a x07 ∅.
Definition demo_server : ServerConfig (H := toy_pki) := mk_server (H := toy_pki) [x09; x07] x01 [bs "http/1.1"].
Definition demo_mitm1 : MitmCertManager (H := toy_pki) :=
  mk_mitm (H := toy_pki) x07 x2a x07 (<[bs "a.example" := demo_server]> ∅).

Lemma cached_leaf_outlives_validity_witness :
  get_server_config (H := toy_pki) demo_mitm1 (days 400) (Ok x02) (bs "a.example") = (Ok demo_server, demo_mitm1).
Proof.
  assert (H1 : mitm_cache (H := toy_pki) demo_mitm !! bs "a.example" = None) by apply lookup_empty.
  assert (H2 : get_server_config (H := toy_pki) demo_mitm 0 (Ok x01) (bs "a.example") = (Ok demo_server, demo_mitm1)).
  { unfold get_server_config. by rewrite H1. }
  assert (H3 : get_server_config (H := toy_pki) demo_mitm1 (days 400) (Ok x02) (bs "a.example") = (Ok demo_server, demo_mitm1)).
  { unfold get_server_config. cbn [demo_mitm1 mitm_cache]. by rewrite lookup_insert_eq. }
  assert (Hl : 0 + days 365 < days 400) by (unfold days; lia).
  apply (cached_leaf_outlives_validity (H := toy_pki) demo_mitm 0 0 (Ok x01) (bs "a.example") demo_server demo_mitm1
           (days 400) demo_mitm1 (Ok x02) (Z.le_refl 0) H1 H2); [|exact Hl].
  apply (serves_step (H := toy_pki) 0 demo_mitm1 (days 400) (Ok x02) (bs "a.example") (Ok demo_server) demo_mitm1);
    [unfold days; lia|exact H3|constructor].
Defined.
