(* ===== verification/Main.v ===== *)
(** The program: src/src/main.rs, with the data directory
    (src/src/data_dir.rs), the descriptor limit (src/src/rlimit.rs), the
    relay test (src/src/test_cmd.rs) and the LAN helpers
    (src/src/lan_utils.rs).

    [main] is a computation on the machine of HostSystem that ends in an exit
    code; it composes the models of the configuration, the CA, the scanners
    and the start-up. *)
From Stdlib Require Import Strings.Byte.
From S2P Require Import Prelude RustBytes IpAddr Http Quota Routing ProxyHttp RelayWire RelayJson Config Startup HostSystem RustText ScanIps ScanSni CertInstall Mitm.

(** ** LAN helpers *)

Definition is_share_on_lan (listen_host : bytes) : bool :=
  existsb (λ w, bool_decide (trim listen_host = w)) [bs "0.0.0.0"; bs "[::]"; bs "::"].

Definition is_loopback_only (listen_host : bytes) : bool :=
  existsb (λ w, bool_decide (to_ascii_lowercase (trim listen_host) = w))
    [bs "127.0.0.1"; bs "localhost"; bs "::1"; bs "[::1]"].

(** The local address of the connected socket, if every call worked. *)
Definition detect_lan_ip (local : option IpAddr) : option IpAddr :=
  match local with
  | Some (IpV4 o) => if bool_decide (o = [x00; x00; x00; x00]) then None else Some (IpV4 o)
  | other => other
  end.

(** ** The descriptor limit *)

Record Rlimit := mk_rlimit { rlim_cur : Z; rlim_max : Z }.

(** [setrlimit], when the kernel agrees. *)
Definition setrlimit (allowed : Rlimit → bool) (rl now : Rlimit) : bool * Rlimit :=
  if allowed rl then (true, rl) else (false, now).

Definition DESIRED : Z := 65536.

(** The limits after [raise_nofile_limit_best_effort]: [now] are the present
    ones, [nr_open] the kernel's ceiling where it can be read. *)
Definition raise_nofile_limit (allowed : Rlimit → bool) (nr_open : option Z) (now : Rlimit) : Rlimit :=
  let original_soft := rlim_cur now in
  let original_hard := rlim_max now in
  let kernel_ceiling := default original_hard nr_open in
  let want_hard := Z.min (Z.max DESIRED original_hard) kernel_ceiling in
  let '(rl, now) :=
    if original_hard <? want_hard then
      match setrlimit allowed (mk_rlimit want_hard want_hard) now with
      | (true, now) => (mk_rlimit want_hard want_hard, now)
      | (false, now) => (mk_rlimit want_hard original_hard, now)
      end
    else (now, now) in
  let want_soft := Z.min DESIRED (rlim_max rl) in
  if original_soft <? want_soft then (setrlimit allowed (mk_rlimit want_soft (rlim_max rl)) now).2
  else now.

(** ** The data directory *)

(** [DATA_DIR_OVERRIDE]: the first [set_data_dir] wins. *)
Definition set_data_dir (path : bytes) (cell : option bytes) : option bytes :=
  match cell with Some p => Some p | None => Some path end.

Section program.
(** The machine, the libraries, and the platform's directory for the
    program's settings, which depends on the environment. *)
Context `{!Exec} `{!RelayFormats} `{!ConfigFormats} `{!Pki} (os : bytes) (io_error : bytes → bytes → option bytes)
  (to_lowercase : bytes → bytes) (url_parse : bytes → result Url bytes)
  (dns_response : bytes → option (option (list bytes))) (project_dir : Env → option bytes).

Definition sep : byte := sep_of os.

Definition data_dir (env : Env) (override : option bytes) : M bytes :=
  let dir := match override with Some p => p | None => default (bs ".") (project_dir env) end in
  let% _ := fs_create_dir_all sep io_error dir in mret dir.

Definition resolve_config_path (env : Env) (override : option bytes) (cli_arg : option bytes) : M bytes :=
  match cli_arg with
  | Some p => mret p
  | None =>
      let% dir := data_dir env override in
      let user_toml := path_join sep dir (bs "config.toml") in
      let user_json := path_join sep dir (bs "config.json") in
      gets (λ s, if path_exists s user_toml then user_toml
                 else if path_exists s user_json then user_json
                 else if path_exists s (bs "config.toml") then bs "config.toml"
                 else if path_exists s (bs "config.json") then bs "config.json"
                 else user_toml)
  end.

(** [Config::load] on the machine: its files are those of the machine, and a
    file it writes is written there. *)
Definition path_of (p : bytes) : Path :=
  match rsplit_once sep p with Some (d, n) => mk_path (d ++ [sep]) n | None => mk_path [] p end.

Definition fs_of (s : Sys) : Fs :=
  mk_fs (list_to_map (omap (λ e, match e.2 with File b => Some (path_of e.1, b) | Dir => None end) (map_to_list s)))
    (λ p, match (fs_write sep io_error (display_path p) [] s).1 with Err e => Some e | Ok _ => None end).

Definition sys_of (fs : Fs) (s : Sys) : Sys :=
  foldr (λ e s, <[display_path e.1 := File e.2]> s) s (map_to_list (files fs)).

Definition config_load (p : bytes) : M (result (Config * option bytes) ConfigError) := λ s,
  let '(r, fs) := Config.load (fs_of s) (path_of p) in (r, sys_of fs s).

(** ** The relay test *)

Definition TEST_URL : bytes := bs "https://api.ipify.org/?format=json".

(** The verdict on the relay's answer to the test request. *)
Definition test_verdict (resp : bytes) : bytes * bool :=
  let resp_str := from_utf8_lossy resp in
  let status_line := default [] (head (str_lines resp_str)) in
  let body := match find_sub header_sep resp_str with Some p => drop (p + 4) resp_str | None => resp_str end in
  let body_trunc := take_chars 500 body in
  if negb (contains status_line (bs "200 OK")) then
    (if contains status_line (bs "502") || contains status_line (bs "504")
     then bs "FAIL (gateway error). Likely: wrong Apps Script ID, bad AUTH_KEY, quota hit, or Google edge unreachable."
     else bs "FAIL (unexpected status).", false)
  else match value_of_json (trim body) with
       | Ok v =>
           let ip := default [] (let? x := value_get v (bs "ip") in as_str x) in
           if looks_like_ip ip then (bs "PASS: end-to-end verified (response IP = " ++ ip ++ bs ").", true)
           else (bs "SUSPECT: 200 OK with JSON, but no recognisable 'ip' field. Likely the Apps Script ran but the upstream fetch failed. Body preview: "
                   ++ body_trunc, false)
       | Err _ =>
           let lower := to_ascii_lowercase body_trunc in
           let html := contains body_trunc (bs "<!DOCTYPE") || contains body_trunc (bs "<html")
                       || contains lower (bs "sign in") || contains lower (bs "moved") in
           let reason := if html then bs "HTML returned instead of JSON. The Apps Script deployment may be deleted, not published to 'Anyone', or requires sign-in."
                         else bs "Non-JSON body returned." in
           (bs "SUSPECT: " ++ reason ++ [x0a] ++ bs "body preview: " ++ body_trunc, false)
       end.

Definition test_refusal (m : Mode) : option bytes :=
  match m with
  | Direct => Some (bs "`mhrv-rs test` probes the Apps Script relay, which isn't wired up in direct mode. Run `mhrv-rs test-sni` to check the SNI-rewrite tunnel instead.")
  | Full => Some (bs "`mhrv-rs test` is wired only for the apps_script relay path. In full mode the data plane is the pipelined tunnel mux talking to your tunnel-node " ++ [xe2; x80; x94] ++ bs " Test Relay would bypass that and probe Apps Script directly, which is misleading. To verify full mode end-to-end, start the proxy and load https://whatismyipaddress.com in your browser via 127.0.0.1:8085 (HTTP) or :8086 (SOCKS5) " ++ [xe2; x80; x94] ++ bs " the IP shown should be your tunnel-node's VPS IP. Tracking a real Full-mode test in #160.")
  | AppsScript => None
  end.

(** The last line printed and the result; [resp] is what the fronter answers
    to the request for [TEST_URL]. *)
Definition test_run (c : Config) (secs : Z) (file : option QuotaState) (io : bool) (resp : DomainFronter → bytes)
    : bytes * bool :=
  match (match mode_kind c with Ok m => test_refusal m | Err _ => None end) with
  | Some msg => (msg, false)
  | None =>
      match fronter_new c secs file io with
      | Err e => (bs "FAIL: could not create fronter: " ++ display e, false)
      | Ok f => test_verdict (resp f)
      end
  end.

(** ** The command line *)

Inductive Command := Serve | TestCmd | ScanIpsCmd | TestSniCmd | ScanSniCmd.

Record Args := mk_args {
  config_path : option bytes; install_cert : bool; remove_cert : bool; no_cert_check : bool; command : Command
}.

(** Parsed, refused with a message, or answered at once (help, version). *)
Inductive Parsed := Run (a : Args) | Refused (e : bytes) | Answered.

Definition subcommand (first : bytes) : option Command :=
  if bool_decide (first = bs "test") then Some TestCmd
  else if bool_decide (first = bs "scan-ips") then Some ScanIpsCmd
  else if bool_decide (first = bs "scan-sni") then Some ScanSniCmd
  else if bool_decide (first = bs "test-sni") then Some TestSniCmd
  else None.

Definition among (arg : bytes) (names : list bytes) : bool := existsb (λ n, bool_decide (arg = n)) names.

Definition finish_args (a : Args) : Parsed :=
  if install_cert a && remove_cert a then Refused (bs "--install-cert and --remove-cert cannot be combined") else Run a.

Fixpoint parse_flags (raw : list bytes) (a : Args) : Parsed :=
  match raw with
  | [] => finish_args a
  | arg :: rest =>
      if among arg [bs "-h"; bs "--help"; bs "-V"; bs "--version"] then Answered
      else if among arg [bs "-c"; bs "--config"] then
        match rest with
        | [] => Refused (bs "--config needs a path")
        | v :: rest => parse_flags rest (mk_args (Some v) (install_cert a) (remove_cert a) (no_cert_check a) (command a))
        end
      else if among arg [bs "--install-cert"] then
        parse_flags rest (mk_args (config_path a) true (remove_cert a) (no_cert_check a) (command a))
      else if among arg [bs "--remove-cert"] then
        parse_flags rest (mk_args (config_path a) (install_cert a) true (no_cert_check a) (command a))
      else if among arg [bs "--no-cert-check"] then
        parse_flags rest (mk_args (config_path a) (install_cert a) (remove_cert a) true (command a))
      else Refused (bs "unknown argument: " ++ arg)
  end.

Definition parse_args (raw : list bytes) : Parsed :=
  match raw with
  | first :: rest =>
      match subcommand first with
      | Some cmd => parse_flags rest (mk_args None false false false cmd)
      | None => parse_flags raw (mk_args None false false false Serve)
      end
  | [] => finish_args (mk_args None false false false Serve)
  end.

(** ** [main] *)

(** How the process ends: an exit code (101 is a panic) and its last
    message, or never. *)
Inductive Exit := Exits (code : Z) (msg : bytes) | Runs.

Definition of_bool (ok : bool) : Exit := Exits (if ok then 0 else 1) [].

(** What the world contributes to a run: the environment, the directory
    override, clock, entropy and quota file, what the commands meet on the
    network, and how the server ends (Ctrl+C is no error). *)
Record Inputs := mk_inputs {
  in_env : Env; in_override : option bytes; in_now : Z; in_key : result KeyPair bytes; in_quota : option QuotaState;
  in_quota_io : bool; in_relay : DomainFronter → bytes; in_world : World; in_sni : nat → SniNet;
  in_dns : nat → bytes → bytes → Fetch; in_dpi : nat → Net; in_server : option bytes
}.

Definition run_command (i : Inputs) (c : Config) (cmd : Command) : option Exit :=
  match cmd with
  | Serve => None
  | TestCmd => Some (let '(msg, ok) := test_run c (in_now i) (in_quota i) (in_quota_io i) (in_relay i) in
                     Exits (if ok then 0 else 1) msg)
  | ScanIpsCmd =>
      Some match ScanIps.run to_lowercase sni_error (in_world i) c with
           | Some (_, ok) => of_bool ok
           | None => Exits 101 []
           end
  | ScanSniCmd =>
      Some match discover_snis_from_google_ips to_lowercase sni_error url_parse dns_response (in_world i) (in_dns i)
                   (in_dpi i) c with
           | Finished _ ok => of_bool ok
           | Panics => Exits 101 []
           | NeverEnds => Runs
           end
  | TestSniCmd => Some (of_bool (test_sni sni_error c (in_sni i)).2)
  end.

Definition display_install_error (e : InstallError) : bytes :=
  match e with
  | NotFound p => bs "certificate file not found: " ++ p
  | InstallFailed => bs "install failed on this platform"
  | Unsupported o => bs "unsupported platform: " ++ o
  | InstallIo p e => bs "io " ++ p ++ bs ": " ++ e
  | RemovalIncomplete => bs "CA still trusted after removal " ++ [xe2; x80; x94] ++ bs " re-run with admin/sudo"
  end.

Definition display_mitm_error (e : MitmError) : bytes :=
  match e with
  | MIo e => bs "io: " ++ e
  | MRcgen e => bs "rcgen: " ++ e
  | MRustls e => bs "rustls: " ++ e
  | MPem e => bs "pem parse: " ++ e
  | MInvalid e => bs "invalid cert/key material: " ++ e
  end.

(** The CA file of the data directory. *)
Definition ca_path (base : bytes) : bytes := path_join sep base CA_CERT_FILE.

Definition main_remove (i : Inputs) (env : Env) : M Exit :=
  let% base := data_dir env (in_override i) in
  let% r := remove_ca os io_error env to_lowercase base in
  mret match r with
       | Ok o => Exits 0 (removal_summary o)
       | Err e => Exits 1 (bs "remove failed: " ++ display_install_error e)
       end.

Definition main_install (i : Inputs) (env : Env) : M Exit :=
  let% base := data_dir env (in_override i) in
  let% m := new_in os io_error (in_now i) (in_key i) base in
  match m with
  | Err e => mret (Exits 1 (bs "failed to initialize CA: " ++ display_mitm_error e))
  | Ok _ =>
      let% r := install_ca os io_error env (ca_path base) in
      mret match r with
           | Ok _ => Exits 0 []
           | Err e => Exits 1 (bs "install failed: " ++ display_install_error e)
           end
  end.

(** Trust the CA unless told not to, or in full mode, where it is not
    needed; a failure is only logged. *)
Definition ensure_trusted (env : Env) (a : Args) (mode : Mode) (ca : bytes) : M unit :=
  if no_cert_check a || bool_decide (mode = Full) then mret tt
  else
    let% trusted := is_ca_trusted os to_lowercase ca in
    if trusted then mret tt else let% _ := install_ca os io_error env ca in mret tt.

Definition main_serve (i : Inputs) (env : Env) (a : Args) (c : Config) : M Exit :=
  match mode_kind c with
  | Err e => mret (Exits 1 (bs "config: " ++ display_config_error e))
  | Ok mode =>
      let% base := data_dir env (in_override i) in
      let% m := new_in os io_error (in_now i) (in_key i) base in
      match m with
      | Err e => mret (Exits 1 (bs "failed to init MITM CA: " ++ display_mitm_error e))
      | Ok _ =>
          let% _ := ensure_trusted env a mode (ca_path base) in
          match proxy_new sni_error c (in_now i) (in_quota i) (in_quota_io i) with
          | Err e => mret (Exits 1 (bs "failed to build proxy server: " ++ e))
          | Ok _ => mret match in_server i with
                         | Some e => Exits 1 (bs "server error: " ++ e)
                         | None => Exits 0 []
                         end
          end
      end
  end.

Definition main (unix : bool) (i : Inputs) (raw : list bytes) : M Exit :=
  let% env := reconcile_sudo_environment unix (in_env i) in
  match parse_args raw with
  | Answered => mret (Exits 0 [])
  | Refused e => mret (Exits 2 e)
  | Run a =>
      if remove_cert a then main_remove i env
      else if install_cert a then main_install i env
      else
        let% p := resolve_config_path env (in_override i) (config_path a) in
        let% r := config_load p in
        match r with
        | Err e => mret (Exits 1 (display_config_error e))
        | Ok (c, _) =>
            match run_command i c (command a) with
            | Some e => mret e
            | None => main_serve i env a c
            end
        end
  end.
End program.

(** ** The limit only rises *)

(** Raising the descriptor limit never lowers it: whatever the kernel
    refuses, the soft and the hard limit end at least where they were, with
    the soft one within the hard one; and when nothing is refused the soft
    limit reaches 65536, or the kernel's ceiling if that is lower. *)
Theorem nofile_limit_only_rises allowed nr_open now :
  0 ≤ rlim_cur now ≤ rlim_max now →
  let after := raise_nofile_limit allowed nr_open now in
  rlim_cur now ≤ rlim_cur after ≤ rlim_max after ∧ rlim_max now ≤ rlim_max after ∧
  ((∀ r, allowed r = true) → Z.min DESIRED (Z.max (rlim_max now) (default (rlim_max now) nr_open)) ≤ rlim_cur after).
Proof.
  intros Hn after. unfold after, raise_nofile_limit, setrlimit.
  destruct now as [soft hard]. cbn [rlim_cur rlim_max] in *. set (c := default hard nr_open).
  destruct (Z.ltb_spec hard (Z.min (Z.max DESIRED hard) c)) as [H1|H1];
    [destruct (allowed (mk_rlimit _ _)) eqn:E1|]; cbn [rlim_cur rlim_max];
    (match goal with |- context [soft <? ?w] => destruct (Z.ltb_spec soft w) as [H2|H2] end);
    try (match goal with |- context [allowed ?r] => destruct (allowed r) eqn:E2 end); cbn [rlim_cur rlim_max snd] in *;
    (split; [lia|]); (split; [lia|]); intros Ha; try (by rewrite Ha in E1); try (by rewrite Ha in E2); lia.
Qed.

Lemma nofile_limit_only_rises_witness :
  raise_nofile_limit (λ _, true) (Some 1048576) (mk_rlimit 1024 4096) = mk_rlimit 65536 65536 ∧
  1024 ≤ rlim_cur (raise_nofile_limit (λ _, false) None (mk_rlimit 1024 4096)).
Proof.
  split; [done|]. apply (nofile_limit_only_rises (λ _, false) None (mk_rlimit 1024 4096)). simpl. lia.
Defined.

(** ** The command line *)

Lemma parse_flags_exclusive raw a a' : parse_flags raw a = Run a' → install_cert a' && remove_cert a' = false.
Proof.
  assert (Hf : ∀ a, finish_args a = Run a' → install_cert a' && remove_cert a' = false).
  { intros b. unfold finish_args. destruct (install_cert b && remove_cert b) eqn:E; [done|]. by intros [= <-]. }
  revert a. induction raw as [raw IH] using (induction_ltof1 _ (@length bytes)). unfold ltof in IH.
  intros a. destruct raw as [|arg rest]; [apply Hf|]. cbn [parse_flags].
  repeat case_if; try done; try (apply IH; simpl; lia).
  destruct rest as [|v rest]; [done|]. apply IH. simpl. lia.
Qed.

(** A run never both installs and removes. *)
Lemma parse_args_exclusive raw a : parse_args raw = Run a → install_cert a && remove_cert a = false.
Proof.
  unfold parse_args. destruct raw as [|first rest]; [by intros [= <-]|].
  destruct (subcommand first); apply parse_flags_exclusive.
Qed.

(** ** Starting *)

Section start.
Context `{!Exec} `{!RelayFormats} `{!ConfigFormats} `{!Pki} (os : bytes) (io_error : bytes → bytes → option bytes)
  (to_lowercase : bytes → bytes) (url_parse : bytes → result Url bytes)
  (dns_response : bytes → option (option (list bytes))) (project_dir : Env → option bytes).

Lemma load_json_validated fs p c msg fs' :
  load_json_and_migrate fs p = (Ok (c, msg), fs') → validate sni_error c = Ok tt.
Proof.
  unfold load_json_and_migrate. destruct (read_to_string fs p); [|done]. destruct (json_document _); [|done].
  destruct (de_config _); [|done]. destruct (validate sni_error _) as [[]|] eqn:E; [|done].
  destruct (migrate _ _ _). by intros [=]; subst.
Qed.

Lemma load_toml_validated fs p c : load_toml fs p = Ok c → validate sni_error c = Ok tt.
Proof.
  unfold load_toml. destruct (read_to_string fs p); [|done]. destruct (toml_document _); [|done].
  destruct (de_toml _); [|done]. destruct (validate sni_error _) as [[]|] eqn:E; [|done]. by intros [= <-].
Qed.

(** Whatever the file and its format, a configuration that is loaded is a
    valid one. *)
Lemma load_validated fs p c msg fs' : Config.load fs p = (Ok (c, msg), fs') → validate sni_error c = Ok tt.
Proof.
  unfold Config.load. intros Hl. destruct (load_toml fs p) as [t|] eqn:Ht;
    repeat (case_bool_decide; [by simplify_eq; eauto using load_json_validated, load_toml_validated|]).
  - simplify_eq. eauto using load_toml_validated.
  - destruct (load_json_and_migrate fs p) as [[[c' m]|] fs1] eqn:Hj; simplify_eq; eauto using load_json_validated.
Qed.

Lemma config_load_validated p s c w s' :
  config_load os io_error p s = (Ok (c, w), s') → validate sni_error c = Ok tt.
Proof.
  unfold config_load. destruct (Config.load _ _) as [r fs] eqn:E. intros [=]; subst. by eapply load_validated.
Qed.

(** Validated settings build a server in any mode. *)
Lemma proxy_new_total c secs file io : validate sni_error c = Ok tt →
  ∃ ps, proxy_new sni_error c secs file io = Ok ps.
Proof.
  intros Hv. destruct (validate_split _ _ Hv) as (m & Hm & Hr & _ & Hg).
  destruct (validate_groups_resolve _ _ _ Hg) as (rs & Hrs & _). unfold proxy_new. rewrite Hm, Hrs.
  destruct (decide (m = Direct)) as [->|Hd]; [eauto|].
  destruct (fronter_new_ready c secs file io (Hr Hd)) as (f & -> & _). destruct m; [eauto|done|eauto].
Qed.

(** How the server's end becomes the process's. *)
Definition server_exit (i : Inputs) : Exit :=
  match in_server i with Some e => Exits 1 (bs "server error: " ++ e) | None => Exits 0 [] end.

Definition ca_failure (e : Exit) : Prop :=
  ∃ err, e = Exits 1 (bs "failed to init MITM CA: " ++ display_mitm_error err).

Lemma main_serve_outcomes i env a c s : validate sni_error c = Ok tt →
  let e := (main_serve os io_error to_lowercase project_dir i env a c s).1 in e = server_exit i ∨ ca_failure e.
Proof.
  intros Hv e. unfold e, main_serve. destruct (validate_split _ _ Hv) as (m & -> & _).
  destruct (proxy_new_total c (in_now i) (in_quota i) (in_quota_io i) Hv) as [ps Hps]. unfold mbnd.
  destruct (data_dir _ _ _ _ _ s) as [base s1]. destruct (new_in _ _ _ _ _ s1) as [[mm|err] s2]; [|right; by exists err].
  destruct (ensure_trusted _ _ _ _ _ _ _ s2) as [[] s3]. rewrite Hps. by left.
Qed.

(** How a start of the proxy can end.  Whatever the machine, its files and
    the programs on it, a run without a subcommand and without a certificate
    flag ends because the configuration cannot be loaded, because the CA
    cannot be set up, or the way the server ends: settings that load always
    build a server, in every mode. *)
Theorem start_outcomes unix i raw a s :
  parse_args raw = Run a → remove_cert a = false → install_cert a = false → command a = Serve →
  let e := (main os io_error to_lowercase url_parse dns_response project_dir unix i raw s).1 in
  e = server_exit i ∨ ca_failure e ∨ ∃ err, e = Exits 1 (display_config_error err).
Proof.
  intros Hp Hr Hi Hc. destruct (main _ _ _ _ _ _ unix i raw s) as [e s'] eqn:Hm. cbn zeta. cbn [fst].
  unfold main in Hm. rewrite Hp in Hm. unfold mbnd in Hm.
  destruct (reconcile_sudo_environment unix (in_env i) s) as [env s1]. rewrite Hr, Hi in Hm.
  destruct (resolve_config_path _ _ _ _ _ _ s1) as [p s2].
  destruct (config_load os io_error p s2) as [[[c w]|err] s3] eqn:El.
  2: { injection Hm as <- _. right; right. by exists err. }
  rewrite Hc in Hm. cbn [run_command] in Hm. apply config_load_validated in El.
  pose proof (main_serve_outcomes i env a c s3 El) as Ho. rewrite Hm in Ho. cbn [fst] in Ho. tauto.
Qed.

(** In full mode no program is started: whatever the programs on the machine
    would do, the proxy starts the same way. *)
Lemma full_mode_starts_no_program (exec1 exec2 : Exec) i env a c s : mode_kind c = Ok Full →
  main_serve (H := exec1) os io_error to_lowercase project_dir i env a c s =
  main_serve (H := exec2) os io_error to_lowercase project_dir i env a c s.
Proof.
  intros Hm. unfold main_serve. rewrite Hm. unfold mbnd. destruct (data_dir _ _ _ _ _ s) as [base s1].
  destruct (new_in _ _ _ _ _ s1) as [[mm|err] s2]; [|done]. unfold ensure_trusted.
  rewrite bool_decide_true by done. by rewrite orb_true_r.
Qed.
End start.

(** A machine with a config.toml in the data directory. *)
Definition start_host : Sys := list_to_map [(bs "/d", Dir); (bs "/d/config.toml", File (bs "doc"))].

Definition start_inputs : Inputs (H2 := toy_pki) :=
  mk_inputs (H2 := toy_pki) demo_env (Some (bs "/d")) 0 (Ok x2a) None true (λ _, []) scan_world
    (λ _, mk_sni_net Elapsed (mk_net Elapsed Elapsed false Elapsed 0)) (λ _ _ _, mk_fetch Elapsed Elapsed None None)
    (λ _, mk_net Elapsed Elapsed false Elapsed 0) None.

Lemma start_outcomes_witness :
  let e := (main (H := quiet_exec) (H0 := toy_relay_formats demo_envelope Null) (H1 := sample_formats) (H2 := toy_pki)
     (bs "linux") (λ _ _, None) to_ascii_lowercase (λ _, Err []) (λ _, None) (λ _, None) true start_inputs
     [bs "--no-cert-check"] start_host).1 in
  parse_args [bs "--no-cert-check"] = Run (mk_args None false false true Serve) ∧ e = Exits 0 [] ∧
  (e = server_exit (H2 := toy_pki) start_inputs ∨ ca_failure e ∨ ∃ err, e = Exits 1 (display_config_error err)).
Proof.
  intros e. split; [done|]. split; [reflexivity|].
  apply (start_outcomes (H := quiet_exec) (H0 := toy_relay_formats demo_envelope Null) (H1 := sample_formats) (H2 := toy_pki)
    (bs "linux") (λ _ _, None) to_ascii_lowercase (λ _, Err []) (λ _, None) (λ _, None) true start_inputs
    [bs "--no-cert-check"] (mk_args None false false true Serve) start_host); done.
Defined.

(** Documentation and code of [is_share_on_lan] differ on an empty host. *)
Example empty_host_not_shared : is_share_on_lan [] = false ∧ is_share_on_lan (bs " ") = false.
Proof. split; by vm_compute. Qed.
