(* ===== verification/NodeWait.v ===== *)
(** Waiting for data on the tunnel node (tunnel-node/src/main.rs,
    [wait_for_any_drainable] and [wait_for_any_udp_drainable]).

    One session with its [Notify], its reader and the batches that wait on
    it, each through a watcher task; the steps are the atomic operations and
    critical sections.  [tokio::sync::Notify] is a class with the laws its
    documentation gives: [notify_one] wakes the first registered waiter or
    stores a single permit, [notified] consumes a stored permit or registers;
    a waiter that is dropped after it was chosen passes the notification
    on. *)
From S2P Require Import Prelude.

(** ** [Notify] *)

Class Notify := {
  notifier : Type;
  stored : notifier → bool;
  waiters : notifier → list nat;
  notify : notifier → option nat * notifier;
  register : nat → notifier → bool * notifier;
  unregister : nat → notifier → notifier;
  notify_wakes n w q : waiters n = w :: q →
    (notify n).1 = Some w ∧ waiters (notify n).2 = q ∧ stored (notify n).2 = stored n;
  notify_stores n : waiters n = [] →
    (notify n).1 = None ∧ waiters (notify n).2 = [] ∧ stored (notify n).2 = true;
  register_consumes w n : stored n = true →
    (register w n).1 = true ∧ waiters (register w n).2 = waiters n ∧ stored (register w n).2 = false;
  register_waits w n : stored n = false →
    (register w n).1 = false ∧ waiters (register w n).2 = waiters n ++ [w] ∧ stored (register w n).2 = false;
  unregister_forgets w n :
    waiters (unregister w n) = List.filter (λ x, negb (x =? w)%nat) (waiters n) ∧ stored (unregister w n) = stored n
}.

(** A permit and a queue satisfy the laws. *)
#[global, refine] Instance queue_notify : Notify := {|
  notifier := bool * list nat; stored := fst; waiters := snd;
  notify n := match n.2 with w :: q => (Some w, (n.1, q)) | [] => (None, (true, [])) end;
  register w n := if n.1 then (true, (false, n.2)) else (false, (n.1, n.2 ++ [w]));
  unregister w n := (n.1, List.filter (λ x, negb (x =? w)%nat) n.2)
|}.
Proof.
  - by intros [? ?] w q ->.
  - by intros [? ?] ->.
  - by intros w [? ?] ->.
  - by intros w [? ?] ->.
  - done.
Defined.

Section waiting.
Context {NT : Notify}.

(** ** The session *)

(** [amount] is the number of bytes in [read_buf], or of datagrams queued. *)
Record Session := mk_session { note : notifier; at_eof : bool; amount : Z }.

Definition permit (s : Session) : bool := stored (note s).
Definition queue (s : Session) : list nat := waiters (note s).

(** Between an append or the end of the stream and its [notify_one]. *)
Inductive ReaderPc := Reading | ToNotify | EofToNotify | Ended.

(** A watcher: before [notified()] is polled, registered, chosen by
    [notify_one], past it with the eof flag to load, with the buffer to lock,
    after [try_send], and aborted. *)
Inductive WatcherPc := WStart | WQueued | WChosen | WCheckEof | WCheckBuf | WSent | WDropped.

#[global] Instance watcher_pc_eq_dec : EqDecision WatcherPc.
Proof. solve_decision. Defined.

(** The waiting batch: [is_any_drainable]'s two looks at this session, the
    [select!], and past it. *)
Inductive BatchPc := BCheckEof | BCheckBuf | BSelect | BReturned.

Record Wait := mk_wait { session : Session; reader : ReaderPc; waits : list (BatchPc * WatcherPc) }.

Definition drainable (s : Session) : bool := at_eof s || (0 <? amount s).

(** ** Notifications *)

Definition set_watcher (w : nat) (pc : WatcherPc) (ws : list (BatchPc * WatcherPc)) : list (BatchPc * WatcherPc) :=
  match ws !! w with Some (b, _) => <[w := (b, pc)]> ws | None => ws end.

Definition set_batch (i : nat) (pc : BatchPc) (ws : list (BatchPc * WatcherPc)) : list (BatchPc * WatcherPc) :=
  match ws !! i with Some (_, w) => <[i := (pc, w)]> ws | None => ws end.

Definition with_note (n : notifier) (s : Session) : Session := mk_session n (at_eof s) (amount s).

Definition notify_one (s : Session) (ws : list (BatchPc * WatcherPc)) : Session * list (BatchPc * WatcherPc) :=
  let '(woken, n) := notify (note s) in
  (with_note n s, match woken with Some w => set_watcher w WChosen ws | None => ws end).

(** [notified().await] polled for the first time. *)
Definition poll_notified (w : nat) (s : Session) (ws : list (BatchPc * WatcherPc))
    : Session * list (BatchPc * WatcherPc) :=
  let '(ready, n) := register w (note s) in
  (with_note n s, set_watcher w (if ready then WCheckEof else WQueued) ws).

(** The watcher is aborted. *)
Definition drop_watcher (w : nat) (pc : WatcherPc) (s : Session) (ws : list (BatchPc * WatcherPc))
    : Session * list (BatchPc * WatcherPc) :=
  let ws := set_watcher w WDropped ws in
  match pc with
  | WQueued => (with_note (unregister w (note s)) s, ws)
  | WChosen => notify_one s ws
  | _ => (s, ws)
  end.

(** ** One operation *)

(** The reader. *)
Inductive reader_step : Wait → Wait → Prop :=
  | step_append s ws n :
      0 < n → reader_step (mk_wait s Reading ws) (mk_wait (mk_session (note s) (at_eof s) (amount s + n)) ToNotify ws)
  | step_notify s ws :
      reader_step (mk_wait s ToNotify ws) (let '(s, ws) := notify_one s ws in mk_wait s Reading ws)
  | step_eof s ws :
      reader_step (mk_wait s Reading ws) (mk_wait (mk_session (note s) true (amount s)) EofToNotify ws)
  | step_eof_notify s ws :
      reader_step (mk_wait s EofToNotify ws) (let '(s, ws) := notify_one s ws in mk_wait s Ended ws).

(** A watcher, and the batch it has signalled. *)
Inductive wake_step : Wait → Wait → Prop :=
  | step_poll s r ws w b :
      ws !! w = Some (b, WStart) → wake_step (mk_wait s r ws) (let '(s, ws) := poll_notified w s ws in mk_wait s r ws)
  | step_chosen s r ws w b :
      ws !! w = Some (b, WChosen) → wake_step (mk_wait s r ws) (mk_wait s r (set_watcher w WCheckEof ws))
  | step_check_eof s r ws w b :
      ws !! w = Some (b, WCheckEof) →
      wake_step (mk_wait s r ws) (mk_wait s r (set_watcher w (if at_eof s then WSent else WCheckBuf) ws))
  | step_check_buf s r ws w b :
      ws !! w = Some (b, WCheckBuf) →
      wake_step (mk_wait s r ws) (mk_wait s r (set_watcher w (if 0 <? amount s then WSent else WStart) ws))
  | step_woken s r ws i :
      ws !! i = Some (BSelect, WSent) → wake_step (mk_wait s r ws) (mk_wait s r (set_batch i BReturned ws)).

Inductive step : Wait → Wait → Prop :=
  | step_reader a b : reader_step a b → step a b
  | step_wake a b : wake_step a b → step a b
  (* a drain of any batch, in part or in full *)
  | step_drain s r ws n :
      0 ≤ n ≤ amount s → step (mk_wait s r ws) (mk_wait (mk_session (note s) (at_eof s) n) r ws)
  (* another batch starts to wait *)
  | step_join s r ws : step (mk_wait s r ws) (mk_wait s r (ws ++ [(BCheckEof, WStart)]))
  (* the first looks of a batch *)
  | step_look_eof s r ws i w :
      ws !! i = Some (BCheckEof, w) →
      step (mk_wait s r ws) (mk_wait s r (set_batch i (if at_eof s then BReturned else BCheckBuf) ws))
  | step_look_buf s r ws i w :
      ws !! i = Some (BCheckBuf, w) →
      step (mk_wait s r ws) (mk_wait s r (set_batch i (if 0 <? amount s then BReturned else BSelect) ws))
  (* the deadline, or another session of the batch *)
  | step_elapsed s r ws i w :
      ws !! i = Some (BSelect, w) → step (mk_wait s r ws) (mk_wait s r (set_batch i BReturned ws))
  | step_dropped s r ws i w :
      ws !! i = Some (BReturned, w) → w ≠ WDropped →
      step (mk_wait s r ws) (let '(s, ws) := drop_watcher i w s ws in mk_wait s r ws).

(** A stretch of a wait in which nothing is drained, no deadline comes and
    nobody joins: the reader's and the watcher's steps in any order; [k] of
    them are the watcher's and its batch's own. *)
Inductive quiet_run : nat → Wait → Wait → Prop :=
  | quiet_done st : quiet_run 0 st st
  | quiet_reader k a b c : reader_step a b → quiet_run k b c → quiet_run k a c
  | quiet_wake k a b c : wake_step a b → quiet_run k b c → quiet_run (S k) a c.

(** The three operations, by the laws. *)
Lemma notify_one_wakes s ws w q : queue s = w :: q → ∃ n,
  notify_one s ws = (with_note n s, set_watcher w WChosen ws) ∧ waiters n = q ∧ stored n = permit s.
Proof.
  intros (E & Hq & Hs)%notify_wakes. unfold notify_one. destruct (notify (note s)) as [o n]. simpl in *. subst. eauto.
Qed.

Lemma notify_one_stores s ws : queue s = [] → ∃ n,
  notify_one s ws = (with_note n s, ws) ∧ waiters n = [] ∧ stored n = true.
Proof.
  intros (E & Hq & Hs)%notify_stores. unfold notify_one. destruct (notify (note s)) as [o n]. simpl in *. subst. eauto.
Qed.

Lemma poll_consumes s ws w : permit s = true → ∃ n,
  poll_notified w s ws = (with_note n s, set_watcher w WCheckEof ws) ∧ waiters n = queue s ∧ stored n = false.
Proof.
  intros (E & Hq & Hs)%(register_consumes w). unfold poll_notified.
  destruct (register w (note s)) as [o n]. simpl in *. subst. eauto.
Qed.

Lemma poll_waits s ws w : permit s = false → ∃ n,
  poll_notified w s ws = (with_note n s, set_watcher w WQueued ws) ∧ waiters n = queue s ++ [w] ∧ stored n = false.
Proof.
  intros (E & Hq & Hs)%(register_waits w). unfold poll_notified.
  destruct (register w (note s)) as [o n]. simpl in *. subst. eauto.
Qed.

(** ** A batch that waits alone *)

Definition notify_pending (r : ReaderPc) : bool := match r with ToNotify | EofToNotify => true | _ => false end.

(** A wake-up is on its way to a watcher that is not looking yet. *)
Definition coming (s : Session) (r : ReaderPc) (w : WatcherPc) : Prop :=
  match w with
  | WStart | WCheckBuf => permit s = true ∨ notify_pending r = true
  | WQueued => notify_pending r = true
  | _ => True
  end.

Record sole (s : Session) (r : ReaderPc) (b : BatchPc) (w : WatcherPc) : Prop := {
  so_queue : queue s = match w with WQueued => [0%nat] | _ => [] end;
  so_dropped : b ≠ BReturned → w ≠ WDropped;
  so_eof : b ≠ BReturned → b ≠ BCheckEof → at_eof s = true → coming s r w;
  so_data : b = BSelect → 0 < amount s → w = WCheckBuf ∨ coming s r w
}.

Definition sole_inv (st : Wait) : Prop :=
  ∃ b w, waits st = [(b, w)] ∧ sole (session st) (reader st) b w.

Definition alone_step (a b : Wait) : Prop := step a b ∧ length (waits b) = 1%nat.

Lemma sole_notify s r r' b w :
  sole s r b w → sole_inv (let '(s, ws) := notify_one s [(b, w)] in mk_wait s r' ws).
Proof.
  intros [Hq Hd _ _]. destruct w; cbn [queue] in Hq.
  2: { destruct (notify_one_wakes s [(b, WQueued)] _ _ Hq) as (n & -> & Hn & _). exists b, WChosen. split; [done|].
       by constructor; simpl; auto. }
  all: match goal with |- context [notify_one ?x ?l] => destruct (notify_one_stores x l Hq) as (n & -> & Hn & Hs) end.
  all: eexists _, _; split; [reflexivity|]; constructor; try (exact Hn); auto; simpl; auto.
Qed.

Lemma sole_poll s r b :
  sole s r b WStart → sole_inv (let '(s, ws) := poll_notified 0 s [(b, WStart)] in mk_wait s r ws).
Proof.
  intros [Hq Hd He Ha]. destruct (permit s) eqn:Hp.
  - destruct (poll_consumes s [(b, WStart)] 0 Hp) as (n & -> & Hn & _). exists b, WCheckEof. split; [done|].
    constructor; simpl; auto. unfold queue. simpl. by rewrite Hn.
  - destruct (poll_waits s [(b, WStart)] 0 Hp) as (n & -> & Hn & _). exists b, WQueued. split; [done|].
    constructor; cbn [at_eof amount with_note session reader]; [unfold queue; simpl; by rewrite Hn, Hq|done|..].
    + intros H1 H2 H3. destruct (He H1 H2 H3); [congruence|done].
    + intros H1 H2. right. destruct (Ha H1 H2) as [E|[E|E]]; [discriminate|congruence|exact E].
Qed.

Lemma sole_drop s r w :
  sole s r BReturned w → sole_inv (let '(s, ws) := drop_watcher 0 w s [(BReturned, w)] in mk_wait s r ws).
Proof.
  intros [Hq _ _ _]. destruct w; unfold drop_watcher, set_watcher; cbn [lookup list_lookup insert list_insert] in *.
  2: { exists BReturned, WDropped. split; [done|]. constructor; try done. unfold queue in *. simpl.
       destruct (unregister_forgets 0 (note s)) as [-> _]. by rewrite Hq. }
  2: { destruct (notify_one_stores s [(BReturned, WDropped)] Hq) as (n & -> & Hn & _).
       by exists BReturned, WDropped. }
  all: by exists BReturned, WDropped.
Qed.

Lemma sole_reader st st' : sole_inv st → reader_step st st' → sole_inv st'.
Proof.
  intros (b & w & Hw & [Hq Hd He Ha]) Hst. destruct Hst; cbn [waits session reader] in *; subst ws.
  - exists b, w. split; [done|]. constructor; cbn [session reader waits queue at_eof amount]; auto.
    + intros H1 H2 H3. specialize (He H1 H2 H3). by destruct w; simpl in *; auto.
    + intros H1 _. right. destruct w; simpl; auto.
  - eapply sole_notify. by constructor.
  - exists b, w. split; [done|]. constructor; cbn [session reader waits queue at_eof amount]; auto.
    + intros _ _ _. destruct w; simpl; auto.
    + intros H1 H2. destruct (Ha H1 H2) as [->|Hc]; [by left|right]. by destruct w; simpl in *; auto.
  - eapply sole_notify. by constructor.
Qed.

Lemma sole_wake st st' : sole_inv st → wake_step st st' → sole_inv st'.
Proof.
  intros (b & w & Hw & [Hq Hd He Ha]) Hst.
  destruct Hst as [s r ws w0 b0 H|s r ws w0 b0 H|s r ws w0 b0 H|s r ws w0 b0 H|s r ws w0 H];
    cbn [waits session reader] in *; subst ws; (destruct w0; [|done]).
  - injection H as <- ->. eapply sole_poll. by constructor.
  - injection H as <- ->. exists b, WCheckEof. split; [done|]. constructor; simpl; auto.
  - injection H as <- ->. destruct (at_eof s) eqn:Eo.
    + exists b, WSent. split; [done|]. constructor; simpl; auto.
    + exists b, WCheckBuf. split; [done|]. constructor; cbn [reader session]; auto. congruence.
  - injection H as <- ->. destruct (Z.ltb_spec 0 (amount s)).
    + exists b, WSent. split; [done|]. constructor; simpl; auto.
    + exists b, WStart. split; [done|]. constructor; cbn [reader session]; auto. intros. lia.
  - injection H as -> ->. exists BReturned, WSent. split; [done|]. by constructor.
Qed.

Lemma sole_step st st' : sole_inv st → alone_step st st' → sole_inv st'.
Proof.
  intros Hi [Hst Hl]. destruct Hst as [a b Hst|a b Hst|s r ws n Hn|s r ws|s r ws i w0 H|s r ws i w0 H|s r ws i w0 H|s r ws i w0 H Hnd];
    [by eapply sole_reader|by eapply sole_wake|..];
    destruct Hi as (b & w & Hw & [Hq Hd He Ha]); cbn [waits session reader] in *; subst ws.
  - exists b, w. split; [done|]. constructor; cbn [session reader waits queue at_eof amount]; auto.
    intros H1 H2. apply Ha; [done|lia].
  - rewrite length_app in Hl. simpl in Hl. lia.
  - destruct i; [|done]. injection H as -> <-. destruct (at_eof s) eqn:Eo.
    + exists BReturned, w. split; [done|]. by constructor.
    + exists BCheckBuf, w. split; [done|]. constructor; cbn [reader session]; auto; congruence.
  - destruct i; [|done]. injection H as -> <-. destruct (Z.ltb_spec 0 (amount s)).
    + exists BReturned, w. split; [done|]. by constructor.
    + exists BSelect, w. split; [done|]. constructor; cbn [reader session]; auto. intros. lia.
  - destruct i; [|done]. injection H as -> <-. exists BReturned, w. split; [done|]. by constructor.
  - destruct i; [|done]. injection H as -> <-. eapply sole_drop. by constructor.
Qed.

Lemma sole_reachable s0 r0 st : queue s0 = [] →
  rtc alone_step (mk_wait s0 r0 [(BCheckEof, WStart)]) st → sole_inv st.
Proof.
  intros Hq. apply (rtc_ind_r (λ st, sole_inv st)); [|eauto using sole_step].
  exists BCheckEof, WStart. split; [done|]. by constructor.
Qed.

(** The steps a watcher has left before its batch returns. *)
Definition steps_left (s : Session) (w : WatcherPc) : nat :=
  match w with
  | WSent => 1
  | WCheckBuf => if 0 <? amount s then 2 else 7
  | WCheckEof => 3
  | WChosen => 4
  | WQueued => 5
  | WStart => 6
  | WDropped => 0
  end.

Lemma length_set_watcher w pc ws : length (set_watcher w pc ws) = length ws.
Proof. unfold set_watcher. destruct (ws !! w) as [[]|]; [apply length_insert|done]. Qed.

Lemma length_set_batch i pc ws : length (set_batch i pc ws) = length ws.
Proof. unfold set_batch. destruct (ws !! i) as [[]|]; [apply length_insert|done]. Qed.

(** What a notification changes: the notifier, and the program counter of a
    queued watcher. *)
Lemma notify_one_effect s ws :
  (∃ n, (notify_one s ws).1 = with_note n s) ∧ length (notify_one s ws).2 = length ws.
Proof.
  unfold notify_one. destruct (notify (note s)) as [[w|] n]; simpl; split; eauto. apply length_set_watcher.
Qed.

Lemma poll_effect w s ws :
  (∃ n, (poll_notified w s ws).1 = with_note n s) ∧ length (poll_notified w s ws).2 = length ws.
Proof.
  unfold poll_notified. destruct (register w (note s)) as [o n]. simpl. split; [eauto|]. apply length_set_watcher.
Qed.

(** Neither the reader nor a watcher takes data away or adds a batch. *)
Lemma quiet_step_keeps a b : reader_step a b ∨ wake_step a b →
  length (waits b) = length (waits a) ∧ (drainable (session a) = true → drainable (session b) = true).
Proof.
  unfold drainable. intros [Hst|Hst]; destruct Hst; simpl; rewrite ?length_set_watcher, ?length_set_batch; try done.
  - split; [done|]. intros [->|Hd]%orb_true_iff; [done|]. apply orb_true_iff. right. lia.
  - destruct (notify_one_effect s ws) as [[n Hs] Hl]. destruct (notify_one s ws) as [s' ws']. simpl in *. by subst.
  - destruct (notify_one_effect s ws) as [[n Hs] Hl]. destruct (notify_one s ws) as [s' ws']. simpl in *. by subst.
  - destruct (poll_effect w s ws) as [[n Hs] Hl]. destruct (poll_notified w s ws) as [s' ws']. simpl in *. by subst.
Qed.

(** The wait is over, or under way with something to find and at most [n]
    steps to go. *)
Definition waking (n : nat) (st : Wait) : Prop :=
  sole_inv st ∧ drainable (session st) = true ∧
  (waits st = [(BReturned, WSent)] ∨ ∃ w, waits st = [(BSelect, w)] ∧ (steps_left (session st) w ≤ n)%nat).

Lemma waking_step n m a b : waking n a → reader_step a b ∨ wake_step a b →
  (waits b = [(BReturned, WSent)] ∨ ∃ w, waits b = [(BSelect, w)] ∧ (steps_left (session b) w ≤ m)%nat) →
  waking m b.
Proof.
  intros (Hi & Hd & _) Hst Hw. destruct (quiet_step_keeps a b Hst) as [Hl Hdr].
  split_and!; [|by apply Hdr|done]. apply (sole_step a); [done|]. destruct Hi as (b0 & w0 & E & _).
  split; [destruct Hst; by constructor|]. by rewrite Hl, E.
Qed.

Lemma waking_reader n a b : waking n a → reader_step a b → waking n b.
Proof.
  intros Hw Hst. eapply waking_step; [exact Hw|by left|]. destruct Hw as ((b0 & w0 & E0 & Hs) & Hd & Hw).
  assert (Hn : ∀ s ws r, a = mk_wait s r ws →
    waits (let '(s, ws) := notify_one s ws in mk_wait s r ws) = [(BReturned, WSent)] ∨
    ∃ w, waits (let '(s, ws) := notify_one s ws in mk_wait s r ws) = [(BSelect, w)] ∧
      (steps_left (session (let '(s, ws) := notify_one s ws in mk_wait s r ws)) w ≤ n)%nat).
  { intros s ws r ->. cbn [waits session reader] in *. subst ws. destruct (decide (w0 = WQueued)) as [->|Hq].
    - destruct (notify_one_wakes s [(b0, WQueued)] _ _ (so_queue _ _ _ _ Hs)) as (m & -> & _).
      destruct Hw as [[=]|(w & [= -> <-] & Hl)]. right. exists WChosen. split; [done|]. simpl in *. lia.
    - assert (Hqe : queue s = []) by (rewrite (so_queue _ _ _ _ Hs); by destruct w0).
      by destruct (notify_one_stores s [(b0, w0)] Hqe) as (m & -> & _). }
  destruct Hst; cbn [waits session reader] in *.
  - destruct Hw as [|(w & -> & Hl)]; [by left|right]. exists w. split; [done|]. destruct w; simpl in *; try lia.
    destruct (0 <? amount s) eqn:E1, (0 <? amount s + n0) eqn:E2; lia.
  - specialize (Hn _ _ _ eq_refl). by destruct (notify_one s ws).
  - done.
  - specialize (Hn _ _ _ eq_refl). by destruct (notify_one s ws).
Qed.

Lemma waking_wake n a b : waking n a → wake_step a b → ∃ m, n = S m ∧ waking m b.
Proof.
  intros Hw Hst. enough (∃ m, n = S m ∧ (waits b = [(BReturned, WSent)] ∨
    ∃ w, waits b = [(BSelect, w)] ∧ (steps_left (session b) w ≤ m)%nat)) as (m & -> & Hb).
  { exists m. split; [done|]. eapply waking_step; [exact Hw|by right|done]. }
  destruct Hw as (_ & Hd & Hw). destruct Hst as [s r ws i b E|s r ws i b E|s r ws i b E|s r ws i b E|s r ws i E];
    cbn [waits session reader] in *; destruct Hw as [->|(w & -> & Hl)]; destruct i; simplify_eq/=;
    exists (pred n); (split; [try (destruct (0 <? amount s)); lia|]).
  - right. destruct (permit s) eqn:Hp.
    + destruct (poll_consumes s [(BSelect, WStart)] 0 Hp) as (m & -> & _). exists WCheckEof. split; [done|simpl; lia].
    + destruct (poll_waits s [(BSelect, WStart)] 0 Hp) as (m & -> & _). exists WQueued. split; [done|simpl; lia].
  - right. exists WCheckEof. split; [done|simpl; lia].
  - right. unfold drainable in Hd. destruct (at_eof s); [exists WSent; split; [done|simpl; lia]|].
    exists WCheckBuf. simpl in Hd. split; [done|]. simpl. rewrite Hd. lia.
  - right. destruct (0 <? amount s); [exists WSent|exists WStart]; (split; [done|simpl; lia]).
  - by left.
Qed.

Lemma quiet_run_waking k n a b : quiet_run k a b → waking n a → ∃ m, n = (k + m)%nat ∧ waking m b.
Proof.
  intros H. revert n. induction H as [st|k a b c Hst _ IH|k a b c Hst _ IH]; intros n Hn.
  - by exists n.
  - apply IH. by eapply waking_reader.
  - destruct (waking_wake _ _ _ Hn Hst) as (m & -> & Hm). destruct (IH m Hm) as (m' & -> & Hm'). by exists m'.
Qed.

(** A wait with something to find is over, goes on by itself, or is about to
    be notified. *)
Lemma waking_progress n st : waking n st →
  waits st = [(BReturned, WSent)] ∨ (∃ st', wake_step st st') ∨
  (waits st = [(BSelect, WQueued)] ∧ notify_pending (reader st) = true).
Proof.
  intros ((b & w & E & [_ Hdr He Ha]) & Hd & [Hw|(w' & Hw & _)]); [by left|right].
  rewrite Hw in E. injection E as <- <-. destruct st as [s r ws]. cbn [waits session reader] in *. subst ws.
  destruct w'.
  - left. eexists. by apply (step_poll _ _ _ 0 BSelect).
  - right. split; [done|]. unfold drainable in Hd. destruct (at_eof s); [by apply He|].
    simpl in Hd. destruct (Ha eq_refl ltac:(lia)) as [|Hc]; [done|exact Hc].
  - left. eexists. by apply (step_chosen _ _ _ 0 BSelect).
  - left. eexists. by apply (step_check_eof _ _ _ 0 BSelect).
  - left. eexists. by apply (step_check_buf _ _ _ 0 BSelect).
  - left. eexists. by apply (step_woken _ _ _ 0).
  - by destruct Hdr.
Qed.

(** C19: the long poll loses no wake-up.  A batch waits alone on a session, in
    its [select!], and the session can be drained.  From there the reader (which
    may append more, end, and notify) and the watcher run in any order, without
    the deadline and without a drain.  Then the watcher and its batch take at
    most seven steps, and are never stuck: after any such run the wait is over
    through the watcher's signal, or their next step is possible, or the watcher
    is registered and the notification it waits for is the reader's next step.
    This holds from every state that a lone batch reaches, through earlier
    drains and whatever stale permit the session had at first. *)
Theorem sole_waiter_woken s0 r0 st w k st' : queue s0 = [] →
  rtc alone_step (mk_wait s0 r0 [(BCheckEof, WStart)]) st →
  waits st = [(BSelect, w)] → drainable (session st) = true →
  quiet_run k st st' →
  (k ≤ 7)%nat ∧
  (waits st' = [(BReturned, WSent)] ∨ (∃ st'', wake_step st' st'') ∨
   (waits st' = [(BSelect, WQueued)] ∧ notify_pending (reader st') = true)).
Proof.
  intros Hq Hr Hw Hd Hk. assert (H0 : waking 7 st).
  { split_and!; [by eapply sole_reachable|done|]. right. exists w. split; [done|].
    destruct w; simpl; try lia. destruct (0 <? amount (session st)); lia. }
  destruct (quiet_run_waking _ _ _ _ Hk H0) as (m & Hm & Hst'). split; [lia|]. by eapply waking_progress.
Qed.

(** A batch that is past its wait leaves nobody behind: a notification its
    watcher had been given is passed on. *)
Lemma dropped_watcher_hands_on s r ws i w' b' :
  ws !! i = Some (BReturned, WChosen) → queue s = w' :: b' → ws !! w' = Some (BSelect, WQueued) → w' ≠ i →
  ∃ st', step (mk_wait s r ws) st' ∧ waits st' !! w' = Some (BSelect, WChosen).
Proof.
  intros Hi Hq Hw Hne. eexists. split; [by apply (step_dropped _ _ _ i WChosen)|]. unfold drop_watcher.
  destruct (notify_one_wakes s (set_watcher i WDropped ws) _ _ Hq) as (n & -> & _). cbn [waits]. unfold set_watcher.
  rewrite Hi. rewrite (list_lookup_insert_ne _ i w') by done. rewrite Hw. apply list_lookup_insert_eq.
  rewrite length_insert. by eapply lookup_lt_Some.
Qed.
End waiting.

(** A stale permit at first, then a chunk of ten bytes, and the rest of the
    wait. *)
Definition stale : Session := mk_session (true, []) false 0.
Definition woken_later : Wait := mk_wait (mk_session (true, []) false 10) Reading [(BSelect, WCheckBuf)].

Lemma sole_waiter_woken_witness :
  rtc alone_step (mk_wait stale Reading [(BCheckEof, WStart)]) woken_later ∧
  let st' := mk_wait (mk_session (true, []) false 10) Reading [(BReturned, WSent)] in
  quiet_run 2 woken_later st' ∧
  (2 ≤ 7)%nat ∧
  (waits st' = [(BReturned, WSent)] ∨ (∃ st'', wake_step st' st'') ∨
   (waits st' = [(BSelect, WQueued)] ∧ notify_pending (reader st') = true)).
Proof.
  assert (Hr : rtc alone_step (mk_wait stale Reading [(BCheckEof, WStart)]) woken_later).
  { eapply rtc_l; [split; [by apply (step_look_eof _ _ _ 0 WStart)|done]|].
    eapply rtc_l; [split; [by apply (step_look_buf _ _ _ 0 WStart)|done]|].
    eapply rtc_l; [split; [by apply step_wake, (step_poll _ _ _ 0 BSelect)|done]|].
    eapply rtc_l; [split; [by apply step_wake, (step_check_eof _ _ _ 0 BSelect)|done]|].
    eapply rtc_l; [split; [by apply step_reader, (step_append _ _ 10)|done]|]. simpl.
    eapply rtc_l; [split; [apply step_reader, step_notify|done]|]. reflexivity. }
  assert (Hk : quiet_run 2 woken_later (mk_wait (mk_session (true, []) false 10) Reading [(BReturned, WSent)])).
  { eapply quiet_wake; [by apply (step_check_buf _ _ _ 0 BSelect)|]. simpl.
    eapply quiet_wake; [by apply (step_woken _ _ _ 0)|]. constructor. }
  split; [done|]. split; [done|]. by apply (sole_waiter_woken stale Reading woken_later WCheckBuf 2).
Defined.

(** ** Two batches on one session

    [notify_one] wakes one watcher: when the batch it belongs to drains only
    part of the buffer, the other one goes on waiting for data that is there,
    and nothing but more data or its deadline ends that. *)
Lemma second_waiter_sleeps_on_data : ∃ s,
  rtc step (mk_wait (mk_session (false, []) false 0) Reading [(BCheckEof, WStart); (BCheckEof, WStart)])
           (mk_wait s Reading [(BReturned, WDropped); (BSelect, WQueued)]) ∧
  drainable s = true ∧ permit s = false.
Proof.
  exists (@mk_session queue_notify (false, [1%nat]) false 5). split; [|done].
  eapply rtc_l; [by apply (step_look_eof _ _ _ 0 WStart)|]. eapply rtc_l; [by apply (step_look_buf _ _ _ 0 WStart)|].
  eapply rtc_l; [by apply (step_look_eof _ _ _ 1 WStart)|]. eapply rtc_l; [by apply (step_look_buf _ _ _ 1 WStart)|].
  eapply rtc_l; [by apply step_wake, (step_poll _ _ _ 0 BSelect)|]. eapply rtc_l; [by apply step_wake, (step_poll _ _ _ 1 BSelect)|]. simpl.
  eapply rtc_l; [by apply step_reader, (step_append _ _ 10)|]. eapply rtc_l; [apply step_reader, step_notify|]. simpl.
  eapply rtc_l; [by apply step_wake, (step_chosen _ _ _ 0 BSelect)|]. eapply rtc_l; [by apply step_wake, (step_check_eof _ _ _ 0 BSelect)|].
  eapply rtc_l; [by apply step_wake, (step_check_buf _ _ _ 0 BSelect)|]. simpl.
  eapply rtc_l; [by apply step_wake, (step_woken _ _ _ 0)|]. simpl.
  eapply rtc_l; [apply (step_dropped _ _ _ 0 WSent); [done|done]|]. simpl.
  eapply rtc_l; [apply (step_drain _ _ _ 5); simpl; lia|]. reflexivity.
Qed.
