(* ===== verification/NodeMain.v ===== *)
(** The tunnel node's start (tunnel-node/src/main.rs, [main]): its settings
    from the environment, the empty tables, and the routes.

    axum is a library: a path it has no route for is answered 404, a path with
    another method 405, both with an empty body (its documentation). *)
From Stdlib Require Import Strings.Byte.
From S2P Require Import Prelude RustBytes Base64 NodeSession NodeHandlers.

(** ** Settings *)

(** An environment variable that is set, and is Unicode. *)
Definition EnvVars : Type := bytes → option bytes.

Definition auth_key_of (env : EnvVars) : bytes := default (bs "changeme") (env (bs "TUNNEL_AUTH_KEY")).

Definition port_of (env : EnvVars) : Z := default 8080 (let? p := env (bs "PORT") in parse_u16 p).

Definition diagnostic_of (env : EnvVars) : bool :=
  match env (bs "MHRV_DIAGNOSTIC") with
  | Some v => bool_decide (v = bs "1") || eq_ignore_ascii_case v (bs "true")
  | None => false
  end.

(** The state the server starts with. *)
Definition node_start (env : EnvVars) : AppState :=
  mk_app ∅ ∅ 0 ∅ ∅ ∅ ∅ ∅ (auth_key_of env) (diagnostic_of env).

(** ** Routes *)

Section routes.
(** The [Json] extractor: a request, or the status of its rejection. *)
Context `{!Base64} `{!WireFormats} (tunnel_json : bytes → result TunnelRequest Z).

Definition rejected (code : Z) : HttpResponse := mk_http code [] [].

Definition serve (op_env : OpEnv) (arrived : bytes * bool) (batch_env : BatchEnv) (method path body : bytes)
    (st : AppState) : HttpResponse * AppState :=
  let only m (k : HttpResponse * AppState) := if bool_decide (method = m) then k else (rejected 405, st) in
  if bool_decide (path = bs "/tunnel") then
    only (bs "POST") match tunnel_json body with
                     | Ok req => handle_tunnel op_env arrived req st
                     | Err code => (rejected code, st)
                     end
  else if bool_decide (path = bs "/tunnel/batch") then only (bs "POST") (handle_batch batch_env body st)
  else if bool_decide (path = bs "/health") then
    (* [get] also answers HEAD, without the body *)
    if bool_decide (method = bs "HEAD") then (mk_http 200 (bs "text/plain; charset=utf-8") [], st)
    else only (bs "GET") (mk_http 200 (bs "text/plain; charset=utf-8") (bs "ok"), st)
  else (rejected 404, st).

(** Only the two routes of the tunnel touch the state. *)
Lemma serve_elsewhere_inert op_env arrived batch_env method path body st :
  path ≠ bs "/tunnel" → path ≠ bs "/tunnel/batch" → (serve op_env arrived batch_env method path body st).2 = st.
Proof.
  intros H1 H2. unfold serve. rewrite !bool_decide_false by done. by repeat case_match.
Qed.

(** The decoy for a wrong key is told apart from the node's own answers: a
    path it does not serve has no body, and [/health] answers anybody. *)
Lemma decoy_unlike_the_rest op_env arrived batch_env st :
  diagnostic_mode st = false →
  body (decoy_or_unauthorized (diagnostic_mode st)) ≠ [] ∧
  body (serve op_env arrived batch_env (bs "GET") (bs "/") [] st).1 = [] ∧
  status (serve op_env arrived batch_env (bs "GET") (bs "/tunnel") [] st).1 = 405 ∧
  body (serve op_env arrived batch_env (bs "GET") (bs "/health") [] st).1 = bs "ok".
Proof. intros ->. split_and!; [by vm_compute|reflexivity..]. Qed.
End routes.

(** Without its variable the node accepts a key that is in its source; the
    variable of the old guides does not count. *)
Lemma default_key env : env (bs "TUNNEL_AUTH_KEY") = None → auth_key (node_start env) = bs "changeme".
Proof. unfold node_start, auth_key_of. simpl. by intros ->. Qed.
