(* ===== verification/MitmConn.v ===== *)
(** Intercepted TLS connections (src/src/proxy_server.rs):
    [run_mitm_then_relay] and [do_sni_rewrite_tunnel_from_tcp].

    The certificate cache is [Mitm]'s, the requests inside the connection are
    read by the keep-alive loop of [ProxyHttp]; what the two TLS handshakes
    and the connect do is an input. *)
From Stdlib Require Import Strings.Byte.
From S2P Require Import Prelude RustBytes IpAddr Http Ranges Routing ProxyHttp Mitm.

Section connections.
Context `{!Pki}.

(** What became of a connection: dropped, or served under a certificate. *)
Inductive Intercepted :=
  | Dropped
  | Served (host : bytes) (cfg : ServerConfig) (out : option bytes)
  | Bridged (ip sni : bytes) (cfg : ServerConfig).

(** [hello] is the peeked ClientHello with its server name; [accept] whether
    the handshake with a configuration succeeds. *)
Definition run_mitm_then_relay (relay : Call → Req → bytes) (failed : bool) (m : MitmCertManager) (now : Z)
    (key : result KeyPair bytes) (host : bytes) (port : Z) (hello : option (option bytes))
    (accept : ServerConfig → bool) (reads : list bytes) : Intercepted * MitmCertManager :=
  match hello with
  | None => (Dropped, m)
  | Some sni =>
      let effective := effective_host sni host in
      match get_server_config m now key effective with
      | (Err _, m) => (Dropped, m)
      | (Ok cfg, m) =>
          if accept cfg then
            (Served effective cfg (keepalive_loop relay failed (S (length reads)) effective port (bs "https") reads), m)
          else (Dropped, m)
      end
  end.

(** [connect] says whether the edge was reached within ten seconds, [outbound]
    whether its handshake with the name succeeds. *)
Definition sni_rewrite_tunnel (sni_error : bytes → option bytes) (ctx : RewriteCtx) (group : option FrontingGroupResolved)
    (m : MitmCertManager) (now : Z) (key : result KeyPair bytes) (host : bytes) (accept : ServerConfig → bool)
    (connect : bytes → bool) (outbound : bytes → bool) : Intercepted * MitmCertManager :=
  match sni_rewrite_target sni_error ctx host group with
  | None => (Dropped, m)
  | Some (target_ip, outbound_sni) =>
      match get_server_config m now key host with
      | (Err _, m) => (Dropped, m)
      | (Ok cfg, m) =>
          if accept cfg && connect target_ip && outbound outbound_sni then (Bridged target_ip outbound_sni cfg, m)
          else (Dropped, m)
      end
  end.

(** ** The certificate is for the host that is served *)

Lemma config_issued now m key domain cfg m' :
  cache_ok now m → get_server_config m now key domain = (Ok cfg, m') →
  cache_ok now m' ∧ ∃ t, t ≤ now ∧ issued m' domain t cfg.
Proof.
  intros Hok Hg. assert (Hok' : cache_ok now m') by (by eapply get_server_config_preserves). split; [done|].
  apply get_server_config_cached in Hg as [Hc _]. by apply Hok' in Hc.
Qed.

(** A served connection carries a certificate issued for the very host its
    requests are relayed to: the name in the client's hello when that is a
    name, the requested host otherwise.  The cache stays sound. *)
Lemma mitm_host_consistent relay failed m now key host port hello accept reads h cfg out m' :
  cache_ok now m →
  run_mitm_then_relay relay failed m now key host port hello accept reads = (Served h cfg out, m') →
  cache_ok now m' ∧ (∃ t, t ≤ now ∧ issued m' h t cfg) ∧
  out = keepalive_loop relay failed (S (length reads)) h port (bs "https") reads ∧
  ∃ sni, hello = Some sni ∧
    match sni with
    | Some name => (looks_like_ip name = false ∧ name ≠ [] → h = name) ∧ (looks_like_ip name = true ∨ name = [] → h = host)
    | None => h = host
    end.
Proof.
  intros Hok. unfold run_mitm_then_relay. destruct hello as [sni|]; [|done].
  destruct (get_server_config m now key (effective_host sni host)) as [[c|e] m1] eqn:Hg; [|done].
  destruct (accept c); [|done]. intros [=]; subst. destruct (config_issued _ _ _ _ _ _ Hok Hg) as [H1 H2].
  split_and!; [done|done|done|]. exists sni. split; [done|]. destruct sni as [name|]; [|done]. unfold effective_host.
  split.
  - intros [-> Hn]. by rewrite bool_decide_false.
  - intros [->| ->]; [done|]. rewrite bool_decide_true by done. by rewrite andb_false_r.
Qed.

(** A bridged connection goes to the group's edge or to Google's, under the
    certificate of the requested host. *)
Lemma sni_rewrite_consistent sni_error ctx group m now key host accept connect outbound ip sni cfg m' :
  cache_ok now m →
  sni_rewrite_tunnel sni_error ctx group m now key host accept connect outbound = (Bridged ip sni cfg, m') →
  cache_ok now m' ∧ (∃ t, t ≤ now ∧ issued m' host t cfg) ∧ connect ip = true ∧ outbound sni = true ∧
  match group with
  | Some g => ip = r_ip g ∧ sni = r_sni g
  | None => sni = front_domain ctx ∧ ip = default (google_ip ctx) (hosts_override (hosts ctx) host)
  end.
Proof.
  intros Hok. unfold sni_rewrite_tunnel. destruct (sni_rewrite_target sni_error ctx host group) as [[ip' sni']|] eqn:Ht; [|done].
  destruct (get_server_config m now key host) as [[c|e] m1] eqn:Hg; [|done].
  destruct (accept c && connect ip' && outbound sni') eqn:Hc; [|done]. intros [=]; subst. bool_to_prop.
  destruct (config_issued _ _ _ _ _ _ Hok Hg) as [H1' H2']. split_and!; [done|done|done|done|].
  unfold sni_rewrite_target in Ht. destruct group; [by injection Ht as <- <-|].
  destruct (sni_error _); [done|]. by injection Ht as <- <-.
Qed.
End connections.
