(* ===== verification/Server.v ===== *)
(** The running server: [ProxyServer::run] (src/src/proxy_server.rs) with the
    tasks it starts and stops, and [TunnelMux::start] with the multiplexer's
    front end for UDP (src/src/tunnel_client.rs).

    [run] up to its [select!] is a function of the server's settings and of
    the two binds; from there on the server is a step relation over its tasks,
    the clients they serve and the shutdown signal. *)
From Stdlib Require Import Strings.Byte.
From S2P Require Import Prelude RustBytes NodeHandlers Scripts Mux MuxState TunnelLoop Session Quota Routing ProxyHttp Relay Pool Config Startup.

(** ** The multiplexer *)

(** Durations in milliseconds. *)
Definition REPLY_TIMEOUT_SLACK : Z := 5000.
Definition REPLY_TIMEOUT : Z := 20000.

Record TunnelMux := mk_tunnel_mux {
  tm_shared : Shared;             (* connect_data_unsupported, unreachable_cache, preread counters *)
  tm_legacy : Legacy;
  tm_reply_timeout : Z;
  tm_elevated_sessions : Z;
  tm_max_elevated : Z;
  tm_coalesce_step_ms : Z;
  tm_coalesce_max_ms : Z;
  tm_rtt_tracker : option RttTracker
}.

(** [TunnelMux::start]; the batch timeout is clamped, so that the sum does not
    saturate. *)
Definition mux_start (fronter : DomainFronter) (coalesce_step_ms coalesce_max_ms : Z) (network_preset : option bytes)
    : TunnelMux :=
  let '(init_step, init_max, rtt_tracker) := initial_coalesce coalesce_step_ms coalesce_max_ms network_preset in
  let unique_n := Z.of_nat (size (list_to_set (ids (rs_scripts (df_relay fronter))) : gset bytes)) in
  {| tm_shared := mk_shared false ∅ (mk_prereads 0 0 0 0 0 0);
     tm_legacy := mk_legacy ∅ false unique_n;
     tm_reply_timeout := df_batch_timeout fronter + REPLY_TIMEOUT_SLACK;
     tm_elevated_sessions := 0;
     tm_max_elevated := MAX_ELEVATED_TOTAL;
     tm_coalesce_step_ms := init_step;
     tm_coalesce_max_ms := init_max;
     tm_rtt_tracker := rtt_tracker |}.

Definition is_adaptive (m : TunnelMux) : bool := bool_decide (is_Some (tm_rtt_tracker m)).

(** What a caller makes of its reply channel: the response, the batch's
    error, or a channel whose sender is gone. *)
Definition unwrap_reply (r : option (result (TunnelResponse * bytes) bytes)) : result TunnelResponse bytes :=
  match r with
  | Some (Ok (resp, _)) => Ok resp
  | Some (Err e) => Err e
  | None => Err (bs "mux channel closed")
  end.

Definition udp_open (host : bytes) (port : Z) (data : bytes) (reply : Channel) : MuxMsg := MUdpOpen host port data reply.
Definition udp_data (sid data : bytes) (reply : Channel) : MuxMsg := MUdpData sid data reply.
Definition close_session (sid : bytes) : MuxMsg := MClose sid.

(** ** The server's tasks *)

(** The tasks [run] starts, and those that go on starting: the HTTP/2 prewarm
    [warm] spawns, the driver of each HTTP/2 connection, the multiplexer's loop
    ([TunnelMux::start]) and each request it sends (a connect, or a batch). *)
Inductive Task :=
  | WarmUp (n : Z) | H2Prewarm | H2Driver (conn : nat)
  | KeepAlive | PoolRefill | StatsTick | SaveQuota | HttpAccept | SocksAccept
  | MuxLoop | MuxRequest (req : nat).

#[global] Instance Task_eq_dec : EqDecision Task.
Proof. solve_decision. Defined.

(** A task whose abort was requested is dropped at its next await. *)
Inductive Status := Alive | Aborting | Gone.

#[global] Instance Status_eq_dec : EqDecision Status.
Proof. solve_decision. Defined.

(** An accept loop: the count of descriptor errors and the clients in its
    [JoinSet]; a client that has ended stays in the set until it is reaped. *)
Record Accept := mk_accept { fd_exhaust_count : Z; children : list (nat * bool) }.

Record Server := mk_server {
  sv_mux : option TunnelMux;
  sv_tasks : Task → Status;
  sv_http : Accept;
  sv_socks : Accept;
  sv_returned : bool
}.

(** Nobody keeps the handle of these: the shutdown does not abort them. *)
Definition detached (t : Task) : bool :=
  match t with WarmUp _ | H2Prewarm | H2Driver _ | MuxLoop | MuxRequest _ => true | _ => false end.

(** [run] up to its [select!]: the mux in full mode, the two listeners, the
    tasks.  In direct mode the background tasks never do anything, and there
    is no warm-up.  A warm-up starts with its prewarm of HTTP/2. *)
Definition start_tasks (mux : option TunnelMux) (fronter : option DomainFronter) : Task → Status := λ t,
  match t, fronter with
  | WarmUp n, Some f => if bool_decide (n = warm_count (len (ids (rs_scripts (df_relay f))))) then Alive else Gone
  | H2Prewarm, Some _ => Alive
  | WarmUp _, None | H2Prewarm, None => Gone
  | MuxLoop, _ => match mux with Some _ => Alive | None => Gone end
  | H2Driver _, _ | MuxRequest _, _ => Gone
  | _, _ => Alive
  end.

Definition run_start (ps : ProxyServer) (bind : bytes → option bytes) : result Server bytes :=
  let mux := if bool_decide (mode (ps_ctx ps) = Full)
             then let? f := ps_fronter ps in
                  Some (mux_start f (ps_coalesce_step_ms ps) (ps_coalesce_max_ms ps) (ps_network_preset ps))
             else None in
  let http_addr := ps_host ps ++ bs ":" ++ fmt_uint (ps_port ps) in
  let socks_addr := ps_host ps ++ bs ":" ++ fmt_uint (ps_socks5_port ps) in
  match bind http_addr with
  | Some e => Err e
  | None =>
      match bind socks_addr with
      | Some e => Err e
      | None => Ok (mk_server mux (start_tasks mux (ps_fronter ps)) (mk_accept 0 []) (mk_accept 0 []) false)
      end
  end.

(** What [run] logs about the accounts at start and when they are all spent. *)
Definition startup_summary (now : Z) (t : QuotaTracker) : bytes :=
  let s := summary t in
  let reset_str := match sum_next_reset_at s with
                   | Some r => let secs := sat_sub r now in
                               bs "  next_reset=in " ++ fmt_uint (secs / 3600) ++ bs "h " ++
                               fmt_uint ((secs / 60) mod 60) ++ bs "m"
                   | None => []
                   end in
  let count := fmt_uint (exhausted_count s) ++ bs "/" ++ fmt_uint (account_count s) in
  let stop_suffix := if global_hard_stop s then bs "  exhausted=" ++ count ++ bs " HARD-STOP"
                     else if 0 <? exhausted_count s then bs "  exhausted=" ++ count else [] in
  bs "[quota] " ++ fmt_uint (account_count s) ++ bs " account(s)  capacity=" ++ fmt_uint (daily_capacity_total s) ++
  bs "/day  used=" ++ fmt_uint (requests_used_total s) ++ bs "  remaining=" ++
  fmt_uint (requests_remaining_total s) ++ reset_str ++ stop_suffix.

Definition exhaustion_details (t : QuotaTracker) : list bytes :=
  omap (λ sid, let? b := buckets (state t) !! sid in
               if hard_stopped b
               then Some (bs "[quota]   " ++ masked_id b ++ bs " exhausted: " ++
                          default (bs "no reason recorded") (exhaustion_reason b))
               else None) (script_ids t).

Definition quota_startup_summary (now : Z) (ps : ProxyServer) : option bytes :=
  let? f := ps_fronter ps in Some (startup_summary now (rs_quota (df_relay f))).

(** *** The statistics and save tasks, one tick each *)

Inductive TickLine :=
  | StatsLine (s : StatsSnapshot)
  | HardStop (accounts : Z)
  | Reason (line : bytes)
  | SomeExhausted (exhausted accounts used capacity remaining : Z).

(** Every fifteen seconds; [was] is whether the last tick saw the hard stop.
    The snapshot does not touch the tracker. *)
Definition stats_turn (secs : Z) (io was : bool) (df : DomainFronter) : list TickLine * bool * DomainFronter :=
  let '(s, df') := stats_tick secs io df in
  let q := ss_quota s in
  ((if (0 <? ss_relay_calls s) || (0 <? ss_cache_hits s) then [StatsLine s] else []) ++
   (if global_hard_stop q then
      HardStop (account_count q) :: (if was then [] else map Reason (exhaustion_details (rs_quota (df_relay df))))
    else if 0 <? exhausted_count q then
      [SomeExhausted (exhausted_count q) (account_count q) (requests_used_total q) (daily_capacity_total q)
         (requests_remaining_total q)]
    else []),
   global_hard_stop q, df').

(** Every second. *)
Definition save_tick (io : bool) (df : DomainFronter) : DomainFronter := with_relay (with_quota (save_if_needed io)) df.

(** ** Serving *)

Definition set_status (t : Task) (st : Status) (ts : Task → Status) : Task → Status :=
  λ t', if bool_decide (t' = t) then st else ts t'.

(** The tasks the shutdown arm aborts; [abort] of a task that has ended does
    nothing. *)
Definition abort_all (ts : Task → Status) : Task → Status := λ t,
  match t, ts t with
  | (SaveQuota | StatsTick | KeepAlive | PoolRefill | HttpAccept | SocksAccept), Alive => Aborting
  | _, st => st
  end.

(** The tasks that relay over HTTP/2, and may open a connection: the prewarm,
    the keep-alive and the clients of the accept loops.  Tunnel requests use
    HTTP/1.1. *)
Definition opens_h2 (t : Task) : bool :=
  match t with H2Prewarm | KeepAlive | HttpAccept | SocksAccept => true | _ => false end.

(** One turn of an accept loop: finished clients are reaped, then a client is
    taken or the error is waited out. *)
Definition reap (a : Accept) : list (nat * bool) := List.filter (λ c, negb c.2) (children a).

Definition accept_client (conn : nat) (a : Accept) : Accept := mk_accept 0 (reap a ++ [(conn, false)]).
Definition accept_failed (raw_os_error : option Z) (a : Accept) : Accept :=
  mk_accept (accept_backoff raw_os_error (fd_exhaust_count a)).1 (reap a).
Definition client_ended (conn : nat) (a : Accept) : Accept :=
  mk_accept (fd_exhaust_count a) (map (λ c, if bool_decide (c.1 = conn) then (c.1, true) else c) (children a)).

(** An accept loop that is dropped drops its [JoinSet], which aborts the
    clients in it. *)
Definition dropped_accept (t : Task) (this : Task) (a : Accept) : Accept :=
  if bool_decide (t = this) then mk_accept (fd_exhaust_count a) [] else a.

Inductive serve : Server → Server → Prop :=
  | sv_http_turn m ts h s r h' :
      ts HttpAccept ≠ Gone → (∃ conn, h' = accept_client conn h) ∨ (∃ e, h' = accept_failed e h) →
      serve (mk_server m ts h s r) (mk_server m ts h' s r)
  | sv_socks_turn m ts h s r s' :
      ts SocksAccept ≠ Gone → (∃ conn, s' = accept_client conn s) ∨ (∃ e, s' = accept_failed e s) →
      serve (mk_server m ts h s r) (mk_server m ts h s' r)
  | sv_http_ended m ts h s r conn : serve (mk_server m ts h s r) (mk_server m ts (client_ended conn h) s r)
  | sv_socks_ended m ts h s r conn : serve (mk_server m ts h s r) (mk_server m ts h (client_ended conn s) r)
  (* the warm-up is done; it waits for its prewarm *)
  | sv_warmed m ts h s r n :
      ts (WarmUp n) = Alive → ts H2Prewarm = Gone →
      serve (mk_server m ts h s r) (mk_server m (set_status (WarmUp n) Gone ts) h s r)
  (* an HTTP/2 connection is opened, the multiplexer sends a request *)
  | sv_h2_driver m ts h s r t n :
      opens_h2 t = true → ts t ≠ Gone → ts (H2Driver n) = Gone →
      serve (mk_server m ts h s r) (mk_server m (set_status (H2Driver n) Alive ts) h s r)
  | sv_mux_request m ts h s r n :
      ts MuxLoop = Alive → ts (MuxRequest n) = Gone →
      serve (mk_server m ts h s r) (mk_server m (set_status (MuxRequest n) Alive ts) h s r)
  (* the prewarm, a connection or a request is over *)
  | sv_done m ts h s r t :
      ts t = Alive → t = H2Prewarm ∨ (∃ n, t = H2Driver n) ∨ (∃ n, t = MuxRequest n) →
      serve (mk_server m ts h s r) (mk_server m (set_status t Gone ts) h s r)
  (* every sender of the multiplexer's channel is gone: [run]'s, and the accept
     loops' with those of their clients *)
  | sv_mux_closed m ts h s :
      ts MuxLoop = Alive → ts HttpAccept = Gone → ts SocksAccept = Gone →
      serve (mk_server m ts h s true) (mk_server m (set_status MuxLoop Gone ts) h s true)
  (* the shutdown signal *)
  | sv_shutdown m ts h s : serve (mk_server m ts h s false) (mk_server m (abort_all ts) h s true)
  (* an aborted task reaches an await *)
  | sv_dropped m ts h s r t :
      ts t = Aborting →
      serve (mk_server m ts h s r)
            (mk_server m (set_status t Gone ts) (dropped_accept t HttpAccept h) (dropped_accept t SocksAccept s) r)
  (* an accept loop panics, and [run] returns through its arm *)
  | sv_accept_died m ts h s r t :
      ts t = Alive → t = HttpAccept ∨ t = SocksAccept →
      serve (mk_server m ts h s r)
            (mk_server m (set_status t Gone ts) (dropped_accept t HttpAccept h) (dropped_accept t SocksAccept s) true).

(** ** Stopping *)

(** A loop that is gone has no clients, and only finitely many tasks run. *)
Record well_formed (sv : Server) : Prop := {
  wf_http : sv_tasks sv HttpAccept = Gone → children (sv_http sv) = [];
  wf_socks : sv_tasks sv SocksAccept = Gone → children (sv_socks sv) = [];
  wf_finite : ∃ l : list Task, ∀ t, sv_tasks sv t ≠ Gone → t ∈ l
}.

Lemma set_status_same t st ts : set_status t st ts t = st.
Proof. unfold set_status. by rewrite bool_decide_true. Qed.

Lemma set_status_other t st ts t' : t' ≠ t → set_status t st ts t' = ts t'.
Proof. intros Ht. unfold set_status. by rewrite bool_decide_false. Qed.

Lemma set_status_inv t st ts t' st' :
  set_status t st ts t' = st' → (t' = t ∧ st' = st) ∨ (t' ≠ t ∧ ts t' = st').
Proof. unfold set_status. case_bool_decide; auto. Qed.

Lemma dropped_accept_keeps t this a : children a = [] → children (dropped_accept t this a) = [].
Proof. unfold dropped_accept. by case_bool_decide. Qed.

Lemma dropped_accept_same t a : children (dropped_accept t t a) = [].
Proof. unfold dropped_accept. by rewrite bool_decide_true. Qed.

Lemma abort_all_inv ts t st : abort_all ts t = st → ts t = st ∨ (detached t = false ∧ ts t = Alive ∧ st = Aborting).
Proof. intros <-. unfold abort_all. destruct t; auto; destruct (ts _) eqn:E; auto. Qed.

(** A task that ends, with the clients of an accept loop. *)
Lemma well_formed_ended m ts h s r r' t :
  well_formed (mk_server m ts h s r) →
  well_formed (mk_server m (set_status t Gone ts) (dropped_accept t HttpAccept h) (dropped_accept t SocksAccept s) r').
Proof.
  intros [Hh Hs [l Hl]]. cbn [sv_tasks sv_http sv_socks] in *. split; cbn [sv_tasks sv_http sv_socks].
  - intros [[-> _]|[_ E]]%set_status_inv; [apply dropped_accept_same|by apply dropped_accept_keeps, Hh].
  - intros [[-> _]|[_ E]]%set_status_inv; [apply dropped_accept_same|by apply dropped_accept_keeps, Hs].
  - exists l. intros t' Ht. apply Hl. intros E. apply Ht. unfold set_status. by case_bool_decide.
Qed.

(** A detached task that ends, or one that starts. *)
Lemma well_formed_detached m ts h s r t st :
  detached t = true →
  well_formed (mk_server m ts h s r) → well_formed (mk_server m (set_status t st ts) h s r).
Proof.
  intros Hd [Hh Hs [l Hl]]. cbn [sv_tasks sv_http sv_socks] in *. split; cbn [sv_tasks sv_http sv_socks].
  - intros [[<- _]|[_ E]]%set_status_inv; [done|by apply Hh].
  - intros [[<- _]|[_ E]]%set_status_inv; [done|by apply Hs].
  - exists (t :: l). intros t' Ht. destruct (decide (t' = t)) as [->|Hne]; [by left|right]. apply Hl.
    by rewrite set_status_other in Ht.
Qed.

Lemma well_formed_step sv sv' : well_formed sv → serve sv sv' → well_formed sv'.
Proof.
  intros Hw Hst. destruct Hst as [m ts h s r h' Hl Hh'|m ts h s r s' Hl Hs'|m ts h s r conn|m ts h s r conn|m ts h s r n Hn Hp
    |m ts h s r t n Ho Ht Hn|m ts h s r n Hm Hn|m ts h s r t Ht Hd|m ts h s Hm Hh Hs|m ts h s|m ts h s r t Ht|m ts h s r t Ht Hd];
    try (by apply well_formed_detached).
  - destruct Hw. by split.
  - destruct Hw. by split.
  - destruct Hw as [Hh Hs Hf]. split; try done. cbn in *. intros E%Hh. unfold client_ended. by rewrite E.
  - destruct Hw as [Hh Hs Hf]. split; try done. cbn in *. intros E%Hs. unfold client_ended. by rewrite E.
  - apply well_formed_detached; [|done]. by destruct Hd as [->|[[n ->]|[n ->]]].
  - destruct Hw as [Hh Hs [l Hl]]. split; cbn [sv_tasks sv_http sv_socks] in *.
    + intros [E|(_ & _ & [=])]%abort_all_inv. by apply Hh.
    + intros [E|(_ & _ & [=])]%abort_all_inv. by apply Hs.
    + exists l. intros t Ht. apply Hl. intros E. apply Ht. unfold abort_all. by destruct t; rewrite ?E.
  - by eapply well_formed_ended.
  - by eapply well_formed_ended.
Qed.

(** After the signal only detached tasks go on. *)
Definition stopping (sv : Server) : Prop :=
  sv_returned sv = true ∧ ∀ t, sv_tasks sv t = Alive → detached t = true.

Lemma stopping_step sv sv' : stopping sv → serve sv sv' → stopping sv'.
Proof.
  intros [Hr Ha] Hst. destruct Hst as [m ts h s r h' Hl Hh'|m ts h s r s' Hl Hs'|m ts h s r conn|m ts h s r conn|m ts h s r n Hn Hp
    |m ts h s r t n Ho Ht Hn|m ts h s r n Hm Hn|m ts h s r t Ht Hd|m ts h s Hm Hh Hs|m ts h s|m ts h s r t Ht|m ts h s r t Ht Hd];
    unfold stopping in *; cbn [sv_tasks sv_returned] in *; try done; split; try done;
    intros t' [[-> E]|[_ E]]%set_status_inv; try done; by apply Ha.
Qed.

Lemma shutdown_stopping m ts h s : stopping (mk_server m (abort_all ts) h s true).
Proof.
  split; [done|]. intros t. unfold abort_all. cbn [sv_tasks]. destruct t; try done; by destruct (ts _).
Qed.

Lemma serve_invariant (P : Server → Prop) sv sv' :
  (∀ a b, P a → serve a b → P b) → P sv → rtc serve sv sv' → P sv'.
Proof. intros Hs HP Hr. revert HP. induction Hr; eauto. Qed.

Lemma run_start_well_formed ps bind sv : run_start ps bind = Ok sv → well_formed sv.
Proof.
  unfold run_start. set (mux := if bool_decide (mode (ps_ctx ps) = Full) then _ else _). cbv zeta.
  repeat (case_match; try done). intros [= <-]. split; cbn [sv_tasks sv_http sv_socks]; try done.
  exists [WarmUp (match ps_fronter ps with Some f => warm_count (len (ids (rs_scripts (df_relay f)))) | None => 0 end);
            H2Prewarm; KeepAlive; PoolRefill; StatsTick; SaveQuota; HttpAccept; SocksAccept; MuxLoop].
    intros t Ht. destruct t; try set_solver; unfold start_tasks in Ht; destruct (ps_fronter ps); try done.
    case_bool_decide; [subst; by left|done].
Qed.

(** *** Coming to rest *)

(** The abort requests that are still open. *)
Definition settled (sv : Server) : Prop := ∀ t, sv_tasks sv t ≠ Aborting.

Lemma settled_gone sv t : stopping sv → settled sv → detached t = false → sv_tasks sv t = Gone.
Proof.
  intros [_ Ha] Hset Hd. destruct (sv_tasks sv t) eqn:E; [|by destruct (Hset t)|done]. by rewrite Ha in Hd.
Qed.

Lemma can_drop sv t : sv_tasks sv t = Aborting → ∃ sv', serve sv sv' ∧ sv_tasks sv' = set_status t Gone (sv_tasks sv).
Proof. intros Ht. destruct sv as [m ts h s r]. eexists. split; [by apply (sv_dropped _ _ _ _ _ t)|done]. Qed.

(** Once the aborted tasks are gone, each task that is left can end; the warm-up
    after its prewarm. *)
Lemma can_end sv t : stopping sv → settled sv → sv_tasks sv t ≠ Gone →
  ∃ t' sv', serve sv sv' ∧ sv_tasks sv t' ≠ Gone ∧ sv_tasks sv' = set_status t' Gone (sv_tasks sv).
Proof.
  intros Hstop Hset Ht. pose proof (λ t, settled_gone sv t Hstop Hset) as Hg. destruct Hstop as [Hr Ha].
  assert (Hal : sv_tasks sv t = Alive) by (destruct (sv_tasks sv t) eqn:E; [done|by destruct (Hset t)|done]).
  destruct sv as [m ts h s r]. cbn [sv_tasks sv_returned] in *. subst r. specialize (Ha t Hal). destruct t as [n| |n| | | | | | | |n]; try done.
  - destruct (ts H2Prewarm) eqn:E.
    + exists H2Prewarm. eexists. split; [apply (sv_done _ _ _ _ _ H2Prewarm); auto|]. by rewrite E.
    + by destruct (Hset H2Prewarm).
    + exists (WarmUp n). eexists. split; [by apply sv_warmed|done].
  - exists H2Prewarm. eexists. split; [apply (sv_done _ _ _ _ _ H2Prewarm); auto|done].
  - exists (H2Driver n). eexists. split; [apply (sv_done _ _ _ _ _ (H2Driver n)); eauto|done].
  - exists MuxLoop. eexists. split; [apply sv_mux_closed; [done|by apply Hg..]|done].
  - exists (MuxRequest n). eexists. split; [apply (sv_done _ _ _ _ _ (MuxRequest n)); eauto|done].
Qed.

Lemma some_task_ends (l : list Task) sv : stopping sv → (∀ t, sv_tasks sv t ≠ Gone → t ∈ l) →
  (∀ t, sv_tasks sv t = Gone) ∨
  ∃ t sv', t ∈ l ∧ serve sv sv' ∧ sv_tasks sv' = set_status t Gone (sv_tasks sv).
Proof.
  intros Hstop Hl. destruct (decide (Exists (λ t, sv_tasks sv t = Aborting) l)) as [He|Hna].
  { apply Exists_exists in He as (t & Hin & Ht). destruct (can_drop sv t Ht) as (sv' & Hs & E). right. by exists t, sv'. }
  assert (Hset : settled sv).
  { intros t Ht. apply Hna, Exists_exists. exists t. split; [|done]. apply Hl. by rewrite Ht. }
  destruct (decide (Exists (λ t, sv_tasks sv t ≠ Gone) l)) as [He|Hng].
  - right. apply Exists_exists in He as (t & _ & Ht).
    destruct (can_end sv t Hstop Hset Ht) as (t' & sv' & Hs & Ht' & E). exists t', sv'. split_and!; [by apply Hl|done..].
  - left. intros t. destruct (decide (sv_tasks sv t = Gone)) as [|Hne]; [done|]. exfalso. apply Hng, Exists_exists.
    exists t. split; [by apply Hl|done].
Qed.

Lemma comes_to_rest k (l : list Task) sv : (length l ≤ k)%nat → stopping sv → (∀ t, sv_tasks sv t ≠ Gone → t ∈ l) →
  ∃ sv', rtc serve sv sv' ∧ ∀ t, sv_tasks sv' t = Gone.
Proof.
  revert l sv. induction k as [|k IH]; intros l sv Hk Hstop Hl;
    (destruct (some_task_ends l sv Hstop Hl) as [Hg|(t & sv' & Hin & Hs & E)]; [by exists sv|]).
  { destruct l; [by apply elem_of_nil in Hin|simpl in Hk; lia]. }
  destruct (IH (filter (λ t', t' ≠ t) l) sv') as (sv2 & Hr & Hg).
  - pose proof (length_filter_lt (λ t', t' ≠ t) l t Hin ltac:(naive_solver)). lia.
  - by eapply stopping_step.
  - intros t' Ht'. rewrite E in Ht'. apply list_elem_of_filter. destruct (decide (t' = t)) as [->|Hne].
    + by rewrite set_status_same in Ht'.
    + split; [done|]. apply Hl. by rewrite set_status_other in Ht'.
  - exists sv2. split; [by eapply rtc_l|done].
Qed.

(** With the aborted tasks, the multiplexer and the prewarm gone, nothing starts
    a task any more. *)
Definition barren (sv : Server) : Prop :=
  stopping sv ∧ settled sv ∧ sv_tasks sv MuxLoop = Gone ∧ sv_tasks sv H2Prewarm = Gone.

Lemma barren_step sv sv' : barren sv → serve sv sv' →
  barren sv' ∧ ∀ t, sv_tasks sv t = Gone → sv_tasks sv' t = Gone.
Proof.
  intros (Hstop & Hset & Hm & Hp) Hst. pose proof (stopping_step _ _ Hstop Hst) as Hstop'.
  pose proof (λ t, settled_gone sv t Hstop Hset) as Hg.
  enough (Hk : ∀ t, sv_tasks sv' t = sv_tasks sv t ∨ sv_tasks sv' t = Gone).
  { split; [split_and!; [done|..]|].
    - intros t Ht. destruct (Hk t) as [E|E]; [apply (Hset t); congruence|congruence].
    - by destruct (Hk MuxLoop); congruence.
    - by destruct (Hk H2Prewarm); congruence.
    - intros t Ht. destruct (Hk t); congruence. }
  assert (Hgone : ∀ t ts t', set_status t Gone ts t' = ts t' ∨ set_status t Gone ts t' = Gone).
  { intros t ts t'. unfold set_status. case_bool_decide; auto. }
  destruct Hst as [m ts h s r h' Hl Hh'|m ts h s r s' Hl Hs'|m ts h s r conn|m ts h s r conn|m ts h s r n Hn Hp'
    |m ts h s r t n Ho Ht Hn|m ts h s r n Hm' Hn|m ts h s r t Ht Hd|m ts h s Hm' Hh Hs|m ts h s|m ts h s r t Ht|m ts h s r t Ht Hd];
    cbn [sv_tasks] in *; auto.
  - exfalso. apply Ht. destruct t; try done; by apply Hg.
  - congruence.
  - by destruct Hstop.
Qed.

(** C21: the shutdown signal stops the server.  Whatever the server was doing
    when the signal was taken, [run] has returned, and in every state from
    then on:
    - what still runs is detached: the warm-up with its prewarm, drivers of
      HTTP/2 connections, the multiplexer's loop and its requests (none of
      which the shutdown aborts: [mux_outlives_stop]);
    - each task whose abort is still open can be dropped; once all are, every
      task with a handle is gone, every client of either port has been aborted
      with its accept loop, and the multiplexer's loop, if it runs, can end,
      its channel being closed;
    - once the multiplexer's loop and the prewarm are gone too, no task starts
      ever again;
    - and the server can come to rest, with every task gone. *)
Theorem shutdown_stops_server ps bind sv0 m ts h s sv :
  run_start ps bind = Ok sv0 →
  rtc serve sv0 (mk_server m ts h s false) →
  rtc serve (mk_server m (abort_all ts) h s true) sv →
  sv_returned sv = true ∧
  (∀ t, sv_tasks sv t = Alive → detached t = true) ∧
  (∀ t, sv_tasks sv t = Aborting → ∃ sv', serve sv sv' ∧ sv_tasks sv' t = Gone) ∧
  (settled sv →
     (∀ t, detached t = false → sv_tasks sv t = Gone) ∧
     children (sv_http sv) = [] ∧ children (sv_socks sv) = [] ∧
     (sv_tasks sv MuxLoop = Alive → ∃ sv', serve sv sv' ∧ sv_tasks sv' MuxLoop = Gone) ∧
     (sv_tasks sv MuxLoop = Gone → sv_tasks sv H2Prewarm = Gone →
      ∀ sv', rtc serve sv sv' → ∀ t, sv_tasks sv t = Gone → sv_tasks sv' t = Gone)) ∧
  (∃ sv', rtc serve sv sv' ∧ ∀ t, sv_tasks sv' t = Gone).
Proof.
  intros Hrun H0 H1. pose proof (serve_invariant _ _ _ well_formed_step (run_start_well_formed _ _ _ Hrun) H0) as Hn.
  pose proof (serve_invariant _ _ _ stopping_step (shutdown_stopping m ts h s) H1) as Hst.
  pose proof (serve_invariant _ _ _ well_formed_step (well_formed_step _ _ Hn (sv_shutdown m ts h s)) H1) as [Hh Hs [l Hl]].
  split_and!; [apply Hst|apply Hst|..].
  - intros t Ht. destruct (can_drop sv t Ht) as (sv' & Hd & E). exists sv'. split; [done|]. by rewrite E, set_status_same.
  - intros Hset. pose proof (λ t, settled_gone sv t Hst Hset) as Hg.
    split_and!; [exact Hg|by apply Hh, Hg|by apply Hs, Hg|..].
    + intros Hm. destruct sv as [m1 ts1 h1 s1 r1]. destruct Hst as [[= ->] _]. eexists.
      split; [by apply sv_mux_closed; [|apply Hg..]|]. apply set_status_same.
    + intros Hm Hp sv' Hr. assert (Hb : barren sv) by (by split_and!). clear -Hb Hr.
      induction Hr as [|a b c Hab Hbc IH]; [done|]. destruct (barren_step _ _ Hb Hab) as [Hb' Hk]. auto.
  - by apply (comes_to_rest (length l) l).
Qed.

(** The multiplexer outlives the shutdown: neither its loop nor its requests are
    aborted, and it goes on sending what was queued, with the settings of the
    server that was stopped. *)
Lemma mux_outlives_stop m ts h s n :
  ts MuxLoop = Alive → ts (MuxRequest n) = Gone →
  let sv := mk_server m (abort_all ts) h s true in
  (∀ k, sv_tasks sv (MuxRequest k) = ts (MuxRequest k)) ∧
  ∃ sv', serve sv sv' ∧ sv_tasks sv' (MuxRequest n) = Alive.
Proof.
  intros Hm Hn sv. split; [done|]. eexists. split; [by apply (sv_mux_request _ _ _ _ _ n)|]. apply set_status_same.
Qed.

(** An accept loop that dies on its own (it panics; a release build aborts the
    process instead) makes [run] return without stopping the rest: nothing ends
    the keep-alive, the refill and the savers. *)
Lemma accept_death_leaks sv sv' t :
  sv_returned sv = true → t ∈ [KeepAlive; PoolRefill; StatsTick; SaveQuota] → sv_tasks sv t = Alive →
  rtc serve sv sv' → sv_tasks sv' t = Alive.
Proof.
  intros Hr Ht Ha Hs.
  assert (Hnd : detached t = false ∧ t ≠ HttpAccept ∧ t ≠ SocksAccept).
  { rewrite !elem_of_cons, elem_of_nil in Ht. by destruct Ht as [->|[->|[->|[->|[]]]]]. }
  destruct Hnd as (Hnd & Hnh & Hns).
  assert (Hstep : ∀ a b, sv_returned a = true ∧ sv_tasks a t = Alive → serve a b →
            sv_returned b = true ∧ sv_tasks b t = Alive).
  { intros a b [Hra Haa] Hab. destruct Hab as [| | | |m ts h s r n Hn Hp|m ts h s r t' n Ho Hto Hn|m ts h s r n Hm Hn|m ts h s r t' Ht' Hd
      |m ts h s Hm Hh Hs'|m ts h s|m ts h s r t' Ht'|m ts h s r t' Ht' Hd];
      cbn [sv_returned sv_tasks] in *; try done; (split; [done|]); rewrite set_status_other; try done; intros ->;
      try congruence; try done.
    - by destruct Hd as [->|[[? ->]|[? ->]]].
    - by destruct Hd. }
  by destruct (serve_invariant _ _ _ Hstep (conj Hr Ha) Hs).
Qed.

(** ** The periodic tasks *)

(** A tick brings every account back whose window is over, traffic or not. *)
Lemma stats_turn_rolls secs io was df id b :
  0 ≤ secs < u64_mod - 86400 →
  buckets (Quota.state (rs_quota (df_relay (stats_turn secs io was df).2))) !! id = Some b → expired secs b = false.
Proof.
  intros Hs. unfold stats_turn, stats_tick. destruct (snapshot_stats secs df) as [s df']. simpl. intros Hb.
  assert (∃ b0, b = if expired secs b0 then roll_bucket secs b0 else b0) as [b0 ->].
  { revert Hb. unfold save_if_needed, save, roll_expired_windows. destruct (existsb _ _), io; simpl;
      repeat case_match; simpl; rewrite lookup_fmap; intros (b0 & _ & ->)%fmap_Some; eauto. }
  destruct (expired secs b0) eqn:E; [|done]. unfold expired. simpl. unfold wadd64. rewrite Z.mod_small by lia. lia.
Qed.

(** The reasons are logged on the tick that first sees the hard stop. *)
Lemma reasons_logged_once secs io df line :
  Reason line ∉ (stats_turn secs io true df).1.1.
Proof.
  unfold stats_turn, stats_tick. destruct (snapshot_stats secs df) as [s df']. simpl. repeat case_match; set_solver.
Qed.

(** ** The multiplexer's timeouts *)

Lemma reply_timeout_covers_batch f step max preset :
  tm_reply_timeout (mux_start f step max preset) = df_batch_timeout f + REPLY_TIMEOUT_SLACK.
Proof. unfold mux_start. by destruct (initial_coalesce step max preset) as [[? ?] ?]. Qed.

(** The session loop waits for [REPLY_TIMEOUT], not for the field above: with
    a request timeout over twenty seconds it gives a reply up while its batch
    is still within its time. *)
Lemma loop_gives_up_first c secs file io f :
  fronter_new c secs file io = Ok f → 20 < c_request_timeout_secs c → REPLY_TIMEOUT < df_batch_timeout f.
Proof.
  unfold fronter_new. destruct (script_ids_resolved c); [done|]. intros [= <-] Hc. cbn [df_batch_timeout].
  unfold clamp, REPLY_TIMEOUT. lia.
Qed.

Lemma adaptive_iff f step max preset : 0 ≤ step → 0 ≤ max →
  is_adaptive (mux_start f step max preset) = true ↔
  step = 0 ∧ max = 0 ∧ preset ≠ Some (bs "slow") ∧ preset ≠ Some (bs "fast").
Proof.
  intros Hs Hm. unfold is_adaptive, mux_start, initial_coalesce. rewrite bool_decide_eq_true.
  destruct (decide (preset = Some (bs "slow"))) as [->|H1]; [simpl; split; [by intros [? ?]|by intros (_ & _ & ? & _)]|].
  rewrite (bool_decide_false _ H1).
  destruct (decide (preset = Some (bs "fast"))) as [->|H2]; [simpl; split; [by intros [? ?]|by intros (_ & _ & _ & ?)]|].
  rewrite (bool_decide_false _ H2). destruct (Z.ltb_spec 0 step), (Z.ltb_spec 0 max); simpl.
  1-3: split; [by intros [? ?]|intros (? & ? & _); lia].
  split; [intros _; split_and!; [lia|lia|done|done]|by eexists].
Qed.

Lemma set_size_le (l : list bytes) : (size (list_to_set l : gset bytes) ≤ length l)%nat.
Proof.
  induction l as [|x l IH]; simpl; [done|]. rewrite size_union_alt, size_singleton.
  assert (size (list_to_set l ∖ {[x]} : gset bytes) ≤ size (list_to_set l : gset bytes))%nat by (apply subseteq_size; set_solver).
  lia.
Qed.

(** Duplicate deployments count once for the detection of old nodes. *)
Lemma duplicates_count_once f step max preset l :
  ids (rs_scripts (df_relay f)) = l ++ l → num_scripts (tm_legacy (mux_start f step max preset)) ≤ len l.
Proof.
  intros E. unfold mux_start. destruct (initial_coalesce step max preset) as [[? ?] ?]. simpl. rewrite E. unfold len.
  rewrite list_to_set_app_L, union_idemp_L. apply Nat2Z.inj_le, set_size_le.
Qed.

(** A server in direct mode with one client when the signal comes. *)
Definition demo_server : ProxyServer :=
  {| ps_host := bs "127.0.0.1"; ps_port := 8085; ps_socks5_port := 8086; ps_fronter := None;
     ps_ctx := mk_ctx (bs "1.2.3.4") (bs "www.google.com") ∅ None Direct false [] true false false true [] [];
     ps_coalesce_step_ms := 0; ps_coalesce_max_ms := 0; ps_network_preset := None |}.

Lemma shutdown_stops_server_witness :
  let h := accept_client 7 (mk_accept 0 []) in
  let sv := mk_server None (abort_all (start_tasks None None)) h (mk_accept 0 []) true in
  children h = [(7%nat, false)] ∧ sv_returned sv = true ∧
  (∃ sv', serve sv sv' ∧ sv_tasks sv' HttpAccept = Gone) ∧
  ∃ sv', rtc serve sv sv' ∧ ∀ t, sv_tasks sv' t = Gone.
Proof.
  intros h sv. destruct (shutdown_stops_server demo_server (λ _, None)
    (mk_server None (start_tasks None None) (mk_accept 0 []) (mk_accept 0 []) false)
    None (start_tasks None None) h (mk_accept 0 []) sv) as (H1 & _ & H3 & _ & H5).
  - reflexivity.
  - eapply rtc_l; [|reflexivity]. apply sv_http_turn; [by vm_compute|]. left. by exists 7%nat.
  - reflexivity.
  - split; [reflexivity|]. split; [exact H1|]. split; [|exact H5]. apply H3. reflexivity.
Defined.
