(* ===== verification/UiForm.v ===== *)
(** The settings form of the desktop program (src/src/bin/ui.rs): loading it
    from the configuration, turning it back into a configuration, saving it,
    and the wire shape the file also declares.

    The round trip is proved through the files: what is saved is what the
    next start shows. *)
From Stdlib Require Import Strings.Byte.
From S2P Require Import Prelude RustBytes Routing ProxyHttp ProxyHeads RelayJson RelayUrl Config Startup HostSystem RustText CertInstall Main.

(** ** The form *)

Record SniRow := mk_sni_row { r_name : bytes; r_enabled : bool }.

#[global] Instance SniRow_eq_dec : EqDecision SniRow.
Proof. solve_decision. Defined.

Record FormState := mk_form {
  f_mode : bytes; f_script_id : bytes; f_auth_key : bytes; f_google_ip : bytes; f_front_domain : bytes;
  f_listen_host : bytes; f_listen_port : bytes; f_socks5_port : bytes; f_log_level : bytes; f_verify_ssl : bool;
  f_upstream_socks5 : bytes; f_parallel_relay : Z; f_show_auth_key : bool; f_sni_pool : list SniRow;
  f_sni_custom_input : bytes; f_sni_editor_open : bool; f_show_log : bool; f_fetch_ips_from_api : bool;
  f_max_ips_to_scan : Z; f_scan_batch_size : Z; f_google_ip_validation : bool; f_normalize_x_graphql : bool;
  f_youtube_via_relay : bool; f_passthrough_hosts : list bytes; f_block_quic : bool; f_block_stun : bool;
  f_disable_padding : bool; f_force_http1 : bool; f_network_preset : option bytes;
  f_strip_noise_response_headers : bool; f_tunnel_doh : bool; f_bypass_doh_hosts : list bytes; f_block_doh : bool;
  f_fronting_groups : list FrontingGroup; f_auto_blacklist_strikes : Z; f_auto_blacklist_window_secs : Z;
  f_auto_blacklist_cooldown_secs : Z; f_request_timeout_secs : Z; f_stream_timeout_secs : Z;
  f_exit_node : ExitNodeConfig; f_quota_daily_limit : Z; f_quota_safety_buffer : Z
}.

(** [.map(|s| s.trim()).filter(|s| !s.is_empty())]. *)
Definition trimmed_nonempty (l : list bytes) : list bytes := List.filter (λ s, negb (bool_decide (s = []))) (map trim l).

(** The names after the first, each once; [seen] are those already shown. *)
Fixpoint unseen (seen names : list bytes) : list bytes :=
  match names with
  | [] => []
  | n :: ns => if bool_decide (n ∈ seen) then unseen seen ns else n :: unseen (n :: seen) ns
  end.

Definition enabled_row (name : bytes) : SniRow := mk_sni_row name true.

Definition sni_pool_for_form (user : option (list bytes)) (front_domain : bytes) : list SniRow :=
  match trimmed_nonempty (default [] user) with
  | [] =>
      let primary := trim front_domain in
      let first := if bool_decide (primary = []) then [] else [primary] in
      map enabled_row (first ++ unseen first DEFAULT_GOOGLE_SNI_POOL)
  | user_clean => map enabled_row user_clean
  end.

Definition script_text (s : ScriptId) : bytes := match s with One s => s | Many v => join [x0a] v end.

(** The form of a loaded configuration. *)
Definition form_of_config (c : Config) : FormState := {|
  f_mode := if bool_decide (c_mode c = bs "google_only") then bs "direct" else c_mode c;
  f_script_id := match c_script_id c with
                 | Some s => script_text s
                 | None => match c_script_ids c with Some s => script_text s | None => [] end
                 end;
  f_auth_key := c_auth_key c; f_google_ip := c_google_ip c; f_front_domain := c_front_domain c;
  f_listen_host := c_listen_host c; f_listen_port := fmt_uint (c_listen_port c);
  f_socks5_port := match c_socks5_port c with Some p => fmt_uint p | None => [] end;
  f_log_level := c_log_level c; f_verify_ssl := c_verify_ssl c;
  f_upstream_socks5 := default [] (c_upstream_socks5 c); f_parallel_relay := c_parallel_relay c;
  f_show_auth_key := false; f_sni_pool := sni_pool_for_form (c_sni_hosts c) (c_front_domain c);
  f_sni_custom_input := []; f_sni_editor_open := false; f_show_log := true;
  f_fetch_ips_from_api := c_fetch_ips_from_api c; f_max_ips_to_scan := c_max_ips_to_scan c;
  f_scan_batch_size := c_scan_batch_size c; f_google_ip_validation := c_google_ip_validation c;
  f_normalize_x_graphql := c_normalize_x_graphql c; f_youtube_via_relay := c_youtube_via_relay c;
  f_passthrough_hosts := c_passthrough_hosts c; f_block_quic := c_block_quic c; f_block_stun := c_block_stun c;
  f_disable_padding := c_disable_padding c; f_force_http1 := c_force_http1 c;
  f_network_preset := c_network_preset c; f_strip_noise_response_headers := c_strip_noise_response_headers c;
  f_tunnel_doh := c_tunnel_doh c; f_bypass_doh_hosts := c_bypass_doh_hosts c; f_block_doh := c_block_doh c;
  f_fronting_groups := c_fronting_groups c; f_auto_blacklist_strikes := c_auto_blacklist_strikes c;
  f_auto_blacklist_window_secs := c_auto_blacklist_window_secs c;
  f_auto_blacklist_cooldown_secs := c_auto_blacklist_cooldown_secs c;
  f_request_timeout_secs := c_request_timeout_secs c; f_stream_timeout_secs := c_stream_timeout_secs c;
  f_exit_node := c_exit_node c; f_quota_daily_limit := c_quota_daily_limit c;
  f_quota_safety_buffer := c_quota_safety_buffer c
|}.

(** The form shown when there is no configuration, or it does not load. *)
Definition default_form : FormState := {|
  f_mode := bs "apps_script"; f_script_id := []; f_auth_key := []; f_google_ip := bs "216.239.38.120";
  f_front_domain := bs "www.google.com"; f_listen_host := bs "127.0.0.1"; f_listen_port := bs "8085";
  f_socks5_port := bs "8086"; f_log_level := bs "info"; f_verify_ssl := true; f_upstream_socks5 := [];
  f_parallel_relay := 0; f_show_auth_key := false; f_sni_pool := sni_pool_for_form None (bs "www.google.com");
  f_sni_custom_input := []; f_sni_editor_open := false; f_show_log := true; f_fetch_ips_from_api := false;
  f_max_ips_to_scan := 100; f_scan_batch_size := 500; f_google_ip_validation := true;
  f_normalize_x_graphql := false; f_youtube_via_relay := false; f_passthrough_hosts := []; f_block_quic := true;
  f_block_stun := false; f_disable_padding := false; f_force_http1 := false; f_network_preset := None;
  f_strip_noise_response_headers := true; f_tunnel_doh := true; f_bypass_doh_hosts := []; f_block_doh := true;
  f_fronting_groups := []; f_auto_blacklist_strikes := 3; f_auto_blacklist_window_secs := 30;
  f_auto_blacklist_cooldown_secs := 120; f_request_timeout_secs := 30; f_stream_timeout_secs := 300;
  f_exit_node := default_exit_node; f_quota_daily_limit := 20000; f_quota_safety_buffer := 500
|}.

(** ** From the form to a configuration *)

(** [s.split(|c| f(c))] for ASCII characters. *)
Fixpoint split_by (f : byte → bool) (s : bytes) : list bytes :=
  match s with
  | [] => [[]]
  | x :: s' =>
      if f x then [] :: split_by f s'
      else match split_by f s' with [] => [[x]] | l :: ls => (x :: l) :: ls end
  end.

Definition id_separator (c : byte) : bool := bool_decide (c = x0a) || bool_decide (c = x2c).

(** The deployment ids in the text field. *)
Definition form_ids (f : FormState) : list bytes := trimmed_nonempty (split_by id_separator (f_script_id f)).

Definition script_id_of (ids : list bytes) : option ScriptId :=
  match ids with [] => None | [id] => Some (One id) | _ => Some (Many ids) end.

Definition active_snis (rows : list SniRow) : list bytes :=
  trimmed_nonempty (map r_name (List.filter r_enabled rows)).

Definition nonempty {A} (l : list A) : option (list A) := match l with [] => None | _ => Some l end.

Definition form_is_direct (f : FormState) : bool :=
  bool_decide (f_mode f = bs "direct") || bool_decide (f_mode f = bs "google_only").

(** The ports, or the message about them. *)
Definition form_ports (f : FormState) : result (Z * option Z) bytes :=
  match parse_u16 (f_listen_port f) with
  | None => Err (bs "HTTP port must be a number")
  | Some listen_port =>
      let! socks5_port :=
        if blank (f_socks5_port f) then Ok None
        else match parse_u16 (f_socks5_port f) with
             | Some p => Ok (Some p)
             | None => Err (bs "SOCKS5 port must be a number")
             end in
      if bool_decide (socks5_port = Some listen_port) then Err (bs "HTTP and SOCKS5 ports must be different")
      else Ok (listen_port, socks5_port)
  end.

Definition to_config (f : FormState) : result Config bytes :=
  if negb (form_is_direct f) && blank (f_script_id f) then Err (bs "Apps Script ID is required")
  else if negb (form_is_direct f) && blank (f_auth_key f) then Err (bs "Auth key is required")
  else
    let! ports := form_ports f in
    Ok {|
      c_mode := f_mode f; c_google_ip := trim (f_google_ip f); c_front_domain := trim (f_front_domain f);
      c_script_id := script_id_of (form_ids f); c_script_ids := None; c_auth_key := f_auth_key f;
      c_listen_host := trim (f_listen_host f); c_listen_port := ports.1; c_socks5_port := ports.2;
      c_log_level := trim (f_log_level f); c_verify_ssl := f_verify_ssl f; c_hosts := ∅; c_enable_batching := false;
      c_upstream_socks5 := nonempty (trim (f_upstream_socks5 f)); c_parallel_relay := f_parallel_relay f;
      c_coalesce_step_ms := 0; c_coalesce_max_ms := 0; c_network_preset := f_network_preset f;
      c_sni_hosts := nonempty (active_snis (f_sni_pool f)); c_fetch_ips_from_api := f_fetch_ips_from_api f;
      c_max_ips_to_scan := f_max_ips_to_scan f; c_scan_batch_size := f_scan_batch_size f;
      c_google_ip_validation := f_google_ip_validation f; c_normalize_x_graphql := f_normalize_x_graphql f;
      c_youtube_via_relay := f_youtube_via_relay f; c_passthrough_hosts := f_passthrough_hosts f;
      c_block_stun := f_block_stun f; c_block_quic := f_block_quic f; c_disable_padding := f_disable_padding f;
      c_force_http1 := f_force_http1 f; c_tunnel_doh := f_tunnel_doh f; c_bypass_doh_hosts := f_bypass_doh_hosts f;
      c_block_doh := f_block_doh f; c_fronting_groups := f_fronting_groups f;
      c_auto_blacklist_strikes := f_auto_blacklist_strikes f;
      c_auto_blacklist_window_secs := f_auto_blacklist_window_secs f;
      c_auto_blacklist_cooldown_secs := f_auto_blacklist_cooldown_secs f;
      c_request_timeout_secs := f_request_timeout_secs f; c_stream_timeout_secs := f_stream_timeout_secs f;
      c_exit_node := f_exit_node f; c_quota_daily_limit := f_quota_daily_limit f;
      c_quota_safety_buffer := f_quota_safety_buffer f;
      c_strip_noise_response_headers := f_strip_noise_response_headers f
    |}.

(** ** Loading and saving *)

Section files.
Context `{!ConfigFormats} (os : bytes) (io_error : bytes → bytes → option bytes) (project_dir : Env → option bytes).

Definition load_form (env : Env) (override : option bytes) : M (FormState * option bytes) :=
  let% path := resolve_config_path os io_error project_dir env override None in
  let% exists_ := gets (λ s, path_exists s path) in
  if exists_ then
    let% r := config_load os io_error path in
    match r with
    | Ok (c, _) => mret (form_of_config c, None)
    | Err e => mret (default_form, Some (bs "Config at " ++ path ++ bs " failed to load: " ++ display_config_error e))
    end
  else mret (default_form, None).

Definition config_path (env : Env) (override : option bytes) : M bytes :=
  let% dir := data_dir os io_error project_dir env override in mret (path_join (sep os) dir (bs "config.toml")).

Definition make_parent (path : bytes) : M (result unit bytes) :=
  match parent (sep os) path with
  | Some d => fs_create_dir_all (sep os) io_error d
  | None => mret (Ok tt)
  end.

Definition save_config (env : Env) (override : option bytes) (cfg : Config) : M (result bytes bytes) :=
  let% path := config_path env override in
  let% made := make_parent path in
  match made with
  | Err e => mret (Err e)
  | Ok _ =>
      match toml_text (ser_toml (toml_of_config cfg)) with
      | Err e => mret (Err e)
      | Ok toml_str =>
          let% w := fs_write (sep os) io_error path toml_str in
          mret (match w with Ok _ => Ok path | Err e => Err e end)
      end
  end.

(** The Save button. *)
Definition save_form (env : Env) (override : option bytes) (f : FormState) : M (result bytes bytes) :=
  match to_config f with
  | Err e => mret (Err e)
  | Ok c => save_config env override c
  end.
End files.

(** ** The wire shape *)

Definition is_default_strikes (v : Z) : bool := v =? 3.
Definition is_default_window_secs (v : Z) : bool := v =? 30.
Definition is_default_cooldown_secs (v : Z) : bool := v =? 120.
Definition is_default_timeout_secs (v : Z) : bool := v =? 30.
Definition is_default_stream_timeout_secs (v : Z) : bool := v =? 300.
Definition is_default_exit_node (x : ExitNodeConfig) : bool :=
  negb (x_enabled x) && bool_decide (x_relay_url x = []) && bool_decide (x_psk x = []) &&
  bool_decide (x_hosts x = []) && (bool_decide (x_mode x = []) || bool_decide (x_mode x = bs "selective")).
Definition is_zero_u8 (v : Z) : bool := v =? 0.

(** [skip_serializing_if]. *)
Definition ser_unless (skip : bool) (k : bytes) (v : Value) : list (bytes * Value) := if skip then [] else [(k, v)].

Definition is_nil {A} (l : list A) : bool := match l with [] => true | _ => false end.

(** [ConfigWire::from], serialized. *)
Definition wire_fields (c : Config) : list (bytes * Value) :=
    ser_field (bs "mode") (Str (c_mode c)) ++ ser_field (bs "google_ip") (Str (c_google_ip c)) ++
    ser_field (bs "front_domain") (Str (c_front_domain c)) ++ ser_opt (bs "script_id") ser_script_id (c_script_id c) ++
    ser_field (bs "auth_key") (Str (c_auth_key c)) ++ ser_field (bs "listen_host") (Str (c_listen_host c)) ++
    ser_field (bs "listen_port") (ser_uint (c_listen_port c)) ++ ser_opt (bs "socks5_port") ser_uint (c_socks5_port c) ++
    ser_field (bs "log_level") (Str (c_log_level c)) ++ ser_field (bs "verify_ssl") (Bool (c_verify_ssl c)) ++
    ser_unless (bool_decide (c_hosts c = ∅)) (bs "hosts") (ser_map (c_hosts c)) ++
    ser_opt (bs "upstream_socks5") Str (c_upstream_socks5 c) ++
    ser_unless (is_zero_u8 (c_parallel_relay c)) (bs "parallel_relay") (ser_uint (c_parallel_relay c)) ++
    ser_opt (bs "sni_hosts") (ser_list Str) (c_sni_hosts c) ++
    ser_unless (negb (c_normalize_x_graphql c)) (bs "normalize_x_graphql") (Bool (c_normalize_x_graphql c)) ++
    ser_unless (negb (c_youtube_via_relay c)) (bs "youtube_via_relay") (Bool (c_youtube_via_relay c)) ++
    ser_unless (is_nil (c_passthrough_hosts c)) (bs "passthrough_hosts") (ser_list Str (c_passthrough_hosts c)) ++
    ser_unless (negb (c_fetch_ips_from_api c)) (bs "fetch_ips_from_api") (Bool (c_fetch_ips_from_api c)) ++
    ser_field (bs "max_ips_to_scan") (ser_uint (c_max_ips_to_scan c)) ++
    ser_field (bs "scan_batch_size") (ser_uint (c_scan_batch_size c)) ++
    ser_field (bs "google_ip_validation") (Bool (c_google_ip_validation c)) ++
    ser_unless (negb (c_tunnel_doh c)) (bs "tunnel_doh") (Bool (c_tunnel_doh c)) ++
    ser_unless (is_nil (c_bypass_doh_hosts c)) (bs "bypass_doh_hosts") (ser_list Str (c_bypass_doh_hosts c)) ++
    ser_unless (c_block_doh c) (bs "block_doh") (Bool (c_block_doh c)) ++
    ser_unless (negb (c_block_stun c)) (bs "block_stun") (Bool (c_block_stun c)) ++
    ser_unless (is_nil (c_fronting_groups c)) (bs "fronting_groups") (ser_list ser_group (c_fronting_groups c)) ++
    ser_unless (is_default_strikes (c_auto_blacklist_strikes c)) (bs "auto_blacklist_strikes")
      (ser_uint (c_auto_blacklist_strikes c)) ++
    ser_unless (is_default_window_secs (c_auto_blacklist_window_secs c)) (bs "auto_blacklist_window_secs")
      (ser_uint (c_auto_blacklist_window_secs c)) ++
    ser_unless (is_default_cooldown_secs (c_auto_blacklist_cooldown_secs c)) (bs "auto_blacklist_cooldown_secs")
      (ser_uint (c_auto_blacklist_cooldown_secs c)) ++
    ser_unless (is_default_timeout_secs (c_request_timeout_secs c)) (bs "request_timeout_secs")
      (ser_uint (c_request_timeout_secs c)) ++
    ser_unless (is_default_stream_timeout_secs (c_stream_timeout_secs c)) (bs "stream_timeout_secs")
      (ser_uint (c_stream_timeout_secs c)) ++
    ser_unless (negb (c_force_http1 c)) (bs "force_http1") (Bool (c_force_http1 c)) ++
    ser_unless (is_default_exit_node (c_exit_node c)) (bs "exit_node") (ser_exit_node (c_exit_node c)).

Definition config_wire (c : Config) : Value := Object (wire_fields c).

(** ** What a saved form shows next time *)

Definition normal_form (f : FormState) : FormState := {|
  f_mode := if bool_decide (f_mode f = bs "google_only") then bs "direct" else f_mode f;
  f_script_id := join [x0a] (form_ids f); f_auth_key := f_auth_key f; f_google_ip := trim (f_google_ip f);
  f_front_domain := trim (f_front_domain f); f_listen_host := trim (f_listen_host f);
  f_listen_port := match parse_u16 (f_listen_port f) with Some p => fmt_uint p | None => [] end;
  f_socks5_port := if blank (f_socks5_port f) then []
                   else match parse_u16 (f_socks5_port f) with Some p => fmt_uint p | None => [] end;
  f_log_level := trim (f_log_level f); f_verify_ssl := f_verify_ssl f;
  f_upstream_socks5 := trim (f_upstream_socks5 f); f_parallel_relay := f_parallel_relay f;
  f_show_auth_key := false;
  f_sni_pool := match active_snis (f_sni_pool f) with
                | [] => sni_pool_for_form None (trim (f_front_domain f))
                | names => map enabled_row names
                end;
  f_sni_custom_input := []; f_sni_editor_open := false; f_show_log := true;
  f_fetch_ips_from_api := f_fetch_ips_from_api f; f_max_ips_to_scan := f_max_ips_to_scan f;
  f_scan_batch_size := f_scan_batch_size f; f_google_ip_validation := f_google_ip_validation f;
  f_normalize_x_graphql := f_normalize_x_graphql f; f_youtube_via_relay := f_youtube_via_relay f;
  f_passthrough_hosts := f_passthrough_hosts f; f_block_quic := f_block_quic f; f_block_stun := f_block_stun f;
  f_disable_padding := f_disable_padding f; f_force_http1 := f_force_http1 f;
  f_network_preset := f_network_preset f; f_strip_noise_response_headers := f_strip_noise_response_headers f;
  f_tunnel_doh := f_tunnel_doh f; f_bypass_doh_hosts := f_bypass_doh_hosts f; f_block_doh := f_block_doh f;
  f_fronting_groups := f_fronting_groups f; f_auto_blacklist_strikes := f_auto_blacklist_strikes f;
  f_auto_blacklist_window_secs := f_auto_blacklist_window_secs f;
  f_auto_blacklist_cooldown_secs := f_auto_blacklist_cooldown_secs f;
  f_request_timeout_secs := f_request_timeout_secs f; f_stream_timeout_secs := f_stream_timeout_secs f;
  f_exit_node := f_exit_node f; f_quota_daily_limit := default_quota_daily_limit;
  f_quota_safety_buffer := default_quota_safety_buffer
|}.

(** The numbers of the form are within the widths of their fields. *)
Definition form_fits (f : FormState) : Prop :=
  f_parallel_relay f ≤ u8_max ∧ f_auto_blacklist_strikes f ≤ u32_max ∧ f_auto_blacklist_window_secs f ≤ u64_max ∧
  f_auto_blacklist_cooldown_secs f ≤ u64_max ∧ f_request_timeout_secs f ≤ u64_max ∧
  f_stream_timeout_secs f ≤ u64_max ∧ f_max_ips_to_scan f ≤ u64_max ∧ f_scan_batch_size f ≤ u64_max.

(** *** Names and ids *)

Lemma trimmed_nonempty_fix l : Forall (λ s, trim s = s ∧ s ≠ []) l → trimmed_nonempty l = l.
Proof.
  unfold trimmed_nonempty. induction 1 as [|s l [Ht Hs] _ IH]; [done|]. simpl. rewrite Ht.
  rewrite bool_decide_false by done. simpl. by rewrite IH.
Qed.

Lemma trimmed_nonempty_trimmed l : Forall (λ s, trim s = s ∧ s ≠ []) (trimmed_nonempty l).
Proof.
  unfold trimmed_nonempty. induction l as [|s l IH]; [constructor|]. simpl.
  destruct (bool_decide (trim s = [])) eqn:E; [done|]. constructor; [|done].
  apply bool_decide_eq_false in E. split; [apply trim_idemp|done].
Qed.

Lemma trimmed_nonempty_idemp l : trimmed_nonempty (trimmed_nonempty l) = trimmed_nonempty l.
Proof. apply trimmed_nonempty_fix, trimmed_nonempty_trimmed. Qed.

Lemma active_enabled names : active_snis (map enabled_row names) = trimmed_nonempty names.
Proof.
  unfold active_snis. f_equal. induction names as [|n ns IH]; [done|]. simpl. by rewrite IH.
Qed.

Lemma split_by_no_sep f s l : l ∈ split_by f s → Forall (λ c, f c = false) l.
Proof.
  revert l. induction s as [|x s IH]; intros l; simpl; [by intros ->%list_elem_of_singleton|].
  destruct (f x) eqn:E.
  - rewrite elem_of_cons. intros [->|Hl]; [constructor|by apply IH].
  - destruct (split_by f s) as [|l1 ls] eqn:Hs; [intros ->%list_elem_of_singleton; by repeat constructor|].
    rewrite elem_of_cons. intros [->|Hl]; [constructor; [done|]; apply IH; left|by apply IH; right].
Qed.

Lemma split_by_cons_sep f a c s : Forall (λ c, f c = false) a → f c = true → split_by f (a ++ c :: s) = a :: split_by f s.
Proof.
  intros Ha Hc. induction Ha as [|x a Hx Ha IH]; simpl; [by rewrite Hc|]. rewrite Hx. by rewrite IH.
Qed.

Lemma split_by_none f a : Forall (λ c, f c = false) a → split_by f a = [a].
Proof. induction 1 as [|x a Hx Ha IH]; simpl; [done|]. by rewrite Hx, IH. Qed.

Lemma split_by_join f c l :
  f c = true → Forall (Forall (λ c, f c = false)) l → l ≠ [] → split_by f (join [c] l) = l.
Proof.
  intros Hc Hl Hn. induction Hl as [|a l Ha Hl IH]; [done|]. destruct l as [|b l].
  - by apply split_by_none.
  - change (join [c] (a :: b :: l)) with (a ++ c :: join [c] (b :: l)).
    rewrite split_by_cons_sep by done. by rewrite IH.
Qed.

Lemma form_ids_clean f : Forall (Forall (λ c, id_separator c = false)) (form_ids f).
Proof.
  apply Forall_forall. intros id Hid. unfold form_ids, trimmed_nonempty in Hid.
  apply list_elem_of_In, filter_In in Hid as [Hid _]. apply in_map_iff in Hid as (l & <- & Hl).
  apply list_elem_of_In in Hl. pose proof (split_by_no_sep _ _ _ Hl) as Hs. rewrite Forall_forall in *.
  intros c Hc. apply Hs, trim_sub, Hc.
Qed.

Lemma form_ids_stable f : form_ids (normal_form f) = form_ids f.
Proof.
  unfold form_ids at 1. simpl f_script_id. destruct (form_ids f) as [|id ids] eqn:E; [reflexivity|].
  rewrite split_by_join; [rewrite <- E; apply trimmed_nonempty_idemp|done|rewrite <- E; apply form_ids_clean|done].
Qed.

Lemma script_text_ids ids :
  match script_id_of ids with Some s => script_text s | None => [] end = join [x0a] ids.
Proof. by destruct ids as [|a [|b l]]. Qed.

(** *** The form read from what was saved *)

Lemma form_ports_ok f p o : form_ports f = Ok (p, o) →
  parse_u16 (f_listen_port f) = Some p ∧ o ≠ Some p ∧
  o = (if blank (f_socks5_port f) then None else parse_u16 (f_socks5_port f)).
Proof.
  unfold form_ports. destruct (parse_u16 (f_listen_port f)) as [q|]; [|done].
  destruct (blank _); [|destruct (parse_u16 (f_socks5_port f)) as [r|] eqn:Er; [|done]]; case_if; intros [= <- <-];
    by rewrite ?Er.
Qed.

(** The configuration of a form that is accepted, with its ports. *)
Lemma to_config_ok f c : to_config f = Ok c →
  form_ports f = Ok (c_listen_port c, c_socks5_port c) ∧
  (form_is_direct f = false → blank (f_script_id f) = false ∧ blank (f_auth_key f) = false).
Proof.
  unfold to_config. destruct (form_is_direct f), (blank (f_script_id f)), (blank (f_auth_key f)); simpl; try done;
    destruct (form_ports f) as [[p o]|] eqn:E; try done; intros [= <-]; done.
Qed.

Lemma to_config_shape f c : to_config f = Ok c →
  form_of_config (without_quota c) = normal_form f.
Proof.
  intros H. destruct (to_config_ok _ _ H) as [Hp _]. destruct (form_ports_ok _ _ _ Hp) as (Hl & _ & Hs).
  assert (Hc : c_script_id c = script_id_of (form_ids f) ∧ c_script_ids c = None ∧
               c_sni_hosts c = nonempty (active_snis (f_sni_pool f)) ∧
               c_upstream_socks5 c = nonempty (trim (f_upstream_socks5 f))).
  { revert H. unfold to_config. repeat case_if; try done. destruct (form_ports f); [|done]. by intros [= <-]. }
  destruct Hc as (Hi & Hi' & Hsni & Hup).
  assert (Hpool : sni_pool_for_form (c_sni_hosts c) (trim (f_front_domain f)) = f_sni_pool (normal_form f)).
  { rewrite Hsni. simpl. unfold sni_pool_for_form at 1. pose proof (trimmed_nonempty_idemp (map r_name (List.filter r_enabled (f_sni_pool f)))) as Hn.
    fold (active_snis (f_sni_pool f)) in Hn. destruct (active_snis (f_sni_pool f)) as [|a l] eqn:E; [reflexivity|].
    simpl default. by rewrite Hn. }
  assert (Hids : match c_script_id c with
                 | Some s => script_text s
                 | None => match c_script_ids c with Some s => script_text s | None => [] end
                 end = join [x0a] (form_ids f)).
  { rewrite Hi', Hi. by rewrite <- script_text_ids. }
  assert (Hsocks : match c_socks5_port c with Some p => fmt_uint p | None => [] end = f_socks5_port (normal_form f)).
  { rewrite Hs. simpl. by destruct (blank (f_socks5_port f)). }
  assert (Hupt : default [] (c_upstream_socks5 c) = trim (f_upstream_socks5 f)).
  { rewrite Hup. by destruct (trim (f_upstream_socks5 f)). }
  revert Hl Hids Hpool Hsocks Hupt. clear - H. unfold to_config in H.
  destruct (negb _ && _); [done|]. destruct (negb _ && _); [done|]. destruct (form_ports f) as [[p o]|]; [|done].
  injection H as <-. unfold form_of_config, normal_form, without_quota. simpl. intros -> -> -> -> ->. reflexivity.
Qed.

(** *** Saved again *)

Lemma ws_len_line a r : a ≠ [] → ws_len a = 0%nat → ws_len (a ++ x0a :: r) = 0%nat.
Proof.
  destruct a as [|x [|y [|z a]]]; [done|..]; intros _; [by destruct x|by destruct x; try done; destruct y|].
  by destruct x; try done; destruct y; try done; destruct z.
Qed.

Lemma ws_len_line_inside z x : ws_len [z; x0a; x] ≠ 3%nat.
Proof. by destruct z. Qed.

Lemma ws_len_rev_line a r : a ≠ [] → ws_len_rev a = 0%nat → ws_len_rev (a ++ x0a :: r) = 0%nat.
Proof.
  destruct a as [|x [|y [|z a]]]; [done|..]; intros _ H; [|by destruct x; try done|by destruct x; try done].
  assert (E : ws_len_rev (x :: x0a :: r) = if bool_decide (ws_len [x0a; x] = 2%nat) then 2%nat
    else match r with z :: _ => if bool_decide (ws_len [z; x0a; x] = 3%nat) then 3%nat else 0%nat | [] => 0%nat end)
    by (by destruct x). simpl app. rewrite E. rewrite bool_decide_false by done. destruct r as [|z r]; [done|].
  rewrite bool_decide_false; [done|apply ws_len_line_inside].
Qed.

Lemma trim_join ids : Forall (λ s, trim s = s ∧ s ≠ []) ids → trim (join [x0a] ids) = join [x0a] ids.
Proof.
  intros Hi. apply trim_id.
  - destruct Hi as [|a l [Ha Hn] _]; [done|]. assert (ws_len a = 0%nat) by (rewrite <- Ha; apply ws_len_trim).
    destruct l; [done|]. by apply ws_len_line.
  - induction Hi as [|a l [Ha Hn] Hi IH]; [done|]. destruct l as [|b l]; [by apply trimmed_end|].
    change (join [x0a] (a :: b :: l)) with (a ++ [x0a] ++ join [x0a] (b :: l)).
    rewrite !rev_app_distr, <- app_assoc. apply ws_len_rev_line; [|done].
    intros E%(f_equal (@rev byte)). rewrite rev_involutive in E. inversion Hi as [|? ? [_ Hb] _]; subst.
    destruct l; simpl in E; [done|]. by destruct b.
Qed.

Lemma fmt_uint_not_blank n : 0 ≤ n → blank (fmt_uint n) = false.
Proof.
  intros Hn. unfold blank. rewrite digits_trim by (by apply fmt_uint_all_digits).
  destruct (fmt_uint_cons n Hn) as (c & s & -> & _). by rewrite bool_decide_false.
Qed.

(** The configuration a restarted program makes of the form it loads. *)
Definition restarted (c : Config) : Config :=
  let c0 := without_quota c in
  {| c_mode := if bool_decide (c_mode c = bs "google_only") then bs "direct" else c_mode c;
     c_google_ip := c_google_ip c; c_front_domain := c_front_domain c;
     c_script_id := c_script_id c; c_script_ids := c_script_ids c; c_auth_key := c_auth_key c;
     c_listen_host := c_listen_host c; c_listen_port := c_listen_port c; c_socks5_port := c_socks5_port c;
     c_log_level := c_log_level c; c_verify_ssl := c_verify_ssl c; c_hosts := c_hosts c;
     c_enable_batching := c_enable_batching c; c_upstream_socks5 := c_upstream_socks5 c;
     c_parallel_relay := c_parallel_relay c; c_coalesce_step_ms := c_coalesce_step_ms c;
     c_coalesce_max_ms := c_coalesce_max_ms c; c_network_preset := c_network_preset c;
     c_sni_hosts := match c_sni_hosts c with
                    | Some names => Some names
                    | None => Some (map r_name (sni_pool_for_form None (c_front_domain c)))
                    end;
     c_fetch_ips_from_api := c_fetch_ips_from_api c;
     c_max_ips_to_scan := c_max_ips_to_scan c; c_scan_batch_size := c_scan_batch_size c;
     c_google_ip_validation := c_google_ip_validation c; c_normalize_x_graphql := c_normalize_x_graphql c;
     c_youtube_via_relay := c_youtube_via_relay c; c_passthrough_hosts := c_passthrough_hosts c;
     c_block_stun := c_block_stun c; c_block_quic := c_block_quic c; c_disable_padding := c_disable_padding c;
     c_force_http1 := c_force_http1 c; c_tunnel_doh := c_tunnel_doh c; c_bypass_doh_hosts := c_bypass_doh_hosts c;
     c_block_doh := c_block_doh c; c_fronting_groups := c_fronting_groups c;
     c_auto_blacklist_strikes := c_auto_blacklist_strikes c;
     c_auto_blacklist_window_secs := c_auto_blacklist_window_secs c;
     c_auto_blacklist_cooldown_secs := c_auto_blacklist_cooldown_secs c;
     c_request_timeout_secs := c_request_timeout_secs c; c_stream_timeout_secs := c_stream_timeout_secs c;
     c_exit_node := c_exit_node c; c_quota_daily_limit := c_quota_daily_limit c0;
     c_quota_safety_buffer := c_quota_safety_buffer c0;
     c_strip_noise_response_headers := c_strip_noise_response_headers c |}.

Lemma parse_u16_range s p : parse_u16 s = Some p → 0 ≤ p < u16_mod.
Proof.
  intros H. enough (0 ≤ p ≤ u16_mod - 1) by lia. unfold parse_u16, parse_uint in H.
  assert (0 ≤ u16_mod - 1) by (vm_compute; congruence). destruct s as [|c s]; [done|].
  assert (Hc : parse_digits (u16_mod - 1) s 0 = Some p ∨ parse_digits (u16_mod - 1) (c :: s) 0 = Some p)
    by (destruct c; try (right; exact H); destruct s; [done|left; exact H]).
  destruct Hc as [Hc|Hc]; apply parse_digits_bound in Hc; lia.
Qed.

Lemma normal_form_ports f p o : form_ports f = Ok (p, o) → form_ports (normal_form f) = Ok (p, o).
Proof.
  intros H. destruct (form_ports_ok _ _ _ H) as (Hl & Hne & Ho). unfold form_ports. simpl. rewrite Hl.
  rewrite parse_u16_fmt by (by eapply parse_u16_range). destruct (blank (f_socks5_port f)) eqn:Hb.
  - by subst o.
  - destruct (parse_u16 (f_socks5_port f)) as [q|] eqn:Hq.
    + destruct (parse_u16_range _ _ Hq). rewrite fmt_uint_not_blank by done. rewrite parse_u16_fmt by done.
      subst o. by rewrite bool_decide_false.
    + revert H. unfold form_ports. by rewrite Hl, Hb, Hq.
Qed.

Lemma unseen_sub seen names n : n ∈ unseen seen names → n ∈ names.
Proof.
  revert seen. induction names as [|m ns IH]; intros seen; simpl; [done|]. case_bool_decide.
  - intros Hn. right. by eapply IH.
  - rewrite !elem_of_cons. intros [->|Hn]; [by left|right; by eapply IH].
Qed.

Lemma names_of_rows l : map r_name (map enabled_row l) = l.
Proof. induction l as [|n l IH]; simpl; [done|by rewrite IH]. Qed.

(** The names of the rows shown when none are configured. *)
Definition default_rows (fd : bytes) : list bytes := map r_name (sni_pool_for_form None fd).

Lemma default_rows_eq fd :
  let first := if bool_decide (trim fd = []) then [] else [trim fd] in
  default_rows fd = first ++ unseen first DEFAULT_GOOGLE_SNI_POOL.
Proof. apply names_of_rows. Qed.

Lemma default_rows_trimmed fd : Forall (λ s, trim s = s ∧ s ≠ []) (default_rows fd).
Proof.
  rewrite default_rows_eq. apply Forall_app. split.
  - case_if; [constructor|]. constructor; [|constructor]. split; [apply trim_idemp|done].
  - apply Forall_forall. intros n Hn%unseen_sub. revert n Hn. apply Forall_forall.
    repeat (constructor; [split; [by vm_compute|done]|]). constructor.
Qed.

Lemma default_rows_nonempty fd : default_rows fd ≠ [].
Proof.
  rewrite default_rows_eq. case_if; [|done]. by vm_compute.
Qed.

Lemma active_default fd : active_snis (sni_pool_for_form None fd) = default_rows fd.
Proof.
  transitivity (trimmed_nonempty (default_rows fd)); [|apply trimmed_nonempty_fix, default_rows_trimmed].
  rewrite default_rows_eq, <- active_enabled. reflexivity.
Qed.

Lemma sni_pool_trim fd : sni_pool_for_form None (trim fd) = sni_pool_for_form None fd.
Proof. unfold sni_pool_for_form. by rewrite trim_idemp. Qed.

Lemma normal_snis f :
  nonempty (active_snis (f_sni_pool (normal_form f))) =
    match nonempty (active_snis (f_sni_pool f)) with
    | Some names => Some names
    | None => Some (default_rows (trim (f_front_domain f)))
    end.
Proof.
  simpl. pose proof (trimmed_nonempty_idemp (map r_name (List.filter r_enabled (f_sni_pool f)))) as Hi.
  fold (active_snis (f_sni_pool f)) in Hi. destruct (active_snis (f_sni_pool f)) as [|a l] eqn:E; simpl nonempty.
  - rewrite active_default. pose proof (default_rows_nonempty (trim (f_front_domain f))) as Hn.
    by destruct (default_rows _).
  - transitivity (nonempty (trimmed_nonempty (a :: l))); [f_equal; apply (active_enabled (a :: l))|by rewrite Hi].
Qed.

Lemma restart_sends_same f c : to_config f = Ok c → (form_is_direct f = false → form_ids f ≠ []) →
  to_config (normal_form f) = Ok (restarted c).
Proof.
  intros H Hids. destruct (to_config_ok _ _ H) as [Hp Hb].
  assert (Hd : form_is_direct (normal_form f) = form_is_direct f).
  { unfold form_is_direct. change (f_mode (normal_form f)) with
      (if bool_decide (f_mode f = bs "google_only") then bs "direct" else f_mode f).
    destruct (decide (f_mode f = bs "google_only")) as [Hg|Hg]; [by rewrite Hg|].
    rewrite (bool_decide_false (f_mode f = bs "google_only") Hg). cbv iota. by rewrite (bool_decide_false _ Hg). }
  assert (Hs : negb (form_is_direct f) && blank (f_script_id (normal_form f)) = false).
  { destruct (form_is_direct f); [done|]. specialize (Hids eq_refl). simpl. unfold blank.
    rewrite trim_join by apply trimmed_nonempty_trimmed. pose proof (trimmed_nonempty_trimmed (split_by id_separator (f_script_id f))) as Ht.
    fold (form_ids f) in Ht. destruct Ht as [|a l [_ Hn] _]; [done|]. apply bool_decide_eq_false.
    destruct a; [done|]. by destruct l. }
  assert (Ha : negb (form_is_direct f) && blank (f_auth_key f) = false).
  { destruct (form_is_direct f); [done|]. by destruct Hb. }
  unfold to_config. rewrite Hd, Hs. simpl (f_auth_key (normal_form f)). rewrite Ha.
  rewrite (normal_form_ports _ _ _ Hp), form_ids_stable, normal_snis.
  unfold to_config in H. destruct (negb _ && _); [done|]. destruct (negb _ && _); [done|].
  rewrite Hp in H. simpl in H. injection H as <-. unfold restarted, without_quota. simpl. by rewrite !trim_idemp.
Qed.

(** *** Through the files *)

Lemma ancestors_from_length sp acc parts d :
  d ∈ ancestors_from sp acc parts → (length d ≤ length acc + length (join [sp] parts))%nat.
Proof.
  revert acc. induction parts as [|p [|q ps] IH]; intros acc; [simpl; set_solver..|].
  change (ancestors_from sp acc (p :: q :: ps)) with
    ((match acc ++ p with [] => [] | _ => [acc ++ p] end) ++ ancestors_from sp ((acc ++ p) ++ [sp]) (q :: ps)).
  change (join [sp] (p :: q :: ps)) with (p ++ [sp] ++ join [sp] (q :: ps)).
  rewrite elem_of_app, !length_app. intros [Hd|Hd%IH].
  - assert (d = acc ++ p) as -> by (destruct (acc ++ p); [by apply elem_of_nil in Hd|by apply list_elem_of_singleton]).
    rewrite length_app. lia.
  - rewrite !length_app in Hd. lia.
Qed.

Lemma ancestors_length sp p d : d ∈ ancestors sp p → (length d ≤ length p)%nat.
Proof. intros Hd%ancestors_from_length. by rewrite Routing.join_split_on in Hd. Qed.

(** Making directories leaves the files longer paths have. *)
Lemma create_dir_keeps sp io d s r p : (length d < length p)%nat →
  (fs_create_dir_all sp io d s).2 !! p = Some r ↔ s !! p = Some r.
Proof.
  intros Hl. unfold fs_create_dir_all. destruct (io _ d); [done|]. case_match; [done|]. simpl.
  assert (Hp : ∀ x, x ∈ ancestors sp d ++ [d] → x ≠ p).
  { intros x [Hx%ancestors_length| ->%list_elem_of_singleton]%elem_of_app ->; lia. }
  revert s Hp H. generalize (ancestors sp d ++ [d]). intros ds s Hp _. revert s.
  induction ds as [|x ds IH]; intros s; simpl; [done|].
  rewrite IH by (intros y Hy; apply Hp; by right). by rewrite lookup_insert_ne by (apply Hp; left).
Qed.

Lemma path_of_display os p : display_path (path_of os p) = p.
Proof.
  unfold path_of, rsplit_once, display_path. destruct (find_byte (is_byte (sep os)) (rev p)) as [i|] eqn:E; [|done].
  simpl. assert (Hr : rev p = take i (rev p) ++ sep os :: drop (S i) (rev p)).
  { revert i E. generalize (rev p). intros b. induction b as [|x b IH]; intros i; simpl; [done|]. unfold is_byte at 1.
    case_bool_decide; [intros [= <-]; by subst|]. destruct (find_byte _ b) as [j|] eqn:Ej; [|done]. intros [= <-].
    simpl. by rewrite <- IH. }
  transitivity (rev (take i (rev p) ++ sep os :: drop (S i) (rev p))); [by rewrite rev_app_distr|].
  rewrite <- Hr. apply rev_involutive.
Qed.

Lemma fs_of_lookup os io s p b : s !! p = Some (File b) → files (fs_of os io s) !! path_of os p = Some b.
Proof.
  intros Hs. unfold fs_of. cbn [files]. apply elem_of_list_to_map.
  - assert (Hn : NoDup (map fst (map_to_list s))) by apply NoDup_fst_map_to_list. revert Hn.
    generalize (map_to_list s). intros l. induction l as [|[q [c|]] l IH]; simpl; [constructor|..]; rewrite NoDup_cons; intros [Hq Hl].
    + constructor; [|by apply IH]. intros (e & He & (x & Hin & Hx)%list_elem_of_omap)%list_elem_of_fmap.
      destruct x as [q' [c'|]]; simpl in Hx; [|done]. injection Hx as <-. simpl in He.
      apply Hq. apply (f_equal display_path) in He. rewrite !path_of_display in He. subst q'.
      apply list_elem_of_fmap. by exists (q, File c').
    + by apply IH.
  - apply list_elem_of_omap. exists (p, File b). split; [by apply elem_of_map_to_list|done].
Qed.

Lemma rsplit_join sp d n : sp ∉ n → rsplit_once sp (d ++ sp :: n) = Some (d, n).
Proof.
  intros Hn. unfold rsplit_once. rewrite rev_app_distr. simpl. rewrite <- app_assoc. simpl.
  assert (E : find_byte (is_byte sp) (rev n ++ sp :: rev d) = Some (length n)).
  { assert (Hr : sp ∉ rev n) by (by rewrite list_elem_of_In, <- in_rev, <- list_elem_of_In). rewrite <- (length_rev n). revert Hr.
    generalize (rev n). intros l. induction l as [|x l IH]; simpl.
    - intros _. unfold is_byte. by rewrite bool_decide_true.
    - rewrite not_elem_of_cons. intros [Hx Hl]. unfold is_byte at 1. rewrite bool_decide_false by done. by rewrite IH. }
  rewrite E. rewrite take_app_length' by (by rewrite length_rev).
  assert (Hd : drop (S (length n)) (rev n ++ sp :: rev d) = rev d).
  { rewrite drop_app_ge by (rewrite length_rev; lia). rewrite length_rev. by replace (S (length n) - length n)%nat with 1%nat by lia. }
  by rewrite Hd, !rev_involutive.
Qed.

Lemma toml_path os dir : path_of os (path_join (sep os) dir (bs "config.toml")) = mk_path (dir ++ [sep os]) (bs "config.toml").
Proof.
  unfold path_of, path_join. rewrite rsplit_join; [done|]. unfold sep, sep_of.
  case_bool_decide; rewrite list_elem_of_In; simpl; intuition discriminate.
Qed.

Lemma validated_ids `{!ConfigFormats} f c : to_config f = Ok c → validate sni_error c = Ok tt →
  form_is_direct f = false → form_ids f ≠ [].
Proof.
  intros Ht Hv Hd Hi. unfold to_config in Ht. destruct (negb _ && _); [done|]. destruct (negb _ && _); [done|].
  destruct (form_ports f) as [[p o]|]; [|done]. injection Ht as <-. rewrite Hi in Hv. unfold form_is_direct in Hd.
  apply orb_false_iff in Hd as [Hd Hg]. unfold validate, mode_kind, validate_relay, script_ids_resolved in Hv.
  cbn [c_mode c_script_id c_script_ids script_id_of c_auth_key] in Hv. rewrite Hd, Hg in Hv. by repeat case_match.
Qed.

Lemma form_fits_toml f c : to_config f = Ok c → form_fits f → toml_fits (toml_of_config c).
Proof.
  intros H (?&?&?&?&?&?&?&?). destruct (to_config_ok _ _ H) as [Hp _].
  destruct (form_ports_ok _ _ _ Hp) as (Hl%parse_u16_range & _ & Ho).
  assert (Hs : ∀ p, c_socks5_port c = Some p → p ≤ u16_max).
  { intros p E. rewrite E in Ho. destruct (blank _); [done|]. symmetry in Ho. apply parse_u16_range in Ho.
    unfold u16_max. lia. }
  unfold to_config in H. destruct (negb _ && _); [done|]. destruct (negb _ && _); [done|].
  destruct (form_ports f) as [[p o]|]; [|done]. injection H as <-.
  unfold toml_fits, relay_fits, network_fits, scan_fits, u16_max in *. simpl in *. split_and!; try done; lia.
Qed.

Section round_trip.
Context `{!ConfigFormats} (os : bytes) (io_error : bytes → bytes → option bytes) (project_dir : Env → option bytes).

(** The directory of the settings. *)
Definition settings_dir (env : Env) (override : option bytes) : bytes :=
  match override with Some p => p | None => default (bs ".") (project_dir env) end.

Lemma save_config_file env ov c s p s' doc :
  save_config os io_error project_dir env ov c s = (Ok p, s') →
  toml_text (ser_toml (toml_of_config c)) = Ok doc →
  p = path_join (sep os) (settings_dir env ov) (bs "config.toml") ∧ s' !! p = Some (File doc).
Proof.
  unfold save_config, config_path, data_dir, mbnd. intros Hs Hd. rewrite Hd in Hs.
  destruct (fs_create_dir_all _ _ _ s) as [r0 s0]. simpl in Hs.
  destruct (make_parent _ _ _ s0) as [[u|e] s1]; [|done].
  destruct (fs_write _ _ _ doc s1) as [[[]|e] s2] eqn:Hw; [|done]. apply fs_write_ok in Hw.
  injection Hs as <- <-. subst s2. split; [done|]. apply lookup_insert_eq.
Qed.

(** C18: what the Save button stores is what the next start shows and uses.
    For a form that is accepted and whose settings are valid, once saving
    succeeded, loading gives the same form without an error, up to white space
    around the text fields and SNI rows that were switched off, except that
    the quota settings are back at their defaults; and starting the proxy from
    the loaded form uses the settings that were saved, with the default SNI
    rows spelled out where no row was on. *)
Theorem form_saved_and_reloaded f c env ov s p s' doc :
  to_config f = Ok c → form_fits f → validate sni_error c = Ok tt →
  save_form os io_error project_dir env ov f s = (Ok p, s') →
  toml_text (ser_toml (toml_of_config c)) = Ok doc →
  toml_document doc = Ok (ser_toml (toml_of_config c)) →
  utf8_valid doc = true →
  (load_form os io_error project_dir env ov s').1 = (normal_form f, None) ∧
  to_config (normal_form f) = Ok (restarted c).
Proof.
  intros Hc Hf Hv Hsave Ht Hdoc Hu. split; [|eapply restart_sends_same; eauto using validated_ids].
  unfold save_form in Hsave. rewrite Hc in Hsave. destruct (save_config_file _ _ _ _ _ _ _ Hsave Ht) as [Hp Hs].
  unfold load_form, resolve_config_path, data_dir, mbnd, gets. fold (settings_dir env ov).
  destruct (fs_create_dir_all _ _ _ s') as [r s1] eqn:Hm. simpl.
  assert (Hs1 : s1 !! p = Some (File doc)).
  { pose proof (create_dir_keeps (sep os) io_error (settings_dir env ov) s' (File doc) p) as Hk.
    rewrite Hm in Hk. apply Hk; [|done]. rewrite Hp. unfold path_join. rewrite length_app. simpl. lia. }
  rewrite <- Hp. assert (He : path_exists s1 p = true) by (apply bool_decide_eq_true; eauto). rewrite !He.
  unfold config_load. pose proof (fs_of_lookup os io_error s1 p doc Hs1) as Hfile.
  rewrite Hp in Hfile |- *. rewrite toml_path in Hfile |- *.
  unfold Config.load. simpl p_name. replace (split_name (bs "config.toml")).2 with (Some (bs "toml")) by (by vm_compute).
  rewrite bool_decide_true by (by vm_compute). unfold load_toml, read_to_string, from_utf8. rewrite Hfile, Hu, Hdoc.
  rewrite de_ser_toml by (by eapply form_fits_toml). fold (without_quota c). rewrite validate_without_quota, Hv. simpl.
  by rewrite (to_config_shape _ _ Hc).
Qed.
End round_trip.

(** ** A form and its next start *)

Definition demo_form : FormState := {|
  f_mode := bs "apps_script"; f_script_id := bs " AKfyc, AKfyd"; f_auth_key := bs "secret";
  f_google_ip := bs "216.239.38.120 "; f_front_domain := bs "www.google.com"; f_listen_host := bs "127.0.0.1";
  f_listen_port := bs "8085"; f_socks5_port := bs "+8086"; f_log_level := bs "info"; f_verify_ssl := true;
  f_upstream_socks5 := []; f_parallel_relay := 2; f_show_auth_key := true;
  f_sni_pool := [mk_sni_row (bs "www.google.com") true; mk_sni_row (bs "mail.google.com") false];
  f_sni_custom_input := []; f_sni_editor_open := true; f_show_log := false; f_fetch_ips_from_api := false;
  f_max_ips_to_scan := 100; f_scan_batch_size := 500; f_google_ip_validation := true;
  f_normalize_x_graphql := false; f_youtube_via_relay := true; f_passthrough_hosts := []; f_block_quic := true;
  f_block_stun := false; f_disable_padding := false; f_force_http1 := true; f_network_preset := None;
  f_strip_noise_response_headers := true; f_tunnel_doh := true; f_bypass_doh_hosts := []; f_block_doh := true;
  f_fronting_groups := []; f_auto_blacklist_strikes := 3; f_auto_blacklist_window_secs := 30;
  f_auto_blacklist_cooldown_secs := 120; f_request_timeout_secs := 30; f_stream_timeout_secs := 300;
  f_exit_node := default_exit_node; f_quota_daily_limit := 100000; f_quota_safety_buffer := 500
|}.

Definition demo_config : Config := match to_config demo_form with Ok c => c | Err _ => sample_config end.

(** Formats that know this one document. *)
Definition form_formats : ConfigFormats :=
  {| sni_error := λ _, None;
     json_document := λ _, Err [];
     toml_document := λ _, Ok (ser_toml (toml_of_config demo_config));
     toml_text := λ _, Ok (bs "doc") |}.

Lemma form_saved_and_reloaded_witness :
  let run := save_form (H := form_formats) (bs "linux") (λ _ _, None) (λ _, Some (bs "/d")) demo_env None demo_form ∅ in
  (load_form (H := form_formats) (bs "linux") (λ _ _, None) (λ _, Some (bs "/d")) demo_env None run.2).1
    = (normal_form demo_form, None) ∧ f_script_id (normal_form demo_form) = bs "AKfyc" ++ x0a :: bs "AKfyd" ∧
  f_sni_pool (normal_form demo_form) = [enabled_row (bs "www.google.com")].
Proof.
  intros run. split; [|split; by vm_compute].
  apply (form_saved_and_reloaded (H := form_formats) (bs "linux") (λ _ _, None) (λ _, Some (bs "/d")) demo_form demo_config
           demo_env None ∅ (bs "/d/config.toml") run.2 (bs "doc")); try reflexivity.
  repeat split; by vm_compute.
Defined.

(** ** The rotation after a save *)

Lemma unseen_filter seen names :
  NoDup names → unseen seen names = List.filter (λ n, negb (bool_decide (n ∈ seen))) names.
Proof.
  intros Hn. revert seen. induction Hn as [|n ns Hni _ IH]; intros seen; simpl; [done|].
  case_bool_decide; simpl; [apply IH|]. f_equal. rewrite IH. apply filter_ext_in. intros m Hm%list_elem_of_In.
  f_equal. apply bool_decide_ext. rewrite elem_of_cons. split; [|by right]. intros [->|]; done.
Qed.

Lemma sni_pool_nodup : NoDup DEFAULT_GOOGLE_SNI_POOL.
Proof. apply NoDup_ListNoDup. repeat (constructor; [simpl; intuition discriminate|]). constructor. Qed.

(** Without rows of its own, a configuration rotates through its front domain
    alone when that is not one of the built-in names; after it was shown and
    saved by the form it rotates through all the built-in names too.  For a
    built-in front domain nothing changes. *)
Lemma save_widens_rotation c : c_sni_hosts c = None → trim (c_front_domain c) ≠ [] →
  let fd := trim (c_front_domain c) in
  let before := build_sni_pool_for (c_front_domain c) (default [] (c_sni_hosts c)) in
  let after := build_sni_pool_for (c_front_domain c) (default [] (c_sni_hosts (restarted c))) in
  after = fd :: List.filter (λ s, negb (bool_decide (s = fd))) DEFAULT_GOOGLE_SNI_POOL ∧
  (fd ∈ DEFAULT_GOOGLE_SNI_POOL → after = before) ∧ (fd ∉ DEFAULT_GOOGLE_SNI_POOL → before = [fd]).
Proof.
  intros Hn Hfd fd before after.
  assert (Ha : after = fd :: List.filter (λ s, negb (bool_decide (s = fd))) DEFAULT_GOOGLE_SNI_POOL).
  { unfold after, build_sni_pool_for. fold fd. simpl c_sni_hosts. rewrite Hn. simpl default.
    fold (default_rows (c_front_domain c)). pose proof (trimmed_nonempty_fix _ (default_rows_trimmed (c_front_domain c))) as Hr.
    unfold trimmed_nonempty in Hr. rewrite Hr. rewrite default_rows_eq. fold fd. rewrite bool_decide_false by done.
    change ([fd] ++ unseen [fd] DEFAULT_GOOGLE_SNI_POOL) with (fd :: unseen [fd] DEFAULT_GOOGLE_SNI_POOL).
    f_equal. rewrite unseen_filter by apply sni_pool_nodup. apply filter_ext_in. intros m _.
    f_equal. apply bool_decide_ext. apply list_elem_of_singleton. }
  split; [done|]. unfold before, build_sni_pool_for. rewrite Hn. fold fd. change (List.filter _ (map trim (default [] None))) with (@nil bytes).
  split; intros Hin; [by rewrite (bool_decide_true _ Hin), Ha|by rewrite (bool_decide_false _ Hin)].
Qed.

(** ** What the form accepts and the configuration refuses *)

(** A list of ids that holds none passes the form, and its saved settings are
    refused by the next start. *)
Lemma empty_ids_accepted `{!ConfigFormats} f : f_mode f = bs "apps_script" → f_script_id f = bs "," →
  blank (f_auth_key f) = false → ∀ ports, form_ports f = Ok ports →
  ∃ c e, to_config f = Ok c ∧ validate sni_error c = Err e.
Proof.
  intros Hm Hs Ha ports Hp. unfold to_config, form_is_direct. rewrite Hm, Ha, Hp.
  replace (blank (f_script_id f)) with false by (by rewrite Hs). simpl negb. simpl andb. cbv iota.
  match goal with |- ∃ c e, Ok ?x = Ok c ∧ _ => exists x end.
  unfold form_ids. rewrite Hs. unfold validate, mode_kind, validate_relay. cbn [c_mode c_auth_key].
  rewrite Ha, bool_decide_true by done. simpl orb. case_bool_decide; eexists; split; reflexivity.
Qed.

(** ** Settings the form has no field for *)

Lemma unshown_settings_lost f c : to_config f = Ok c →
  c_hosts c = ∅ ∧ c_enable_batching c = false ∧ c_coalesce_step_ms c = 0 ∧ c_coalesce_max_ms c = 0.
Proof.
  unfold to_config. destruct (negb _ && _); [done|]. destruct (negb _ && _); [done|].
  destruct (form_ports f); [|done]. by intros [= <-].
Qed.

(** The wire shape leaves [tunnel_doh] out when it is off, and the reader
    takes it as on. *)
Lemma map_get_unless_ne k k' b v m : k ≠ k' → map_get k (ser_unless b k' v ++ m) = map_get k m.
Proof. intros. destruct b; [done|]. by apply map_get_field_ne. Qed.

Lemma wire_reads_tunnel_doh c c' : de_config (config_wire c) = Some c' → c_tunnel_doh c' = true.
Proof.
  assert (Hf : ∀ m, as_object (config_wire c) = Some m → field de_bool default_tunnel_doh (bs "tunnel_doh") m = Some true).
  { intros m Hm. change (as_object (config_wire c)) with (Some (wire_fields c)) in Hm.
    assert (m = wire_fields c) as -> by congruence. clear Hm. unfold field, wire_fields. rewrite <- (app_nil_r (ser_unless (is_default_exit_node _) _ _)).
    repeat first [rewrite map_get_field_ne by (vm_compute; discriminate)
                 |rewrite map_get_opt_ne by (vm_compute; discriminate)
                 |rewrite map_get_unless_ne by (vm_compute; discriminate)].
    destruct (c_tunnel_doh c); simpl negb; [reflexivity|]. simpl ser_unless. simpl app.
    repeat rewrite map_get_unless_ne by (vm_compute; discriminate). reflexivity. }
  unfold de_config. destruct (as_object (config_wire c)) as [m|]; [|done]. specialize (Hf m eq_refl).
  repeat match goal with
  | |- (match field de_bool default_tunnel_doh ?k m with _ => _ end = _) → _ => rewrite Hf
  | |- (match ?X with _ => _ end = _) → _ => destruct X; [|done]
  end.
  by intros [= <-].
Qed.
