(* ===== verification/Ui.v ===== *)
(** The desktop program behind its window (src/src/bin/ui.rs): the state the
    window and the background thread share, the background thread's commands
    with the tasks they start, and the clicks that send them.

    Every thread is a program ([Prog]) over the mutex of the shared state: a
    guard is taken ([Lock]), used ([Update], [Branch]) and dropped
    ([Unlock]), other code runs without the state ([Call]).  [step]
    interleaves the threads one operation at a time.  [std::sync::Mutex] is
    not reentrant: a thread that locks it again while it holds the guard does
    not go on. *)
From Stdlib Require Import Strings.Byte.
From S2P Require Import Prelude RustBytes Quota Relay RelayUrl Config Startup HostSystem RustText CertInstall ScanSni Update UiForm.

(** ** The shared state *)

Inductive SniProbeState := SniInFlight | SniOk (ms : Z) | SniFailed (e : bytes).
Inductive UpdateProbeState := UpdateInFlight | UpdateDone (r : UpdateCheck).

Record UiState := mk_ui_state {
  u_running : bool; u_started_at : option Z; u_last_stats : option StatsSnapshot;
  u_last_per_site : list (bytes * HostStat); u_log : list bytes; u_ca_trusted : option bool;
  u_ca_trusted_at : option Z; u_last_test_ok : option bool; u_last_test_msg : bytes; u_last_test_msg_at : option Z;
  u_sni_probe : gmap bytes SniProbeState; u_last_update_check : option UpdateProbeState;
  u_last_update_check_at : option Z; u_download_in_progress : bool; u_cert_op_in_progress : bool;
  u_proxy_active : bool; u_last_download : option (result bytes bytes); u_last_download_at : option Z;
  u_quota : option QuotaSummary
}.

(** [UiState::default()]. *)
Definition default_ui_state : UiState :=
  mk_ui_state false None None [] [] None None None [] None ∅ None None false false false None None None.

Definition with_running (b : bool) (st : UiState) : UiState :=
  {| u_running := b; u_started_at := u_started_at st; u_last_stats := u_last_stats st;
     u_last_per_site := u_last_per_site st; u_log := u_log st; u_ca_trusted := u_ca_trusted st;
     u_ca_trusted_at := u_ca_trusted_at st; u_last_test_ok := u_last_test_ok st;
     u_last_test_msg := u_last_test_msg st; u_last_test_msg_at := u_last_test_msg_at st;
     u_sni_probe := u_sni_probe st; u_last_update_check := u_last_update_check st;
     u_last_update_check_at := u_last_update_check_at st; u_download_in_progress := u_download_in_progress st;
     u_cert_op_in_progress := u_cert_op_in_progress st; u_proxy_active := u_proxy_active st;
     u_last_download := u_last_download st; u_last_download_at := u_last_download_at st; u_quota := u_quota st |}.

Definition with_started_at (t : option Z) (st : UiState) : UiState :=
  {| u_running := u_running st; u_started_at := t; u_last_stats := u_last_stats st;
     u_last_per_site := u_last_per_site st; u_log := u_log st; u_ca_trusted := u_ca_trusted st;
     u_ca_trusted_at := u_ca_trusted_at st; u_last_test_ok := u_last_test_ok st;
     u_last_test_msg := u_last_test_msg st; u_last_test_msg_at := u_last_test_msg_at st;
     u_sni_probe := u_sni_probe st; u_last_update_check := u_last_update_check st;
     u_last_update_check_at := u_last_update_check_at st; u_download_in_progress := u_download_in_progress st;
     u_cert_op_in_progress := u_cert_op_in_progress st; u_proxy_active := u_proxy_active st;
     u_last_download := u_last_download st; u_last_download_at := u_last_download_at st; u_quota := u_quota st |}.

Definition with_stats (s : StatsSnapshot) (sites : list (bytes * HostStat)) (st : UiState) : UiState :=
  {| u_running := u_running st; u_started_at := u_started_at st; u_last_stats := Some s; u_last_per_site := sites;
     u_log := u_log st; u_ca_trusted := u_ca_trusted st; u_ca_trusted_at := u_ca_trusted_at st;
     u_last_test_ok := u_last_test_ok st; u_last_test_msg := u_last_test_msg st;
     u_last_test_msg_at := u_last_test_msg_at st; u_sni_probe := u_sni_probe st;
     u_last_update_check := u_last_update_check st; u_last_update_check_at := u_last_update_check_at st;
     u_download_in_progress := u_download_in_progress st; u_cert_op_in_progress := u_cert_op_in_progress st;
     u_proxy_active := u_proxy_active st; u_last_download := u_last_download st;
     u_last_download_at := u_last_download_at st; u_quota := Some (ss_quota s) |}.

Definition with_log (l : list bytes) (st : UiState) : UiState :=
  {| u_running := u_running st; u_started_at := u_started_at st; u_last_stats := u_last_stats st;
     u_last_per_site := u_last_per_site st; u_log := l; u_ca_trusted := u_ca_trusted st;
     u_ca_trusted_at := u_ca_trusted_at st; u_last_test_ok := u_last_test_ok st;
     u_last_test_msg := u_last_test_msg st; u_last_test_msg_at := u_last_test_msg_at st;
     u_sni_probe := u_sni_probe st; u_last_update_check := u_last_update_check st;
     u_last_update_check_at := u_last_update_check_at st; u_download_in_progress := u_download_in_progress st;
     u_cert_op_in_progress := u_cert_op_in_progress st; u_proxy_active := u_proxy_active st;
     u_last_download := u_last_download st; u_last_download_at := u_last_download_at st; u_quota := u_quota st |}.

Definition with_ca (b : bool) (t : Z) (st : UiState) : UiState :=
  {| u_running := u_running st; u_started_at := u_started_at st; u_last_stats := u_last_stats st;
     u_last_per_site := u_last_per_site st; u_log := u_log st; u_ca_trusted := Some b; u_ca_trusted_at := Some t;
     u_last_test_ok := u_last_test_ok st; u_last_test_msg := u_last_test_msg st;
     u_last_test_msg_at := u_last_test_msg_at st; u_sni_probe := u_sni_probe st;
     u_last_update_check := u_last_update_check st; u_last_update_check_at := u_last_update_check_at st;
     u_download_in_progress := u_download_in_progress st; u_cert_op_in_progress := u_cert_op_in_progress st;
     u_proxy_active := u_proxy_active st; u_last_download := u_last_download st;
     u_last_download_at := u_last_download_at st; u_quota := u_quota st |}.

Definition with_test (ok : option bool) (msg : bytes) (t : Z) (st : UiState) : UiState :=
  {| u_running := u_running st; u_started_at := u_started_at st; u_last_stats := u_last_stats st;
     u_last_per_site := u_last_per_site st; u_log := u_log st; u_ca_trusted := u_ca_trusted st;
     u_ca_trusted_at := u_ca_trusted_at st; u_last_test_ok := ok; u_last_test_msg := msg;
     u_last_test_msg_at := Some t; u_sni_probe := u_sni_probe st; u_last_update_check := u_last_update_check st;
     u_last_update_check_at := u_last_update_check_at st; u_download_in_progress := u_download_in_progress st;
     u_cert_op_in_progress := u_cert_op_in_progress st; u_proxy_active := u_proxy_active st;
     u_last_download := u_last_download st; u_last_download_at := u_last_download_at st; u_quota := u_quota st |}.

Definition with_probes (m : gmap bytes SniProbeState) (st : UiState) : UiState :=
  {| u_running := u_running st; u_started_at := u_started_at st; u_last_stats := u_last_stats st;
     u_last_per_site := u_last_per_site st; u_log := u_log st; u_ca_trusted := u_ca_trusted st;
     u_ca_trusted_at := u_ca_trusted_at st; u_last_test_ok := u_last_test_ok st;
     u_last_test_msg := u_last_test_msg st; u_last_test_msg_at := u_last_test_msg_at st; u_sni_probe := m;
     u_last_update_check := u_last_update_check st; u_last_update_check_at := u_last_update_check_at st;
     u_download_in_progress := u_download_in_progress st; u_cert_op_in_progress := u_cert_op_in_progress st;
     u_proxy_active := u_proxy_active st; u_last_download := u_last_download st;
     u_last_download_at := u_last_download_at st; u_quota := u_quota st |}.

Definition with_update_check (r : UpdateProbeState) (t : Z) (st : UiState) : UiState :=
  {| u_running := u_running st; u_started_at := u_started_at st; u_last_stats := u_last_stats st;
     u_last_per_site := u_last_per_site st; u_log := u_log st; u_ca_trusted := u_ca_trusted st;
     u_ca_trusted_at := u_ca_trusted_at st; u_last_test_ok := u_last_test_ok st;
     u_last_test_msg := u_last_test_msg st; u_last_test_msg_at := u_last_test_msg_at st;
     u_sni_probe := u_sni_probe st; u_last_update_check := Some r; u_last_update_check_at := Some t;
     u_download_in_progress := u_download_in_progress st; u_cert_op_in_progress := u_cert_op_in_progress st;
     u_proxy_active := u_proxy_active st; u_last_download := u_last_download st;
     u_last_download_at := u_last_download_at st; u_quota := u_quota st |}.

Definition with_cert_op (b : bool) (st : UiState) : UiState :=
  {| u_running := u_running st; u_started_at := u_started_at st; u_last_stats := u_last_stats st;
     u_last_per_site := u_last_per_site st; u_log := u_log st; u_ca_trusted := u_ca_trusted st;
     u_ca_trusted_at := u_ca_trusted_at st; u_last_test_ok := u_last_test_ok st;
     u_last_test_msg := u_last_test_msg st; u_last_test_msg_at := u_last_test_msg_at st;
     u_sni_probe := u_sni_probe st; u_last_update_check := u_last_update_check st;
     u_last_update_check_at := u_last_update_check_at st; u_download_in_progress := u_download_in_progress st;
     u_cert_op_in_progress := b; u_proxy_active := u_proxy_active st; u_last_download := u_last_download st;
     u_last_download_at := u_last_download_at st; u_quota := u_quota st |}.

Definition with_proxy_active (b : bool) (st : UiState) : UiState :=
  {| u_running := u_running st; u_started_at := u_started_at st; u_last_stats := u_last_stats st;
     u_last_per_site := u_last_per_site st; u_log := u_log st; u_ca_trusted := u_ca_trusted st;
     u_ca_trusted_at := u_ca_trusted_at st; u_last_test_ok := u_last_test_ok st;
     u_last_test_msg := u_last_test_msg st; u_last_test_msg_at := u_last_test_msg_at st;
     u_sni_probe := u_sni_probe st; u_last_update_check := u_last_update_check st;
     u_last_update_check_at := u_last_update_check_at st; u_download_in_progress := u_download_in_progress st;
     u_cert_op_in_progress := u_cert_op_in_progress st; u_proxy_active := b; u_last_download := u_last_download st;
     u_last_download_at := u_last_download_at st; u_quota := u_quota st |}.

Definition with_download (busy : bool) (r : option (result bytes bytes)) (t : option Z) (st : UiState) : UiState :=
  {| u_running := u_running st; u_started_at := u_started_at st; u_last_stats := u_last_stats st;
     u_last_per_site := u_last_per_site st; u_log := u_log st; u_ca_trusted := u_ca_trusted st;
     u_ca_trusted_at := u_ca_trusted_at st; u_last_test_ok := u_last_test_ok st;
     u_last_test_msg := u_last_test_msg st; u_last_test_msg_at := u_last_test_msg_at st;
     u_sni_probe := u_sni_probe st; u_last_update_check := u_last_update_check st;
     u_last_update_check_at := u_last_update_check_at st; u_download_in_progress := busy;
     u_cert_op_in_progress := u_cert_op_in_progress st; u_proxy_active := u_proxy_active st; u_last_download := r;
     u_last_download_at := t; u_quota := u_quota st |}.

(** ** The log *)

Definition LOG_MAX : nat := 200.

(** What the clock shows: [Instant::now] and the formatted time. *)
Record Clock := mk_clock { now : Z; iso : bytes }.

(** [push_back], then [pop_front] while there are more than [LOG_MAX]. *)
Definition append_log (line : bytes) (st : UiState) : UiState :=
  let l := u_log st ++ [line] in with_log (drop (length l - LOG_MAX) l) st.

(** One event of the tracing writer: its lines go to the log panel. *)
Definition flush_lines (buf : bytes) (st : UiState) : UiState :=
  foldl (λ st line, if bool_decide (line = []) then st else append_log line st) st
    (str_lines (trim_end (from_utf8_lossy buf))).

(** ** Threads *)

Inductive Cmd :=
  | Start (cfg : Config)
  | Stop
  | Test (cfg : Config)
  | InstallCa
  | RemoveCa
  | CheckCaTrusted
  | PollStats
  | TestSni (google_ip sni : bytes)
  | TestAllSni (google_ip : bytes) (snis : list bytes)
  | CheckUpdate (route : Route)
  | DownloadUpdate (route : Route) (url name : bytes).

(** Code the threads run without the shared state. *)
Inductive Job :=
  | MitmNew                                        (* MitmCertManager::new_in *)
  | ProxyNew (cfg : Config)                        (* ProxyServer::new *)
  | FillSlot                                       (* fronter_slot.lock().await *)
  | ServerRun                                      (* server.run().await *)
  | PollSlot                                       (* the slot, and the snapshots of its fronter *)
  | RelayTest (cfg : Config)                       (* test_cmd::run *)
  | IpScan (cfg : Config)                          (* scan_ips::run *)
  | CaInstall                                      (* MitmCertManager::new_in, install_ca *)
  | CaRemove                                       (* remove_ca *)
  | CaCheck                                        (* ca.exists, is_ca_trusted_by_name *)
  | ProbeOne (google_ip sni : bytes)
  | ProbeAll (google_ip : bytes) (snis : list bytes)
  | CheckJob (route : Route)
  | Download (route : Route) (url name : bytes).   (* downloads_dir, download_asset *)

(** What the code gives back; an error is its message. *)
Definition reply (j : Job) : Type :=
  match j with
  | MitmNew | ProxyNew _ | ServerRun => option bytes
  | FillSlot | IpScan _ => unit
  | PollSlot => option (StatsSnapshot * list (bytes * HostStat))
  | RelayTest _ => bool
  | CaInstall => result unit bytes
  | CaRemove => result RemovalOutcome bytes
  | CaCheck => bool * bool
  | ProbeOne _ _ => ProbeResult
  | ProbeAll _ _ => list (bytes * ProbeResult)
  | CheckJob _ => UpdateCheck
  | Download _ _ _ => bytes * result Z bytes
  end.

(** An [.await] of a task, where it can be aborted. *)
Definition is_async (j : Job) : bool :=
  match j with
  | FillSlot | ServerRun | PollSlot | RelayTest _ | IpScan _ | ProbeOne _ _ | ProbeAll _ _ | CheckJob _
  | Download _ _ _ => true
  | MitmNew | ProxyNew _ | CaInstall | CaRemove | CaCheck => false
  end.

Inductive Prog :=
  | Done
  | Lock (k : Prog)
  | Unlock (k : Prog)
  | Update (f : Clock → UiState → UiState) (k : Prog)
  | Branch (b : UiState → bool) (k1 k2 : Prog)
  | Call (j : Job) (k : reply j → Prog)
  | Busy (j : Job) (k : reply j → Prog)
  | Spawn (w k : Prog)
  (* the background thread's handle of the proxy task *)
  | SpawnProxy (w : Prog) (k : nat → Prog)
  | ClearActive (k : Prog)
  | IfFinished (t : nat) (k1 k2 : Prog)
  | Join (t : nat) (k1 k2 : Prog).

(** Where the proxy task can be aborted: at an [.await], or before it has run
    at all. *)
Definition abortable (p : Prog) : bool :=
  match p with Busy j _ => is_async j | Call MitmNew _ => true | _ => false end.

(** [let mut st = shared.state.lock().unwrap(); ...] to the end of its block. *)
Definition locked (f : Clock → UiState → UiState) (k : Prog) : Prog := Lock (Update f (Unlock k)).

Definition push_log (msg : bytes) (k : Prog) : Prog := locked (λ c, append_log (iso c ++ bs "  " ++ msg)) k.

(** ** The background thread *)

(** The end of a turn of its loop: a finished proxy task is forgotten. *)
Definition sweep (active : option nat) : Prog :=
  match active with
  | None => Done
  | Some t =>
      IfFinished t
        (ClearActive (locked (λ _, with_running false) (locked (λ _, with_started_at None) Done)))
        Done
  end.

Definition mark_stopped (st : UiState) : UiState := with_proxy_active false (with_running false st).

Definition listening (cfg : Config) : bytes :=
  bs "[ui] listening HTTP " ++ c_listen_host cfg ++ bs ":" ++ fmt_uint (c_listen_port cfg) ++ bs " SOCKS5 " ++
  c_listen_host cfg ++ bs ":" ++ fmt_uint (default ((c_listen_port cfg + 1) mod u16_mod) (c_socks5_port cfg)).

(** The task of [Cmd::Start]. *)
Definition proxy_task (cfg : Config) : Prog :=
  Call MitmNew (λ e, match e with
  | Some e => push_log (bs "[ui] MITM init failed: " ++ e) (locked (λ _, mark_stopped) Done)
  | None =>
      Call (ProxyNew cfg) (λ e, match e with
      | Some e => push_log (bs "[ui] proxy build failed: " ++ e) (locked (λ _, mark_stopped) Done)
      | None =>
          Call FillSlot (λ _,
            locked (λ c st, with_started_at (Some (now c)) (with_running true st)) (
            push_log (listening cfg) (
            Call ServerRun (λ e,
              let stop := locked (λ _ st, mark_stopped (with_started_at None st)) (push_log (bs "[ui] proxy stopped") Done) in
              match e with
              | Some e => push_log (bs "[ui] proxy error: " ++ e) stop
              | None => stop
              end))))
      end)
  end).

Definition mode_explainer (cfg : Config) : option bytes :=
  match mode_kind cfg with
  | Ok Routing.Full =>
      Some (bs "Test Relay is wired only for apps_script mode. In full mode the data plane is the tunnel-node — to verify it end-to-end, start the proxy and load https://whatismyipaddress.com in your browser via 127.0.0.1:8085. The IP shown should be your tunnel-node's VPS IP. Tracking a real Full-mode test in #160.")
  | Ok Routing.Direct =>
      Some (bs "Test Relay is wired only for apps_script mode. In direct mode there is no Apps Script relay — every request goes through the SNI-rewrite tunnel straight to Google's edge. Verify by loading https://www.google.com via the proxy.")
  | _ => None
  end.

Definition test_task (cfg : Config) : Prog :=
  Call (RelayTest cfg) (λ ok,
    locked (λ c, with_test (Some ok) (if ok then bs "Test passed — relay is working."
                                      else bs "Test failed — see Recent log below for details.") (now c)) (
    push_log (bs "[ui] test result: " ++ (if ok then bs "pass" else bs "fail")) (
    Call (IpScan cfg) (λ _, Done)))).

Definition install_task : Prog :=
  push_log (bs "[ui] installing CA...") (
  Call CaInstall (λ r,
    locked (λ c st, let st := with_cert_op false st in
                    match r with Ok _ => with_ca true (now c) st | Err _ => st end) (
    match r with
    | Ok _ => push_log (bs "[ui] CA install ok") Done
    | Err msg =>
        push_log (bs "[ui] " ++ msg) (
        push_log (bs "[ui] hint: run the terminal binary with sudo/admin: mhrv-rs --install-cert") Done)
    end))).

Definition remove_task : Prog :=
  push_log (bs "[ui] removing CA (trust store + files)...") (
  Call CaRemove (λ r,
    locked (λ c st, let st := with_cert_op false st in
                    match r with Ok _ => with_ca false (now c) st | Err _ => st end) (
    match r with
    | Ok o =>
        push_log (bs "[ui] " ++ removal_summary o) (
        push_log (bs "[ui] config.toml and Apps Script deployment untouched") Done)
    | Err e =>
        push_log (bs "[ui] CA remove failed: " ++ e) (
        push_log (bs "[ui] hint: run the terminal binary with sudo/admin: mhrv-rs --remove-cert") Done)
    end))).

(** The shared gate of the two: a certificate operation in flight refuses the
    command; the message is pushed while the guard is held. *)
Definition cert_gate (refusal : bytes) (worker k : Prog) : Prog :=
  Lock (Branch u_cert_op_in_progress
    (push_log refusal (Unlock Done))
    (Update (λ _, with_cert_op true) (Unlock (Spawn worker k)))).

Definition probe_state (r : ProbeResult) : SniProbeState :=
  match p_latency_ms r with
  | Some ms => SniOk ms
  | None => SniFailed (default (bs "failed") (p_error r))
  end.

Definition set_probe (sni : bytes) (s : SniProbeState) (st : UiState) : UiState :=
  with_probes (<[sni := s]> (u_sni_probe st)) st.

Definition probe_task (google_ip sni : bytes) : Prog :=
  Call (ProbeOne google_ip sni) (λ r, locked (λ _, set_probe sni (probe_state r)) Done).

Definition probe_all_task (google_ip : bytes) (snis : list bytes) : Prog :=
  Call (ProbeAll google_ip snis) (λ rs,
    locked (λ _ st, foldl (λ st e, set_probe e.1 (probe_state e.2) st) st rs) Done).

Definition check_ca_task : Prog :=
  Call CaCheck (λ r,
    let '(file_exists, trusted) := r in
    push_log (bs "[ui] check CA: file=" ++ (if file_exists then bs "present" else bs "missing") ++
              bs " trust_store=" ++ (if trusted then bs "trusted" else bs "not trusted")) (
    locked (λ c, with_ca trusted (now c)) Done)).

Definition check_task (route : Route) : Prog :=
  Call (CheckJob route) (λ r,
    push_log (bs "[ui] update check: " ++ Update.summary r) (
    locked (λ c, with_update_check (UpdateDone r) (now c)) Done)).

(** The guard is held across the log line. *)
Definition download_done (name : bytes) (r : bytes * result Z bytes) : Prog :=
  let '(out, result) := r in
  Lock (Update (λ c st, with_download false (u_last_download st) (Some (now c)) st) (
    match result with
    | Ok n =>
        push_log (bs "[ui] download ok: " ++ name ++ bs " (" ++ fmt_uint n ++ bs " bytes) -> " ++ out) (
        Update (λ _ st, with_download (u_download_in_progress st) (Some (Ok out)) (u_last_download_at st) st) (Unlock Done))
    | Err e =>
        push_log (bs "[ui] download failed: " ++ e) (
        Update (λ _ st, with_download (u_download_in_progress st) (Some (Err e)) (u_last_download_at st) st) (Unlock Done))
    end)).

Definition download_task (route : Route) (url name : bytes) : Prog :=
  Call (Download route url name) (download_done name).

Definition poll_task : Prog :=
  Call PollSlot (λ r, match r with Some (s, sites) => locked (λ _, with_stats s sites) Done | None => Done end).

(** One command; [active] is the proxy task's handle.  A command that ends in
    [continue] skips the sweep. *)
Definition handle (active : option nat) (cmd : Cmd) : Prog :=
  match cmd with
  | PollStats => match active with Some _ => Spawn poll_task (sweep active) | None => Done end
  | Start cfg =>
      match active with
      | Some _ => push_log (bs "[ui] already running") Done
      | None =>
          push_log (bs "[ui] starting proxy...") (
          locked (λ _, with_proxy_active true) (
          SpawnProxy (proxy_task cfg) (λ t, sweep (Some t))))
      end
  | Stop =>
      match active with
      | None => Done
      | Some t =>
          ClearActive (
          push_log (bs "[ui] stop requested") (
          let stopped := locked (λ _ st, mark_stopped (with_started_at None st)) Done in
          Join t (push_log (bs "[ui] proxy stopped gracefully") stopped)
                 (push_log (bs "[ui] shutdown timeout, forced abort") stopped)))
      end
  | Test cfg =>
      match mode_explainer cfg with
      | Some msg =>
          locked (λ c, with_test None msg (now c)) (push_log (bs "[ui] test skipped: " ++ msg) Done)
      | None => push_log (bs "[ui] running test...") (Spawn (test_task cfg) (sweep active))
      end
  | InstallCa =>
      cert_gate (bs "[ui] cert op already in progress — ignoring duplicate install") install_task (sweep active)
  | RemoveCa =>
      match active with
      | Some _ => push_log (bs "[ui] cannot remove CA: proxy is running or starting — stop it first") Done
      | None =>
          cert_gate (bs "[ui] cert op already in progress — ignoring duplicate remove") remove_task (sweep active)
      end
  | TestSni google_ip sni =>
      locked (λ _, set_probe sni SniInFlight) (Spawn (probe_task google_ip sni) (sweep active))
  | TestAllSni google_ip snis =>
      locked (λ _ st, foldl (λ st s, set_probe s SniInFlight st) st snis) (
      Spawn (probe_all_task google_ip snis) (sweep active))
  | CheckCaTrusted => Spawn check_ca_task (sweep active)
  | CheckUpdate route =>
      locked (λ c, with_update_check UpdateInFlight (now c)) (Spawn (check_task route) (sweep active))
  | DownloadUpdate route url name =>
      locked (λ _ st, with_download true None (u_last_download_at st) st) (
      push_log (bs "[ui] downloading " ++ name) (
      Spawn (download_task route url name) (sweep active)))
  end.

(** ** Interleaving *)

(** Thread 0 is the background thread; the others are the tasks it started,
    in order.  [holder] is the thread that holds the guard. *)
Record Ui := mk_ui {
  ui_state : UiState; holder : option nat; ui_active : option nat; threads : list Prog; inbox : list Cmd }.

Definition initial_ui : Ui := mk_ui default_ui_state None None [Done] [].

(** One operation of thread [me] on the state and the mutex: its program
    after it and the tasks it starts. *)
Inductive op (me : nat) : Prog → UiState * option nat → Prog → UiState * option nat → list Prog → Prop :=
  | op_lock k st : op me (Lock k) (st, None) k (st, Some me) []
  | op_unlock k st : op me (Unlock k) (st, Some me) k (st, None) []
  | op_update f k st c : op me (Update f k) (st, Some me) k (f c st, Some me) []
  | op_branch b k1 k2 st : op me (Branch b k1 k2) (st, Some me) (if b st then k1 else k2) (st, Some me) []
  | op_call j k sh : op me (Call j k) sh (Busy j k) sh []
  | op_return j k sh r : op me (Busy j k) sh (k r) sh []
  | op_spawn w k sh : op me (Spawn w k) sh k sh [w].

Inductive step : Ui → Ui → Prop :=
  | step_thread st h a ts inb i p p' st' h' ws :
      ts !! i = Some p → op i p (st, h) p' (st', h') ws →
      step (mk_ui st h a ts inb) (mk_ui st' h' a (<[i := p']> ts ++ ws) inb)
  (* the background thread *)
  | step_receive st h a ts cmd inb :
      ts !! 0%nat = Some Done → step (mk_ui st h a ts (cmd :: inb)) (mk_ui st h a (<[0%nat := handle a cmd]> ts) inb)
  | step_timeout st h a ts inb :
      ts !! 0%nat = Some Done → step (mk_ui st h a ts inb) (mk_ui st h a (<[0%nat := sweep a]> ts) inb)
  | step_start st h a ts inb w k :
      ts !! 0%nat = Some (SpawnProxy w k) →
      step (mk_ui st h a ts inb)
           (mk_ui st h (Some (length ts)) (<[0%nat := k (length ts)]> ts ++ [w]) inb)
  | step_clear st h a ts inb k :
      ts !! 0%nat = Some (ClearActive k) → step (mk_ui st h a ts inb) (mk_ui st h None (<[0%nat := k]> ts) inb)
  | step_finished st h a ts inb t k1 k2 p :
      ts !! 0%nat = Some (IfFinished t k1 k2) → ts !! t = Some p →
      step (mk_ui st h a ts inb)
           (mk_ui st h a (<[0%nat := match p with Done => k1 | _ => k2 end]> ts) inb)
  | step_join st h a ts inb t k1 k2 k :
      ts !! 0%nat = Some (Join t k1 k2) → ts !! t = Some Done → k = k1 ∨ k = k2 →
      step (mk_ui st h a ts inb) (mk_ui st h a (<[0%nat := k]> ts) inb)
  | step_abort st h a ts inb t k1 k2 p :
      ts !! 0%nat = Some (Join t k1 k2) → ts !! t = Some p → abortable p = true →
      step (mk_ui st h a ts inb) (mk_ui st h a (<[0%nat := k2]> (<[t := Done]> ts)) inb)
  (* the window: a click sends a command, or clears what it shows *)
  | step_send st h a ts inb cmd : step (mk_ui st h a ts inb) (mk_ui st h a ts (inb ++ [cmd]))
  | step_clear_log st a ts inb : step (mk_ui st None a ts inb) (mk_ui (with_log [] st) None a ts inb)
  | step_clear_probes st a ts inb : step (mk_ui st None a ts inb) (mk_ui (with_probes ∅ st) None a ts inb)
  (* any thread's tracing event *)
  | step_trace st a ts inb line :
      step (mk_ui st None a ts inb) (mk_ui (append_log line st) None a ts inb).

Definition reachable (s : Ui) : Prop := rtc step initial_ui s.

(** ** Properties of the state that every operation keeps *)

Section keeps.
Context (P : UiState → Prop).

(** The program keeps [P]: each of its updates does, as far as it can get;
    [h] says whether it holds the guard.  It touches the state only with the
    guard, and neither ends nor runs other code while it holds it. *)
Fixpoint keeps (h : bool) (p : Prog) : Prop :=
  match p with
  | Lock k => if h then True else keeps true k
  | Unlock k => h = true ∧ keeps false k
  | Update f k => h = true ∧ (∀ c st, P st → P (f c st)) ∧ keeps true k
  | Branch _ k1 k2 => h = true ∧ keeps true k1 ∧ keeps true k2
  | Done => h = false
  | Call j k | Busy j k => h = false ∧ ∀ r, keeps false (k r)
  | Spawn w k => h = false ∧ keeps false w ∧ keeps false k
  | SpawnProxy w k => h = false ∧ keeps false w ∧ ∀ t, keeps false (k t)
  | ClearActive k => h = false ∧ keeps false k
  | IfFinished _ k1 k2 | Join _ k1 k2 => h = false ∧ keeps false k1 ∧ keeps false k2
  end.

Definition holds (s : Ui) (i : nat) : bool := bool_decide (holder s = Some i).

Record kept (s : Ui) : Prop := mk_kept {
  kept_state : P (ui_state s);
  kept_threads : ∀ i p, threads s !! i = Some p → keeps (holds s i) p;
  kept_holder : ∀ i, holder s = Some i → (i < length (threads s))%nat
}.

(** One operation, for the thread that does it. *)
Lemma op_keeps me p st h p' st' h' ws :
  P st → keeps (bool_decide (h = Some me)) p → op me p (st, h) p' (st', h') ws →
  P st' ∧ keeps (bool_decide (h' = Some me)) p' ∧ Forall (keeps false) ws ∧ (h' = h ∨ (h = None ∨ h' = None) ∧ (h = Some me ∨ h' = Some me)).
Proof.
  intros HP Hk Ho. inversion Ho; subst; simpl in Hk; rewrite ?bool_decide_true in * by done;
    rewrite ?(bool_decide_false (None = Some me)) in * by done.
  - split_and!; [done|done|constructor|]. right. auto.
  - destruct Hk. split_and!; [done|done|constructor|]. right. auto.
  - destruct Hk as (_ & Hf & Hk). split_and!; [by apply Hf|done|constructor|by left].
  - destruct Hk as (_ & Hk1 & Hk2). split_and!; [done|by destruct (b st')|constructor|by left].
  - destruct Hk as [Hh Hk]. rewrite Hh. refine (conj HP (conj _ (conj _ (or_introl eq_refl)))); [by split|constructor].
  - destruct Hk as [Hh Hk]. rewrite Hh. split_and!; [done|apply Hk|constructor|by left].
  - destruct Hk as (Hh & Hw & Hk). rewrite Hh. split_and!; [done|done|by repeat constructor|by left].
Qed.

(** Replacing one thread's program, with new threads at the end. *)
Lemma kept_insert st h h' a a' ts inb inb' i p' ws st' :
  kept (mk_ui st h a ts inb) → (i < length ts)%nat → P st' →
  keeps (bool_decide (h' = Some i)) p' → Forall (keeps false) ws →
  (∀ j, j ≠ i → (j < length ts)%nat → bool_decide (h' = Some j) = bool_decide (h = Some j)) →
  (∀ j, h' = Some j → (j < length ts)%nat) →
  kept (mk_ui st' h' a' (<[i := p']> ts ++ ws) inb').
Proof.
  intros [_ Ht _] Hi HP Hp Hw Hh Hl. constructor; simpl; [done| |].
  - intros j q Hq. unfold holds. simpl. destruct (decide (j < length ts)%nat) as [Hj|Hj].
    + rewrite lookup_app_l in Hq by (by rewrite length_insert).
      destruct (decide (j = i)) as [->|Hne]; [rewrite list_lookup_insert_eq in Hq by done; by injection Hq as <-|].
      rewrite list_lookup_insert_ne in Hq by done. rewrite Hh by done. by apply (Ht j).
    + rewrite lookup_app_r in Hq by (rewrite length_insert; lia). rewrite bool_decide_false.
      * eapply Forall_lookup_1; eauto.
      * intros E. apply Hj, Hl, E.
  - intros j Hj. rewrite length_app, length_insert. specialize (Hl j Hj). lia.
Qed.

Context (Hhandle : ∀ a cmd, keeps false (handle a cmd)) (Hclear : ∀ st, P st → P (with_log [] st))
  (Hprobes : ∀ st, P st → P (with_probes ∅ st)) (Htrace : ∀ line st, P st → P (append_log line st)).

Lemma keeps_sweep a : keeps false (sweep a).
Proof. specialize (Hhandle a CheckCaTrusted). simpl in Hhandle. tauto. Qed.

(** Thread 0 goes on with a program that does not hold the guard. *)
Lemma kept_background st h a a' ts inb inb' p p' ws :
  kept (mk_ui st h a ts inb) → ts !! 0%nat = Some p → (∀ b, keeps b p → b = false ∧ keeps false p') →
  Forall (keeps false) ws → kept (mk_ui st h a' (<[0%nat := p']> ts ++ ws) inb').
Proof.
  intros Hk H0 Hp Hw. pose proof (kept_threads _ Hk 0%nat p H0) as Ht. apply Hp in Ht as [Hh Hp']. unfold holds in Hh. simpl in Hh.
  eapply kept_insert; [done|by eapply lookup_lt_Some|apply Hk|by rewrite Hh|done|done|apply Hk].
Qed.

Lemma abortable_keeps b p : abortable p = true → keeps b p → b = false.
Proof. destruct p; try done; by intros _ []. Qed.

Lemma kept_step s s' : kept s → step s s' → kept s'.
Proof.
  intros Hk Hs. destruct Hs.
  - pose proof (kept_threads _ Hk i p H) as Ht. destruct (op_keeps _ _ _ _ _ _ _ _ (kept_state _ Hk) Ht H0) as (HP & Hp & Hw & Hh).
    assert (i < length ts)%nat as Hi by (by eapply lookup_lt_Some).
    eapply kept_insert; [done|done|done|done|done|..].
    + intros j Hj _. destruct Hh as [->|[Hn Hh]]; [done|]. apply bool_decide_ext. destruct Hn, Hh; naive_solver.
    + intros j Hj. destruct Hh as [->|[Hn Hh]]; [by apply (kept_holder _ Hk)|]. destruct Hn, Hh; naive_solver.
  - rewrite <- (app_nil_r (<[_ := _]> _)). eapply kept_background; [done|done| |done]. simpl. auto.
  - rewrite <- (app_nil_r (<[_ := _]> _)). eapply kept_background; [done|done| |done]. simpl. auto using keeps_sweep.
  - eapply kept_background; [done|done|simpl; naive_solver|].
    pose proof (kept_threads _ Hk 0%nat _ H) as Ht. simpl in Ht. constructor; [tauto|done].
  - rewrite <- (app_nil_r (<[_ := _]> _)). eapply kept_background; [done|done|simpl; naive_solver|done].
  - rewrite <- (app_nil_r (<[_ := _]> _)). eapply kept_background; [done|done|simpl; destruct p; naive_solver|done].
  - rewrite <- (app_nil_r (<[_ := _]> _)). eapply kept_background; [done|done|simpl; naive_solver|done].
  - assert (t ≠ 0%nat) as Hne by (intros ->; assert (p = Join 0%nat k1 k2) as -> by congruence; done).
    pose proof (abortable_keeps _ _ H1 (kept_threads _ Hk t _ H0)) as Hb.
    rewrite <- (app_nil_r (<[0%nat := _]> _)). eapply (kept_background st h a a _ inb inb); [|by rewrite list_lookup_insert_ne|simpl; naive_solver|done].
    rewrite <- (app_nil_r (<[t := Done]> ts)). eapply kept_insert; [done|by eapply lookup_lt_Some|apply Hk|done|done|done|apply Hk].
  - destruct Hk. by constructor.
  - destruct Hk as [HP Ht Hl]. constructor; [by apply Hclear|apply Ht|apply Hl].
  - destruct Hk as [HP Ht Hl]. constructor; [by apply Hprobes|apply Ht|apply Hl].
  - destruct Hk as [HP Ht Hl]. constructor; [by apply Htrace|apply Ht|apply Hl].
Qed.

Lemma kept_reachable s : P default_ui_state → reachable s → kept s.
Proof.
  intros HP. apply (rtc_ind_r (λ s, kept s)).
  - constructor; simpl; [done| |done]. intros [|i] p; simpl; [by intros [= <-]|done].
  - eauto using kept_step.
Qed.
End keeps.

(** [P] survives every update of the state that can be reached; a download's
    result is only ever cleared. *)
Class Closed (P : UiState → Prop) : Prop := {
  cl_running b st : P st → P (with_running b st);
  cl_started t st : P st → P (with_started_at t st);
  cl_stats x y st : P st → P (with_stats x y st);
  cl_log st : P st → P (with_log [] st);
  cl_append line st : P st → P (append_log line st);
  cl_ca b t st : P st → P (with_ca b t st);
  cl_test b m t st : P st → P (with_test b m t st);
  cl_probes m st : P st → P (with_probes m st);
  cl_update r t st : P st → P (with_update_check r t st);
  cl_cert b st : P st → P (with_cert_op b st);
  cl_active b st : P st → P (with_proxy_active b st);
  cl_download b t st : P st → P (with_download b (u_last_download st) t st);
  cl_download_cleared b t st : P st → P (with_download b None t st)
}.

(** Solve [P] of an updated state. *)
Ltac closed :=
  intros; unfold set_probe, mark_stopped;
  repeat match goal with
  | H : ?P ?st |- ?P ?st => exact H
  | |- ?P (with_running _ _) => apply (cl_running (P := P))
  | |- ?P (with_started_at _ _) => apply (cl_started (P := P))
  | |- ?P (with_stats _ _ _) => apply (cl_stats (P := P))
  | |- ?P (with_log [] _) => apply (cl_log (P := P))
  | |- ?P (append_log _ _) => apply (cl_append (P := P))
  | |- ?P (with_ca _ _ _) => apply (cl_ca (P := P))
  | |- ?P (with_test _ _ _ _) => apply (cl_test (P := P))
  | |- ?P (with_probes _ _) => apply (cl_probes (P := P))
  | |- ?P (with_update_check _ _ _) => apply (cl_update (P := P))
  | |- ?P (with_cert_op _ _) => apply (cl_cert (P := P))
  | |- ?P (with_proxy_active _ _) => apply (cl_active (P := P))
  | |- ?P (with_download _ None _ _) => apply (cl_download_cleared (P := P))
  | |- ?P (with_download _ _ _ _) => apply (cl_download (P := P))
  end.

Section closed.
Context (P : UiState → Prop) `{!Closed P}.

Lemma cl_fold {A} (f : A → bytes * SniProbeState) l st :
  P st → P (foldl (λ st e, set_probe (f e).1 (f e).2 st) st l).
Proof. revert st. induction l as [|e l IH]; intros st HP; simpl; [done|]. apply IH. closed. Qed.

Lemma keeps_locked f k : (∀ c st, P st → P (f c st)) → keeps P false k → keeps P false (locked f k).
Proof. done. Qed.

Lemma keeps_log msg k : keeps P false k → keeps P false (push_log msg k).
Proof. intros Hk. apply keeps_locked; [|done]. closed. Qed.

Lemma keeps_call j k : (∀ r, keeps P false (k r)) → keeps P false (Call j k).
Proof. done. Qed.

Lemma keeps_spawn w k : keeps P false w → keeps P false k → keeps P false (Spawn w k).
Proof. done. Qed.

Lemma keeps_clear k : keeps P false k → keeps P false (ClearActive k).
Proof. done. Qed.

Lemma keeps_join t k1 k2 : keeps P false k1 → keeps P false k2 → keeps P false (Join t k1 k2).
Proof. done. Qed.

Lemma keeps_finished t k1 k2 : keeps P false k1 → keeps P false k2 → keeps P false (IfFinished t k1 k2).
Proof. done. Qed.

Lemma keeps_done : keeps P false Done.
Proof. done. Qed.

Lemma keeps_gate msg w k : keeps P false w → keeps P false k → keeps P false (cert_gate msg w k).
Proof. intros Hw Hk. simpl. split_and!; auto. closed. Qed.
End closed.

(** Follow a program operation by operation. *)
Ltac keeps_walk :=
  repeat (intros; lazymatch goal with
  | |- keeps _ _ (match ?x with _ => _ end) => destruct x
  | |- keeps _ _ (locked _ _) => apply keeps_locked
  | |- keeps _ _ (push_log _ _) => apply keeps_log; [done|]
  | |- keeps _ _ (Call _ _) => apply keeps_call
  | |- keeps _ _ (Spawn _ _) => apply keeps_spawn
  | |- keeps _ _ (ClearActive _) => apply keeps_clear
  | |- keeps _ _ (Join _ _ _) => apply keeps_join
  | |- keeps _ _ (IfFinished _ _ _) => apply keeps_finished
  | |- keeps _ _ Done => apply keeps_done
  | |- keeps _ _ (cert_gate _ _ _) => apply keeps_gate; [done|..]
  end).

Section handle_keeps.
Context (P : UiState → Prop) `{!Closed P}.

Lemma sweep_keeps a : keeps P false (sweep a).
Proof. unfold sweep. keeps_walk; closed. Qed.

Lemma proxy_task_keeps cfg : keeps P false (proxy_task cfg).
Proof. unfold proxy_task. keeps_walk; closed. Qed.

Lemma tasks_keep :
  (∀ cfg, keeps P false (test_task cfg)) ∧ keeps P false install_task ∧ keeps P false remove_task ∧
  (∀ ip sni, keeps P false (probe_task ip sni)) ∧ (∀ ip snis, keeps P false (probe_all_task ip snis)) ∧
  keeps P false check_ca_task ∧ (∀ route, keeps P false (check_task route)) ∧ keeps P false poll_task.
Proof.
  unfold test_task, install_task, remove_task, probe_task, probe_all_task, check_ca_task, check_task, poll_task.
  split_and!; keeps_walk; closed.
  - destruct r; closed.
  - destruct r; closed.
  - by apply (cl_fold P (λ e, (e.1, probe_state e.2))).
Qed.

(** The end of a download: the log line is where it stops. *)
Lemma download_task_keeps route url name : keeps P false (download_task route url name).
Proof.
  unfold download_task. keeps_walk. destruct r as [out [n|e]]; simpl; split_and!; try done; closed.
Qed.

Lemma handle_keeps a cmd : keeps P false (handle a cmd).
Proof.
  pose proof tasks_keep as (Ht & Hi & Hr & Hp & Hpa & Hc & Hu & Hpo).
  destruct cmd; unfold handle; keeps_walk; auto using sweep_keeps, download_task_keeps; closed.
  - split_and!; [done|apply proxy_task_keeps|]. intros t. apply sweep_keeps.
  - by apply (cl_fold P (λ s, (s, SniInFlight))).
Qed.

Lemma closed_reachable s : P default_ui_state → reachable s → kept P s.
Proof. apply kept_reachable; [apply handle_keeps|closed..]. Qed.
End handle_keeps.

(** ** The log panel is bounded *)

Definition log_ok (st : UiState) : Prop := (length (u_log st) ≤ LOG_MAX)%nat.

#[global] Instance log_ok_closed : Closed log_ok.
Proof.
  constructor; unfold log_ok; simpl; try done; intros; [unfold LOG_MAX; lia|].
  unfold append_log. simpl. rewrite length_drop. lia.
Qed.

Lemma log_bounded s : reachable s → (length (u_log (ui_state s)) ≤ 200)%nat.
Proof. intros Hr. apply (kept_state _ _ (closed_reachable log_ok _ ltac:(unfold log_ok; simpl; unfold LOG_MAX; lia) Hr)). Qed.

(** ** A finished download *)

Definition no_download (st : UiState) : Prop := u_last_download st = None.

#[global] Instance no_download_closed : Closed no_download.
Proof. by constructor. Qed.

(** Thread [i] holds the guard and is about to lock again. *)
Definition stuck (i : nat) (s : Ui) : Prop := holder s = Some i ∧ ∃ k, threads s !! i = Some (Lock k).

Lemma stuck_step i s s' : stuck i s → step s s' → stuck i s' ∧ ui_state s' = ui_state s.
Proof.
  intros [Hh [k Hk]] Hs.
  assert (Hbg : ∀ p (ts : list Prog), ts !! i = Some (Lock k) → (∀ k0, ts !! 0%nat ≠ Some (Lock k0)) →
            <[0%nat := p]> ts !! i = Some (Lock k)).
  { intros p ts Hi H0. rewrite list_lookup_insert_ne; [done|]. intros <-. by apply (H0 k). }
  destruct Hs; cbn [holder threads ui_state] in *; subst;
    try (split; [|reflexivity]; split; [reflexivity|]; exists k; cbn [threads]); try discriminate.
  - assert (i0 ≠ i) as Hne.
    { intros ->. rewrite Hk in H. injection H as <-. inversion H0. }
    assert (st' = st ∧ h' = Some i) as [-> ->] by (inversion H0; subst; try done; congruence).
    split; [|done]. split; [done|]. exists k. apply lookup_app_l_Some. by rewrite list_lookup_insert_ne.
  - apply Hbg; [done|]. congruence.
  - apply Hbg; [done|]. congruence.
  - apply lookup_app_l_Some, Hbg; [done|]. congruence.
  - apply Hbg; [done|]. congruence.
  - apply Hbg; [done|]. congruence.
  - apply Hbg; [done|]. congruence.
  - apply Hbg.
    + rewrite list_lookup_insert_ne; [done|]. intros ->. assert (p = Lock k) as -> by congruence. done.
    + intros k3. rewrite list_lookup_insert_ne; [congruence|].
      intros ->. assert (p = Join 0%nat k1 k2) as -> by congruence. done.
  - done.
Qed.

Lemma stuck_forever i s s' : stuck i s → rtc step s s' → stuck i s' ∧ ui_state s' = ui_state s.
Proof.
  intros Hs Hr. revert Hs. induction Hr as [s|s1 s2 s3 H12 _ IH]; intros Hs; [done|].
  destruct (stuck_step _ _ _ Hs H12) as [H2 E2]. destruct (IH H2) as [H3 E3]. split; [done|]. by rewrite E3.
Qed.

(** Thread [i] does its next operation. *)
Lemma step_op st h a ts inb i p p' st' h' ws s :
  ts !! i = Some p → op i p (st, h) p' (st', h') ws → rtc step (mk_ui st' h' a (<[i := p']> ts ++ ws) inb) s →
  rtc step (mk_ui st h a ts inb) s.
Proof. intros Hi Ho Hr. eapply rtc_l; [by eapply step_thread|done]. Qed.

(** C40: the result of a download is never shown.  In every state the program
    can reach, [last_download] is empty; and as soon as a download ends its
    task gets stuck inside its own critical section (it logs while it holds
    the guard), after which nothing ever changes the shared state again and no
    thread, the window's included, gets the mutex. *)
Theorem download_freezes_window s :
  reachable s →
  u_last_download (ui_state s) = None ∧
  ∀ i name r, threads s !! i = Some (download_done name r) → holder s = None →
  ∃ s', rtc step s s' ∧ stuck i s' ∧
  ∀ s'', rtc step s' s'' → holder s'' = Some i ∧ ui_state s'' = ui_state s'.
Proof.
  intros Hr. split; [apply (kept_state _ _ (closed_reachable no_download _ eq_refl Hr))|].
  intros i name [out r] Hi Hh. destruct s as [st h a ts inb]. cbn [threads holder] in *. subst h.
  assert (i < length ts)%nat as Hlt by (by eapply lookup_lt_Some).
  assert (Hs : ∃ s', rtc step (mk_ui st None a ts inb) s' ∧ stuck i s').
  { eexists. split.
    - eapply step_op; [exact Hi|apply op_lock|]. eapply step_op; [rewrite lookup_app_l by (by rewrite length_insert); by apply list_lookup_insert_eq| |reflexivity].
      apply (op_update i _ _ _ (mk_clock 0 [])).
    - split; [done|]. cbn [threads]. rewrite !app_nil_r, list_insert_insert_eq, list_lookup_insert_eq by done.
      destruct r; by eexists. }
  destruct Hs as (s' & Hs & Hst). exists s'. split_and!; [done|done|]. intros s'' Hr'.
  destruct (stuck_forever _ _ _ Hst Hr') as [[Hh _] E]. done.
Qed.

(** A download that has just returned. *)
Definition demo_name : bytes := bs "app.zip".
Definition demo_download : Cmd := DownloadUpdate Update.Direct (bs "https://x/app.zip") demo_name.
Definition demo_out : bytes * result Z bytes := (bs "/dl/app.zip", Ok 10).

Definition downloaded_state : UiState :=
  append_log (bs "  [ui] downloading app.zip") (with_download true None None default_ui_state).
Definition downloaded : Ui := mk_ui downloaded_state None None [Done; download_done demo_name demo_out] [].

(** The next operation of thread [i] in a concrete state. *)
Ltac run i := eapply (step_op _ _ _ _ _ i); [reflexivity|first [apply (op_update i _ _ _ (mk_clock 0 [])) | econstructor]|]; cbn [app insert list_insert].

Lemma download_freezes_window_witness :
  reachable downloaded ∧ u_last_download (ui_state downloaded) = None ∧
  ∃ s', rtc step downloaded s' ∧ stuck 1 s' ∧ ∀ s'', rtc step s' s'' → holder s'' = Some 1%nat ∧ ui_state s'' = ui_state s'.
Proof.
  assert (Hr : reachable downloaded).
  { eapply rtc_l; [apply (step_send _ _ _ _ _ demo_download)|]. eapply rtc_l; [by apply step_receive|]. cbn [handle demo_download insert list_insert].
    run 0%nat. run 0%nat. run 0%nat. run 0%nat. run 0%nat. run 0%nat. run 0%nat. run 1%nat.
    eapply (step_op _ _ _ _ _ 1%nat); [reflexivity|apply (op_return 1 (Download _ _ _) _ _ demo_out)|]. reflexivity. }
  split; [done|]. destruct (download_freezes_window downloaded Hr) as [H1 H2]. split; [done|].
  by apply (H2 1%nat demo_name demo_out).
Defined.

(** ** One certificate operation at a time

    The flag [cert_op_in_progress] is owned by at most one thread.  [Free]
    programs leave it alone; a [Gate] one has just read it as clear and will
    set it; an [Owner] has set it, is the only kind that may run a
    certificate operation, and clears it before it ends. *)

Definition is_cert (j : Job) : bool := match j with CaInstall | CaRemove => true | _ => false end.

Inductive Mode := Free | Gate | Owner.

Definition leaves_flag (f : Clock → UiState → UiState) : Prop :=
  ∀ c st, u_cert_op_in_progress (f c st) = u_cert_op_in_progress st.
Definition sets_flag (b : bool) (f : Clock → UiState → UiState) : Prop :=
  ∀ c st, u_cert_op_in_progress (f c st) = b.

Fixpoint owns (m : Mode) (p : Prog) : Prop :=
  match p with
  | Done => m = Free
  | Lock k | Unlock k => m ≠ Gate ∧ owns m k
  | Update f k =>
      (m ≠ Gate ∧ leaves_flag f ∧ owns m k) ∨ (m = Owner ∧ sets_flag false f ∧ owns Free k) ∨
      (m = Gate ∧ sets_flag true f ∧ owns Owner k)
  | Branch b k1 k2 => m = Free ∧ b = u_cert_op_in_progress ∧ owns Free k1 ∧ owns Gate k2
  | Call j k | Busy j k => m = (if is_cert j then Owner else Free) ∧ ∀ r, owns m (k r)
  | Spawn w k => m ≠ Gate ∧ owns m w ∧ owns Free k
  | SpawnProxy w k => m = Free ∧ owns Free w ∧ ∀ t, owns Free (k t)
  | ClearActive k => m = Free ∧ owns Free k
  | IfFinished _ k1 k2 | Join _ k1 k2 => m = Free ∧ owns Free k1 ∧ owns Free k2
  end.

(** What an operation does to the mode of its thread and to the flag. *)
Inductive mode_change (me : nat) (h : option nat) (flag flag' : bool) : Mode → Mode → list Mode → Prop :=
  | mc_same m ws : flag' = flag → Forall (λ m, m = Free) ws → m ≠ Gate → mode_change me h flag flag' m m ws
  | mc_gate : h = Some me → flag = false → flag' = false → mode_change me h flag flag' Free Gate []
  | mc_take : flag' = true → mode_change me h flag flag' Gate Owner []
  | mc_clear : flag' = false → mode_change me h flag flag' Owner Free []
  | mc_hand : flag' = flag → mode_change me h flag flag' Owner Free [Owner].

Lemma op_mode me p st h p' st' h' ws m :
  owns m p → op me p (st, h) p' (st', h') ws →
  ∃ m' ms, owns m' p' ∧ Forall2 owns ms ws ∧
    mode_change me h (u_cert_op_in_progress st) (u_cert_op_in_progress st') m m' ms ∧
    (m = Gate → h' = h) ∧ (m' = Gate → h' = h).
Proof.
  intros Ho Hop. inversion Hop; subst; simpl in Ho.
  - destruct Ho. exists m, []. split_and!; [done|constructor|by constructor|done|done].
  - destruct Ho. exists m, []. split_and!; [done|constructor|by constructor|done|done].
  - destruct Ho as [(Hm & Hf & Hk)|[(-> & Hf & Hk)|(-> & Hf & Hk)]].
    + exists m, []. split_and!; [done|constructor|by constructor|done|done].
    + exists Free, []. split_and!; [done|constructor|by apply mc_clear|done|done].
    + exists Owner, []. split_and!; [done|constructor|by apply mc_take|done|done].
  - destruct Ho as (-> & -> & H1 & H2). destruct (u_cert_op_in_progress st') eqn:E.
    + exists Free, []. split_and!; [done|constructor|by constructor|done|done].
    + exists Gate, []. split_and!; [done|constructor|by apply mc_gate|done|done].
  - destruct Ho as [Hm Hk]. exists m, []. assert (m ≠ Gate) by (by subst m; destruct (is_cert j)).
    refine (conj _ (conj _ (conj _ (conj _ _)))); [by split|constructor|by constructor|done|done].
  - destruct Ho as [Hm Hk]. exists m, []. assert (m ≠ Gate) by (by subst m; destruct (is_cert j)).
    split_and!; [apply Hk|constructor|by constructor|done|done].
  - destruct Ho as (Hm & Hw & Hk). destruct m; [|done|].
    + exists Free, [Free]. split_and!; [done|by repeat constructor|by repeat constructor|done|done].
    + exists Free, [Owner]. split_and!; [done|by repeat constructor|by apply mc_hand|done|done].
Qed.

(** At most one thread owns the flag, and then it is set; one at the gate
    holds the guard and has seen it clear. *)
Record cert_ok (ms : list Mode) (flag : bool) (h : option nat) (ts : list Prog) : Prop := mk_cert_ok {
  co_owns : Forall2 owns ms ts;
  co_set : ∀ i, ms !! i = Some Owner → flag = true;
  co_one : ∀ i j, ms !! i = Some Owner → ms !! j = Some Owner → i = j;
  co_gate : ∀ i, ms !! i = Some Gate → h = Some i ∧ flag = false
}.

Definition cert_inv (s : Ui) : Prop := ∃ ms, cert_ok ms (u_cert_op_in_progress (ui_state s)) (holder s) (threads s).

(** The modes after thread [i] went on and started others. *)
Lemma modes_lookup (ms ws : list Mode) i m' j m : (i < length ms)%nat →
  (<[i := m']> ms ++ ws) !! j = Some m →
  (j = i ∧ m = m') ∨ (j ≠ i ∧ ms !! j = Some m) ∨ (length ms ≤ j ∧ ws !! (j - length ms) = Some m)%nat.
Proof.
  intros Hi. destruct (decide (j < length ms)%nat) as [Hj|Hj].
  - rewrite lookup_app_l by (by rewrite length_insert). destruct (decide (j = i)) as [->|Hne].
    + rewrite list_lookup_insert_eq by done. intros [= <-]. by left.
    + rewrite list_lookup_insert_ne by done. intros H. right. by left.
  - rewrite lookup_app_r by (rewrite length_insert; lia). rewrite length_insert. intros H. right. right. split; [lia|done].
Qed.

Lemma op_holder me p st h p' st' h' ws : op me p (st, h) p' (st', h') ws → h' = h ∨ h = None ∨ h = Some me.
Proof. inversion 1; subst; auto. Qed.

Lemma cert_ok_op ms flag flag' h h' ts i p p' ws m' ws' :
  cert_ok ms flag h ts → ts !! i = Some p → (h' = h ∨ h = None ∨ h = Some i) →
  owns m' p' → Forall2 owns ws' ws →
  (∀ m, ms !! i = Some m → mode_change i h flag flag' m m' ws' ∧ (m' = Gate → h' = h)) →
  cert_ok (<[i := m']> ms ++ ws') flag' h' (<[i := p']> ts ++ ws).
Proof.
  intros [Ho Hs H1 Hg] Hi Hh Hp Hw Hm. destruct (Forall2_lookup_r _ _ _ _ _ Ho Hi) as (m & Him & _).
  destruct (Hm m Him) as [Hc Hgate]. assert (Hlt : (i < length ms)%nat) by (by eapply lookup_lt_Some).
  assert (Hother : ∀ j, j ≠ i → ms !! j = Some Gate → h' = Some j ∧ h = Some j).
  { intros j Hj Hjg. destruct (Hg j Hjg) as [E _]. destruct Hh as [->|[->|Hh]]; naive_solver. }
  assert (Hn : Forall2 owns (<[i := m']> ms ++ ws') (<[i := p']> ts ++ ws)) by (apply Forall2_app; [by apply Forall2_insert|done]).
  destruct Hc as [m ws0 Hf Hfree Hmg|Hhi Hfl Hf|Hf|Hf|Hf].
  - assert (Hold : ∀ j x, x ≠ Free → (<[i := m]> ms ++ ws0) !! j = Some x → ms !! j = Some x).
    { intros j x Hx [[-> ->]|[[_ E]|[_ E]]]%modes_lookup; [done|done| |done]. rewrite Forall_lookup in Hfree.
      by apply Hfree in E. }
    subst flag'. constructor; [done|..].
    + intros j E%Hold; [by eapply Hs|done].
    + intros j1 j2 E1%Hold E2%Hold; [by apply H1|done|done].
    + intros j E%Hold; [|done]. assert (j ≠ i) by congruence. destruct (Hother j) as [-> _]; [done|done|].
      split; [done|]. by apply (Hg j).
  - assert (Hno : ∀ j, ms !! j ≠ Some Owner) by (intros j Hj%Hs; congruence). constructor; [done|..].
    + intros j [[-> ?]|[[_ E]|[_ E]]]%modes_lookup; [done|by destruct (Hno j)|done|done].
    + intros j1 j2 [[-> ?]|[[_ E]|[_ E]]]%modes_lookup; [done|by destruct (Hno j1)|done|done].
    + intros j [[-> _]|[[Hj E]|[_ E]]]%modes_lookup; [|destruct (Hother j Hj E); congruence|done|done].
      rewrite Hgate by done. done.
  - destruct (Hg i Him) as [Hhi Hfl]. assert (Hno : ∀ j, ms !! j ≠ Some Owner) by (intros j Hj%Hs; congruence).
    constructor; [done|done|..].
    + assert (Honly : ∀ j, (<[i := Owner]> ms ++ []) !! j = Some Owner → j = i).
      { intros j [[-> _]|[[_ E]|[_ E]]]%modes_lookup; [done|by destruct (Hno j)|done|done]. }
      intros j1 j2 ->%Honly ->%Honly. done.
    + intros j [[-> ?]|[[Hj E]|[_ E]]]%modes_lookup; [done|destruct (Hother j Hj E); congruence|done|done].
  - assert (Hno : ∀ j x, x ≠ Free → (<[i := Free]> ms ++ []) !! j = Some x → False).
    { intros j x Hx [[-> ->]|[[Hj E]|[_ E]]]%modes_lookup; [done| |done|done].
      destruct x; [done| |by apply Hj, H1]. apply Hs in Him. destruct (Hg j E). congruence. }
    constructor; [done|intros j E; by apply Hno in E|intros j1 j2 E; by apply Hno in E|intros j E; by apply Hno in E].
  - assert (Honly : ∀ j x, x ≠ Free → (<[i := Free]> ms ++ [Owner]) !! j = Some x → x = Owner ∧ j = length ms).
    { intros j x Hx [[-> ->]|[[Hj E]|[Hj E]]]%modes_lookup; [done| | |done].
      - exfalso. destruct x; [done| |by apply Hj, H1]. apply Hs in Him. destruct (Hg j E). congruence.
      - destruct (j - length ms)%nat as [|n] eqn:Ed; [|done]. injection E as <-. split; [done|lia]. }
    constructor; [done|..].
    + intros j _. subst flag'. by eapply Hs.
    + intros j1 j2 [_ ->]%Honly [_ ->]%Honly; done.
    + intros j [? _]%Honly; done.
Qed.

(** The commands respect the ownership. *)

Lemma owns_locked m f k : m ≠ Gate → leaves_flag f → owns m k → owns m (locked f k).
Proof. intros Hm Hf Hk. simpl. split; [done|]. left. split_and!; auto. Qed.

Lemma owns_log m msg k : m ≠ Gate → owns m k → owns m (push_log msg k).
Proof. intros Hm Hk. by apply owns_locked. Qed.

Lemma probes_leave_flag {A} (f : A → bytes * SniProbeState) l st :
  u_cert_op_in_progress (foldl (λ st e, set_probe (f e).1 (f e).2 st) st l) = u_cert_op_in_progress st.
Proof. revert st. induction l as [|e l IH]; intros st; simpl; [done|]. by rewrite IH. Qed.

Ltac owns_walk :=
  repeat (intros; lazymatch goal with
  | |- owns _ (match ?x with _ => _ end) => destruct x
  | |- owns _ (locked _ _) => apply owns_locked; [done|try done|]
  | |- owns _ (push_log _ _) => apply owns_log; [done|]
  | |- owns _ (Call _ _) => split; [reflexivity|]
  | |- owns _ (Spawn _ _) => split; [done|split]
  | |- owns _ (SpawnProxy _ _) => split; [done|split]
  | |- owns _ (ClearActive _) => split; [done|]
  | |- owns _ (Join _ _ _) => split; [done|split]
  | |- owns _ (IfFinished _ _ _) => split; [done|split]
  | |- owns _ Done => reflexivity
  end).

Lemma sweep_owns a : owns Free (sweep a).
Proof. unfold sweep. owns_walk. Qed.

Lemma proxy_task_owns cfg : owns Free (proxy_task cfg).
Proof. unfold proxy_task. owns_walk. Qed.

Lemma tasks_own :
  (∀ cfg, owns Free (test_task cfg)) ∧ (∀ ip sni, owns Free (probe_task ip sni)) ∧
  (∀ ip snis, owns Free (probe_all_task ip snis)) ∧ owns Free check_ca_task ∧
  (∀ route, owns Free (check_task route)) ∧ owns Free poll_task.
Proof.
  unfold test_task, probe_task, probe_all_task, check_ca_task, check_task, poll_task. split_and!; owns_walk.
  intros c st. apply (probes_leave_flag (λ e, (e.1, probe_state e.2))).
Qed.

Lemma download_task_owns route url name : owns Free (download_task route url name).
Proof.
  unfold download_task. split; [reflexivity|].
  assert (Hf : ∀ r, owns Free (Update (λ _ st, with_download (u_download_in_progress st) r (u_last_download_at st) st) (Unlock Done))).
  { intros r. left. split_and!; done. }
  intros [out [n|e]]; (split; [done|]); left; (split; [done|]); (split; [done|]); (apply owns_log; [done|]); apply Hf.
Qed.

(** An operation on the certificates owns the flag until its update. *)
Lemma cert_tasks_own : owns Owner install_task ∧ owns Owner remove_task.
Proof.
  split; unfold install_task, remove_task; (apply owns_log; [done|]); (split; [reflexivity|]); intros [x|e];
    (split; [done|]); right; left; (split; [done|]); (split; [by intros c st|]); (split; [done|]); owns_walk.
Qed.

Lemma gate_owns msg w k : owns Owner w → owns Free k → owns Free (cert_gate msg w k).
Proof.
  intros Hw Hk. simpl. split_and!; try done.
  - left. split_and!; done.
  - right. right. split_and!; done.
Qed.

Lemma handle_owns a cmd : owns Free (handle a cmd).
Proof.
  pose proof tasks_own as (Ht & Hp & Hpa & Hc & Hu & Hpo). destruct cert_tasks_own as [Hi Hr].
  destruct cmd; unfold handle; owns_walk; auto using sweep_owns, proxy_task_owns, download_task_owns, gate_owns.
  intros c st. apply (probes_leave_flag (λ s, (s, SniInFlight))).
Qed.

(** The background thread goes on without owning the flag. *)
Lemma cert_ok_background ms flag h ts p p' ws :
  cert_ok ms flag h ts → ts !! 0%nat = Some p → (∀ m, owns m p → m = Free ∧ owns Free p' ∧ Forall (owns Free) ws) →
  ∃ ms', cert_ok ms' flag h (<[0%nat := p']> ts ++ ws).
Proof.
  intros Hc H0 Hp. destruct (Forall2_lookup_r _ _ _ _ _ (co_owns _ _ _ _ Hc) H0) as (m & Hm & Ho).
  destruct (Hp m Ho) as (-> & Hp' & Hw). exists (<[0%nat := Free]> ms ++ replicate (length ws) Free).
  eapply cert_ok_op; [done|done|by left|done| |].
  - clear -Hw. induction Hw; constructor; done.
  - intros m Hm'. rewrite Hm in Hm'. injection Hm' as <-. split; [|done]. constructor; [done| |done].
    apply Forall_replicate. done.
Qed.

Lemma abortable_free m p : abortable p = true → owns m p → m = Free.
Proof. destruct p; try done; intros Ha [-> _]; by destruct j. Qed.

Lemma cert_inv_step s s' : cert_inv s → step s s' → cert_inv s'.
Proof.
  unfold cert_inv. intros [ms Hc] Hs. destruct Hs; cbn [ui_state holder threads] in *.
  - destruct (Forall2_lookup_r _ _ _ _ _ (co_owns _ _ _ _ Hc) H) as (m & Hm & Ho).
    destruct (op_mode _ _ _ _ _ _ _ _ _ Ho H0) as (m' & ws' & Ho' & Hw & Hmc & _ & Hg).
    exists (<[i := m']> ms ++ ws'). eapply cert_ok_op; [done|done|by eapply op_holder|done|done|].
    intros m0 Hm0. assert (m0 = m) as -> by congruence. done.
  - rewrite <- (app_nil_r (<[_ := _]> _)). eapply cert_ok_background; [done|done|]. simpl. auto using handle_owns.
  - rewrite <- (app_nil_r (<[_ := _]> _)). eapply cert_ok_background; [done|done|]. simpl. auto using sweep_owns.
  - eapply cert_ok_background; [done|done|]. simpl. intros m (-> & Hw & Hk). auto.
  - rewrite <- (app_nil_r (<[_ := _]> _)). eapply cert_ok_background; [done|done|]. simpl. intros m (-> & Hk). auto.
  - rewrite <- (app_nil_r (<[_ := _]> _)). eapply cert_ok_background; [done|done|]. simpl. intros m (-> & H1 & H2).
    destruct p; auto.
  - rewrite <- (app_nil_r (<[_ := _]> _)). eapply cert_ok_background; [done|done|]. simpl. intros m (-> & H2 & H3).
    destruct H1; subst; auto.
  - assert (t ≠ 0%nat) as Hne by (intros ->; assert (p = Join 0%nat k1 k2) as -> by congruence; done).
    assert (Hc' : cert_ok (<[t := Free]> ms ++ []) (u_cert_op_in_progress st) h (<[t := Done]> ts ++ [])).
    { eapply cert_ok_op; [done|done|by left|done|done|]. intros m Hm. split; [|done].
      destruct (Forall2_lookup_r _ _ _ _ _ (co_owns _ _ _ _ Hc) H0) as (m0 & Hm0 & Ho).
      assert (m0 = m) as -> by congruence. rewrite (abortable_free _ _ H1 Ho). by constructor. }
    rewrite app_nil_r in Hc'. rewrite (app_nil_r (<[t := Done]> ts)) in Hc'. rewrite <- (app_nil_r (<[0%nat := _]> _)).
    eapply cert_ok_background; [done|by rewrite list_lookup_insert_ne|]. simpl. intros m (-> & H2 & H3). auto.
  - by exists ms.
  - by exists ms.
  - by exists ms.
  - by exists ms.
Qed.

Lemma cert_inv_reachable s : reachable s → cert_inv s.
Proof.
  apply (rtc_ind_r (λ s, cert_inv s)); [|eauto using cert_inv_step]. exists [Free]. constructor; simpl.
  - by repeat constructor.
  - intros [|i]; simpl; [by intros [=]|by destruct i].
  - intros [|i]; simpl; [by intros j [=]|by destruct i].
  - intros [|i]; simpl; [by intros [=]|by destruct i].
Qed.

(** C20: installing and removing the CA never overlap.  In every reachable
    state at most one thread is running either of them, and while one is,
    [cert_op_in_progress] is set, so that both buttons are off. *)
Theorem cert_ops_exclusive s i j1 k1 :
  reachable s → threads s !! i = Some (Busy j1 k1) → is_cert j1 = true →
  u_cert_op_in_progress (ui_state s) = true ∧
  ∀ i' j2 k2, threads s !! i' = Some (Busy j2 k2) → is_cert j2 = true → i' = i.
Proof.
  intros [ms [Ho Hs H1 _]]%cert_inv_reachable Hi Hj.
  assert (Hown : ∀ n j k, threads s !! n = Some (Busy j k) → is_cert j = true → ms !! n = Some Owner).
  { intros n j k Hn Hc. destruct (Forall2_lookup_r _ _ _ _ _ Ho Hn) as (m & Hm & [-> _]). by rewrite Hc in Hm. }
  split; [by eapply Hs, Hown|]. intros i' j2 k2 Hi' Hj2. eapply H1; by eapply Hown.
Qed.

Definition installing_state : UiState :=
  append_log (bs "  [ui] installing CA...") (with_cert_op true default_ui_state).

(** The install task while it works. *)
Definition installing : Prog := Busy CaInstall (λ r,
    locked (λ c st, let st := with_cert_op false st in
                    match r with Ok _ => with_ca true (now c) st | Err _ => st end) (
    match r with
    | Ok _ => push_log (bs "[ui] CA install ok") Done
    | Err msg =>
        push_log (bs "[ui] " ++ msg) (
        push_log (bs "[ui] hint: run the terminal binary with sudo/admin: mhrv-rs --install-cert") Done)
    end)).

Lemma cert_ops_exclusive_witness :
  reachable (mk_ui installing_state None None [Done; installing] []) ∧ u_cert_op_in_progress installing_state = true.
Proof.
  assert (Hr : reachable (mk_ui installing_state None None [Done; installing] [])).
  { eapply rtc_l; [apply (step_send _ _ _ _ _ InstallCa)|]. eapply rtc_l; [by apply step_receive|]. cbn [handle insert list_insert].
    run 0%nat. run 0%nat. run 0%nat. run 0%nat. run 0%nat. run 1%nat. run 1%nat. run 1%nat. run 1%nat. reflexivity. }
  split; [done|]. by destruct (cert_ops_exclusive _ 1%nat CaInstall _ Hr eq_refl eq_refl) as [H _].
Defined.

(** A second certificate command that arrives while the first works stops the
    background thread inside its critical section. *)
Lemma duplicate_cert_op_freezes : ∃ s, reachable s ∧ stuck 0 s.
Proof.
  eexists. split.
  - eapply rtc_l; [apply (step_send _ _ _ _ _ InstallCa)|]. eapply rtc_l; [apply (step_send _ _ _ _ _ RemoveCa)|].
    eapply rtc_l; [by apply step_receive|]. cbn [handle insert list_insert app].
    run 0%nat. run 0%nat. run 0%nat. run 0%nat. run 0%nat. eapply rtc_l; [by apply step_receive|]. cbn [handle insert list_insert app].
    run 0%nat. run 0%nat. reflexivity.
  - split; [reflexivity|]. by eexists.
Qed.

(** Starting the proxy does not look at the flag: it loads the CA while a
    removal is deleting it. *)
Lemma start_races_removal (cfg : Config) : ∃ s k1 k2, reachable s ∧
  threads s !! 1%nat = Some (Busy CaRemove k1) ∧ threads s !! 2%nat = Some (Busy MitmNew k2).
Proof.
  eexists _, _, _. split.
  - eapply rtc_l; [apply (step_send _ _ _ _ _ RemoveCa)|]. eapply rtc_l; [apply (step_send _ _ _ _ _ (Start cfg))|].
    eapply rtc_l; [by apply step_receive|]. cbn [handle insert list_insert app].
    run 0%nat. run 0%nat. run 0%nat. run 0%nat. run 0%nat. run 1%nat. run 1%nat. run 1%nat. run 1%nat.
    eapply rtc_l; [by apply step_receive|]. cbn [handle insert list_insert app].
    run 0%nat. run 0%nat. run 0%nat. run 0%nat. run 0%nat. run 0%nat.
    eapply rtc_l; [by apply step_start|]. cbn [insert list_insert app length]. run 2%nat. reflexivity.
  - split; reflexivity.
Qed.

(** ** The window

    What a frame makes of the state it has read ([seen]) and of the form. *)

(** Start or Stop, by what the header showed. *)
Definition click_start (running : bool) (f : FormState) : option Cmd * option bytes :=
  if running then (Some Stop, None)
  else match to_config f with
       | Ok cfg => (Some (Start cfg), None)
       | Err e => (None, Some (bs "Cannot start: " ++ e))
       end.

Definition click_test (f : FormState) : option Cmd * option bytes :=
  match to_config f with
  | Ok cfg => (Some (Test cfg), None)
  | Err e => (None, Some (bs "Cannot test: " ++ e))
  end.

Definition click_scan (f : FormState) : option Cmd * option bytes :=
  match to_config f with
  | Ok cfg => (Some (Test cfg), Some (bs "Scan started — check the Recent log below."))
  | Err _ => (None, None)
  end.

(** The certificate buttons are off while they would be refused; [running] is
    what the header showed. *)
Definition click_install (seen : UiState) : option Cmd :=
  if u_cert_op_in_progress seen then None else Some InstallCa.

Definition click_remove (running : bool) (seen : UiState) : option Cmd :=
  if u_proxy_active seen || running || u_cert_op_in_progress seen then None else Some RemoveCa.

Definition update_check_route (seen : UiState) (f : FormState) : Route :=
  if u_running seen then
    match parse_u16 (trim (f_listen_port f)) with
    | Some port =>
        Proxy (if blank (f_listen_host f) then bs "127.0.0.1" else trim (f_listen_host f)) port
    | None => Update.Direct
    end
  else Update.Direct.

Definition click_download (seen : UiState) (f : FormState) (a : ReleaseAsset) : option Cmd :=
  if u_download_in_progress seen then None
  else Some (DownloadUpdate (update_check_route seen f) (download_url a) (a_name a)).

(** The checkbox for other devices: not shown for a bind address of the
    user's own. *)
Definition is_custom_bind (listen_host : bytes) : bool :=
  let host := trim listen_host in
  let lower := to_ascii_lowercase host in
  negb (bool_decide (host = [])) && negb (Main.is_share_on_lan host) &&
  negb (bool_decide (lower = bs "127.0.0.1")) && negb (bool_decide (lower = bs "localhost")).

Definition toggle_share (share : bool) (listen_host : bytes) : bytes :=
  if is_custom_bind listen_host then listen_host else if share then bs "0.0.0.0" else bs "127.0.0.1".

(** The transient status line, by priority, for a state that does not change
    while the frame reads it; everything is hidden after ten seconds, counted
    in nanoseconds, but a check in flight. *)
Definition TRANSIENT_TTL : Z := 10 * 1000000000.

Definition fresh (t : Z) (at_ : option Z) : bool :=
  match at_ with Some a => t - a <? TRANSIENT_TTL | None => false end.

Inductive StatusLine :=
  | CheckingForUpdates
  | UpdateResult (r : UpdateCheck)
  | TestMessage (msg : bytes)
  | DownloadStatus (r : option (result bytes bytes))
  | CaStatus (trusted : option bool)
  | NoLine.

Definition status_line (t : Z) (st : UiState) : StatusLine :=
  match u_last_update_check st with
  | Some UpdateInFlight => CheckingForUpdates
  | check =>
      if fresh t (u_last_update_check_at st) then
        match check with Some (UpdateDone r) => UpdateResult r | _ => NoLine end
      else if fresh t (u_last_test_msg_at st) && negb (bool_decide (u_last_test_msg st = [])) then
        TestMessage (u_last_test_msg st)
      else if fresh t (u_last_download_at st) then DownloadStatus (u_last_download st)
      else if fresh t (u_ca_trusted_at st) then CaStatus (u_ca_trusted st)
      else NoLine
  end.

(** The seconds a toast stays, and whether it is still shown. *)
Definition toast_ttl (msg : bytes) : Z := if contains msg (bs "failed to load") then 30 else 5.

Definition toast_shown (t : Z) (toast : option (bytes * Z)) : option (bytes * Z) :=
  match toast with
  | Some (msg, at_) => if t - at_ <? toast_ttl msg * 1000000000 then Some (msg, at_) else None
  | None => None
  end.

Definition fmt_duration (secs : Z) : bytes :=
  fmt_padded 2 (secs / 3600) ++ bs ":" ++ fmt_padded 2 ((secs / 60) mod 60) ++ bs ":" ++ fmt_padded 2 (secs mod 60).

(** *** The SNI editor *)

Definition sni_names (rows : list SniRow) : list bytes := trimmed_nonempty (map r_name rows).

Definition test_all_click (google_ip : bytes) (rows : list SniRow) : option Cmd :=
  let ip := trim google_ip in
  if bool_decide (sni_names rows = []) || bool_decide (ip = []) then None else Some (TestAllSni ip (sni_names rows)).

Definition keep_working (probes : gmap bytes SniProbeState) (rows : list SniRow) : list SniRow :=
  map (λ r, mk_sni_row (r_name r) (match probes !! r_name r with Some (SniOk _) => true | _ => false end)) rows.

Definition enable_all (rows : list SniRow) : list SniRow := map (λ r, mk_sni_row (r_name r) true) rows.

Definition reset_rows : list SniRow := map enabled_row DEFAULT_GOOGLE_SNI_POOL.

Definition test_row_click (google_ip name : bytes) : option Cmd :=
  if blank name || blank google_ip then None else Some (TestSni (trim google_ip) (trim name)).

(** [Vec::remove] of a row that is there. *)
Definition remove_row (i : nat) (rows : list SniRow) : list SniRow := delete i rows.

(** The rows, the input field and the command after the Add button. *)
Definition add_click (google_ip input : bytes) (rows : list SniRow) : list SniRow * bytes * option Cmd :=
  let new_name := trim input in
  if bool_decide (new_name = []) || existsb (λ r, bool_decide (r_name r = new_name)) rows then (rows, input, None)
  else (rows ++ [enabled_row new_name], [],
        if blank google_ip then None else Some (TestSni (trim google_ip) new_name)).

(** The text beside a row; no result is a panic, [&e[..22]] inside a
    character. *)
Definition is_char_boundary (s : bytes) (i : nat) : bool :=
  match s !! i with Some b => negb ((128 <=? byte_val b) && (byte_val b <? 192)) | None => bool_decide (i = length s) end.

Definition row_status (p : option SniProbeState) : option bytes :=
  match p with
  | Some (SniOk ms) => Some (bs "ok  " ++ fmt_uint ms ++ bs " ms")
  | Some (SniFailed e) =>
      if (22 <? length e)%nat then
        if is_char_boundary e 22 then Some (bs "fail " ++ take 22 e) else None
      else Some (bs "fail " ++ e)
  | Some SniInFlight => Some (bs "testing…")
  | None => Some (bs "untested")
  end.

(** *** The log filter *)

Section filter.
(** The filters [EnvFilter] can read. *)
Context (parses : bytes → bool).

Definition default_filter : bytes := bs "info,hyper=warn".

(** The filter at start: [RUST_LOG], the saved level, the default. *)
Definition initial_filter (rust_log : option bytes) (level : bytes) : bytes :=
  let of_level := if blank level then default_filter
                  else if parses (trim level) then trim level else default_filter in
  match rust_log with
  | Some v => if parses v then v else of_level
  | None => of_level
  end.

(** The filter after a save; [current] is the one in use. *)
Definition apply_log_level (rust_log : option bytes) (level current : bytes) : bytes :=
  match rust_log with
  | Some _ => current
  | None => if blank level then default_filter else if parses (trim level) then trim level else current
  end.

(** A save brings the filter a restart would bring, unless the level cannot
    be read or [RUST_LOG] decides. *)
Lemma saved_level_applies level current :
  blank level = true ∨ parses (trim level) = true →
  apply_log_level None level current = initial_filter None level.
Proof. unfold apply_log_level, initial_filter. intros [->|H]; [done|]. rewrite H. done. Qed.

(** A [RUST_LOG] that cannot be read decides nothing at start, and still keeps
    every save from taking effect. *)
Lemma unreadable_rust_log_pins v level level' :
  parses v = false → apply_log_level (Some v) level' (initial_filter (Some v) level) = initial_filter None level.
Proof. unfold apply_log_level, initial_filter. intros ->. done. Qed.
End filter.

(** *** What the window shows *)

Lemma download_status_never_final s t r :
  reachable s → status_line t (ui_state s) = DownloadStatus r → r = None.
Proof.
  intros Hr. pose proof (kept_state _ _ (closed_reachable no_download _ eq_refl Hr)) as Hn. unfold no_download in Hn.
  unfold status_line. rewrite Hn. repeat case_match; congruence.
Qed.

Lemma flush_lines_bounded buf st : log_ok st → log_ok (flush_lines buf st).
Proof.
  unfold flush_lines. generalize (str_lines (trim_end (from_utf8_lossy buf))). intros l. revert st.
  induction l as [|x l IH]; intros st Hs; [done|]. simpl. apply IH. case_if; [done|]. by apply log_ok_closed.
Qed.

Lemma trim_blank_end s : trim s ≠ [] → blank s = false.
Proof. intros H. by apply bool_decide_eq_false. Qed.

(** Probes are stored under the trimmed name and looked up under the text of
    the row. *)
Lemma keep_working_drops_padded name ip : trim name ≠ [] → name ≠ trim name → trim ip ≠ [] →
  test_row_click ip name = Some (TestSni (trim ip) (trim name)) ∧
  ∀ ms, keep_working {[ trim name := SniOk ms ]} [mk_sni_row name true] = [mk_sni_row name false].
Proof.
  intros Hn Hne Hip. unfold test_row_click. rewrite !trim_blank_end by done. split; [done|]. intros ms.
  unfold keep_working. simpl. by rewrite lookup_singleton_ne.
Qed.

(** A probe's error in another script than Latin ends the window. *)
Example row_status_panics :
  row_status (Some (SniFailed (bs "connect: " ++ concat (replicate 8 [xd0; x9f])))) = None.
Proof. by vm_compute. Qed.

(** Rows are shown once: adding a name twice does nothing. *)
Lemma add_click_nodup ip input rows :
  NoDup (map r_name rows) → NoDup (map r_name (add_click ip input rows).1.1).
Proof.
  intros Hn. unfold add_click. destruct (bool_decide (trim input = [])); [done|]. simpl.
  destruct (existsb _ rows) eqn:E; [done|]. simpl. rewrite map_app, NoDup_app. split_and!; [done| |apply NoDup_singleton].
  intros x Hx ->%list_elem_of_singleton. apply list_elem_of_fmap in Hx as (r & Hx & Hr).
  assert (existsb (λ r, bool_decide (r_name r = trim input)) rows = true) as Ht.
  { apply existsb_exists. exists r. split; [by apply list_elem_of_In|]. by apply bool_decide_eq_true. }
  congruence.
Qed.
