(* ===== verification/UiPanel.v ===== *)
(** The desktop window's display (src/src/bin/ui.rs, [App::update] with
    [fmt_bytes], [downloads_dir], [reveal_in_file_manager] and the renderer
    chosen by [main]): the polling timer, the notes under the form, the
    "Usage today" panel, the table of sites, the texts of the status line and
    the log panel's buttons.  A panel is the list of its cells, each a text
    with its colour; layout, fonts and the fixed captions of input fields are
    left out. *)

From Stdlib Require Import Strings.Byte Floats.SpecFloat.
From S2P Require Import Prelude RustBytes Calendar Quota IpAddr Routing ProxyHttp RelayUrl Relay Config Startup HostSystem RustText Main Update UiForm Ui.

(** ** Numbers with a fraction *)

(** [format!("{:.d$}", x)] of a number that is not negative, for [d > 0]. *)
Definition fmt_fixed (d : nat) (x : f64) : bytes :=
  let shown (n : Z) := fmt_uint (n / 10 ^ Z.of_nat d) ++ bs "." ++ fmt_padded d (n mod 10 ^ Z.of_nat d) in
  match x with
  | S754_zero _ => shown 0
  | S754_infinity _ => bs "inf"
  | S754_nan => bs "NaN"
  | S754_finite _ m e => shown (round_even (Zpos m * 10 ^ Z.of_nat d) e)
  end.

(** [f64::clamp] with bounds that are numbers. *)
Definition f64_clamp (lo hi x : f64) : f64 :=
  let x := if SFltb x lo then lo else x in
  if SFltb hi x then hi else x.

(** [x as u64] of a number that is not negative: towards zero, saturating. *)
Definition f64_to_u64 (x : f64) : Z :=
  match x with
  | S754_finite false m e => Z.min u64_max (Z.shiftl (Zpos m) e)
  | S754_infinity false => u64_max
  | _ => 0
  end.

Definition KB : Z := 1024.
Definition MB : Z := KB * KB.
Definition GB : Z := MB * KB.

Definition fmt_bytes (b : Z) : bytes :=
  if GB <=? b then fmt_fixed 2 (f64_div (f64_of_uint b) (f64_of_uint GB)) ++ bs " GB"
  else if MB <=? b then fmt_fixed 2 (f64_div (f64_of_uint b) (f64_of_uint MB)) ++ bs " MB"
  else if KB <=? b then fmt_fixed 1 (f64_div (f64_of_uint b) (f64_of_uint KB)) ++ bs " KB"
  else fmt_uint b ++ bs " B".

Definition fmt_bytes_approx (b : Z) : bytes := bs "~" ++ fmt_bytes b.

(** ** The frame *)

(** A poll is sent when the last is more than 700 ms old; the times are in
    nanoseconds. *)
Definition POLL_EVERY : Z := 700 * 1000000.

Definition poll_timer (t last_poll : Z) : option Cmd * Z :=
  if POLL_EVERY <? t - last_poll then (Some PollStats, t) else (None, last_poll).

Inductive Tone := Plain | Gray | Green | Red | Amber.
Definition Cell : Type := Tone * bytes.

Definition status_pill (running : bool) : Cell := if running then (Green, bs "running") else (Red, bs "stopped").

(** *** The form's notes *)

Definition mode_label (mode : bytes) : bytes :=
  if bool_decide (mode = bs "direct") || bool_decide (mode = bs "google_only") then bs "Direct (no relay)"
  else if bool_decide (mode = bs "full") then bs "Full tunnel (no cert)"
  else bs "Apps Script (MITM)".

(** What the drop-down puts into the form. *)
Definition mode_choices : list (bytes * bytes) :=
  [(bs "apps_script", bs "Apps Script (MITM)"); (bs "full", bs "Full tunnel (no cert)"); (bs "direct", bs "Direct (no relay)")].

Definition direct_mode (f : FormState) : bool :=
  bool_decide (f_mode f = bs "direct") || bool_decide (f_mode f = bs "google_only").

(** [id_count]: the ids are counted anew, from the text. *)
Definition id_count (f : FormState) : nat :=
  length (List.filter (λ s, negb (bool_decide (s = []))) (map trim (split_by id_separator (f_script_id f)))).

Definition id_note (f : FormState) : Cell :=
  if (id_count f <=? 1)%nat then (Gray, bs "Tip: add more IDs for round-robin with auto-failover.")
  else (Green, fmt_uint (Z.of_nat (id_count f)) ++ bs " IDs — round-robin with auto-failover on quota.").

Definition sni_button (rows : list SniRow) : bytes :=
  bs "SNI pool… (" ++ fmt_uint (len (List.filter r_enabled rows)) ++ bs "/" ++ fmt_uint (len rows) ++ bs ")".

Definition or_default (default s : bytes) : bytes := if bool_decide (s = []) then default else s.

(** [IpAddr]'s [Display]. *)
Definition display_ip (ip : IpAddr) : bytes := match ip with IpV4 o => fmt_ipv4 o | IpV6 o => fmt_ipv6 o end.

(** The row of the bind address, [share] being the checkbox after this frame's
    click and [local] the address the UDP probe found. *)
Definition network_note (local : option IpAddr) (share : bool) (f : FormState) : option Cell :=
  if is_custom_bind (f_listen_host f) then Some (Amber, bs "Custom bind: " ++ trim (f_listen_host f))
  else if share then
    match detect_lan_ip local with
    | Some ip =>
        let port := or_default (bs "8085") (trim (f_listen_port f)) in
        let socks_port := or_default (bs "8086") (trim (f_socks5_port f)) in
        Some (Green, bs "Other devices: HTTP " ++ display_ip ip ++ bs ":" ++ port ++ bs "  ·  SOCKS5 " ++
                     display_ip ip ++ bs ":" ++ socks_port)
    | None =>
        Some (Amber, bs "Couldn't detect your LAN IP. Find it in System Settings → Network → Wi-Fi → Details (macOS) or `ipconfig` (Windows).")
    end
  else None.

(** ** Usage today *)

Definition hours_minutes (secs : Z) : bytes := fmt_uint (secs / 3600) ++ bs "h " ++ fmt_uint ((secs / 60) mod 60) ++ bs "m".

(** [t] is the monotonic clock in nanoseconds. *)
Definition usage_title (t : Z) (running : bool) (started_at : option Z) : bytes :=
  if running then
    bs "Usage today  ·  uptime " ++
    fmt_duration (match started_at with Some a => (t - a) / 1000000000 | None => 0 end)
  else bs "Usage today  ·  (not running)".

Definition quota_banner (quota : option QuotaSummary) : option Cell :=
  match quota with
  | Some q =>
      if global_hard_stop q then Some (Red, bs "⚠  All account quota exhausted — Apps Script relay hard-stopped")
      else if 0 <? exhausted_count q then
        Some (Amber, bs "⚠  " ++ fmt_uint (exhausted_count q) ++ bs "/" ++ fmt_uint (account_count q) ++
                     bs " account(s) exhausted — routing to remaining accounts")
      else None
  | None => None
  end.

(** The capacity shown, and whether the count is shown as an alert. *)
Definition usage_cap (quota : option QuotaSummary) : Z :=
  match quota with Some q => Z.max (daily_capacity_total q) 1 | None => 20000 end.

Definition usage_alert (quota : option QuotaSummary) : bool :=
  match quota with Some q => (0 <? exhausted_count q) || global_hard_stop q | None => false end.

Definition calls_cell (quota : option QuotaSummary) (s : StatsSnapshot) : Cell :=
  let used := ss_total_relay_calls s in
  let cap := usage_cap quota in
  (if usage_alert quota then Red else Plain,
   fmt_uint used ++ bs " / " ++ fmt_uint cap ++ bs "  (" ++ fmt_fixed 1 (percent used cap) ++ bs "%)").

(** [now] is the wall clock in seconds. *)
Definition reset_str (now : Z) (quota : option QuotaSummary) (s : StatsSnapshot) : bytes :=
  match quota with
  | Some q =>
      match (match sum_next_reset_at q with Some ts => Some ts | None => next_reset_at_any q end) with
      | Some ts => hours_minutes (sat_sub ts now) ++ bs " (rolling)"
      | None => hours_minutes (ss_today_reset_secs s) ++ bs " (PT midnight)"
      end
  | None => hours_minutes (ss_today_reset_secs s)
  end.

Definition relay_str (s : StatsSnapshot) : bytes :=
  if 0 <? ss_relay_failures s
  then fmt_uint (ss_relay_calls s) ++ bs " (" ++ fmt_uint (ss_relay_failures s) ++ bs " failed)"
  else fmt_uint (ss_relay_calls s).

Definition cache_str (s : StatsSnapshot) : bytes :=
  let cache_total := wadd64 (ss_cache_hits s) (ss_cache_misses s) in
  if 0 <? cache_total
  then fmt_uint (ss_cache_hits s) ++ bs "/" ++ fmt_uint cache_total ++ bs " (" ++ fmt_f64_0 (hit_rate s) ++ bs "% hit)"
  else bs "—".

Definition accounts_cell (q : QuotaSummary) : Cell :=
  if 0 <? exhausted_count q then
    (Amber, fmt_uint (wsub64 (account_count q) (exhausted_count q)) ++ bs "/" ++ fmt_uint (account_count q) ++
            bs " (" ++ fmt_uint (exhausted_count q) ++ bs " exhausted)")
  else (Plain, fmt_uint (account_count q) ++ bs "/" ++ fmt_uint (account_count q) ++ bs " active").

(** The projection for the whole day: the average of a call, held between 50
    and 500 thousand bytes, times the capacity. *)
Definition estimate (q : QuotaSummary) (s : StatsSnapshot) : Z :=
  let raw_avg := f64_div (f64_of_uint (ss_bytes_relayed s)) (f64_of_uint (ss_total_relay_calls s)) in
  let avg := f64_clamp (f64_of_uint 50000) (f64_of_uint 500000) raw_avg in
  f64_to_u64 (f64_mul avg (f64_of_uint (daily_capacity_total q))).

Definition data_str (q : QuotaSummary) (s : StatsSnapshot) : bytes :=
  if 5 <=? ss_total_relay_calls s
  then fmt_bytes_approx (ss_bytes_relayed s) ++ bs " / " ++ fmt_bytes_approx (estimate q s) ++ bs " (est.)"
  else fmt_bytes_approx (ss_bytes_relayed s).

Definition caption (c : String.string) : Cell := (Gray, bs c).

Record UsagePanel := mk_usage { up_title : bytes; up_banner : option Cell; up_rows : list (list Cell) }.

Definition usage_rows (now : Z) (quota : option QuotaSummary) (s : StatsSnapshot) : list (list Cell) :=
  [[caption "fetches today"; calls_cell quota s; caption "resets in"; (Plain, reset_str now quota s)];
   [caption "relay calls"; (Plain, relay_str s); caption "cache"; (Plain, cache_str s)];
   [caption "PT day"; (Plain, ss_today_key s)] ++
   match quota with Some q => [caption "accounts"; accounts_cell q] | None => [(Plain, []); (Plain, [])] end] ++
  match quota with
  | Some q =>
      if 0 <? ss_bytes_relayed s
      then [[caption "data transferred"; (Plain, data_str q s); (Plain, []); (Plain, [])]] else []
  | None => []
  end.

(** The panel of a state the frame has read. *)
Definition usage_panel (t now : Z) (st : UiState) : option UsagePanel :=
  match u_last_stats st with
  | Some s => Some (mk_usage (usage_title t (u_running st) (u_started_at st)) (quota_banner (u_quota st))
                      (usage_rows now (u_quota st) s))
  | None => None
  end.

(** *** The table of sites *)

Definition SITES_SHOWN : nat := 60.

Definition site_row (e : bytes * HostStat) : list bytes :=
  let '(host, st) := e in
  let hit_pct := if 0 <? hs_requests st then percent (hs_cache_hits st) (hs_requests st) else S754_zero false in
  [host; fmt_uint (hs_requests st); fmt_f64_0 hit_pct ++ bs "%"; fmt_bytes (hs_bytes st); fmt_f64_0 (avg_latency_ms st)].

Definition site_table (sites : list (bytes * HostStat)) : option (bytes * list (list bytes)) :=
  match sites with
  | [] => None
  | _ => Some (bs "Per-site (" ++ fmt_uint (len sites) ++ bs " hosts)", map site_row (take SITES_SHOWN sites))
  end.

(** ** The status line and the log panel *)

(** The texts of the line and its links and buttons. *)
Record StatusView := mk_view { v_text : list Cell; v_link : option bytes; v_button : option bytes }.

Definition update_tone (r : UpdateCheck) : Tone :=
  match r with UpToDate _ _ => Green | UpdateAvailable _ _ _ _ => Amber | _ => Red end.

Definition download_label (a : ReleaseAsset) : bytes :=
  bs "⤓ Download " ++ a_name a ++ bs " (" ++ fmt_fixed 1 (f64_div (f64_of_uint (size_bytes a)) (f64_of_uint 1048576)) ++ bs " MB)".

Definition status_view (dl_in_flight : bool) (line : StatusLine) : StatusView :=
  match line with
  | CheckingForUpdates => mk_view [(Gray, bs "Checking for updates…")] None None
  | UpdateResult r =>
      let text := (update_tone r, Update.summary r) in
      match r with
      | UpdateAvailable _ _ release_url (Some a) =>
          if dl_in_flight then mk_view [text; (Gray, bs "downloading…")] (Some release_url) None
          else mk_view [text] (Some release_url) (Some (download_label a))
      | UpdateAvailable _ _ release_url None => mk_view [text] (Some release_url) None
      | _ => mk_view [text] None None
      end
  | TestMessage msg => mk_view [(if starts_with (bs "Test passed") msg then Green else Red, msg)] None None
  | DownloadStatus (Some (Ok path)) => mk_view [(Green, bs "Downloaded → " ++ path)] None (Some (bs "show in folder"))
  | DownloadStatus (Some (Err msg)) => mk_view [(Red, bs "Download failed: " ++ msg)] None None
  | DownloadStatus None => mk_view [(Gray, bs "Downloading…")] None None
  | CaStatus (Some true) => mk_view [(Green, bs "CA appears trusted on this machine.")] None None
  | CaStatus (Some false) =>
      mk_view [(Red, bs "CA is NOT trusted in the system store. Click Install CA.")] None None
  | CaStatus None => mk_view [] None None
  | NoLine => mk_view [(Plain, bs " ")] None None
  end.

(** [log-[year][month][day]-[hour][minute][second].txt] in UTC. *)
Definition log_file_name (secs : Z) : bytes :=
  let '(y, m, d) := unix_to_ymd_utc secs in
  let tod := secs mod 86400 in
  bs "log-" ++ fmt_padded 4 y ++ fmt_padded 2 m ++ fmt_padded 2 d ++ bs "-" ++
  fmt_padded 2 (tod / 3600) ++ fmt_padded 2 ((tod / 60) mod 60) ++ fmt_padded 2 (tod mod 60) ++ bs ".txt".

Definition log_view (show : bool) (log : list bytes) : list bytes :=
  if show then match log with [] => [bs "(empty — run some traffic or click Test)"] | _ => log end else [].

Section buttons.
(** The platform: its name, why it refuses a file operation, the settings
    directory and the user's downloads, which depend on the environment. *)
Context (os : bytes) (io_error : bytes → bytes → option bytes) (project_dir download_dir : Env → option bytes).

(** The toast after "save…". *)
Definition save_log (env : Env) (override : option bytes) (secs : Z) (st : UiState) : M bytes :=
  let% dir := data_dir os io_error project_dir env override in
  let path := path_join (sep os) dir (log_file_name secs) in
  let% r := fs_write (sep os) io_error path (join [x0a] (u_log st)) in
  mret match r with
       | Ok _ => bs "Log saved to " ++ path
       | Err e => bs "Log save failed: " ++ e
       end.

Definition downloads_dir (env : Env) (override : option bytes) : M bytes :=
  match download_dir env with
  | Some p => mret p
  | None => data_dir os io_error project_dir env override
  end.

(** The command that shows a file of a directory, none without a parent. *)
Definition reveal_in_file_manager (p : bytes) : option (list bytes) :=
  if bool_decide (os = bs "macos") then Some [bs "open"; bs "-R"; p]
  else if bool_decide (os = bs "windows") then Some [bs "explorer"; bs "/select," ++ [x22] ++ p ++ [x22]]
  else match rsplit_once (sep os) p with
       | Some (d, _) => Some [bs "xdg-open"; or_default [sep os] d]
       | None => if bool_decide (p = []) then None else Some [bs "xdg-open"; []]
       end.
End buttons.

(** "clear". *)
Definition clear_log (st : UiState) : UiState := with_log [] st.

(** [main]'s renderer, by [MHRV_RENDERER]. *)
Inductive Renderer := Wgpu | Glow.

Definition renderer (mhrv_renderer : option bytes) : Renderer :=
  match mhrv_renderer with
  | Some v => if eq_ignore_ascii_case v (bs "wgpu") then Wgpu else Glow
  | None => Glow
  end.

(** ** What is shown *)

(** Rounding is to the nearest, ties to even: the distance is at most half a
    unit, and a tie goes to an even number. *)
Lemma round_even_nearest m e : 0 ≤ m → e < 0 →
  2 * Z.abs (round_even m e * 2 ^ (- e) - m) ≤ 2 ^ (- e) ∧
  (2 * Z.abs (round_even m e * 2 ^ (- e) - m) = 2 ^ (- e) → Z.even (round_even m e) = true).
Proof.
  intros Hm He. unfold round_even. rewrite (proj2 (Z.leb_gt 0 e)) by lia.
  assert (0 < 2 ^ (- e)) as Hd by (apply Z.pow_pos_nonneg; lia).
  generalize dependent (2 ^ (- e)). intros d Hd. cbv zeta.
  pose proof (Z.div_mod m d ltac:(lia)) as Hq. pose proof (Z.mod_pos_bound m d Hd) as Hr.
  set (q := m / d) in *. set (r := m mod d) in *.
  destruct (Z.compare_spec (2 * r) d) as [E|E|E].
  - destruct (Z.even q) eqn:Ev; split; intros; try done; try nia.
    rewrite Z.even_add, Ev. done.
  - split; [nia|]. intros. exfalso. nia.
  - split; [nia|]. intros. exfalso. nia.
Qed.

(** The unit changes at its size, not where the rounded number does. *)
Example fmt_bytes_units :
  fmt_bytes 0 = bs "0 B" ∧ fmt_bytes 1023 = bs "1023 B" ∧ fmt_bytes 1024 = bs "1.0 KB" ∧
  fmt_bytes 1048575 = bs "1024.0 KB" ∧ fmt_bytes 1048576 = bs "1.00 MB" ∧
  fmt_bytes 1073741823 = bs "1024.00 MB" ∧ fmt_bytes 1610612736 = bs "1.50 GB" ∧
  fmt_bytes 1280 = bs "1.2 KB" ∧ fmt_bytes u64_max = bs "17179869184.00 GB".
Proof. by vm_compute. Qed.

(** The hint under the ids counts the ids the configuration will have. *)
Lemma id_note_counts_ids f : id_count f = length (form_ids f).
Proof. unfold id_count, form_ids, trimmed_nonempty. done. Qed.

(** Every choice of the drop-down shows under its own label. *)
Lemma mode_choices_labelled : Forall (λ '(mode, label), mode_label mode = label) mode_choices.
Proof. repeat constructor. Qed.

Lemma poll_timer_spacing t t' last cmd last' :
  poll_timer t last = (Some cmd, last') → t' - t ≤ POLL_EVERY → poll_timer t' last' = (None, last').
Proof.
  unfold poll_timer. case_match; intros [= <- <-]; intros Ht.
  by rewrite (proj2 (Z.ltb_ge _ _)) by lia.
Qed.

(** *** The statistics and the quota of the state come from one poll *)

Definition quota_of_stats (st : UiState) : Prop := u_quota st = ss_quota <$> u_last_stats st.

#[global] Instance quota_of_stats_closed : Closed quota_of_stats.
Proof. by constructor. Qed.

(** The free-tier capacity is never shown: in every state the window can
    reach, a panel has the accounts of the same poll as its counters. *)
Lemma usage_panel_has_quota s t now p :
  reachable s → usage_panel t now (ui_state s) = Some p →
  ∃ stats, u_last_stats (ui_state s) = Some stats ∧
    up_banner p = quota_banner (Some (ss_quota stats)) ∧ up_rows p = usage_rows now (Some (ss_quota stats)) stats.
Proof.
  intros Hr. pose proof (kept_state _ _ (closed_reachable quota_of_stats _ eq_refl Hr)) as Hq.
  unfold quota_of_stats in Hq. unfold usage_panel. destruct (u_last_stats (ui_state s)) as [stats|]; [|done].
  simpl in Hq. rewrite Hq. intros [= <-]. by exists stats.
Qed.

(** *** The accounts *)

Lemma count_buckets_le p q : 0 ≤ count_buckets p q ≤ len (script_ids q).
Proof.
  unfold count_buckets, len. pose proof (filter_length_le (λ sid, match buckets (Quota.state q) !! sid with
    | Some b => p b | None => false end) (script_ids q)). lia.
Qed.

(** The number of healthy accounts shown never wraps around. *)
Lemma healthy_accounts_exact q :
  len (script_ids q) < u64_mod →
  let s := Quota.summary q in
  0 ≤ exhausted_count s ≤ account_count s ∧
  wsub64 (account_count s) (exhausted_count s) = account_count s - exhausted_count s.
Proof.
  intros Hn. assert (0 ≤ exhausted_count (Quota.summary q) ≤ account_count (Quota.summary q) ∧
    account_count (Quota.summary q) < u64_mod) as [H1 H2].
  { unfold Quota.summary. pose proof (count_buckets_le exhausted q). case_match; simpl; [|lia].
    split; [lia|]. by vm_compute. }
  cbv zeta. split; [done|]. unfold wsub64. apply Z.mod_small. lia.
Qed.

(** The count turns red exactly when a banner is shown. *)
Lemma alert_iff_banner quota : usage_alert quota = true ↔ is_Some (quota_banner quota).
Proof.
  destruct quota as [q|]; simpl; [|by rewrite is_Some_alt].
  by destruct (global_hard_stop q), (0 <? exhausted_count q); rewrite is_Some_alt.
Qed.

(** *** The sites *)

(** The table shows the busiest sites: none left out had more requests than
    one that is shown. *)
Lemma site_table_busiest df shown hidden :
  shown ∈ take SITES_SHOWN (snapshot_per_site df) → hidden ∈ drop SITES_SHOWN (snapshot_per_site df) →
  hs_requests hidden.2 ≤ hs_requests shown.2.
Proof.
  destruct (snapshot_per_site_spec df) as [_ Hs]. apply Sorted_StronglySorted in Hs; [|intros ???; lia].
  rewrite <- (take_drop SITES_SHOWN (snapshot_per_site df)) in Hs at 1.
  apply (StronglySorted_app_1_elem_of _ _ _ _ _ Hs).
Qed.

(** *** The windows of the counters *)

(** "fetches today" does not follow the clock: whatever the day, a snapshot
    has the stored count, while its day and its other counters roll over. *)
Lemma fetches_ignore_the_day df secs secs' :
  calls_cell (Some (ss_quota (snapshot_stats secs df).1)) (snapshot_stats secs df).1 =
  calls_cell (Some (ss_quota (snapshot_stats secs' df).1)) (snapshot_stats secs' df).1.
Proof. done. Qed.

(** The average of the projection divides the bytes since the program
    started by the calls since midnight UTC.  A day of 20000 calls with 1 GB
    projects 1 GB; the next day's first five calls make it ten times that. *)
Definition demo_summary : QuotaSummary := mk_summary 1 20000 0 20000 0 0 0 0 0 0 false None None 0.

Definition demo_stats (calls bytes_relayed : Z) : StatsSnapshot :=
  mk_stats calls calls 0 0 bytes_relayed 0 0 0 0 1 calls bytes_relayed (bs "2025-01-01") 3600 0 0 false demo_summary.

Example estimate_mixes_windows :
  data_str demo_summary (demo_stats 20000 1000000000) = bs "~953.67 MB / ~953.67 MB (est.)" ∧
  data_str demo_summary (demo_stats 5 1000250000) = bs "~953.91 MB / ~9.31 GB (est.)".
Proof. by vm_compute. Qed.

Example usage_panel_shown :
  usage_rows 1000 (Some demo_summary) (demo_stats 50 0) =
  [[caption "fetches today"; (Plain, bs "50 / 20000  (0.2%)"); caption "resets in"; (Plain, bs "1h 0m (PT midnight)")];
   [caption "relay calls"; (Plain, bs "50"); caption "cache"; (Plain, bs "—")];
   [caption "PT day"; (Plain, bs "2025-01-01"); caption "accounts"; (Plain, bs "1/1 active")]].
Proof. by vm_compute. Qed.

(** *** The status line *)

(** The button that shows a download in its folder is never there. *)
Lemma show_in_folder_unreachable s t :
  reachable s → v_button (status_view (u_download_in_progress (ui_state s)) (status_line t (ui_state s))) ≠
                Some (bs "show in folder").
Proof.
  intros Hr. destruct (status_line t (ui_state s)) as [|u| |r|c|] eqn:E; simpl; try done.
  - destruct u as [| | |? ? ? [a|]]; try done. by destruct (u_download_in_progress _).
  - by rewrite (download_status_never_final _ _ _ Hr E).
  - by destruct c as [[]|].
Qed.

(** *** The log file *)

Lemma save_log_writes os io_error project_dir env ov secs st s s' dir :
  data_dir os io_error project_dir env ov s = (dir, s') → is_dir s' dir = true →
  let path := path_join (sep os) dir (log_file_name secs) in
  io_error (bs "write") path = None → is_dir s' path = false → parent (sep os) path = Some dir →
  save_log os io_error project_dir env ov secs st s =
    (bs "Log saved to " ++ path, <[path := File (join [x0a] (u_log st))]> s').
Proof.
  intros Hd Hdir path Hio Hp Hpar. unfold save_log, mbnd, mret. rewrite Hd. fold path.
  unfold fs_write. by rewrite Hio, Hp, Hpar, Hdir.
Qed.

Example log_file_named : log_file_name 1735787045 = bs "log-20250102-030405.txt".
Proof. by vm_compute. Qed.
