(* ===== verification/TrustStore.v ===== *)
(** The files of the data directory (src/src/data_dir.rs) and the root store
    of the update check ([build_root_store] in src/src/update_check.rs): a
    check routed through the running proxy meets a certificate of the MITM CA
    and has to trust it. *)

From Stdlib Require Import Strings.Byte.
From S2P Require Import Prelude RustBytes HostSystem RustText Update CertInstall Mitm Main UiForm.

(** [rustls_pemfile::Item]: a certificate, or a key or a list. *)
Inductive PemItem (D : Type) := X509Certificate (der : D) | OtherItem.
Arguments X509Certificate {D} _.
Arguments OtherItem {D}.

Definition x509 {D} (i : PemItem D) : option D := match i with X509Certificate d => Some d | OtherItem => None end.

Section trust_store.
(** The machine, the built-in roots, the items of a PEM file and the
    certificates a root store accepts. *)
Context `{!Pki} (os : bytes) (io_error : bytes → bytes → option bytes) (project_dir : Env → option bytes)
  (webpki_roots : list Der) (read_items : bytes → result (list (PemItem Der)) bytes) (addable : Der → bool).

Definition json_config_path (env : Env) (override : option bytes) : M bytes :=
  let% dir := data_dir os io_error project_dir env override in mret (path_join (sep os) dir (bs "config.json")).

Definition ca_cert_path (env : Env) (override : option bytes) : M bytes :=
  let% dir := data_dir os io_error project_dir env override in
  mret (path_join (sep os) (path_join (sep os) dir (bs "ca")) (bs "ca.crt")).

Definition ca_key_path (env : Env) (override : option bytes) : M bytes :=
  let% dir := data_dir os io_error project_dir env override in
  mret (path_join (sep os) (path_join (sep os) dir (bs "ca")) (bs "ca.key")).

(** The loop over the items; a certificate that is refused is skipped. *)
Fixpoint add_items (items : list (PemItem Der)) (roots : list Der) : list Der :=
  match items with
  | [] => roots
  | X509Certificate der :: items' => add_items items' (if addable der then roots ++ [der] else roots)
  | OtherItem :: items' => add_items items' roots
  end.

Definition build_root_store (env : Env) (override : option bytes) (route : Route) : M (result (list Der) bytes) :=
  match route with
  | Update.Direct => mret (Ok webpki_roots)
  | Proxy _ _ =>
      let% path := ca_cert_path env override in
      gets (λ s, match s !! path with
                 | Some (File pem) =>
                     match read_items pem with
                     | Ok items => Ok (add_items items webpki_roots)
                     | Err e => Err (bs "read ca.crt: " ++ e)
                     end
                 | _ => Ok webpki_roots
                 end)
  end.

Lemma add_items_spec items roots : add_items items roots = roots ++ List.filter addable (omap x509 items).
Proof.
  revert roots. induction items as [|[der|] items IH]; intros roots; simpl; [by rewrite app_nil_r| |apply IH].
  rewrite IH. case_match; simpl; [by rewrite <- app_assoc|done].
Qed.

(** [rustls_pemfile::certs] gives the certificates among the items. *)
Definition certs_are_items : Prop :=
  ∀ pem, certs_of_pem pem = match read_items pem with Ok items => Ok (omap x509 items) | Err e => Err e end.

(** Where the CA manager's certificate is on disk. *)
Lemma new_in_file now key base s m s' :
  pki_roundtrips → new_in os io_error now key base s = (Ok m, s') →
  ∃ pem ders, s' !! path_join (sep_of os) base CA_CERT_FILE = Some (File pem) ∧ certs_of_pem pem = Ok (ca_cert_der m :: ders).
Proof.
  intros Hr. unfold new_in, mbnd, gets. case_match eqn:Hx.
  - intros [= Hl <-]. revert Hl. generalize (path_join (sep_of os) base CA_CERT_FILE). intros cp Hl.
    unfold mitm_load, read_string in Hl.
    destruct (match s !! path_join _ _ CA_KEY_FILE with Some (File b) => from_utf8 b | _ => None end) as [kp|]; [|done].
    destruct (s !! cp) as [[pem|]|] eqn:Hp; try done. cbn in Hl.
    destruct (from_utf8 pem) as [pem'|] eqn:Hu; [|done]. cbn in Hl.
    assert (pem' = pem) as -> by (unfold from_utf8 in Hu; destruct (utf8_valid pem); congruence).
    destruct (key_of_pem kp); [|done]. cbn in Hl. destruct (certs_of_pem pem) as [[|der ders]|] eqn:Hc; try done. cbn in Hl.
    destruct (params_of_der der); [|done]. cbn in Hl. destruct (self_signed _ _); [|done]. cbn in Hl. simplify_eq.
    by exists pem, ders.
  - destruct (fs_create_dir_all _ _ _ s) as [[[]|] s1]; [|done]. intros Hg.
    apply generate_ok in Hg as (k & c & _ & -> & _ & Hc); [|apply ca_paths_differ].
    exists (cert_to_pem c), []. split; [done|]. apply (cert_roundtrip Hr c).
Qed.

(** A check through the proxy trusts the proxy's CA: where paths have the
    slash, the store reads the file the CA manager works with, so that it
    holds the built-in roots and the certificate that ends every chain of the
    running proxy. *)
Lemma proxied_check_trusts_ca env ov host port now key s m s1 :
  sep_of os = x2f → pki_roundtrips → certs_are_items →
  new_in os io_error now key (settings_dir project_dir env ov) s = (Ok m, s1) → addable (ca_cert_der m) = true →
  ∃ roots, (build_root_store env ov (Proxy host port) s1).1 = Ok roots ∧
    ca_cert_der m ∈ roots ∧ ∀ r, r ∈ webpki_roots → r ∈ roots.
Proof.
  intros Hsep Hr Hci Hn Ha. destruct (new_in_file _ _ _ _ _ _ Hr Hn) as (pem & ders & Hf & Hc).
  set (dir := settings_dir project_dir env ov) in *.
  assert (path_join (sep os) (path_join (sep os) dir (bs "ca")) (bs "ca.crt") = path_join (sep_of os) dir CA_CERT_FILE) as Hp.
  { unfold sep, path_join. rewrite Hsep, <- app_assoc. done. }
  unfold build_root_store, ca_cert_path, data_dir, mbnd, mret, gets. fold (settings_dir project_dir env ov). fold dir.
  destruct (fs_create_dir_all _ _ dir s1) as [r s2] eqn:Hm. simpl. rewrite Hp.
  assert (s2 !! path_join (sep_of os) dir CA_CERT_FILE = Some (File pem)) as ->.
  { pose proof (create_dir_keeps (sep os) io_error dir s1 (File pem) (path_join (sep_of os) dir CA_CERT_FILE)) as Hk.
    rewrite Hm in Hk. apply Hk; [|done]. unfold path_join. rewrite length_app. simpl. lia. }
  rewrite Hci in Hc. destruct (read_items pem) as [items|]; [|done]. injection Hc as Hc.
  eexists. split; [done|]. rewrite add_items_spec, Hc. split.
  - rewrite elem_of_app. right. simpl. rewrite Ha. left.
  - intros r0 Hr0. rewrite elem_of_app. by left.
Qed.

(** A direct check never trusts it. *)
Lemma direct_check_built_in env ov s : build_root_store env ov Update.Direct s = (Ok webpki_roots, s).
Proof. done. Qed.
End trust_store.

(** The items of the toy library's files. *)
Definition toy_items (pem : bytes) : result (list (PemItem byte)) bytes :=
  match certs_of_pem (Pki := toy_pki) pem with Ok ders => Ok (map X509Certificate ders) | Err e => Err e end.

Lemma proxied_check_trusts_ca_witness :
  ∃ roots, (build_root_store (H := toy_pki) (bs "linux") (λ _ _, None) (λ _, None) [x01] toy_items (λ _, true)
    demo_env (Some (bs "/data")) (Proxy (bs "127.0.0.1") 8085) started_host).1 = Ok roots ∧ x07 ∈ roots.
Proof.
  destruct (proxied_check_trusts_ca (H := toy_pki) (bs "linux") (λ _ _, None) (λ _, None) [x01] toy_items (λ _, true)
    demo_env (Some (bs "/data")) (bs "127.0.0.1") 8085 0 (Ok x2a) fresh_host (mk_mitm (H := toy_pki) x07 x2a x07 ∅) started_host)
    as (roots & Hr & Hin & _); [done|apply toy_roundtrips| |done|done|by exists roots].
  intros pem. unfold toy_items. destruct (certs_of_pem pem) as [ders|]; [|done]. f_equal.
  induction ders as [|d ders IH]; simpl; [done|]. by f_equal.
Defined.
