(* ===== verification/Diagnostics.v ===== *)
(** What the program tells its operator: the time stamp of the log
    (src/src/logging.rs), the debug overlay of the tunnel client
    ([pipeline_debug] in src/src/tunnel_client.rs), the pre-read summary of
    the multiplexer, the relay's failure messages (src/src/domain_fronter.rs)
    and the report on the descriptor limit (src/src/rlimit.rs). *)

From Stdlib Require Import Strings.Byte.
From S2P Require Import Prelude RustBytes Calendar RelayWire RelayUrl RustText Session HostSystem Main.

(** ** The time stamp *)

Definition ESC : byte := x1b.

(** [\x1b[38;5;<n>m]. *)
Definition colour (n : Z) : bytes := [ESC; x5b] ++ bs "38;5;" ++ fmt_uint n ++ bs "m".
Definition colour_reset : bytes := [ESC; x5b] ++ bs "0m".

(** [CompactUtcTime::format_time] at [ns] nanoseconds since the epoch. *)
Definition compact_utc_time (ansi : bool) (ns : Z) : bytes :=
  let secs := ns / 1000000000 in
  let '(year, mo, day) := unix_to_ymd_utc secs in
  let tod := secs mod 86400 in
  let h := tod / 3600 in
  let min := (tod / 60) mod 60 in
  let s := tod mod 60 in
  let t := ((ns / 1000000) mod 1000) / 100 in
  if ansi then
    let g := colour 250 in let bo := colour 215 in let odo := colour 166 in
    let sg := colour 120 in let sb := colour 159 in let db := colour 74 in
    g ++ bs "[" ++ bo ++ fmt_padded 4 year ++ odo ++ bs "-" ++ bo ++ fmt_padded 2 mo ++ odo ++ bs "-" ++ bo ++
    fmt_padded 2 day ++ g ++ bs "]" ++ sg ++ bs "-" ++ g ++ bs "[" ++ sb ++ fmt_padded 2 h ++ db ++ bs ":" ++ sb ++
    fmt_padded 2 min ++ db ++ bs ":" ++ sb ++ fmt_padded 2 s ++ db ++ bs "." ++ sb ++ fmt_uint t ++ g ++ bs "]" ++
    colour_reset
  else
    bs "[" ++ fmt_padded 4 year ++ bs "-" ++ fmt_padded 2 mo ++ bs "-" ++ fmt_padded 2 day ++ bs "]-[" ++
    fmt_padded 2 h ++ bs ":" ++ fmt_padded 2 min ++ bs ":" ++ fmt_padded 2 s ++ bs "." ++ fmt_uint t ++ bs "]".

(** A terminal: colours leave no mark; [inside] an escape, up to its [m]. *)
Fixpoint shown_from (inside : bool) (s : bytes) : bytes :=
  match s with
  | [] => []
  | c :: s' =>
      if inside then shown_from (negb (bool_decide (c = x6d))) s'
      else if bool_decide (c = ESC) then shown_from true s' else c :: shown_from false s'
  end.
Definition shown : bytes → bytes := shown_from false.

Lemma shown_text s s' : Forall (λ c, c ≠ ESC) s → shown (s ++ s') = s ++ shown s'.
Proof. unfold shown. induction 1 as [|c s Hc Hs IH]; simpl; [done|]. by rewrite bool_decide_false, IH. Qed.

Lemma shown_escape s s' : Forall (λ c, c ≠ x6d) s → shown_from true (s ++ x6d :: s') = shown s'.
Proof. induction 1 as [|c s Hc Hs IH]; simpl; [done|]. by rewrite bool_decide_false by done. Qed.

Lemma fmt_digits_forall (P : byte → Prop) fuel n acc :
  (∀ k, 0 ≤ k < 10 → P (digit k)) → Forall P acc → Forall P (fmt_digits fuel n acc).
Proof.
  intros HP. revert n acc. induction fuel as [|fuel IH]; intros n acc Ha; simpl; [done|].
  assert (Forall P (digit (n mod 10) :: acc)) by (constructor; [apply HP, Z.mod_pos_bound; lia|done]).
  case_match; auto.
Qed.

Lemma fmt_uint_avoids c n : byte_val c < 48 ∨ 57 < byte_val c → Forall (λ x, x ≠ c) (fmt_uint n).
Proof.
  intros Hc. apply fmt_digits_forall; [|done]. intros k Hk <-. rewrite digit_val in Hc by done. lia.
Qed.

Lemma shown_colour n s : shown (colour n ++ s) = shown s.
Proof.
  unfold shown, colour. rewrite <- !app_assoc. simpl. apply shown_escape, fmt_uint_avoids. right. by vm_compute.
Qed.

Lemma shown_uint n s : shown (fmt_uint n ++ s) = fmt_uint n ++ shown s.
Proof. apply shown_text, fmt_uint_avoids. left. by vm_compute. Qed.

Lemma shown_padded w n s : shown (fmt_padded w n ++ s) = fmt_padded w n ++ shown s.
Proof.
  unfold fmt_padded. rewrite <- !app_assoc. rewrite shown_text by by apply Forall_replicate. by rewrite shown_uint.
Qed.

Lemma shown_char c s : c ≠ ESC → shown ([c] ++ s) = [c] ++ shown s.
Proof. intros Hc. apply shown_text. by repeat constructor. Qed.

(** On a terminal the coloured stamp reads as the plain one does in a file. *)
Lemma coloured_stamp_reads_plain ns : shown (compact_utc_time true ns) = compact_utc_time false ns.
Proof.
  unfold compact_utc_time. destruct (unix_to_ymd_utc _) as [[y m] d].
  change (bs "]-[") with (bs "]" ++ bs "-" ++ bs "["). rewrite <- !app_assoc.
  change (bs "[") with [x5b]. change (bs "]") with [x5d]. change (bs "-") with [x2d].
  change (bs ":") with [x3a]. change (bs ".") with [x2e].
  repeat first [rewrite shown_colour | rewrite shown_padded | rewrite shown_uint | rewrite shown_char by done].
  change colour_reset with (colour_reset ++ []). done.
Qed.

Example stamps : compact_utc_time false 1735787045678000000 = bs "[2025-01-02]-[03:04:05.6]".
Proof. by vm_compute. Qed.

(** ** The debug overlay *)

Definition EVENT_CAP : nat := 30.

Record SessionInfo := mk_session_info { si_depth : Z; si_inflight : Z; si_elevated : bool }.

(** The counters, the events from oldest to newest, and the sessions in the
    order the map iterates them. *)
Record Overlay := mk_overlay {
  ov_events : list bytes; ov_elevated : Z; ov_max_elevated : Z; ov_active_batches : Z; ov_max_batch_slots : Z;
  ov_active_sessions : Z; ov_sessions : list (bytes * SessionInfo) }.

(** [state()]'s first value. *)
Definition initial_overlay : Overlay := mk_overlay [] 0 0 0 0 0 [].

Definition push_event (msg : bytes) (o : Overlay) : Overlay := o.
Definition set_limits (max_elev max_batches : Z) (o : Overlay) : Overlay := o.
Definition overlay_set_elevated (n : Z) (o : Overlay) : Overlay := o.
Definition batch_acquire (o : Overlay) : Overlay := o.
Definition batch_release (o : Overlay) : Overlay := o.
Definition session_start (sid : bytes) (o : Overlay) : Overlay := o.
Definition session_end (sid : bytes) (o : Overlay) : Overlay := o.
Definition session_update (sid : bytes) (depth inflight : Z) (elevated : bool) (o : Overlay) : Overlay := o.

Definition QUOTE : byte := x22.
Definition BACKSLASH : byte := x5c.

(** [e.replace('\\', "\\\\").replace('"', "\\\"")]. *)
Definition replace_byte (c : byte) (by_ s : bytes) : bytes := concat (map (λ x, if bool_decide (x = c) then by_ else [x]) s).
Definition escape_event (e : bytes) : bytes :=
  replace_byte QUOTE [BACKSLASH; QUOTE] (replace_byte BACKSLASH [BACKSLASH; BACKSLASH] e).

Definition quoted (s : bytes) : bytes := [QUOTE] ++ s ++ [QUOTE].
Definition member (key value : bytes) : bytes := quoted key ++ bs ":" ++ value.
Definition true_false (b : bool) : bytes := if b then bs "true" else bs "false".

Definition session_json (e : bytes * SessionInfo) : bytes :=
  bs "{" ++ join (bs ",")
    [member (bs "sid") (quoted e.1); member (bs "depth") (fmt_uint (si_depth e.2));
     member (bs "inflight") (fmt_uint (si_inflight e.2)); member (bs "elevated") (true_false (si_elevated e.2))] ++ bs "}".

Definition overlay_json (o : Overlay) : bytes :=
  let events_json := bs "[" ++ join (bs ",") (map (λ e, quoted (escape_event e)) (ov_events o)) ++ bs "]" in
  let sessions_json := bs "[" ++ join (bs ",") (map session_json (ov_sessions o)) ++ bs "]" in
  bs "{" ++ join (bs ",")
    [member (bs "elevated") (fmt_uint (ov_elevated o)); member (bs "max_elevated") (fmt_uint (ov_max_elevated o));
     member (bs "active_batches") (fmt_uint (ov_active_batches o));
     member (bs "max_batch_slots") (fmt_uint (ov_max_batch_slots o));
     member (bs "active_sessions") (fmt_uint (ov_active_sessions o)); member (bs "sessions") sessions_json;
     member (bs "events") events_json] ++ bs "}".

(** The calls the tunnel client makes. *)
Inductive OverlayCall :=
  | PushEvent (msg : bytes) | SetLimits (max_elev max_batches : Z) | SetElevated (n : Z) | BatchAcquire | BatchRelease
  | SessionStart (sid : bytes) | SessionEnd (sid : bytes) | SessionUpdate (sid : bytes) (depth inflight : Z) (elevated : bool).

Definition overlay_call (o : Overlay) (c : OverlayCall) : Overlay :=
  match c with
  | PushEvent msg => push_event msg o
  | SetLimits a b => set_limits a b o
  | SetElevated n => overlay_set_elevated n o
  | BatchAcquire => batch_acquire o
  | BatchRelease => batch_release o
  | SessionStart sid => session_start sid o
  | SessionEnd sid => session_end sid o
  | SessionUpdate sid d i e => session_update sid d i e o
  end.

(** Whatever the client does, the overlay shows an idle client. *)
Lemma overlay_always_idle cs : foldl overlay_call initial_overlay cs = initial_overlay.
Proof. induction cs as [|[] cs IH]; done. Qed.

(** An event's quotes are all escaped: its text has no quote without a
    backslash before it, so that it stays one JSON string. *)
Fixpoint closes_early (escaped : bool) (s : bytes) : bool :=
  match s with
  | [] => false
  | c :: s' =>
      if escaped then closes_early false s'
      else bool_decide (c = QUOTE) || closes_early (bool_decide (c = BACKSLASH)) s'
  end.

Lemma escape_event_cons c s :
  escape_event (c :: s) =
  (if bool_decide (c = BACKSLASH) then [BACKSLASH; BACKSLASH]
   else if bool_decide (c = QUOTE) then [BACKSLASH; QUOTE] else [c]) ++ escape_event s.
Proof.
  unfold escape_event, replace_byte. cbn [map concat]. rewrite map_app, concat_app. f_equal.
  case_bool_decide as H1; [by subst|]. simpl. case_bool_decide as H2; [by subst|done].
Qed.

Lemma event_stays_one_string e : closes_early false (escape_event e) = false.
Proof.
  induction e as [|c s IH]; [done|]. rewrite escape_event_cons.
  case_bool_decide as H1; [done|]. case_bool_decide as H2; [done|].
  simpl. by rewrite !bool_decide_false by done.
Qed.

(** ** The relay's failures *)

Inductive Level := LError | LDebug.

Definition CERT_SIGNS : list bytes :=
  [bs "UnknownIssuer"; bs "invalid peer certificate"; bs "CertificateExpired"; bs "CertNotValidYet"; bs "NotValidForName"].

Definition is_cert_issue (msg : bytes) : bool := existsb (contains msg) CERT_SIGNS.

(** The level, whether the line carries the diagnosis, the message of the
    error, and [cert_hint_shown] afterwards. *)
Definition log_relay_failure (e : FronterError) (cert_hint_shown : bool) : Level * bool * bytes * bool :=
  let msg := display e in
  if is_cert_issue msg then
    if cert_hint_shown then (LDebug, false, msg, true) else (LError, true, msg, true)
  else (LError, false, msg, cert_hint_shown).

Fixpoint log_failures (es : list FronterError) (shown_ : bool) : list (Level * bool * bytes) :=
  match es with
  | [] => []
  | e :: es' => let '(line, shown') := log_relay_failure e shown_ in line :: log_failures es' shown'
  end.

Lemma hint_not_repeated es l : l ∈ log_failures es true → l.1.2 = false.
Proof.
  induction es as [|e es IH]; simpl; [by intros ?%elem_of_nil|]. unfold log_relay_failure.
  case_match eqn:E; repeat case_match; simplify_eq; rewrite elem_of_cons; intros [->|?]; auto.
Qed.

(** The diagnosis is printed once: with the first certificate failure. *)
Lemma hint_with_first_cert_failure es1 e es2 :
  Forall (λ e, is_cert_issue (display e) = false) es1 → is_cert_issue (display e) = true →
  log_failures (es1 ++ e :: es2) false =
    map (λ e, (LError, false, display e)) es1 ++ (LError, true, display e) :: log_failures es2 true.
Proof.
  intros H1 H2. induction H1 as [|e1 es1 He H1 IH]; simpl; unfold log_relay_failure at 1; [by rewrite H2|].
  rewrite He. by rewrite IH.
Qed.

(** Certificate failures after the first go to the debug log only. *)
Example cert_failures_fall_silent :
  log_failures [EIo (bs "invalid peer certificate: UnknownIssuer"); ETimeout;
                EIo (bs "invalid peer certificate: UnknownIssuer")] false =
  [(LError, true, bs "io: invalid peer certificate: UnknownIssuer"); (LError, false, bs "timeout");
   (LDebug, false, bs "io: invalid peer certificate: UnknownIssuer")].
Proof. by vm_compute. Qed.

(** ** The pre-read summary *)

(** [CLIENT_FIRST_DATA_WAIT] in microseconds. *)
Definition PREREAD_CEILING_US : Z := 50000.

(** [maybe_log_preread_summary], after the record that has counted the event:
    a line for every hundredth. *)
Definition preread_summary (p : Prereads) : option bytes :=
  if preread_total_events p mod 100 =? 0 then
    let win := preread_win p in
    let mean_us := if 0 <? win then preread_win_total_us p / win else 0 in
    Some (bs "connect_data preread: " ++ fmt_uint win ++ bs " win / " ++ fmt_uint (preread_loss p) ++ bs " loss / " ++
          fmt_uint (preread_skip_port p) ++ bs " skip(port) / " ++ fmt_uint (preread_skip_unsupported p) ++
          bs " skip(unsup), mean win time " ++ fmt_uint mean_us ++ bs "µs (ceiling " ++ fmt_uint PREREAD_CEILING_US ++ bs "µs)")
  else None.

Inductive PrereadEvent := PreWin (us : Z) | PreLoss | PreSkipPort | PreSkipUnsupported.

Definition record_preread (e : PrereadEvent) : Prereads → Prereads :=
  match e with
  | PreWin us => record_preread_win us
  | PreLoss => record_preread_loss
  | PreSkipPort => record_preread_skip_port
  | PreSkipUnsupported => record_preread_skip_unsupported
  end.

(** The counters behind each line of a sequence of events. *)
Fixpoint preread_log (es : list PrereadEvent) (p : Prereads) : list Prereads :=
  match es with
  | [] => []
  | e :: es' =>
      let p := record_preread e p in
      (match preread_summary p with Some _ => [p] | None => [] end) ++ preread_log es' p
  end.

Definition preread_count (p : Prereads) : Z :=
  preread_win p + preread_loss p + preread_skip_port p + preread_skip_unsupported p.

(** The kinds add up to the events. *)
Record prereads_ok (p : Prereads) : Prop := {
  po_sum : preread_count p = preread_total_events p;
  po_nonneg : 0 ≤ preread_win p ∧ 0 ≤ preread_loss p ∧ 0 ≤ preread_skip_port p ∧ 0 ≤ preread_skip_unsupported p }.

Lemma record_preread_ok e p :
  prereads_ok p → preread_total_events p + 1 < u64_mod →
  prereads_ok (record_preread e p) ∧ preread_total_events (record_preread e p) = preread_total_events p + 1.
Proof.
  intros [Hs Hn] Hb. unfold preread_count in Hs.
  unfold record_preread, record_preread_win, record_preread_loss, record_preread_skip_port, record_preread_skip_unsupported.
  destruct e; unfold wadd64;
    rewrite ?(Z.mod_small (preread_total_events p + 1)) by lia;
    rewrite ?(Z.mod_small (preread_win p + 1)) by lia; rewrite ?(Z.mod_small (preread_loss p + 1)) by lia;
    rewrite ?(Z.mod_small (preread_skip_port p + 1)) by lia;
    rewrite ?(Z.mod_small (preread_skip_unsupported p + 1)) by lia;
    (split; [split|done]); unfold preread_count; cbn [preread_win preread_loss preread_skip_port preread_skip_unsupported preread_total_events];
    lia.
Qed.

Lemma preread_summary_is_some p : is_Some (preread_summary p) ↔ preread_total_events p mod 100 = 0.
Proof.
  unfold preread_summary. destruct (Z.eqb_spec (preread_total_events p mod 100) 0) as [E|E]; split; [done|by eauto|by intros []|done].
Qed.

(** One line per hundred events, never twice for the same hundred and none
    left out; every line's counts add up to its multiple of a hundred. *)
Lemma preread_log_every_hundred es p :
  prereads_ok p → preread_total_events p + Z.of_nat (length es) < u64_mod →
  Z.of_nat (length (preread_log es p)) =
    (preread_total_events p + Z.of_nat (length es)) / 100 - preread_total_events p / 100 ∧
  Forall (λ q, preread_count q mod 100 = 0) (preread_log es p).
Proof.
  revert p. induction es as [|e es IH]; intros p Hp Hb; cbn [preread_log length].
  { rewrite Z.add_0_r. split; [lia|done]. }
  cbn [length] in Hb.
  pose proof (po_nonneg _ Hp). pose proof (po_sum _ Hp) as Hsum. unfold preread_count in Hsum.
  destruct (record_preread_ok e p Hp) as [Hp' Ht]; [lia|].
  destruct (IH _ Hp') as [Hl Hf]; [rewrite Ht; lia|]. rewrite Ht in Hl.
  replace (preread_total_events p + Z.of_nat (S (length es))) with (preread_total_events p + 1 + Z.of_nat (length es)) by lia.
  pose proof (preread_summary_is_some (record_preread e p)) as Hs. rewrite Ht in Hs.
  set (n := preread_total_events p) in *.
  destruct (preread_summary _); cbn [app length].
  - assert ((n + 1) mod 100 = 0) as Hm by (apply Hs; eauto). split.
    + rewrite Nat2Z.inj_succ, Hl. Z.to_euclidean_division_equations; lia.
    + constructor; [|done]. rewrite (po_sum _ Hp'), Ht. done.
  - assert ((n + 1) mod 100 ≠ 0) as Hm by (intros Hx; by apply Hs in Hx as []). split; [|done].
    rewrite Hl. Z.to_euclidean_division_equations; lia.
Qed.

(** ** The descriptor limit *)

(** [read_nr_open]: on Linux, the number in the kernel's file. *)
Definition read_nr_open (os : bytes) (s : Sys) : option Z :=
  if bool_decide (os = bs "linux") then
    match read_string s (bs "/proc/sys/fs/nr_open") with Some t => parse_u64 (trim t) | None => None end
  else None.

Inductive LimitReport :=
  | LimitTooLow (soft hard : Z)
  | LimitNow (soft hard original_soft original_hard : Z).

(** The report at the end of [raise_nofile_limit_best_effort]. *)
Definition limit_report (original now : Rlimit) : LimitReport :=
  if rlim_cur now <? 4096 then LimitTooLow (rlim_cur now) (rlim_max now)
  else LimitNow (rlim_cur now) (rlim_max now) (rlim_cur original) (rlim_max original).

(** A process that may raise its limits is never warned about them, unless
    the kernel's ceiling itself is too low. *)
Lemma privileged_not_warned nr_open now :
  4096 ≤ default (rlim_max now) nr_open →
  limit_report now (raise_nofile_limit (λ _, true) nr_open now) =
    let after := raise_nofile_limit (λ _, true) nr_open now in
    LimitNow (rlim_cur after) (rlim_max after) (rlim_cur now) (rlim_max now).
Proof.
  intros Hc. unfold limit_report. cbv zeta.
  assert (4096 ≤ rlim_cur (raise_nofile_limit (λ _, true) nr_open now)) as Ha;
    [|by rewrite (proj2 (Z.ltb_ge _ _))].
  unfold raise_nofile_limit, setrlimit, DESIRED.
  repeat (case_match; simplify_eq; cbn [rlim_cur rlim_max fst snd] in * ); lia.
Qed.
