(* ===== verification/H1Open.v ===== *)
(** Opening one HTTP/1.1 connection for the pool ([DomainFronter::open] in
    src/src/domain_fronter.rs): TCP, the next SNI of the rotation, TLS, all
    within eight seconds.  What the network does is an input, times are
    nanoseconds. *)

From S2P Require Import Prelude RustBytes RelayWire RelayUrl Pool.

Definition H1_OPEN_TIMEOUT_SECS : Z := 8.

(** How long the TCP connect takes and how it ends, the names that are no
    server names, and the handshake for a name. *)
Record OpenNet := mk_open_net {
  on_tcp : Z * option bytes; on_name_error : bytes → option bytes; on_tls : bytes → Z * result nat bytes }.

Definition open_timed_out : FronterError :=
  ERelay (bs "h1 open timed out after " ++ fmt_uint H1_OPEN_TIMEOUT_SECS ++ bs "s").

Record Opened := mk_opened { op_result : result nat FronterError; op_sni : option bytes; op_idx : Z; op_took : Z }.

Definition h1_open (net : OpenNet) (sni_hosts : list bytes) (sni_idx : Z) : Opened :=
  let limit := H1_OPEN_TIMEOUT_SECS * NS in
  let '(d1, tcp_error) := on_tcp net in
  if limit <? d1 then mk_opened (Err open_timed_out) None sni_idx limit
  else
    match tcp_error with
    | Some e => mk_opened (Err (EIo e)) None sni_idx d1
    | None =>
        let '(sni, idx) := next_sni sni_hosts sni_idx in
        match on_name_error net sni with
        | Some e => mk_opened (Err (EDns e)) (Some sni) idx d1
        | None =>
            let '(d2, tls) := on_tls net sni in
            if limit <? d1 + d2 then mk_opened (Err open_timed_out) (Some sni) idx limit
            else mk_opened (match tls with Ok s => Ok s | Err e => Err (EIo e) end) (Some sni) idx (d1 + d2)
        end
    end.

(** Whatever the network does, a caller waits eight seconds at most. *)
Lemma h1_open_bounded net hosts idx : op_took (h1_open net hosts idx) ≤ 8 * NS.
Proof.
  unfold h1_open, H1_OPEN_TIMEOUT_SECS. destruct (on_tcp net) as [d1 e1].
  destruct (Z.ltb_spec (8 * NS) d1); [done|]. destruct e1; [done|]. destruct (next_sni hosts idx) as [sni idx'].
  destruct (on_name_error net sni); [done|]. destruct (on_tls net sni) as [d2 r].
  by destruct (Z.ltb_spec (8 * NS) (d1 + d2)).
Qed.

(** Opens in turn, each with its network; the names they used. *)
Fixpoint opens (nets : list OpenNet) (hosts : list bytes) (idx : Z) : list Opened :=
  match nets with
  | [] => []
  | net :: nets' => let o := h1_open net hosts idx in o :: opens nets' hosts (op_idx o)
  end.

Definition names_used (os : list Opened) : list bytes := omap op_sni os.

Lemma h1_open_name net hosts idx :
  (op_sni (h1_open net hosts idx) = None ∧ op_idx (h1_open net hosts idx) = idx) ∨
  (op_sni (h1_open net hosts idx) = Some (next_sni hosts idx).1 ∧ op_idx (h1_open net hosts idx) = (next_sni hosts idx).2).
Proof.
  unfold h1_open. destruct (on_tcp net) as [d1 e1]. case_match; [by left|]. destruct e1; [by left|]. right.
  destruct (next_sni hosts idx) as [sni idx']. destruct (on_name_error net sni); [done|].
  destruct (on_tls net sni) as [d2 r]. by case_match.
Qed.

(** The names go round the pool without a gap: a connect that fails before
    TLS uses none up. *)
Lemma names_round_robin nets hosts idx k name :
  0 ≤ idx → idx + Z.of_nat (length nets) < u64_mod →
  names_used (opens nets hosts idx) !! k = Some name →
  name = nth (Z.to_nat ((idx + Z.of_nat k) mod len hosts)) hosts [].
Proof.
  revert idx k. induction nets as [|net nets IH]; intros idx k H0 Hb; cbn [opens names_used omap list_omap length] in *; [done|].
  destruct (h1_open_name net hosts idx) as [[-> ->]|[-> ->]].
  - intros Hk. apply (IH idx k); [done|lia|done].
  - unfold next_sni. cbn [fst snd]. destruct k as [|k]; cbn [lookup list_lookup].
    + intros [= <-]. by rewrite Z.add_0_r.
    + intros Hk. unfold wadd64 in Hk. rewrite Z.mod_small in Hk by lia.
      rewrite (IH (idx + 1) k ltac:(lia) ltac:(lia) Hk). do 3 f_equal. lia.
Qed.

(** A pooled connection spares the open: the pool opens one only when it has
    none that is fresh. *)
Lemma acquire_error_is_open_error now net hosts idx pool e pool' :
  acquire now (op_result (h1_open net hosts idx), now + op_took (h1_open net hosts idx)) pool = (Err e, pool') →
  (acquire_pooled now pool).1 = None ∧ op_result (h1_open net hosts idx) = Err e.
Proof.
  unfold acquire. destruct (acquire_pooled now pool) as [[en|] p]; [done|].
  destruct (op_result (h1_open net hosts idx)); [done|]. by intros [= <- <-].
Qed.

Example name_not_used_up :
  let down := mk_open_net (5, Some (bs "refused")) (λ _, None) (λ _, (0, Ok 1%nat)) in
  let up := mk_open_net (5, None) (λ _, None) (λ _, (7, Ok 1%nat)) in
  names_used (opens [up; down; up; up] [bs "a"; bs "b"] 0) = [bs "a"; bs "b"; bs "a"].
Proof. by vm_compute. Qed.
