(* ===== verification/ConformanceRelay.v ===== *)
(** The relay's own unit tests (src/src/domain_fronter.rs, src/src/cache.rs,
    [mod tests]), evaluated on the model: each example is the Rust test of the
    same name, its assertions in order.  They tie the definitions to the
    behaviour the authors rely on; tests that need a live socket, the clock or
    the JSON library are covered by the theorems instead. *)
From Stdlib Require Import Strings.Byte.
From S2P Require Import Prelude RustBytes Calendar Http Ranges RelayWire RelayJson RelayUrl Scripts Cache.

(** ** Calendar *)

Example unix_to_ymd_utc_handles_known_epochs :
  map unix_to_ymd_utc [0; 86399; 86400; 951782400; 951868800; 1583020800; 1735689599; 1735689600] =
  [(1970, 1, 1); (1970, 1, 1); (1970, 1, 2); (2000, 2, 29); (2000, 3, 1); (2020, 3, 1); (2024, 12, 31); (2025, 1, 1)].
Proof. vm_compute. reflexivity. Qed.

Example nth_sunday_of_month_anchors :
  map (λ '(y, m, n), nth_sunday_of_month y m n) [(2026, 3, 2); (2026, 11, 1); (2024, 3, 2); (2024, 11, 1); (2027, 3, 2)] =
  [8; 1; 10; 3; 14].
Proof. vm_compute. reflexivity. Qed.

Example pacific_dst_window_anchors :
  map (λ '(m, d), pacific_is_dst 2026 m d) [(1, 15); (12, 25); (2, 28); (11, 5); (3, 7); (11, 1)] = replicate 6 false ∧
  map (λ '(m, d), pacific_is_dst 2026 m d) [(6, 1); (9, 30); (3, 8); (10, 31)] = replicate 4 true.
Proof. vm_compute. auto. Qed.

(** ** Headers *)

Definition identity_headers : Headers :=
  [(bs "X-Forwarded-For", bs "203.0.113.42"); (bs "X-Real-IP", bs "203.0.113.42"); (bs "Forwarded", bs "for=203.0.113.42");
   (bs "Via", bs "1.1 squid"); (bs "CF-Connecting-IP", bs "203.0.113.42"); (bs "True-Client-IP", bs "203.0.113.42");
   (bs "X-Client-IP", bs "203.0.113.42"); (bs "Fastly-Client-IP", bs "203.0.113.42");
   (bs "X-Cluster-Client-IP", bs "203.0.113.42"); (bs "Client-IP", bs "203.0.113.42");
   (bs "X-Originating-IP", bs "203.0.113.42"); (bs "X-Forwarded-Host", bs "internal.example");
   (bs "X-Forwarded-Proto", bs "https"); (bs "X-Forwarded-Port", bs "8080");
   (bs "X-Forwarded-Server", bs "lb-01.example"); (bs "X-Forwarded-Ssl", bs "on")].

Example filter_forwarded_headers_strips_identity_revealing_headers :
  filter_forwarded_headers (identity_headers ++ [(bs "User-Agent", bs "Mozilla/5.0"); (bs "Accept", bs "text/html")]) =
  [(bs "User-Agent", bs "Mozilla/5.0"); (bs "Accept", bs "text/html")].
Proof. vm_compute. reflexivity. Qed.

Example filter_drops_connection_specific :
  filter_forwarded_headers
    [(bs "Host", bs "example.com"); (bs "Connection", bs "keep-alive"); (bs "Content-Length", bs "5");
     (bs "Cookie", bs "a=b"); (bs "Proxy-Connection", bs "close")] = [(bs "Cookie", bs "a=b")].
Proof. vm_compute. reflexivity. Qed.

Example strip_brotli_keeps_gzip :
  map strip_brotli_from_accept_encoding [bs "gzip, deflate, br"; bs "br"; bs "gzip;q=1.0, br;q=0.5"] =
  [bs "gzip, deflate"; []; bs "gzip;q=1.0"].
Proof. vm_compute. reflexivity. Qed.

(** ** URLs *)

Example normalize_x_graphql_trims_after_variables :
  normalize_x_graphql_url (bs "https://x.com/i/api/graphql/abcd1234/TweetDetail?variables=%7B%22focalTweetId%22%3A%221234%22%7D&features=%7B%7D&fieldToggles=%7B%7D") =
  bs "https://x.com/i/api/graphql/abcd1234/TweetDetail?variables=%7B%22focalTweetId%22%3A%221234%22%7D".
Proof. vm_compute. reflexivity. Qed.

Definition graphql_untouched : list bytes :=
  [bs "https://twitter.com/i/api/graphql/x/y?variables=z&features=q"; bs "https://x.co/i/api/graphql/x/y?variables=z&features=q";
   bs "https://api.x.com/i/api/graphql/x/y?variables=z&features=q"; bs "https://example.com/?variables=1&other=2";
   bs "https://x.com/home"; bs "https://x.com/i/api/2/notifications/view/generic.json";
   bs "https://x.com/i/api/graphql/x/y"; bs "https://x.com/i/api/graphql/x/y?features=1&variables=2"].

Example normalize_x_graphql_leaves_others_alone : map normalize_x_graphql_url graphql_untouched = graphql_untouched.
Proof. vm_compute. reflexivity. Qed.

Example extract_host_strips_scheme_port_path :
  map extract_host
    [bs "https://example.com/foo"; bs "http://foo.bar:8080/x"; bs "https://user:pw@host.test/x";
     bs "https://[2001:db8::1]:443/"; bs "API.X.com/foo"; []] =
  [Some (bs "example.com"); Some (bs "foo.bar"); Some (bs "host.test"); Some (bs "2001:db8::1"); Some (bs "api.x.com"); None].
Proof. vm_compute. reflexivity. Qed.

Example build_sni_pool_extends_for_google :
  let p := build_sni_pool_for (bs "www.google.com") [] in
  (2 ≤ length p)%nat ∧ p !! 0%nat = Some (bs "www.google.com") ∧ bs "mail.google.com" ∈ p.
Proof. split_and!; [by vm_compute; lia|by vm_compute|]. apply (bool_decide_eq_true_1 _). by vm_compute. Qed.

Example build_sni_pool_preserves_custom_primary :
  build_sni_pool_for (bs "mycustom.edge.example.com") [] = [bs "mycustom.edge.example.com"].
Proof. vm_compute. reflexivity. Qed.

Example redirects :
  parse_redirect (bs "https://script.googleusercontent.com/abc?x=1") =
    (bs "/abc?x=1", Some (bs "script.googleusercontent.com")) ∧
  parse_redirect (bs "/somewhere") = (bs "/somewhere", None).
Proof. vm_compute. auto. Qed.

(** ** Ranges *)

Definition content_range (v : bytes) : Headers := [(bs "Content-Range", v)].

Example parse_content_range_total_cases :
  map (λ v, cr_total <$> parse_content_range (content_range v)) [bs "Bytes 0-4/20"; bs "bytes 10-4/20"; bs "bytes 0-20/20"] =
  [Some 20; None; None].
Proof. vm_compute. reflexivity. Qed.

(** The Rust test's body is an entity that was decoded after the range was
    cut, longer than the range says; its length is scaled down here. *)
Definition decoded_entity : bytes :=
  bs "HTTP/1.1 206 Partial Content" ++ crlf ++ bs "Content-Range: bytes 0-112/113" ++ crlf ++
  bs "Content-Type: text/javascript" ++ crlf ++ bs "Vary: Accept-Encoding" ++ crlf ++ bs "Content-Length: 458" ++ crlf ++
  crlf ++ replicate 458 x78.

Example validate_probe_range_accepts_decoded_full_entity_body_mismatch :
  match split_response decoded_entity with
  | Some (status, headers, body) =>
      validate_probe_range status headers body (RANGE_PARALLEL_CHUNK_BYTES - 1) = Some (mk_range 0 112 113)
  | None => False
  end ∧
  match split_response (rewrite_206_to_200 decoded_entity) with
  | Some (status, headers, body) =>
      status = 200 ∧ len body = 458 ∧ find_header (bs "content-range") headers = None ∧
      find_header (bs "content-length") headers = Some (bs "458")
  | None => False
  end.
Proof. vm_compute. auto. Qed.

Example validate_probe_range_rejects :
  validate_probe_range 206 [] (bs "hello") 4 = None ∧
  validate_probe_range 206 (content_range (bs "bytes 1-4/20")) (bs "hell") 4 = None ∧
  validate_probe_range 206 (content_range (bs "bytes 0-5/20")) (bs "hello!") 4 = None ∧
  validate_probe_range 206 (content_range (bs "bytes 0-4/20")) (bs "hey") 4 = None.
Proof. vm_compute. auto. Qed.

Definition partial (range body : bytes) : bytes :=
  bs "HTTP/1.1 206 Partial Content" ++ crlf ++ bs "Content-Range: " ++ range ++ crlf ++
  bs "Content-Length: " ++ fmt_uint (len body) ++ crlf ++ crlf ++ body.

Example extract_exact_range_body_rejects :
  extract_exact_range_body (partial (bs "bytes 5-9/20") (bs "hey")) 5 9 20 = Err (bs "Content-Range/body length mismatch") ∧
  extract_exact_range_body (partial (bs "bytes 5-9/20") (bs "hello")) 10 14 20 = Err (bs "unexpected Content-Range").
Proof. vm_compute. auto. Qed.

Definition probe_headers : Headers :=
  [(bs "Content-Type", bs "application/octet-stream"); (bs "Content-Range", bs "bytes 0-262143/109605203");
   (bs "Content-Length", bs "262144"); (bs "Content-Encoding", bs "gzip"); (bs "Transfer-Encoding", bs "chunked");
   (bs "Connection", bs "close"); (bs "Cache-Control", bs "max-age=300")].

Example assemble_200_head_uses_declared_length_and_strips_range_meta :
  assemble_200_head probe_headers 109605203 =
  bs "HTTP/1.1 200 OK" ++ crlf ++ bs "Content-Type: application/octet-stream" ++ crlf ++
  bs "Cache-Control: max-age=300" ++ crlf ++ bs "Content-Length: 109605203" ++ crlf ++ crlf.
Proof. vm_compute. reflexivity. Qed.

Example write_response_with_head_transform_cases :
  let tag head := match find_sub header_sep head with
                  | Some i => take i head ++ crlf ++ bs "X-Tag: yes" ++ crlf ++ crlf | None => head end in
  let head := bs "HTTP/1.1 200 OK" ++ crlf ++ bs "Content-Type: app/octet-stream" ++ crlf ++ bs "Content-Length: 4" in
  write_response_with_head_transform (head ++ crlf ++ crlf ++ [x00; x01; x02; xff]) tag =
    head ++ crlf ++ bs "X-Tag: yes" ++ crlf ++ crlf ++ [x00; x01; x02; xff] ∧
  write_response_with_head_transform (bs "not an http response") (λ _, bs "XX") = bs "not an http response".
Proof. vm_compute. auto. Qed.

Example plan_remaining_ranges_basic_chunking :
  plan_remaining_ranges 3 20 5 = [(4, 8); (9, 13); (14, 18); (19, 19)] ∧ plan_remaining_ranges 19 20 5 = [].
Proof. vm_compute. auto. Qed.

(** ** Errors and scripts *)

Example blacklist_heuristics :
  should_blacklist 429 [] = true ∧ should_blacklist 403 (bs "quota") = true ∧
  should_blacklist 500 (bs "Service invoked too many times per day: urlfetch") = true ∧
  should_blacklist 200 [] = false ∧ should_blacklist 502 (bs "bad gateway") = false ∧
  looks_like_quota_error (bs "Exception: Service invoked too many times per day") = true ∧
  looks_like_quota_error (bs "Exception: Bandbreitenkontingent überschritten: https://example.com. Verringern Sie die Datenübertragungsrate.") = true ∧
  looks_like_quota_error (bs "bad url") = false.
Proof. vm_compute. auto 10. Qed.

Example mask_script_id_hides_middle :
  mask_script_id (bs "short") = bs "***" ∧ mask_script_id (bs "AKfycbx1234567890abcdef") = bs "AKfy...cdef".
Proof. vm_compute. auto. Qed.

Example parallel_relay_only_safe_for_idempotent_methods :
  forallb is_method_safe_for_fanout [bs "GET"; bs "HEAD"; bs "OPTIONS"; bs "get"; bs "head"; bs "options"] = true ∧
  existsb is_method_safe_for_fanout
    [bs "POST"; bs "PUT"; bs "PATCH"; bs "DELETE"; bs "post"; bs "put"; bs "patch"; bs "delete"; bs "CONNECT";
     bs "TRACE"; bs "PROPFIND"; []] = false.
Proof. vm_compute. auto. Qed.

Example is_h2_fronting_refusal_status_only_matches_421 :
  is_h2_fronting_refusal_status 421 = true ∧
  existsb is_h2_fronting_refusal_status [200; 301; 400; 403; 404; 429; 500; 502; 503] = false.
Proof. vm_compute. auto. Qed.

Example nonretryable_wrapper_is_not_retryable_other_variants_are :
  is_retryable (ERelay (bs "transient")) = true ∧ is_retryable ETimeout = true ∧
  is_retryable (ENonRetryable (ERelay (bs "post-send"))) = false ∧
  contains (display (ENonRetryable (ERelay (bs "h2 response: stream RST")))) (bs "h2 response: stream RST") = true ∧
  into_inner (ENonRetryable (ERelay (bs "x"))) = ERelay (bs "x").
Proof. vm_compute. auto 10. Qed.

Example decode_js_string_escapes_xnn_and_unicode :
  decode_js_string_escapes (bs "\x7b\x22s\x22:200,\x22b\x22:\x22\x22\x7d") =
    Some (bs "{" ++ [x22] ++ bs "s" ++ [x22] ++ bs ":200," ++ [x22] ++ bs "b" ++ [x22] ++ bs ":" ++ [x22; x22] ++ bs "}") ∧
  decode_js_string_escapes (bs "\u0041BC") = Some (bs "ABC") ∧
  decode_js_string_escapes (bs "a\nb\t\\\" ++ [x22] ++ bs "c") = Some (bs "a" ++ [x0a] ++ bs "b" ++ [x09; x5c; x22] ++ bs "c") ∧
  decode_js_string_escapes (bs "\x7") = None ∧ decode_js_string_escapes (bs "\u00") = None.
Proof. vm_compute. auto 10. Qed.

(** ** Reading responses *)

Definition response (head : list bytes) (body : bytes) : bytes := join crlf (bs "HTTP/1.1 200 OK" :: head) ++ crlf ++ crlf ++ body.

(** Nothing in these tests is compressed. *)
Definition read_plain : Stream → run (Z * Headers * bytes * Stream) := read_http_response (λ _, None).

(** Status and body of what is read, or the message of a bad response. *)
Definition outcome (r : run (Z * Headers * bytes * Stream)) : option (result (Z * bytes) bytes) :=
  match r with
  | Ret (status, _, body, _) => Some (Ok (status, body))
  | Throw (EBadResponse msg) => Some (Err msg)
  | _ => None
  end.

Example read_http_response_tolerates_unexpected_eof :
  let closed := TlsEof (bs "peer closed connection without sending TLS close_notify") in
  outcome (read_plain
    [Data (response [bs "Content-Length: 11"; bs "Connection: close"] (bs "hello world")); closed]) =
    Some (Ok (200, bs "hello world")) ∧
  outcome (read_plain [Data (response [bs "Connection: close"] (bs "hello world")); closed]) =
    Some (Ok (200, bs "hello world")).
Proof. vm_compute. auto. Qed.

Definition chunked : list bytes := [bs "Transfer-Encoding: chunked"].

Example chunked_reader_consumes_final_crlf_and_trailers :
  match read_plain
    [Data (response chunked (join crlf [bs "5"; bs "Hello"; bs "0"; bs "X-Test: 1"; []; []]));
     Data (response [bs "Content-Length: 2"] (bs "OK"))] with
  | Ret (status, _, body, rest) => status = 200 ∧ body = bs "Hello" ∧ outcome (read_plain rest) = Some (Ok (200, bs "OK"))
  | _ => False
  end.
Proof. vm_compute. auto. Qed.

Example readers_reject_truncation :
  (∃ msg, outcome (read_plain [Data (response [bs "Content-Length: 5"] (bs "Hel"))]) = Some (Err msg) ∧
          contains msg (bs "full response body") = true) ∧
  (∃ msg, outcome (read_plain [Data (response chunked (bs "5" ++ crlf ++ bs "Hel"))]) = Some (Err msg) ∧
          contains msg (bs "mid-chunked") = true) ∧
  (∃ msg, outcome (read_plain [Data (response chunked (bs "5" ++ crlf ++ bs "HelloXX"))]) = Some (Err msg) ∧
          contains msg (bs "trailing CRLF") = true).
Proof. vm_compute. eauto 10. Qed.

(** ** The cache *)

Definition mk_resp (lines : list bytes) : bytes := response lines (bs "body").

Example get_miss_then_put_then_hit :
  let '(first, c) := get 0 (bs "k") (new 1024) in
  let '(second, c) := get 1 (bs "k") (put 0 (bs "k") (bs "hello") 60 c) in
  first = None ∧ second = Some (bs "hello") ∧ hits c = 1 ∧ misses c = 1.
Proof. vm_compute. auto. Qed.

Example expired_entry_is_removed_on_get :
  let '(got, c) := get 20 (bs "k") (put 0 (bs "k") (bs "hi") 1 (new 1024)) in got = None ∧ Cache.size c = 0.
Proof. vm_compute. auto. Qed.

Example too_large_entry_rejected : (get 0 (bs "k") (put 0 (bs "k") (replicate 60 x00) 60 (new 100))).1 = None.
Proof. vm_compute. reflexivity. Qed.

Example fifo_eviction_when_full :
  let c := foldl (λ c k, put 0 k (replicate 200 x00) 60 c) (new 1000)
             [bs "a"; bs "b"; bs "c"; bs "d"; bs "e"; bs "f"] in
  (get 0 (bs "a") c).1 = None ∧ (get 0 (bs "f") c).1 = Some (replicate 200 x00).
Proof. vm_compute. auto. Qed.

Example ttl_rules :
  parse_ttl (mk_resp [bs "Cache-Control: public, max-age=300"; bs "Content-Type: text/html"]) (bs "http://example.com/page") = Some 300 ∧
  parse_ttl (mk_resp [bs "Cache-Control: no-store"; bs "Content-Type: text/css"]) (bs "http://x.com/a.css") = None ∧
  parse_ttl (mk_resp [bs "Content-Type: text/css"]) (bs "http://x.com/style.css") = Some 3600 ∧
  parse_ttl (mk_resp [bs "Set-Cookie: a=b"; bs "Cache-Control: max-age=600"]) (bs "http://x.com/page") = None ∧
  parse_ttl (bs "HTTP/1.1 404 Not Found" ++ crlf ++ bs "Cache-Control: max-age=600" ++ crlf ++ crlf ++ bs "body") (bs "http://x.com/page") = None.
Proof. vm_compute. auto 10. Qed.

Example cacheable_methods :
  map is_cacheable_method [bs "GET"; bs "get"; bs "HEAD"; bs "POST"; bs "DELETE"] = [true; true; true; false; false].
Proof. vm_compute. reflexivity. Qed.
