(* ===== verification/ConformanceProxy.v ===== *)
(** The front end's unit tests (src/src/proxy_server.rs, [mod tests]),
    evaluated on the model; each example is the Rust test of the same name. *)
From Stdlib Require Import Strings.Byte.
From S2P Require Import Prelude RustBytes IpAddr Http Routing Socks ProxyHttp ProxyHeads.

(** ** Targets *)

Example resolve_plain_http_target_parses_absolute_form :
  map (λ t, resolve_plain_http_target t [])
    [bs "http://example.com/"; bs "http://example.com:8080/foo?x=1"; bs "http://example.com"; bs "example.com"; bs "http://"] =
  [Some (bs "example.com", 80, bs "/"); Some (bs "example.com", 8080, bs "/foo?x=1"); Some (bs "example.com", 80, bs "/"); None; None].
Proof. vm_compute. reflexivity. Qed.

Example resolve_plain_http_target_falls_back_to_host_header :
  resolve_plain_http_target (bs "/foo") [(bs "Host", bs "example.com:8080")] = Some (bs "example.com", 8080, bs "/foo").
Proof. vm_compute. reflexivity. Qed.

Example split_authority_handles_ports_and_ipv6 :
  map (λ a, split_authority a 80) [bs "example.com"; bs "example.com:8080"; bs "[::1]:8080"; bs "::1"] =
  [(bs "example.com", 80); (bs "example.com", 8080); (bs "[::1]", 8080); (bs "::1", 80)].
Proof. vm_compute. reflexivity. Qed.

(** ** SOCKS5 datagrams *)

Definition reparses (raw : bytes) (host : bytes) (port : Z) (payload : bytes) : bool :=
  match parse_socks5_udp_packet raw with
  | Some (t, p) => bool_decide (t_host t = host) && (t_port t =? port) && bool_decide (p = payload) &&
                   bool_decide (build_socks5_udp_packet t p = raw)
  | None => false
  end.

Example socks5_udp_round_trips :
  reparses ([x00; x00; x00; x03; x0b] ++ bs "example.com" ++ [x0d; x96] ++ bs "hello") (bs "example.com") 3478 (bs "hello") = true ∧
  reparses [x00; x00; x00; x01; x01; x02; x03; x04; x00; x35; x00; x01] (bs "1.2.3.4") 53 [x00; x01] = true ∧
  reparses ([x00; x00; x00; x04; x20; x01; x0d; xb8] ++ replicate 11 x00 ++ [x01; x01; xbb] ++ bs "q") (bs "2001:db8::1") 443 (bs "q") = true.
Proof. vm_compute. auto. Qed.

Example socks5_udp_rejects :
  map parse_socks5_udp_packet
    [[x00; x00; x01; x01; x7f; x00; x00; x01; x13; x8a; x78];
     [x00; x00; x00; x03; x01; x80; x00; x50];
     [x00; x00; x00; x01];
     [x00; x00; x00; x01; x7f; x00; x00];
     [x00; x00; x00; x01; x7f; x00; x00; x01];
     [x00; x00; x00; x03; x00; x00; x50];
     [x00; x00; x00; x03; x05; x61; x62];
     [x00; x00; x00; x09; x01; x02; x03; x04];
     [x00; x00; x00; x04] ++ replicate 11 x00] = replicate 9 None.
Proof. vm_compute. reflexivity. Qed.

(** ** Bodies *)

Example read_body_decodes_chunked_request :
  match read_body false [join crlf [bs "llo"; bs "6"; bs " world"; bs "0"; bs "Foo: bar"; []; []]]
          (bs "5" ++ crlf ++ bs "he") [(bs "Transfer-Encoding", bs "chunked")] with
  | (sent, Some (Ok (body, _))) => sent = [] ∧ body = bs "hello world"
  | _ => False
  end.
Proof. vm_compute. auto. Qed.

Example read_body_sends_100_continue_before_waiting_for_body :
  match read_body false [bs "hello"] [] [(bs "Content-Length", bs "5"); (bs "Expect", bs "100-continue")] with
  | (sent, Some (Ok (body, _))) => sent = bs "HTTP/1.1 100 Continue" ++ crlf ++ crlf ∧ body = bs "hello"
  | _ => False
  end.
Proof. vm_compute. auto. Qed.

(** ** Routing *)

Example sni_rewrite_is_only_for_port_443 :
  let hosts : gmap bytes bytes := {[ bs "example.com" := bs "1.2.3.4" ]} in
  map (λ '(h, p), should_use_sni_rewrite hosts h p false)
    [(bs "google.com", 443); (bs "google.com", 80); (bs "www.example.com", 443); (bs "www.example.com", 80)] =
  [true; false; true; false].
Proof. vm_compute. reflexivity. Qed.

Example youtube_via_relay_routes_youtube_through_relay_path :
  map (λ h, should_use_sni_rewrite ∅ h 443 false)
    [bs "www.youtube.com"; bs "i.ytimg.com"; bs "youtu.be"; bs "www.google.com"; bs "youtubei.googleapis.com";
     bs "rr1---sn-abc.googlevideo.com"] = [true; true; true; true; true; false] ∧
  map (λ h, should_use_sni_rewrite ∅ h 443 true)
    [bs "www.youtube.com"; bs "youtu.be"; bs "www.youtube-nocookie.com"; bs "youtubei.googleapis.com"; bs "i.ytimg.com";
     bs "yt3.ggpht.com"; bs "www.google.com"; bs "fonts.gstatic.com"; bs "drive.googleapis.com"] =
  [false; false; false; false; true; true; true; true; true].
Proof. vm_compute. auto. Qed.

Example hosts_override_beats_youtube_via_relay :
  should_use_sni_rewrite {[ bs "rr4.googlevideo.com" := bs "1.2.3.4" ]} (bs "rr4.googlevideo.com") 443 true = true.
Proof. vm_compute. reflexivity. Qed.

Example passthrough_hosts_cases :
  map (λ h, matches_passthrough h [bs "example.com"; bs "banking.local"])
    [bs "example.com"; bs "banking.local"; bs "EXAMPLE.COM"; bs "notexample.com"; bs "sub.example.com"] =
    [true; true; true; false; false] ∧
  map (λ h, matches_passthrough h [bs ".internal.example"])
    [bs "internal.example"; bs "a.internal.example"; bs "a.b.c.internal.example"; bs "internal.exampleX"; bs "fakeinternal.example"] =
    [true; true; true; false; false] ∧
  map (λ h, matches_passthrough h []) [bs "anything.com"; []] = [false; false] ∧
  map (λ h, matches_passthrough h [[]; bs "   "; bs "real.com"]) [[]; bs "real.com"] = [false; true] ∧
  map (λ h, matches_passthrough h [bs "example.com."]) [bs "example.com"; bs "example.com."] = [true; true].
Proof. vm_compute. auto 10. Qed.

Example doh_hosts_cases :
  map (λ h, matches_doh_host h [])
    [bs "chrome.cloudflare-dns.com"; bs "dns.google"; bs "dns.quad9.net"; bs "doh.opendns.com"; bs "DNS.GOOGLE"; bs "dns.google.";
     bs "tenant.cloudflare-dns.com"] = replicate 7 true ∧
  map (λ h, matches_doh_host h []) [bs "xcloudflare-dns.com"; bs "example.com"; bs "googlevideo.com"; []] = replicate 4 false ∧
  map (λ h, matches_doh_host h [bs ".internal-doh.example"; bs "doh.acme.test"])
    [bs "dns.google"; bs "doh.acme.test"; bs "a.b.internal-doh.example"; bs "tenant.doh.acme.test"; bs "example.com"; bs "xdoh.acme.test"] =
  [true; true; true; true; false; false].
Proof. vm_compute. auto. Qed.

(** The groups of the tests after [from_config], which lowercases and trims
    the domains. *)
Definition fg (name sni : bytes) (domains : list bytes) : FrontingGroupResolved := mk_resolved name (bs "127.0.0.1") sni domains.

Example fronting_group_match_cases :
  let name h gs := r_name <$> match_fronting_group h gs in
  map (λ h, name h [fg (bs "vercel") (bs "react.dev") [bs "vercel.com"; bs "nextjs.org"]])
    [bs "vercel.com"; bs "app.vercel.com"; bs "docs.nextjs.org"; bs "example.com"; bs "xvercel.com"] =
    [Some (bs "vercel"); Some (bs "vercel"); Some (bs "vercel"); None; None] ∧
  map (λ h, name h [fg (bs "fastly") (bs "www.python.org") [bs "reddit.com"]])
    [bs "Reddit.COM"; bs "reddit.com."; bs "WWW.Reddit.com."] = replicate 3 (Some (bs "fastly")) ∧
  map (λ h, name h [fg (bs "specific") (bs "a.example") [bs "api.example.com"]; fg (bs "broad") (bs "b.example") [bs "example.com"]])
    [bs "api.example.com"; bs "example.com"] = [Some (bs "specific"); Some (bs "broad")] ∧
  name (bs "vercel.com") [] = None.
Proof. vm_compute. auto. Qed.

(** ** CORS *)

Example inject_cors_response_headers_replaces_acl :
  let head := join crlf [bs "HTTP/1.1 200 OK"; bs "Content-Type: text/html"; bs "Set-Cookie: a=1"; bs "Cache-Control: max-age=300";
                         bs "Access-Control-Allow-Origin: *"; bs "Access-Control-Allow-Methods: GET"] in
  let out := inject_cors_response_headers (head ++ crlf ++ crlf ++ bs "body") (bs "https://www.youtube.com") in
  forallb (contains out)
    [bs "Content-Type: text/html" ++ crlf; bs "Set-Cookie: a=1" ++ crlf; bs "Cache-Control: max-age=300" ++ crlf;
     bs "Access-Control-Allow-Origin: https://www.youtube.com" ++ crlf; bs "Access-Control-Allow-Credentials: true" ++ crlf] = true ∧
  contains out (bs "Access-Control-Allow-Origin: *") = false ∧ starts_with (bs "HTTP/1.1 200 OK" ++ crlf) out = true ∧
  ends_with (crlf ++ crlf ++ bs "body") out = true ∧
  inject_cors_response_headers (bs "not an http response") (bs "https://x.com") = bs "not an http response".
Proof. vm_compute. auto 10. Qed.
