(* ===== verification/ConformanceTunnel.v ===== *)
(** The repository's unit tests of the tunnel client
    (src/src/tunnel_client.rs) and of the udpgw codec
    (src/tunnel-node/src/udpgw.rs), evaluated on the model: one example per
    test, with the test's inputs and expected values. *)

From Stdlib Require Import Strings.Byte.
From S2P Require Import Prelude RustBytes Base64 Udpgw NodeSession NodeHandlers Mux MuxState Session.

(** ** src/src/tunnel_client.rs *)

Definition resp_with (code e : option bytes) : TunnelResponse := mk_resp None None None None e code None.

Example unsupported_detection_via_structured_code :
  is_connect_data_unsupported_response (resp_with (Some (bs "UNSUPPORTED_OP")) None) = true ∧
  is_connect_data_unsupported_response (resp_with (Some (bs "UNSUPPORTED_OP")) (Some (bs "unknown op: connect_data"))) = true.
Proof. by vm_compute. Qed.

Example unsupported_detection_via_legacy_strings :
  is_connect_data_unsupported_response (resp_with None (Some (bs "unknown op: connect_data"))) = true ∧
  is_connect_data_unsupported_response (resp_with None (Some (bs "Unknown Op: CONNECT_DATA"))) = true ∧
  is_connect_data_unsupported_response (resp_with None (Some (bs "unknown tunnel op: connect_data"))) = true.
Proof. by vm_compute. Qed.

Example unsupported_detection_rejects_unrelated_errors :
  Forall (λ e, is_connect_data_unsupported_response (resp_with None e) = false)
    [Some (bs "connect failed: refused"); Some (bs "bad base64"); None; Some (bs "connect_data: bad port")].
Proof. by repeat constructor. Qed.

Example unreachable_error_str_matches_expected_variants :
  Forall (λ e, is_unreachable_error_str e = true)
    [bs "connect failed: Network is unreachable (os error 101)"; bs "No route to host"; bs "os error 113";
     bs "CONNECT FAILED: NETWORK IS UNREACHABLE"].
Proof. by repeat constructor. Qed.

Example unreachable_error_str_rejects_unrelated :
  Forall (λ e, is_unreachable_error_str e = false)
    [bs "connection refused"; bs "connect timed out"; bs "connection reset by peer"; []].
Proof. by repeat constructor. Qed.

Definition os101 : bytes := bs "connect failed: Network is unreachable (os error 101)".

Example negative_cache_records_and_short_circuits :
  let probe := bs "ds6.probe.example" in
  let c := record_unreachable_if_match 0 probe 443 os101 ∅ in
  (is_unreachable 0 probe 443 ∅).1 = false ∧ (is_unreachable 1 probe 443 c).1 = true ∧ (is_unreachable 1 probe 80 c).1 = false.
Proof. by vm_compute. Qed.

Example negative_cache_ignores_non_unreachable_errors :
  record_unreachable_if_match 0 (bs "example.com") 443 (bs "connect failed: connection refused") ∅ = ∅.
Proof. by vm_compute. Qed.

Example negative_cache_normalizes_host_keys :
  let c := record_unreachable_if_match 0 (bs "Example.COM.") 443 (bs "Network is unreachable (os error 101)") ∅ in
  map (λ h, (is_unreachable 1 h 443 c).1) [bs "example.com"; bs "EXAMPLE.com"; bs "example.com."; bs "other.com"] =
  [true; true; true; false].
Proof. by vm_compute. Qed.

Example negative_cache_enforces_hard_cap_under_unique_burst :
  map_len (foldl (λ c i, record_unreachable_if_match 0 (bs "h" ++ fmt_uint (Z.of_nat i) ++ bs ".example") 443 os101 c)
             ∅ (seq 0 306)) = 256.
Proof. by vm_compute. Qed.

Example server_speaks_first_covers_common_protocols :
  map is_server_speaks_first [21; 22; 25; 80; 110; 143; 587] = replicate 7 true ∧
  map is_server_speaks_first [443; 8443; 853; 993; 1234] = replicate 5 false.
Proof. by vm_compute. Qed.

Example coalesce_presets :
  is_Some (initial_coalesce 0 0 None).2 ∧ is_Some (initial_coalesce 0 0 (Some (bs "auto"))).2 ∧
  (initial_coalesce 50 300 None).2 = None.
Proof. vm_compute. split_and!; by eexists. Qed.

Definition mux_for_test_with (n : Z) : Legacy := mk_legacy ∅ false n.

Example all_servers_legacy_requires_every_deployment :
  let l0 := mux_for_test_with 2 in
  let l1 := mark_server_no_longpoll 0 (bs "script-A") l0 in
  let l2 := mark_server_no_longpoll 1 (bs "script-B") l1 in
  let l3 := mark_server_no_longpoll 2 (bs "script-A") l2 in
  map (λ l, (all_servers_legacy 3 l).1) [l0; l1; l2; l3] = [false; false; true; true] ∧
  legacy_deployments l1 !! bs "script-B" = None.
Proof. by vm_compute. Qed.

Example legacy_state_recovers_after_ttl :
  let l := mark_server_no_longpoll 61000 (bs "script-B") (mark_server_no_longpoll 0 (bs "script-A") (mux_for_test_with 2)) in
  legacy_deployments l !! bs "script-A" = None ∧ legacy_deployments l !! bs "script-B" = Some 61000.
Proof. by vm_compute. Qed.

Example all_servers_legacy_self_corrects_when_entries_expire :
  let l := mark_server_no_longpoll 0 (bs "script-B") (mark_server_no_longpoll 0 (bs "script-A") (mux_for_test_with 2)) in
  (all_servers_legacy 1 l).1 = true ∧ (all_servers_legacy 61000 l).1 = false.
Proof. by vm_compute. Qed.

Example should_fire_thresholds :
  should_fire 0 0 0 = false ∧ should_fire 0 0 (MAX_BATCH_PAYLOAD_BYTES + 1000000) = false ∧
  should_fire (MAX_BATCH_OPS - 1) 0 100 = false ∧ should_fire MAX_BATCH_OPS 0 100 = true ∧
  should_fire (MAX_BATCH_OPS + 5) 0 100 = true ∧ should_fire 10 (MAX_BATCH_PAYLOAD_BYTES - 100) 100 = false ∧
  should_fire 10 (MAX_BATCH_PAYLOAD_BYTES - 100) 101 = true ∧ should_fire 10 MAX_BATCH_PAYLOAD_BYTES 1 = true.
Proof. by vm_compute. Qed.

Definition encoded (op_ : bytes) (data : option bytes) (encode_empty_ : bool) : option bytes :=
  op_d (encode_pending (H := std_base64) (mk_pending op_ (Some (bs "sid-1")) None None data encode_empty_ None None)).

Example encode_pending_tests :
  encoded (bs "data") (Some (bs "hello")) false = Some (bs "aGVsbG8=") ∧
  encoded (bs "data") None false = None ∧ encoded (bs "udp_data") None false = None ∧ encoded (bs "close") None false = None ∧
  encoded (bs "connect_data") (Some []) true = Some [] ∧
  encoded (bs "connect_data") (Some [x16; x03; x01]) true = Some (bs "FgMB").
Proof. by vm_compute. Qed.

Example preread_counters_track_each_outcome :
  record_preread_skip_unsupported (record_preread_skip_port (record_preread_loss
    (record_preread_win 1500 (record_preread_win 3500 (mk_prereads 0 0 0 0 0 0))))) = mk_prereads 2 1 1 1 5000 5.
Proof. by vm_compute. Qed.

Definition make_tracker (start_slow : bool) : RttTracker :=
  if start_slow then new_tracker true COALESCE_SLOW_STEP_MS COALESCE_SLOW_MAX_MS
  else new_tracker false COALESCE_FAST_STEP_MS COALESCE_FAST_MAX_MS.

Definition readings (n : nat) (ms : Z) (t : RttTracker) : RttTracker := Nat.iter n (record ms) t.

Example rtt_tracker_preset_selection_slow :
  let t := readings 9 (RTT_SLOW_THRESHOLD_MS + 100) (make_tracker false) in
  slow t = true ∧ coalesce_step_ms t = COALESCE_SLOW_STEP_MS ∧ coalesce_max_ms t = COALESCE_SLOW_MAX_MS.
Proof. by vm_compute. Qed.

Example rtt_tracker_preset_selection_fast :
  let t1 := readings 8 (RTT_FAST_THRESHOLD_MS - 100) (make_tracker true) in
  let t2 := readings 3 (RTT_FAST_THRESHOLD_MS - 100) t1 in
  slow t1 = true ∧ slow t2 = false ∧ coalesce_step_ms t2 = COALESCE_FAST_STEP_MS ∧ coalesce_max_ms t2 = COALESCE_FAST_MAX_MS.
Proof. by vm_compute. Qed.

Example rtt_tracker_hysteresis_prevents_premature_flip :
  let t1 := readings 8 (RTT_SLOW_THRESHOLD_MS + 100) (make_tracker true) in
  let t2 := readings 8 (RTT_FAST_THRESHOLD_MS - 100) t1 in
  let t3 := if slow t2 then readings 3 (RTT_FAST_THRESHOLD_MS - 100) t2 else t2 in
  slow t1 = true ∧ slow t3 = false ∧ slow (record (RTT_SLOW_THRESHOLD_MS + 100) t3) = false.
Proof. by vm_compute. Qed.

(** ** src/tunnel-node/src/udpgw.rs *)

Definition parses_back (f : Frame) : Prop := try_parse_frame (serialise_frame f) = Ok (Some (f, len (serialise_frame f))).

Example frame_round_trips :
  parses_back (mkFrame FLAG_KEEPALIVE 42 None []) ∧
  parses_back (mkFrame FLAG_DATA 7 (Some (V4 x08 x08 x08 x08 53)) [x01; x02; x03; x04]) ∧
  parses_back (mkFrame FLAG_DATA 100 (Some (V6 (replicate 15 x00 ++ [x01]) 443)) (bs "hello")) ∧
  parses_back (mkFrame FLAG_DATA 5 (Some (Domain (bs "example.com") 80)) (bs "GET /")) ∧
  try_parse_frame (serialise_err 99) = Ok (Some (mkFrame FLAG_ERR 99 None [], 5)).
Proof. by vm_compute. Qed.

Example partial_frame_returns_none :
  let bytes := serialise_frame (mkFrame FLAG_KEEPALIVE 1 None []) in
  try_parse_frame (take (length bytes / 2) bytes) = Ok None.
Proof. by vm_compute. Qed.

Example two_frames_in_buffer :
  let f1 := mkFrame FLAG_KEEPALIVE 1 None [] in
  let f2 := mkFrame FLAG_KEEPALIVE 2 None [] in
  let buf := serialise_frame f1 ++ serialise_frame f2 in
  try_parse_frame buf = Ok (Some (f1, 5)) ∧ try_parse_frame (drop 5 buf) = Ok (Some (f2, 5)).
Proof. by vm_compute. Qed.

Example is_udpgw_dest_works :
  map (λ '(h, p), is_udpgw_dest h p)
    [(bs "192.0.2.1", 7300); (bs "198.18.0.1", 7300); (bs "192.0.2.1", 80); (bs "198.18.0.1", 80); (bs "8.8.8.8", 7300)] =
  [true; true; false; false; false].
Proof. by vm_compute. Qed.
