(* ===== verification/ConformanceHost.v ===== *)
(** The unit tests around the host (src/src/cert_installer.rs,
    src/src/update_check.rs, src/src/scan_sni.rs, src/src/lan_utils.rs,
    [mod tests]), evaluated on the model with the tests' inputs and expected
    values. *)

From Stdlib Require Import Strings.Byte.
From S2P Require Import Prelude RustBytes RustText HostSystem ScanSni Update UserJs CertInstall Main.

(** Lines with their newlines, and a text in double quotes. *)
Definition lines (ls : list bytes) : bytes := concat (map (λ l, l ++ [x0a]) ls).
Definition qq (s : String.string) : bytes := [x22] ++ bs s ++ [x22].

(** ** src/src/cert_installer.rs: the distribution *)

Example os_releases_classified :
  classify_os_release (lines [[]; bs "NAME=" ++ qq "OpenWrt"; bs "VERSION=" ++ qq "23.05.3"; bs "ID=" ++ qq "openwrt";
    bs "ID_LIKE=" ++ qq "lede openwrt"; bs "OPENWRT_BOARD=" ++ qq "x86/64"; bs "OPENWRT_ARCH=" ++ qq "x86_64"]) = bs "openwrt" ∧
  classify_os_release (lines [[]; bs "PRETTY_NAME=" ++ qq "Debian GNU/Linux 11 (bullseye)"; bs "NAME=" ++ qq "Debian GNU/Linux";
    bs "VERSION_CODENAME=bullseye"; bs "ID=debian"]) = bs "debian" ∧
  classify_os_release (lines [[]; bs "NAME=" ++ qq "Ubuntu"; bs "ID=ubuntu"; bs "ID_LIKE=debian"]) = bs "debian" ∧
  classify_os_release (lines [bs "ID=fedora"; bs "VERSION_ID=39"]) = bs "rhel" ∧
  classify_os_release (lines [bs "ID=arch"; bs "ID_LIKE="]) = bs "arch" ∧
  classify_os_release (lines [bs "ID=manjaro"; bs "ID_LIKE=arch"]) = bs "arch" ∧
  classify_os_release [] = bs "unknown" ∧
  classify_os_release (lines [bs "SOMEFIELD=maybearchived"; bs "FOO=bar"]) = bs "unknown".
Proof. by vm_compute. Qed.

(** ** The Firefox preferences *)

Definition user_pref (name : String.string) (value : bytes) : bytes := bs "user_pref(" ++ qq name ++ bs ", " ++ value ++ bs ");".
Definition roots_pref (value : String.string) : bytes := user_pref "security.enterprise_roots.enabled" (bs value).
Definition pref_a : bytes := user_pref "a" (bs "1").
Definition pref_b : bytes := user_pref "b" (bs "2").
Definition block_file : bytes := lines [pref_a; FX_MARKER; FX_PREF; pref_b].

Example enterprise_roots_block_added :
  add_enterprise_roots_block [] = AddedBlock (lines [FX_MARKER; FX_PREF]) ∧
  add_enterprise_roots_block (lines [pref_a]) = AddedBlock (lines [pref_a; FX_MARKER; FX_PREF]) ∧
  add_enterprise_roots_block block_file = AlreadyOurs ∧
  add_enterprise_roots_block (lines [roots_pref "true"]) = UserOwned ∧
  add_enterprise_roots_block (lines [roots_pref "false"]) = UserOwned.
Proof. by vm_compute. Qed.

Example enterprise_roots_block_stripped :
  strip_enterprise_roots_block block_file = Some (lines [pref_a; pref_b]) ∧
  strip_enterprise_roots_block (lines [roots_pref "true"]) = None ∧
  strip_enterprise_roots_block (lines [FX_MARKER; user_pref "unrelated" (bs "1"); roots_pref "true"]) = None ∧
  strip_enterprise_roots_block (lines [roots_pref "false"]) = None ∧
  strip_enterprise_roots_block (lines [pref_a; pref_b]) = None ∧
  strip_enterprise_roots_block (lines [FX_MARKER; FX_PREF]) = Some [].
Proof. by vm_compute. Qed.

Example bare_enterprise_roots_detected :
  map has_bare_enterprise_roots
    [lines [roots_pref "true"]; lines [FX_MARKER; FX_PREF]; lines [pref_a]; lines [roots_pref "false"]] =
  [true; false; false; false].
Proof. by vm_compute. Qed.

(** ** sudo *)

Example reconcile_decisions :
  map (λ '(euid, user), should_reconcile_for euid user)
    [(1000, Some (bs "alice")); (1000, None); (0, None); (0, Some []); (0, Some (bs "root")); (0, Some (bs "alice"))] =
  [None; None; None; None; None; Some (bs "alice")].
Proof. by vm_compute. Qed.

Example passwd_entries :
  sudo_parse_passwd_home (lines [bs "liyon:x:1000:1000:Liyon,,,:/home/liyon:/bin/bash"]) = Some (bs "/home/liyon") ∧
  sudo_parse_passwd_home (bs "liyon:*:501:20::0:0:Liyon Bonakdar:/Users/liyon:/bin/zsh") ≠ Some (bs "/Users/liyon") ∧
  sudo_parse_passwd_home (lines [bs "liyon:x:1000:1000"]) = None ∧
  sudo_parse_passwd_home (lines [bs "svcacct:x:999:999:gecos::/bin/false"]) = None ∧
  sudo_parse_passwd_home (lines [bs "liyon:x:1000:1000::/home/liyon:/bin/bash"; bs "other:x:1001:1001::/home/other:/bin/bash"]) =
    Some (bs "/home/liyon").
Proof. vm_compute. by split_and!. Qed.

(** ** NSS *)

Example nss_reports_clean :
  map is_clean [mk_nss 0 0 false; mk_nss 3 3 false; mk_nss 3 2 false; mk_nss 0 0 true] = [true; true; false; false].
Proof. by vm_compute. Qed.

Example nss_not_found_classified :
  map is_nss_not_found
    [lines [bs "certutil: Could not find cert: MasterHttpRelayVPN"];
     lines [bs "certutil: could not find a certificate named 'MasterHttpRelayVPN'"];
     lines [bs "certutil: function failed: SEC_ERROR_LOCKED_DATABASE: the certificate/key database is locked."];
     lines [bs "certutil: function failed: SEC_ERROR_BAD_DATABASE: security library: bad database."];
     lines [bs "certutil: unable to open " ++ qq "sql:/home/x/.mozilla/firefox/profile" ++ bs " (Permission denied)"]; []] =
  [true; true; false; false; false; false].
Proof. by vm_compute. Qed.

Definition all_in (wanted found : list bytes) : bool := forallb (λ w, bool_decide (w ∈ found)) wanted.

Example mozilla_roots_linux :
  all_in [bs "/home/u/.mozilla/firefox"; bs "/home/u/snap/firefox/common/.mozilla/firefox"; bs "/home/u/.librewolf";
          bs "/home/u/.config/librewolf/librewolf"; bs "/home/u/.var/app/io.gitlab.librewolf-community/.librewolf";
          bs "/home/u/.var/app/io.gitlab.librewolf-community/.config/librewolf/librewolf"; bs "/home/u/.mozilla/icecat"]
    (mozilla_family_profile_roots (bs "linux") (bs "/home/u") None None) = true ∧
  (let xdg := mozilla_family_profile_roots (bs "linux") (bs "/home/u") None (Some (bs "/srv/xdg")) in
   all_in [bs "/srv/xdg/librewolf/librewolf"] xdg = true ∧ all_in [bs "/home/u/.config/librewolf/librewolf"] xdg = false) ∧
  all_in [bs "/home/u/.config/librewolf/librewolf"]
    (mozilla_family_profile_roots (bs "linux") (bs "/home/u") None (Some [])) = true.
Proof. by vm_compute. Qed.

Example mozilla_roots_elsewhere :
  all_in [bs "/Users/u/Library/Application Support/Firefox/Profiles"; bs "/Users/u/Library/Application Support/LibreWolf/Profiles"]
    (mozilla_family_profile_roots (bs "macos") (bs "/Users/u") None None) = true ∧
  all_in [bs "C:\Users\u\AppData\Roaming\Mozilla\Firefox\Profiles"; bs "C:\Users\u\AppData\Roaming\LibreWolf\Profiles"]
    (mozilla_family_profile_roots (bs "windows") (bs "ignored") (Some (bs "C:\Users\u\AppData\Roaming")) None) = true ∧
  mozilla_family_profile_roots (bs "windows") (bs "ignored") None None = [] ∧
  mozilla_family_profile_roots (bs "freebsd") (bs "/home/u") None None = [].
Proof. by vm_compute. Qed.

(** ** src/src/update_check.rs *)

Example is_newer_basic :
  map (λ '(a, b), is_newer a b)
    [(bs "0.8.6", bs "0.8.5"); (bs "0.9.0", bs "0.8.99"); (bs "1.0.0", bs "0.99.99"); (bs "0.8.5", bs "0.8.5");
     (bs "0.8.4", bs "0.8.5"); (bs "1.2.3.4", bs "1.2.3"); (bs "1.2.3", bs "1.2.3.0")] =
  [true; true; true; false; false; true; false].
Proof. by vm_compute. Qed.

(** ** src/src/scan_sni.rs *)

Definition crlf (ls : list bytes) : bytes := concat (map (λ l, l ++ [x0d; x0a]) ls).
Definition status_json : bytes := bs "{" ++ qq "Status" ++ bs ":0}".

Example http_bodies_parsed :
  parse_http_response_body (crlf [bs "HTTP/1.1 200 OK"; bs "Transfer-Encoding: chunked"; bs "Content-Type: application/json"; [];
    bs "5"; take 5 status_json; bs "7"; drop 5 status_json; bs "0"; []]) = DOk status_json ∧
  parse_http_response_body (crlf [bs "HTTP/1.1 200 OK"; bs "Content-Length: 12"; []] ++ status_json) = DOk status_json.
Proof. by vm_compute. Qed.

Example only_public_google_hostnames_are_scan_sni_candidates :
  map is_public_google_sni_candidate
    [bs "www.google.com"; bs "fonts.googleapis.com"; bs "ams15s21-in-f14.1e100.net"; bs "82.221.107.34.bc.googleusercontent.com"] =
  [true; true; false; false].
Proof. by vm_compute. Qed.

(** ** src/src/lan_utils.rs *)

Example share_on_lan_recognizes_wildcards :
  map is_share_on_lan [bs "0.0.0.0"; bs " 0.0.0.0 "; bs "[::]"; bs "::"; bs "127.0.0.1"; bs "192.168.1.42"; []] =
  [true; true; true; true; false; false; false].
Proof. by vm_compute. Qed.

Example loopback_only_recognizes_local_names :
  map is_loopback_only [bs "127.0.0.1"; bs "localhost"; bs "LocalHost"; bs "::1"; bs "[::1]"; bs "0.0.0.0"; bs "192.168.1.42"] =
  [true; true; true; true; true; false; false].
Proof. by vm_compute. Qed.
